(** * TSCN parser / serializer of godot-mcp: a shallow embedding

    The source is [TscnParser] (packages/godot-mcp/src/parsers/tscn-parser),
    a class of static functions over JavaScript strings, numbers, arrays and
    plain objects.  The embedding follows the source function by function.

    Conventions of the model:
    - a JavaScript string is a list of code units; the model keeps the code
      units below 256 ([ascii]);
    - a JavaScript number is an exact decimal [m * 10^(-e)], [NaN] or an
      infinity: binary64 rounding is not modelled, and the theorems that
      quantify over numbers restrict them to [safe_number], the range where
      [String], [parseInt] and [parseFloat] are exact in binary64 too;
      equality of numbers is SameValueZero ([-0] is [0], [NaN] is [NaN]);
    - a JavaScript object is the list of its own enumerable properties in
      enumeration order; an absent property reads as [VUndef];
    - [undefined] fields of the records are [None]. *)

From Stdlib Require Import List Ascii ZArith NArith Lia Bool Arith.
From Stdlib Require Decimal DecimalN.
Import ListNotations.

Set Implicit Arguments.

(* ================================================================== *)
(** * Strings *)
(* ================================================================== *)

Definition str := list ascii.

Inductive str_literal := LitNil | LitCons (c : ascii) (l : str_literal).

Fixpoint str_literal_of_bytes (l : list Byte.byte) : str_literal :=
  match l with
  | [] => LitNil
  | b :: r => LitCons (ascii_of_byte b) (str_literal_of_bytes r)
  end.

Fixpoint bytes_of_str_literal (l : str_literal) : list Byte.byte :=
  match l with
  | LitNil => []
  | LitCons a r => byte_of_ascii a :: bytes_of_str_literal r
  end.

Declare Scope str_scope.
Delimit Scope str_scope with str.
#[warnings="-via-type-mismatch,-via-type-remapping"]
String Notation str str_literal_of_bytes bytes_of_str_literal
  (via str_literal mapping [[nil] => LitNil, [cons] => LitCons]) : str_scope.
Open Scope str_scope.
Open Scope list_scope.

Definition ch_eqb (a b : ascii) : bool := Ascii.eqb a b.

Fixpoint str_eqb (a b : str) : bool :=
  match a, b with
  | [], [] => true
  | x :: a', y :: b' => ch_eqb x y && str_eqb a' b'
  | _, _ => false
  end.

(** Code units that [String.prototype.trim] strips and the regular
    expression class [\s] matches (those below 256). *)
Definition is_ws (c : ascii) : bool :=
  let n := nat_of_ascii c in
  ((9 <=? n) && (n <=? 13)) || (n =? 32) || (n =? 160).

Definition is_digit (c : ascii) : bool :=
  let n := nat_of_ascii c in (48 <=? n) && (n <=? 57).

(** The regular expression class [\w]: [A-Za-z0-9_]. *)
Definition is_word (c : ascii) : bool :=
  let n := nat_of_ascii c in
  ((65 <=? n) && (n <=? 90)) || ((97 <=? n) && (n <=? 122))
  || is_digit c || (n =? 95).

Definition is_empty (s : str) : bool :=
  match s with [] => true | _ => false end.

Fixpoint trimStart (s : str) : str :=
  match s with
  | c :: r => if is_ws c then trimStart r else s
  | [] => []
  end.

Fixpoint trimEnd (s : str) : str :=
  match s with
  | [] => []
  | c :: r =>
      match trimEnd r with
      | [] => if is_ws c then [] else [c]
      | r' => c :: r'
      end
  end.

(** [s.trim()] *)
Definition trim (s : str) : str := trimEnd (trimStart s).

(** [s.startsWith(p)] *)
Fixpoint startsWith (p s : str) : bool :=
  match p, s with
  | [], _ => true
  | x :: p', y :: s' => ch_eqb x y && startsWith p' s'
  | _ :: _, [] => false
  end.

(** [s.endsWith(c)] for a one-character [c]. *)
Definition endsWith (c : ascii) (s : str) : bool :=
  match rev s with
  | x :: _ => ch_eqb x c
  | [] => false
  end.

(** [s.slice(a, -1)] *)
Definition slice_to_last (a : nat) (s : str) : str :=
  firstn (length s - 1 - a) (skipn a s).

(** [s.indexOf(c)] for a one-character [c]; [None] is [-1]. *)
Fixpoint indexOf (c : ascii) (s : str) : option nat :=
  match s with
  | [] => None
  | x :: r =>
      if ch_eqb x c then Some 0
      else match indexOf c r with Some i => Some (S i) | None => None end
  end.

(** [s.split(c)] for a one-character separator [c]. *)
Fixpoint split (c : ascii) (s : str) : list str :=
  match s with
  | [] => [[]]
  | x :: r =>
      if ch_eqb x c then [] :: split c r
      else match split c r with
           | cur :: rest => (x :: cur) :: rest
           | [] => [[x]]
           end
  end.

(** [parts.join(sep)] *)
Fixpoint join (sep : str) (parts : list str) : str :=
  match parts with
  | [] => []
  | [p] => p
  | p :: rest => p ++ sep ++ join sep rest
  end.

(** [s.replace(/c/g, by)] for a one-character pattern. *)
Fixpoint replace_char (c : ascii) (by_ : str) (s : str) : str :=
  match s with
  | [] => []
  | x :: r => if ch_eqb x c then by_ ++ replace_char c by_ r
              else x :: replace_char c by_ r
  end.

(** [s.replace(/ab/g, by)] for a two-character pattern whose characters
    are [a] then [b]: leftmost, non-overlapping matches. *)
Fixpoint replace_pair (a b : ascii) (by_ : str) (s : str) : str :=
  match s with
  | [] => []
  | x :: r =>
      match r with
      | y :: r' =>
          if ch_eqb x a && ch_eqb y b
          then by_ ++ replace_pair a b by_ r'
          else x :: replace_pair a b by_ r
      | [] => [x]
      end
  end.

Definition dquote : ascii := "034".
Definition backslash : ascii := "\".
Definition newline : ascii := "010".

(** The longest prefix whose characters satisfy [p], and the rest. *)
Fixpoint span (p : ascii -> bool) (s : str) : str * str :=
  match s with
  | c :: r => if p c then let (a, b) := span p r in (c :: a, b) else ([], s)
  | [] => ([], [])
  end.

Fixpoint dropWhileEnd (p : ascii -> bool) (s : str) : str :=
  match s with
  | [] => []
  | c :: r =>
      match dropWhileEnd p r with
      | [] => if p c then [] else [c]
      | r' => c :: r'
      end
  end.

(* ================================================================== *)
(** * Numbers *)
(* ================================================================== *)

(** [Finite m e] is the number [m * 10^(-e)]; the parsers produce it in
    normal form: [e = 0], or the last digit of [m] is not zero. *)
Inductive number :=
| NaN
| Infinity (negative : bool)
| Finite (m : Z) (e : nat).

Fixpoint uint_chars (u : Decimal.uint) : str :=
  match u with
  | Decimal.Nil => []
  | Decimal.D0 u => "0"%char :: uint_chars u
  | Decimal.D1 u => "1"%char :: uint_chars u
  | Decimal.D2 u => "2"%char :: uint_chars u
  | Decimal.D3 u => "3"%char :: uint_chars u
  | Decimal.D4 u => "4"%char :: uint_chars u
  | Decimal.D5 u => "5"%char :: uint_chars u
  | Decimal.D6 u => "6"%char :: uint_chars u
  | Decimal.D7 u => "7"%char :: uint_chars u
  | Decimal.D8 u => "8"%char :: uint_chars u
  | Decimal.D9 u => "9"%char :: uint_chars u
  end.

Fixpoint uint_of_digits (s : str) : Decimal.uint :=
  match s with
  | [] => Decimal.Nil
  | c :: r =>
      let u := uint_of_digits r in
      match nat_of_ascii c - 48 with
      | 0 => Decimal.D0 u
      | 1 => Decimal.D1 u
      | 2 => Decimal.D2 u
      | 3 => Decimal.D3 u
      | 4 => Decimal.D4 u
      | 5 => Decimal.D5 u
      | 6 => Decimal.D6 u
      | 7 => Decimal.D7 u
      | 8 => Decimal.D8 u
      | _ => Decimal.D9 u
      end
  end.

(** Decimal digits of a natural number, most significant first. *)
Definition digits_of_N (n : N) : str := uint_chars (N.to_uint n).

(** The value of a string of decimal digits. *)
Definition N_of_digits (s : str) : N := N.of_uint (uint_of_digits s).

Definition signed (negative : bool) (z : Z) : Z :=
  if negative then (- z)%Z else z.

Definition read_sign (s : str) : bool * str :=
  match s with
  | c :: r => if ch_eqb c "-" then (true, r)
              else if ch_eqb c "+" then (false, r)
              else (false, s)
  | [] => (false, [])
  end.

(** [parseInt(s, 10)] *)
Definition parseInt (s : str) : number :=
  let (neg, r) := read_sign (trimStart s) in
  let (ds, _) := span is_digit r in
  if is_empty ds then NaN
  else Finite (signed neg (Z.of_N (N_of_digits ds))) 0.

(** Normal form of a decimal fraction: the trailing zeros among the [e]
    fractional digits are dropped ([rds] is the digit string reversed). *)
Fixpoint strip_fraction_zeros (rds : str) (e : nat) : str * nat :=
  match e, rds with
  | S e', c :: r => if ch_eqb c "0" then strip_fraction_zeros r e' else (rds, e)
  | _, _ => (rds, e)
  end.

(** The number [(-1)^neg * ds * 10^e10] for a digit string [ds]. *)
Definition decimal_value (neg : bool) (ds : str) (e10 : Z) : number :=
  if (0 <=? e10)%Z then
    Finite (signed neg (Z.of_N (N_of_digits ds) * 10 ^ e10)) 0
  else
    let (rds, e) := strip_fraction_zeros (rev ds) (Z.to_nat (- e10)) in
    Finite (signed neg (Z.of_N (N_of_digits (rev rds)))) e.

(** [parseFloat(s)]: the longest prefix of [s] that is a
    StrDecimalLiteral. *)
Definition parseFloat (s : str) : number :=
  let (neg, r) := read_sign (trimStart s) in
  if startsWith "Infinity" r then Infinity neg
  else
    let (d1, r1) := span is_digit r in
    let (d2, r2) :=
      match r1 with
      | c :: r' => if ch_eqb c "." then span is_digit r' else ([], r1)
      | [] => ([], r1)
      end in
    if is_empty d1 && is_empty d2 then NaN
    else
      let ex :=
        match r2 with
        | c :: r3 =>
            if ch_eqb c "e" || ch_eqb c "E" then
              let (eneg, r4) := read_sign r3 in
              let (de, _) := span is_digit r4 in
              if is_empty de then 0%Z
              else signed eneg (Z.of_N (N_of_digits de))
            else 0%Z
        | [] => 0%Z
        end in
      decimal_value neg (d1 ++ d2) (ex - Z.of_nat (length d2)).

(** [String(x)] for a number (Number::toString, radix 10). *)
Definition num_to_string (x : number) : str :=
  match x with
  | NaN => "NaN"
  | Infinity neg => if neg then "-Infinity" else "Infinity"
  | Finite m e =>
      if (m =? 0)%Z then "0"
      else
        let ds := digits_of_N (Z.abs_N m) in
        let s := dropWhileEnd (fun c => ch_eqb c "0") ds in
        let k := Z.of_nat (length s) in
        let n := (Z.of_nat (length ds) - Z.of_nat e)%Z in
        (if (m <? 0)%Z then "-" else []) ++
        (if (k <=? n)%Z && (n <=? 21)%Z then
           s ++ repeat "0"%char (Z.to_nat (n - k))
         else if (0 <? n)%Z && (n <=? 21)%Z then
           firstn (Z.to_nat n) s ++ "." ++ skipn (Z.to_nat n) s
         else if (-6 <? n)%Z && (n <=? 0)%Z then
           "0." ++ repeat "0"%char (Z.to_nat (- n)) ++ s
         else
           let es := (if (n - 1 <? 0)%Z then "-" else "+")
                     ++ digits_of_N (Z.abs_N (n - 1)) in
           match s with
           | [d] => [d] ++ "e" ++ es
           | d :: ds' => [d] ++ "." ++ ds' ++ "e" ++ es
           | [] => []
           end)
  end.

(** Truthiness of a number: [if (x)]. *)
Definition num_truthy (x : number) : bool :=
  match x with
  | NaN => false
  | Infinity _ => true
  | Finite m _ => negb (m =? 0)%Z
  end.

(** Numbers on which the exact-decimal model and binary64 agree: normal
    form (no trailing zero among the fractional digits), at most 15
    digits, printed without an exponent. *)
Definition safe_number (x : number) : bool :=
  match x with
  | Finite m e =>
      let ds := digits_of_N (Z.abs_N m) in
      ((e =? 0) || negb (endsWith "0" ds))
      && (length ds <=? 15)
      && (e <? length ds + 6)
  | _ => false
  end.

(* ================================================================== *)
(** * Values *)
(* ================================================================== *)

(** The values stored in property maps: [unknown] in the TypeScript
    source.  [VObj] lists the own properties in enumeration order. *)
#[warnings="-register-all"]
Inductive value :=
| VUndef
| VNull
| VBool (b : bool)
| VNum (n : number)
| VStr (s : str)
| VArr (items : list value)
| VObj (props : list (str * value)).

Definition object := list (str * value).

(** [obj.k] / [obj[k]]: an absent property reads as [undefined]. *)
Fixpoint obj_get (k : str) (o : object) : value :=
  match o with
  | [] => VUndef
  | (k', v) :: r => if str_eqb k' k then v else obj_get k r
  end.

(** [k in obj] on own properties. *)
Fixpoint obj_has (k : str) (o : object) : bool :=
  match o with
  | [] => false
  | (k', _) :: r => str_eqb k' k || obj_has k r
  end.

(** Property keys that are array indices (canonical numeric strings
    below [2^32 - 1]): objects enumerate them first, in numeric order. *)
Definition is_array_index (k : str) : bool :=
  negb (is_empty k) && forallb is_digit k
  && str_eqb (digits_of_N (N_of_digits k)) k
  && (N_of_digits k <? 4294967295)%N.

Fixpoint obj_replace (k : str) (v : value) (o : object) : object :=
  match o with
  | [] => []
  | (k', v') :: r =>
      if str_eqb k' k then (k', v) :: r else (k', v') :: obj_replace k v r
  end.

Fixpoint obj_insert_index (k : str) (v : value) (o : object) : object :=
  match o with
  | [] => [(k, v)]
  | (k', v') :: r =>
      if is_array_index k' && (N_of_digits k' <? N_of_digits k)%N
      then (k', v') :: obj_insert_index k v r
      else (k, v) :: o
  end.

(** [obj[k] = v] on a plain object: the own properties after the
    assignment.  An existing key keeps its place; a new array-index key
    goes among the index keys, any other new key goes last.  Assigning
    [__proto__] reaches the setter of [Object.prototype] and creates no
    own property: a string, a number or a boolean is ignored, an object
    or [null] becomes the prototype of [obj].  The prototype is not part
    of the model, so the model agrees with the source as long as no
    object or [null] is assigned to [__proto__]; the statements that
    depend on the prototype are about texts without [__proto__]
    ([prototype_free]), in which no property line and no dictionary
    entry has that key. *)
Definition obj_set (k : str) (v : value) (o : object) : object :=
  if str_eqb k "__proto__" then o
  else if obj_has k o then obj_replace k v o
  else if is_array_index k then obj_insert_index k v o
  else o ++ [(k, v)].

(** [typeof v === 'number'] *)
Definition is_number (v : value) : bool :=
  match v with VNum _ => true | _ => false end.

(** [v === s] for a string constant [s]. *)
Definition is_string (s : str) (v : value) : bool :=
  match v with VStr t => str_eqb t s | _ => false end.

(** [String(v)], which is also what a template literal does to [v]:
    whether the conversion raises, and the text when it does not.

    The conversion of an object looks up [toString]: an own property
    with that name is not callable (no value of the model is a function)
    and hides [Object.prototype.toString]; [valueOf] then gives no
    primitive either, and the conversion raises a TypeError.  The
    conversion of an array joins the conversions of its elements. *)
Fixpoint js_String_raises (v : value) : bool :=
  match v with
  | VArr items => existsb js_String_raises items
  | VObj obj => obj_has "toString" obj
  | _ => false
  end.

(** The text of [String(v)], when [js_String_raises v] is false. *)
Fixpoint js_String (v : value) : str :=
  match v with
  | VUndef => "undefined"
  | VNull => "null"
  | VBool b => if b then "true" else "false"
  | VNum n => num_to_string n
  | VStr s => s
  | VArr items =>
      join "," (map (fun x => match x with
                              | VUndef | VNull => []
                              | _ => js_String x
                              end) items)
  | VObj _ => "[object Object]"
  end.

(** The regular expression [/^name\s*\(/]. *)
Fixpoint matches_constructor (name : str) (s : str) : bool :=
  match name with
  | [] => match trimStart s with
          | c :: _ => ch_eqb c "("
          | [] => false
          end
  | x :: name' =>
      match s with
      | y :: s' => ch_eqb x y && matches_constructor name' s'
      | [] => false
      end
  end.

Definition isGodotValueString (s : str) : bool :=
  existsb (fun name => matches_constructor name s)
    ["ExtResource"; "SubResource"; "Vector2"; "Vector3"; "Color";
     "NodePath"; "Rect2"; "Transform2D"; "Transform3D"; "Basis";
     "Quaternion"; "AABB"; "Plane"].

(** The two replacements of the string branch of [serializeValue]:
    every backslash is doubled, then every double quote gets a backslash. *)
Definition escape (s : str) : str :=
  replace_char dquote [backslash; dquote]
    (replace_char backslash [backslash; backslash] s).

(** The two replacements of the string branch of [parseValue]: every
    backslash-quote pair becomes a quote, then every pair of backslashes
    becomes one. *)
Definition unescape (s : str) : str :=
  replace_pair backslash backslash [backslash]
    (replace_pair backslash dquote [dquote] s).

Definition quote (s : str) : str := dquote :: s ++ [dquote].

(** The string branch of [serializeValue]. *)
Definition serializeString (s : str) : str :=
  if isGodotValueString s then s else quote (escape s).

(** [TscnParser.serializeValue].  The objects of the model are plain
    objects, with the prototype that an object literal has: [obj.k] and
    [k in obj] read the own properties ([Object.prototype] has none of
    the names that are read here). *)
Fixpoint serializeValue (v : value) : str :=
  match v with
  | VNull => "null"
  | VBool b => if b then "true" else "false"
  | VNum n => num_to_string n
  | VStr s => serializeString s
  | VArr items => "[" ++ join ", " (map serializeValue items) ++ "]"
  | VObj obj =>
      let get k := js_String (obj_get k obj) in
      let num k := is_number (obj_get k obj) in
      if is_string "Vector2" (obj_get "_type" obj) then
        "Vector2(" ++ get "x" ++ ", " ++ get "y" ++ ")"
      else if is_string "Vector3" (obj_get "_type" obj) then
        "Vector3(" ++ get "x" ++ ", " ++ get "y" ++ ", " ++ get "z" ++ ")"
      else if is_string "Color" (obj_get "_type" obj) then
        "Color(" ++ get "r" ++ ", " ++ get "g" ++ ", " ++ get "b" ++ ", "
        ++ get "a" ++ ")"
      else if is_string "ExtResource" (obj_get "_type" obj) then
        "ExtResource(" ++ quote (get "id") ++ ")"
      else if is_string "SubResource" (obj_get "_type" obj) then
        "SubResource(" ++ quote (get "id") ++ ")"
      else if is_string "NodePath" (obj_get "_type" obj) then
        "NodePath(" ++ quote (get "path") ++ ")"
      else if (length obj =? 2) && obj_has "x" obj && obj_has "y" obj
              && num "x" && num "y" then
        "Vector2(" ++ get "x" ++ ", " ++ get "y" ++ ")"
      else if (length obj =? 3) && obj_has "x" obj && obj_has "y" obj
              && obj_has "z" obj && num "x" && num "y" && num "z" then
        "Vector3(" ++ get "x" ++ ", " ++ get "y" ++ ", " ++ get "z" ++ ")"
      else if obj_has "r" obj && obj_has "g" obj && obj_has "b" obj
              && num "r" && num "g" && num "b" then
        let a := if num "a" then get "a" else "1" in
        "Color(" ++ get "r" ++ ", " ++ get "g" ++ ", " ++ get "b" ++ ", "
        ++ a ++ ")"
      else
        (* Object.entries(obj).filter(k not starting with _).map(...) *)
        let pairs :=
          (fix entries (o : object) : list str :=
             match o with
             | [] => []
             | (k, x) :: r =>
                 if startsWith "_" k then entries r
                 else (serializeString k ++ ": " ++ serializeValue x)
                      :: entries r
             end) obj in
        "{" ++ join ", " pairs ++ "}"
  | VUndef => "undefined"
  end.

(** Whether [serializeValue] raises: the template literals of the
    records with a [_type] convert the fields, whatever they are, to
    strings.  [serializeValue v] above is the text that is returned when
    [serializeValue_raises v] is false. *)
Fixpoint serializeValue_raises (v : value) : bool :=
  match v with
  | VArr items => existsb serializeValue_raises items
  | VObj obj =>
      let get k := js_String_raises (obj_get k obj) in
      let num k := is_number (obj_get k obj) in
      if is_string "Vector2" (obj_get "_type" obj) then get "x" || get "y"
      else if is_string "Vector3" (obj_get "_type" obj) then
        get "x" || get "y" || get "z"
      else if is_string "Color" (obj_get "_type" obj) then
        get "r" || get "g" || get "b" || get "a"
      else if is_string "ExtResource" (obj_get "_type" obj) then get "id"
      else if is_string "SubResource" (obj_get "_type" obj) then get "id"
      else if is_string "NodePath" (obj_get "_type" obj) then get "path"
      else if (length obj =? 2) && obj_has "x" obj && obj_has "y" obj
              && num "x" && num "y" then false
      else if (length obj =? 3) && obj_has "x" obj && obj_has "y" obj
              && obj_has "z" obj && num "x" && num "y" && num "z" then false
      else if obj_has "r" obj && obj_has "g" obj && obj_has "b" obj
              && num "r" && num "g" && num "b" then false
      else
        (fix entries (o : object) : bool :=
           match o with
           | [] => false
           | (k, x) :: r =>
               if startsWith "_" k then entries r
               else serializeValue_raises x || entries r
           end) obj
  | _ => false
  end.

(* ================================================================== *)
(** * The value grammar: parseValue, parseArray, parseDictionary *)
(* ================================================================== *)

(** The regular expression for integers: an optional minus sign, then
    one or more digits, over the whole string. *)
Definition is_int_literal (s : str) : bool :=
  let r := match s with
           | c :: r => if ch_eqb c "-" then r else s
           | [] => s
           end in
  negb (is_empty r) && forallb is_digit r.

(** The regular expression for decimals: an optional minus sign, digits,
    a dot, digits, over the whole string. *)
Definition is_float_literal (s : str) : bool :=
  let r := match s with
           | c :: r => if ch_eqb c "-" then r else s
           | [] => s
           end in
  let (d1, r1) := span is_digit r in
  match r1 with
  | c :: r2 => ch_eqb c "." && negb (is_empty d1)
               && negb (is_empty r2) && forallb is_digit r2
  | [] => false
  end.

(** [inner.split(",").map((s) => parseFloat(s.trim()))] *)
Definition parse_components (inner : str) : list value :=
  map (fun s => VNum (parseFloat (trim s))) (split "," inner).

(** An element of a destructured array: [undefined] past the end. *)
Definition component (i : nat) (parts : list value) : value :=
  nth i parts VUndef.

(** [a ?? d] *)
Definition nullish_or (a d : value) : value :=
  match a with
  | VUndef | VNull => d
  | _ => a
  end.

Definition is_open (c : ascii) : bool :=
  ch_eqb c "[" || ch_eqb c "{" || ch_eqb c "(".

Definition is_close (c : ascii) : bool :=
  ch_eqb c "]" || ch_eqb c "}" || ch_eqb c ")".

(** [char === quote && inner[i - 1] !== backslash] *)
Definition toggles (prev : option ascii) (char : ascii) : bool :=
  ch_eqb char dquote
  && negb (match prev with Some p => ch_eqb p backslash | None => false end).

Definition tagged (type : str) (fields : object) : value :=
  VObj (("_type", VStr type) :: fields).

Section Grammar.

(** The recursive call [this.parseValue]; [None] stands for a call
    that has not returned. *)
Variable parseValue_rec : str -> option value.

(** The [for] loop of [parseArray] from position [i] on: [inner] is the
    text from [i], [prev] is [inner[i - 1]]. *)
Fixpoint parseArray_loop (inner : str) (prev : option ascii) (depth : Z)
    (current : str) (inString : bool) (result : list value)
    : option (list value) :=
  match inner with
  | [] =>
      if negb (is_empty (trim current)) then
        match parseValue_rec (trim current) with
        | Some v => Some (result ++ [v])
        | None => None
        end
      else Some result
  | char :: rest =>
      let inString := if toggles prev char then negb inString else inString in
      if negb inString then
        let depth := if is_open char then (depth + 1)%Z else depth in
        let depth := if is_close char then (depth - 1)%Z else depth in
        if ch_eqb char "," && (depth =? 0)%Z then
          match parseValue_rec (trim current) with
          | Some v =>
              parseArray_loop rest (Some char) depth [] inString (result ++ [v])
          | None => None
          end
        else
          parseArray_loop rest (Some char) depth (current ++ [char])
            inString result
      else
        parseArray_loop rest (Some char) depth (current ++ [char])
          inString result
  end.

Definition parseArray_rec (s : str) : option (list value) :=
  let s := trim s in
  if negb (startsWith "[" s) || negb (endsWith "]" s) then Some []
  else
    let inner := trim (slice_to_last 1 s) in
    if is_empty inner then Some []
    else parseArray_loop inner None 0 [] false [].

(** The first loop of [parseDictionary]: the top-level pieces. *)
Fixpoint parseDictionary_loop (inner : str) (prev : option ascii)
    (depth : Z) (current : str) (inString : bool) (pairs : list str)
    : list str :=
  match inner with
  | [] =>
      if negb (is_empty (trim current)) then pairs ++ [trim current]
      else pairs
  | char :: rest =>
      let inString := if toggles prev char then negb inString else inString in
      if negb inString then
        let depth := if is_open char then (depth + 1)%Z else depth in
        let depth := if is_close char then (depth - 1)%Z else depth in
        if ch_eqb char "," && (depth =? 0)%Z then
          parseDictionary_loop rest (Some char) depth [] inString
            (pairs ++ [trim current])
        else
          parseDictionary_loop rest (Some char) depth (current ++ [char])
            inString pairs
      else
        parseDictionary_loop rest (Some char) depth (current ++ [char])
          inString pairs
  end.

(** The second loop of [parseDictionary]: one pair. *)
Definition parseDictionary_pair (result : object) (pair : str)
    : option object :=
  match indexOf ":" pair with
  | Some colonIndex =>
      match parseValue_rec (trim (firstn colonIndex pair)) with
      | Some key =>
          match parseValue_rec (trim (skipn (S colonIndex) pair)) with
          | Some v => Some (obj_set (js_String key) v result)
          | None => None
          end
      | None => None
      end
  | None => Some result
  end.

Fixpoint parseDictionary_pairs (pairs : list str) (result : object)
    : option object :=
  match pairs with
  | [] => Some result
  | p :: rest =>
      match parseDictionary_pair result p with
      | Some result' => parseDictionary_pairs rest result'
      | None => None
      end
  end.

Definition parseDictionary_rec (s : str) : option object :=
  let s := trim s in
  if negb (startsWith "{" s) || negb (endsWith "}" s) then Some []
  else
    let inner := trim (slice_to_last 1 s) in
    if is_empty inner then Some []
    else parseDictionary_pairs
           (parseDictionary_loop inner None 0 [] false []) [].

(** The body of [parseValue]. *)
Definition parseValue_body (s : str) : option value :=
  let s := trim s in
  if str_eqb s "null" then Some VNull
  else if str_eqb s "true" then Some (VBool true)
  else if str_eqb s "false" then Some (VBool false)
  else if startsWith [dquote] s && endsWith dquote s then
    Some (VStr (unescape (slice_to_last 1 s)))
  else if is_int_literal s then Some (VNum (parseInt s))
  else if is_float_literal s then Some (VNum (parseFloat s))
  else if startsWith "Vector2(" s then
    let parts := parse_components (slice_to_last 8 s) in
    Some (tagged "Vector2"
            [("x", component 0 parts); ("y", component 1 parts)])
  else if startsWith "Vector3(" s then
    let parts := parse_components (slice_to_last 8 s) in
    Some (tagged "Vector3"
            [("x", component 0 parts); ("y", component 1 parts);
             ("z", component 2 parts)])
  else if startsWith "Color(" s then
    let parts := parse_components (slice_to_last 6 s) in
    Some (tagged "Color"
            [("r", component 0 parts); ("g", component 1 parts);
             ("b", component 2 parts);
             ("a", nullish_or (component 3 parts) (VNum (Finite 1 0)))])
  else if startsWith "ExtResource(" s then
    Some (tagged "ExtResource"
            [("id", VStr (replace_char dquote [] (slice_to_last 12 s)))])
  else if startsWith "SubResource(" s then
    Some (tagged "SubResource"
            [("id", VStr (replace_char dquote [] (slice_to_last 12 s)))])
  else if startsWith "NodePath(" s then
    Some (tagged "NodePath"
            [("path", VStr (replace_char dquote [] (slice_to_last 9 s)))])
  else if startsWith "[" s then
    option_map VArr (parseArray_rec s)
  else if startsWith "{" s then
    option_map VObj (parseDictionary_rec s)
  else Some (VStr s).

End Grammar.

(** [parseValue] with a bound on the depth of the recursion; [None]
    when the bound is reached. *)
Fixpoint parseValue_fuel (fuel : nat) (s : str) : option value :=
  match fuel with
  | O => None
  | S fuel' => parseValue_body (parseValue_fuel fuel') s
  end.

(** [TscnParser.parseValue]: every recursive call is on a strictly
    shorter string, so the length of the string bounds the depth
    ([parseValue_fuel_enough] below). *)
Definition parseValue (s : str) : value :=
  match parseValue_fuel (S (length s)) s with
  | Some v => v
  | None => VUndef
  end.

(** [TscnParser.parseArray] *)
Definition parseArray (s : str) : list value :=
  match parseArray_rec (parseValue_fuel (S (length s))) s with
  | Some l => l
  | None => []
  end.

(* ================================================================== *)
(** * The document *)
(* ================================================================== *)

(** [SceneHeader.type] is one of two string literals. *)
Inductive header_type := gd_scene | gd_resource.

Definition header_type_str (t : header_type) : str :=
  match t with
  | gd_scene => "gd_scene"
  | gd_resource => "gd_resource"
  end.

Record SceneHeader := {
  hdr_type : header_type;
  hdr_loadSteps : option number;
  hdr_format : number;
  hdr_uid : option str }.

Record ExternalResource := {
  ext_type : str;
  ext_path : str;
  ext_id : str;
  ext_uid : option str }.

Record SubResource := {
  sub_type : str;
  sub_id : str;
  sub_properties : object }.

Record SceneNode := {
  node_name : str;
  node_type : option str;
  node_parent : option str;
  node_instance : option str;
  node_instancePlaceholder : option str;
  node_owner : option str;
  node_index : option number;
  node_groups : option (list value);
  node_properties : object }.

Record SignalConnection := {
  conn_signal : str;
  conn_from : str;
  conn_to : str;
  conn_method : str;
  conn_flags : option number;
  conn_binds : option (list value) }.

Record ParsedScene := {
  header : SceneHeader;
  externalResources : list ExternalResource;
  subResources : list SubResource;
  nodes : list SceneNode;
  connections : list SignalConnection }.

(* ------------------------------------------------------------------ *)
(** ** Attribute lists *)

(** The object [attrs] of [parseAttributes]: the most recent assignment
    first.  It is only ever read at fixed keys. *)
Definition attributes := list (str * str).

(** [attrs.key] *)
Fixpoint attr (key : str) (attrs : attributes) : option str :=
  match attrs with
  | [] => None
  | (k, v) :: r => if str_eqb k key then Some v else attr key r
  end.

(** [attrs.key || ""] *)
Definition attr_or_empty (key : str) (attrs : attributes) : str :=
  match attr key attrs with
  | Some v => v
  | None => []
  end.

(** [attrs.key ? f(attrs.key) : undefined] *)
Definition attr_if_truthy {A} (key : str) (f : str -> A) (attrs : attributes)
    : option A :=
  match attr key attrs with
  | Some v => if is_empty v then None else Some (f v)
  | None => None
  end.

(** One match of the attribute regular expression at the start of [s]:
    a run of word characters, an equals sign, then a quoted string, a
    bracketed array or a bare token, in this order of preference.  The
    result is the key, the captured value and the length of the match. *)
Definition match_attribute (s : str) : option (str * str * nat) :=
  let (key, r1) := span is_word s in
  if is_empty key then None
  else
    match r1 with
    | c :: r2 =>
        if ch_eqb c "=" then
          let bare :=
            let (v, _) := span (fun c => negb (is_ws c || ch_eqb c "]")) r2 in
            if is_empty v then None
            else Some (key, v, length key + 1 + length v) in
          match r2 with
          | o :: r3 =>
              if ch_eqb o dquote then
                let (v, r4) := span (fun c => negb (ch_eqb c dquote)) r3 in
                match r4 with
                | _ :: _ => Some (key, v, length key + 1 + (length v + 2))
                | [] => bare
                end
              else if ch_eqb o "[" then
                let (v, r4) := span (fun c => negb (ch_eqb c "]")) r3 in
                match r4 with
                | _ :: _ => Some (key, "[" ++ v ++ "]",
                                  length key + 1 + (length v + 2))
                | [] => bare
                end
              else bare
          | [] => None
          end
        else None
    | [] => None
    end.

(** The [exec] loop of [parseAttributes]: [skip] characters of [s]
    belong to the previous match. *)
Fixpoint parseAttributes_scan (s : str) (skip : nat) (attrs : attributes)
    : attributes :=
  match s with
  | [] => attrs
  | _ :: r =>
      match skip with
      | S k => parseAttributes_scan r k attrs
      | O =>
          match match_attribute s with
          | Some (key, v, n) => parseAttributes_scan r (n - 1) ((key, v) :: attrs)
          | None => parseAttributes_scan r 0 attrs
          end
      end
  end.

Definition parseAttributes (line : str) : attributes :=
  parseAttributes_scan line 0 [].

(* ------------------------------------------------------------------ *)
(** ** Header, resources, nodes, connections *)

Definition parseHeader (line : str) : SceneHeader :=
  let type := if startsWith "[gd_scene" line then gd_scene else gd_resource in
  let attrs := parseAttributes line in
  {| hdr_type := type;
     hdr_loadSteps := attr_if_truthy "load_steps" parseInt attrs;
     hdr_format := match attr_if_truthy "format" parseInt attrs with
                   | Some n => n
                   | None => Finite 3 0
                   end;
     hdr_uid := attr "uid" attrs |}.

Definition str_truthy (o : option str) : bool :=
  match o with
  | Some s => negb (is_empty s)
  | None => false
  end.

Definition num_opt_truthy (o : option number) : bool :=
  match o with
  | Some n => num_truthy n
  | None => false
  end.

(** A template literal applied to an optional field. *)
Definition show_str (o : option str) : str :=
  match o with
  | Some s => s
  | None => "undefined"
  end.

Definition show_num (o : option number) : str :=
  match o with
  | Some n => num_to_string n
  | None => "undefined"
  end.

Definition serializeHeader (h : SceneHeader) : str :=
  let parts := ["[" ++ header_type_str (hdr_type h)] in
  let parts := if num_opt_truthy (hdr_loadSteps h)
               then parts ++ ["load_steps=" ++ show_num (hdr_loadSteps h)]
               else parts in
  let parts := parts ++ ["format=" ++ num_to_string (hdr_format h)] in
  let parts := if str_truthy (hdr_uid h)
               then parts ++ ["uid=" ++ quote (show_str (hdr_uid h))]
               else parts in
  join " " parts ++ "]".

Definition parseExtResource (line : str) : ExternalResource :=
  let attrs := parseAttributes line in
  {| ext_type := attr_or_empty "type" attrs;
     ext_path := attr_or_empty "path" attrs;
     ext_id := attr_or_empty "id" attrs;
     ext_uid := attr "uid" attrs |}.

Definition serializeExtResource (res : ExternalResource) : str :=
  "[ext_resource type=" ++ quote (ext_type res)
  ++ " path=" ++ quote (ext_path res)
  ++ (if str_truthy (ext_uid res)
      then " uid=" ++ quote (show_str (ext_uid res)) else [])
  ++ " id=" ++ quote (ext_id res) ++ "]".

Definition parseProperty (line : str) : str * value :=
  match indexOf "=" line with
  | None => ([], VNull)
  | Some eqIndex =>
      (trim (firstn eqIndex line), parseValue (trim (skipn (S eqIndex) line)))
  end.

(** The [while] loop shared by [parseSubResource] and [parseNode]: the
    property lines after a block header.  The result is the property map
    and the number of lines consumed ([newIndex - startIndex - 1]). *)
Fixpoint parseProperties (lines : list str) (properties : object)
    : object * nat :=
  match lines with
  | [] => (properties, 0)
  | l :: rest =>
      let line := trim l in
      if is_empty line || startsWith "[" line then (properties, 0)
      else
        let (key, v) := parseProperty line in
        let properties := if negb (is_empty key) then obj_set key v properties
                          else properties in
        let (p, n) := parseProperties rest properties in
        (p, S n)
  end.

(** [parseSubResource(lines, startIndex)]: [first] is
    [lines[startIndex]], [rest] the lines after it. *)
Definition parseSubResource (first : str) (rest : list str)
    : SubResource * nat :=
  let attrs := parseAttributes (trim first) in
  let (props, n) := parseProperties rest [] in
  ({| sub_type := attr_or_empty "type" attrs;
      sub_id := attr_or_empty "id" attrs;
      sub_properties := props |}, n).

Definition property_line (kv : str * value) : str :=
  fst kv ++ " = " ++ serializeValue (snd kv).

Definition serializeSubResource (res : SubResource) : list str :=
  ("[sub_resource type=" ++ quote (sub_type res)
   ++ " id=" ++ quote (sub_id res) ++ "]")
  :: map property_line (sub_properties res).

Definition parseNode (first : str) (rest : list str) : SceneNode * nat :=
  let attrs := parseAttributes (trim first) in
  let (props, n) := parseProperties rest [] in
  ({| node_name := attr_or_empty "name" attrs;
      node_type := attr "type" attrs;
      node_parent := attr "parent" attrs;
      node_instance := attr "instance" attrs;
      node_instancePlaceholder := attr "instance_placeholder" attrs;
      node_owner := attr "owner" attrs;
      node_index := attr_if_truthy "index" parseInt attrs;
      node_groups := attr_if_truthy "groups" parseArray attrs;
      node_properties := props |}, n).

(** [x && x.length > 0] for an optional array. *)
Definition nonempty_array (o : option (list value)) : bool :=
  match o with
  | Some (_ :: _) => true
  | _ => false
  end.

Definition show_array (o : option (list value)) : str :=
  match o with
  | Some l => serializeValue (VArr l)
  | None => "undefined"
  end.

Definition serializeNode (node : SceneNode) : list str :=
  ("[node name=" ++ quote (node_name node)
   ++ (if str_truthy (node_type node)
       then " type=" ++ quote (show_str (node_type node)) else [])
   ++ (match node_parent node with
       | Some p => " parent=" ++ quote p
       | None => []
       end)
   ++ (if str_truthy (node_instance node)
       then " instance=" ++ show_str (node_instance node) else [])
   ++ (if str_truthy (node_instancePlaceholder node)
       then " instance_placeholder="
            ++ quote (show_str (node_instancePlaceholder node)) else [])
   ++ (if str_truthy (node_owner node)
       then " owner=" ++ quote (show_str (node_owner node)) else [])
   ++ (match node_index node with
       | Some i => " index=" ++ num_to_string i
       | None => []
       end)
   ++ (if nonempty_array (node_groups node)
       then " groups=" ++ show_array (node_groups node) else [])
   ++ "]")
  :: map property_line (node_properties node).

Definition parseConnection (line : str) : SignalConnection :=
  let attrs := parseAttributes line in
  {| conn_signal := attr_or_empty "signal" attrs;
     conn_from := attr_or_empty "from" attrs;
     conn_to := attr_or_empty "to" attrs;
     conn_method := attr_or_empty "method" attrs;
     conn_flags := attr_if_truthy "flags" parseInt attrs;
     conn_binds := attr_if_truthy "binds" parseArray attrs |}.

Definition serializeConnection (conn : SignalConnection) : str :=
  "[connection signal=" ++ quote (conn_signal conn)
  ++ " from=" ++ quote (conn_from conn)
  ++ " to=" ++ quote (conn_to conn)
  ++ " method=" ++ quote (conn_method conn)
  ++ (match conn_flags conn with
      | Some f => " flags=" ++ num_to_string f
      | None => []
      end)
  ++ (if nonempty_array (conn_binds conn)
      then " binds=" ++ show_array (conn_binds conn) else [])
  ++ "]".

(* ------------------------------------------------------------------ *)
(** ** parse and serialize *)

Definition empty_scene : ParsedScene :=
  {| header := {| hdr_type := gd_scene; hdr_loadSteps := None;
                  hdr_format := Finite 3 0; hdr_uid := None |};
     externalResources := [];
     subResources := [];
     nodes := [];
     connections := [] |}.

Definition set_header (h : SceneHeader) (r : ParsedScene) : ParsedScene :=
  {| header := h;
     externalResources := externalResources r;
     subResources := subResources r;
     nodes := nodes r;
     connections := connections r |}.

Definition push_externalResource (x : ExternalResource) (r : ParsedScene) :=
  {| header := header r;
     externalResources := externalResources r ++ [x];
     subResources := subResources r;
     nodes := nodes r;
     connections := connections r |}.

Definition push_subResource (x : SubResource) (r : ParsedScene) :=
  {| header := header r;
     externalResources := externalResources r;
     subResources := subResources r ++ [x];
     nodes := nodes r;
     connections := connections r |}.

Definition push_node (x : SceneNode) (r : ParsedScene) :=
  {| header := header r;
     externalResources := externalResources r;
     subResources := subResources r;
     nodes := nodes r ++ [x];
     connections := connections r |}.

Definition push_connection (x : SignalConnection) (r : ParsedScene) :=
  {| header := header r;
     externalResources := externalResources r;
     subResources := subResources r;
     nodes := nodes r;
     connections := connections r ++ [x] |}.

(** The [while] loop of [parse] from [lines[index]] on; [skip] lines
    were consumed by the block before ([index = newIndex]). *)
Fixpoint parse_loop (lines : list str) (skip : nat) (result : ParsedScene)
    : ParsedScene :=
  match lines with
  | [] => result
  | l :: rest =>
      match skip with
      | S k => parse_loop rest k result
      | O =>
          let line := trim l in
          if startsWith "[gd_scene" line || startsWith "[gd_resource" line then
            parse_loop rest 0 (set_header (parseHeader line) result)
          else if startsWith "[ext_resource" line then
            parse_loop rest 0
              (push_externalResource (parseExtResource line) result)
          else if startsWith "[sub_resource" line then
            let (subResource, n) := parseSubResource l rest in
            parse_loop rest n (push_subResource subResource result)
          else if startsWith "[node" line then
            let (node, n) := parseNode l rest in
            parse_loop rest n (push_node node result)
          else if startsWith "[connection" line then
            parse_loop rest 0 (push_connection (parseConnection line) result)
          else parse_loop rest 0 result
      end
  end.

(** [TscnParser.parse] *)
Definition parse (content : str) : ParsedScene :=
  parse_loop (split newline content) 0 empty_scene.

Definition serialize_lines (scene : ParsedScene) : list str :=
  [serializeHeader (header scene); []]
  ++ map serializeExtResource (externalResources scene)
  ++ (match externalResources scene with [] => [] | _ :: _ => [[]] end)
  ++ flat_map (fun s => serializeSubResource s ++ [[]]) (subResources scene)
  ++ flat_map (fun n => serializeNode n ++ [[]]) (nodes scene)
  ++ map serializeConnection (connections scene).

(** [TscnParser.serialize] *)
Definition serialize (scene : ParsedScene) : str :=
  trim (join [newline] (serialize_lines scene)) ++ [newline].

(* ================================================================== *)
(** * Mutation helpers *)
(* ================================================================== *)

Definition set_loadSteps (n : number) (h : SceneHeader) : SceneHeader :=
  {| hdr_type := hdr_type h;
     hdr_loadSteps := Some n;
     hdr_format := hdr_format h;
     hdr_uid := hdr_uid h |}.

Definition updateLoadSteps (scene : ParsedScene) : ParsedScene :=
  set_header
    (set_loadSteps
       (Finite (Z.of_nat (length (externalResources scene)
                          + length (subResources scene) + 1)) 0)
       (header scene))
    scene.

(** [addNode]: the [properties] of the argument are optional. *)
Definition addNode (scene : ParsedScene) (node : SceneNode)
    (properties : option object) : ParsedScene :=
  let node' :=
    {| node_name := node_name node;
       node_type := node_type node;
       node_parent := node_parent node;
       node_instance := node_instance node;
       node_instancePlaceholder := node_instancePlaceholder node;
       node_owner := node_owner node;
       node_index := node_index node;
       node_groups := node_groups node;
       node_properties := match properties with
                          | Some p => p
                          | None => []
                          end |} in
  updateLoadSteps (push_node node' scene).

(** The local function [getNodePath] of [removeNode] and [modifyNode]. *)
Definition getNodePath (node : SceneNode) : str :=
  match node_parent node with
  | None => node_name node
  | Some p =>
      if is_empty p then node_name node
      else if str_eqb p "." then node_name node
      else p ++ "/" ++ node_name node
  end.

(** [set.has(x)] and [set.add(x)] on a [Set] of strings. *)
Definition set_has (x : str) (set : list str) : bool :=
  existsb (str_eqb x) set.

Definition set_add (x : str) (set : list str) : list str :=
  if set_has x set then set else set ++ [x].

(** [node.parent?.startsWith(nodePath)] *)
Definition parent_startsWith (nodePath : str) (node : SceneNode) : bool :=
  match node_parent node with
  | Some p => startsWith nodePath p
  | None => false
  end.

(** The children test of [removeNode]. *)
Definition is_child_of (nodePath : str) (node : SceneNode) : bool :=
  startsWith (nodePath ++ "/") (getNodePath node)
  || parent_startsWith nodePath node.

Definition pathsToRemove (scene : ParsedScene) (nodePath : str) : list str :=
  fold_left
    (fun set node =>
       if is_child_of nodePath node then set_add (getNodePath node) set
       else set)
    (nodes scene) [nodePath].

Definition removeNode (scene : ParsedScene) (nodePath : str) : ParsedScene :=
  let paths := pathsToRemove scene nodePath in
  updateLoadSteps
    {| header := header scene;
       externalResources := externalResources scene;
       subResources := subResources scene;
       nodes := filter (fun node => negb (set_has (getNodePath node) paths))
                  (nodes scene);
       connections :=
         filter (fun conn => negb (set_has (conn_from conn) paths)
                             && negb (set_has (conn_to conn) paths))
           (connections scene) |}.

(** [Partial<SceneNode>]: every field may be absent. *)
Record NodeUpdates := {
  upd_name : option str;
  upd_type : option str;
  upd_parent : option str;
  upd_instance : option str;
  upd_instancePlaceholder : option str;
  upd_owner : option str;
  upd_index : option number;
  upd_groups : option (list value);
  upd_properties : option object }.

(** Definition of an own property by an object literal or a spread. *)
Definition obj_define (k : str) (v : value) (o : object) : object :=
  if obj_has k o then obj_replace k v o
  else if is_array_index k then obj_insert_index k v o
  else o ++ [(k, v)].

(** The object literal that spreads [a], then [b]. *)
Definition obj_spread (a b : object) : object :=
  fold_left (fun o kv => obj_define (fst kv) (snd kv) o) (a ++ b) [].

Definition apply_updates (updates : NodeUpdates) (node : SceneNode)
    : SceneNode :=
  {| node_name := match upd_name updates with
                  | Some n => n
                  | None => node_name node
                  end;
     node_type := match upd_type updates with
                  | Some t => Some t
                  | None => node_type node
                  end;
     node_parent := node_parent node;
     node_instance := node_instance node;
     node_instancePlaceholder := node_instancePlaceholder node;
     node_owner := node_owner node;
     node_index := node_index node;
     node_groups := match upd_groups updates with
                    | Some g => Some g
                    | None => node_groups node
                    end;
     node_properties := match upd_properties updates with
                        | Some p => obj_spread (node_properties node) p
                        | None => node_properties node
                        end |}.

(** [scene.nodes.find(...)] followed by the assignments to the node that
    was found: the first node with the path is updated in place. *)
Fixpoint modify_first (nodePath : str) (updates : NodeUpdates)
    (l : list SceneNode) : option (list SceneNode) :=
  match l with
  | [] => None
  | n :: r =>
      if str_eqb (getNodePath n) nodePath
      then Some (apply_updates updates n :: r)
      else match modify_first nodePath updates r with
           | Some r' => Some (n :: r')
           | None => None
           end
  end.

(** [modifyNode]: the returned boolean and the scene after the call. *)
Definition modifyNode (scene : ParsedScene) (nodePath : str)
    (updates : NodeUpdates) : bool * ParsedScene :=
  match modify_first nodePath updates (nodes scene) with
  | None => (false, scene)
  | Some nodes' =>
      (true, {| header := header scene;
                externalResources := externalResources scene;
                subResources := subResources scene;
                nodes := nodes';
                connections := connections scene |})
  end.

(* ================================================================== *)
(** * Notions used by the statements *)
(* ================================================================== *)

Definition is_header_line (l : str) : bool :=
  startsWith "[gd_scene" (trim l) || startsWith "[gd_resource" (trim l).

Definition default_header : SceneHeader :=
  {| hdr_type := gd_scene; hdr_loadSteps := None;
     hdr_format := Finite 3 0; hdr_uid := None |}.


(** The own properties of a JavaScript object have distinct keys. *)
Fixpoint obj_unique (o : object) : bool :=
  match o with
  | [] => true
  | (k, _) :: r => negb (obj_has k r) && obj_unique r
  end.

Definition has_path (nodePath : str) (l : list SceneNode) : bool :=
  existsb (fun n => str_eqb (getNodePath n) nodePath) l.

Definition with_nodes (scene : ParsedScene) (l : list SceneNode) : ParsedScene :=
  {| header := header scene;
     externalResources := externalResources scene;
     subResources := subResources scene;
     nodes := l;
     connections := connections scene |}.

(** The removed paths of [removeNode], stated without the loop: the
    target path and the computed path of every node that passes the
    children test. *)
Definition removed_path (scene : ParsedScene) (nodePath p : str) : bool :=
  str_eqb p nodePath
  || existsb (fun m => is_child_of nodePath m && str_eqb p (getNodePath m))
       (nodes scene).

(** The nodes that C6 says are removed: the target, its strict
    descendants, and the nodes whose stored parent starts with the
    target path. *)
Definition claimed_removed (nodePath : str) (node : SceneNode) : bool :=
  str_eqb (getNodePath node) nodePath || is_child_of nodePath node.

Definition plain_node (name : str) (type : str) (parent : option str)
    (properties : object) : SceneNode :=
  {| node_name := name; node_type := Some type; node_parent := parent;
     node_instance := None; node_instancePlaceholder := None;
     node_owner := None; node_index := None; node_groups := None;
     node_properties := properties |}.

Definition scene_of (l : list SceneNode) (c : list SignalConnection)
    : ParsedScene :=
  {| header := default_header; externalResources := []; subResources := [];
     nodes := l; connections := c |}.

(** The scenario of the specification for [removeNode]. *)
Definition cascade_scene : ParsedScene :=
  scene_of
    [ plain_node "Main" "Node2D" None [];
      plain_node "Player" "CharacterBody2D" (Some ".") [];
      plain_node "Sprite" "Sprite2D" (Some "Player") [];
      plain_node "Enemy" "CharacterBody2D" (Some ".") [] ]
    [ {| conn_signal := "pressed"; conn_from := "Button"; conn_to := ".";
         conn_method := "_on_pressed"; conn_flags := None;
         conn_binds := None |} ].

(** A root and one of its children with the same name. *)
Definition twin_scene : ParsedScene :=
  scene_of
    [ plain_node "Main" "Node2D" None [];
      plain_node "Main" "Node2D" (Some ".") [] ]
    [].

Definition only_properties (p : object) : NodeUpdates :=
  {| upd_name := None; upd_type := None; upd_parent := None;
     upd_instance := None; upd_instancePlaceholder := None;
     upd_owner := None; upd_index := None; upd_groups := None;
     upd_properties := Some p |}.

(** The characters that [String(x)] can produce for a number [x]. *)
Definition num_char (c : ascii) : bool :=
  is_digit c
  || existsb (ch_eqb c)
       ["-"; "+"; "."; "e"; "N"; "a"; "I"; "n"; "f"; "i"; "t"; "y"]%char.

(** The second of the parts that [serializeHeader] joins with spaces. *)
Definition second_part (line : str) : str := nth 1 (split " " line) [].

Definition header_line (scene : ParsedScene) : str :=
  hd [] (split newline (serialize scene)).

Definition count_load_steps (scene : ParsedScene) : number :=
  Finite (Z.of_nat (length (externalResources scene)
                    + length (subResources scene) + 1)) 0.

(** A scene with no resource whose header stores five load steps. *)
Definition stale_scene : ParsedScene :=
  {| header := {| hdr_type := gd_scene; hdr_loadSteps := Some (Finite 5 0);
                  hdr_format := Finite 3 0; hdr_uid := None |};
     externalResources := []; subResources := [];
     nodes := [plain_node "Main" "Node2D" None []]; connections := [] |}.

(** A line whose trimmed form starts with one of the bracket tags that
    [parse] recognizes. *)
Definition is_tag_line (l : str) : bool :=
  let line := trim l in
  startsWith "[gd_scene" line || startsWith "[gd_resource" line
  || startsWith "[ext_resource" line || startsWith "[sub_resource" line
  || startsWith "[node" line || startsWith "[connection" line.

(** [parse] on the lines of a text. *)
Definition parse_lines (lines : list str) : ParsedScene :=
  parse (join [newline] lines).

(** The lines of a text have no newline in them. *)
Definition no_newline (s : str) : bool :=
  forallb (fun x => negb (ch_eqb x newline)) s.

(** No whitespace at either end. *)
Definition trimmed (s : str) : bool :=
  match s with
  | [] => true
  | c :: _ => negb (is_ws c) && negb (is_ws (last s c))
  end.

Definition no_char (c : ascii) (s : str) : bool :=
  forallb (fun x => negb (ch_eqb x c)) s.

Definition sign_text (m : Z) : str := if (m <? 0)%Z then "-" else [].

(** The text of a safe number: the digits, with a dot [e] digits from
    the end, after a zero and zeros when there are not enough digits. *)
Definition safe_text (m : Z) (e : nat) : str :=
  let ds := digits_of_N (Z.abs_N m) in
  sign_text m ++
  (if e =? 0 then ds
   else if e <? length ds then
     firstn (length ds - e) ds ++ "." ++ skipn (length ds - e) ds
   else "0." ++ repeat "0"%char (e - length ds) ++ ds).


(** The digits of a safe number before and after the dot. *)
Definition safe_body (m : Z) (e : nat) : str :=
  let ds := digits_of_N (Z.abs_N m) in
  if e =? 0 then ds
  else if e <? length ds then
    firstn (length ds - e) ds ++ "." ++ skipn (length ds - e) ds
  else "0." ++ repeat "0"%char (e - length ds) ++ ds.

(* ------------------------------------------------------------------ *)
(** ** Texts that the top-level splitter passes over *)

(** The state of the loops of [parseArray] and [parseDictionary] after
    the text [t], from relative depth [depth]; [None] when a comma of [t]
    is outside every string and every bracket of [t]. *)
Fixpoint balanced_scan (t : str) (prev : option ascii) (depth : Z)
    (inString : bool) : option (option ascii * Z * bool) :=
  match t with
  | [] => Some (prev, depth, inString)
  | char :: rest =>
      let inString := if toggles prev char then negb inString else inString in
      if negb inString then
        let depth := if is_open char then (depth + 1)%Z else depth in
        let depth := if is_close char then (depth - 1)%Z else depth in
        if ch_eqb char "," && (depth <=? 0)%Z then None
        else balanced_scan rest (Some char) depth inString
      else balanced_scan rest (Some char) depth inString
  end.

(** Quotes are paired, brackets are paired, and every comma is inside a
    string or a bracket. *)
Definition balanced (t : str) : bool :=
  match balanced_scan t None 0 false with
  | Some (_, depth, inString) => (depth =? 0)%Z && negb inString
  | None => false
  end.

(** The previous character is not a backslash. *)
Definition not_backslash (prev : option ascii) : bool :=
  match prev with
  | Some p => negb (ch_eqb p backslash)
  | None => true
  end.

(** A text that the loops pass over as one piece, at any depth. *)
Definition token (t : str) : Prop :=
  forall prev depth, not_backslash prev = true -> (0 <= depth)%Z ->
    exists prev', balanced_scan t prev depth false = Some (prev', depth, false).

(* ------------------------------------------------------------------ *)
(** ** Canonical values: the values that survive a round trip *)

(** A component of a vector or of a color. *)
Definition component_ok (v : value) : bool :=
  match v with
  | VNum NaN => true
  | VNum (Infinity _) => true
  | VNum n => safe_number n
  | _ => false
  end.

(** The constructor prefixes that [parseValue] decomposes. *)
Definition parsed_constructor (s : str) : bool :=
  existsb (fun p => startsWith p s)
    ["Vector2("; "Vector3("; "Color("; "ExtResource("; "SubResource(";
     "NodePath("].

(** A string value.  A string that passes [isGodotValueString] is printed
    as it is: it must be a constructor call that [parseValue] leaves
    alone.  Any other string is printed between quotes.  Inside an array
    or a dictionary ([nested]) the splitter must pass over the text. *)
Definition string_ok (nested : bool) (s : str) : bool :=
  no_newline s
  && (if isGodotValueString s
      then trimmed s && negb (parsed_constructor s)
           && (negb nested || balanced s)
      else negb nested || negb (endsWith backslash s)).

(** The identifier of a resource reference, the path of a node path. *)
Definition ref_ok (s : str) : bool :=
  no_char dquote s && no_newline s && negb (endsWith backslash s).

(** A key of a dictionary. *)
Definition key_ok (k : str) : bool :=
  string_ok true k && no_char ":" k && negb (startsWith "_" k).

(** The order of the own properties of a JavaScript object: the keys
    that are array indices come first, in ascending order. *)
Fixpoint obj_ordered (o : object) : bool :=
  match o with
  | [] => true
  | (k, _) :: r =>
      forallb (fun kv =>
                 if is_array_index (fst kv)
                 then is_array_index k
                      && (N_of_digits k <? N_of_digits (fst kv))%N
                 else true) r
      && obj_ordered r
  end.

Definition vec2_shape (obj : object) : bool :=
  (length obj =? 2) && obj_has "x" obj && obj_has "y" obj
  && is_number (obj_get "x" obj) && is_number (obj_get "y" obj).

Definition vec3_shape (obj : object) : bool :=
  (length obj =? 3) && obj_has "x" obj && obj_has "y" obj && obj_has "z" obj
  && is_number (obj_get "x" obj) && is_number (obj_get "y" obj)
  && is_number (obj_get "z" obj).

Definition color_shape (obj : object) : bool :=
  obj_has "r" obj && obj_has "g" obj && obj_has "b" obj
  && is_number (obj_get "r" obj) && is_number (obj_get "g" obj)
  && is_number (obj_get "b" obj).

(** The tagged records, as [parseValue] builds them. *)
Definition is_vector2 (obj : object) : bool :=
  match obj with
  | [(k0, VStr t); (k1, x); (k2, y)] =>
      str_eqb k0 "_type" && str_eqb t "Vector2"
      && str_eqb k1 "x" && str_eqb k2 "y"
      && component_ok x && component_ok y
  | _ => false
  end.

Definition is_vector3 (obj : object) : bool :=
  match obj with
  | [(k0, VStr t); (k1, x); (k2, y); (k3, z)] =>
      str_eqb k0 "_type" && str_eqb t "Vector3"
      && str_eqb k1 "x" && str_eqb k2 "y" && str_eqb k3 "z"
      && component_ok x && component_ok y && component_ok z
  | _ => false
  end.

Definition is_color (obj : object) : bool :=
  match obj with
  | [(k0, VStr t); (k1, r); (k2, g); (k3, b); (k4, a)] =>
      str_eqb k0 "_type" && str_eqb t "Color"
      && str_eqb k1 "r" && str_eqb k2 "g" && str_eqb k3 "b" && str_eqb k4 "a"
      && component_ok r && component_ok g && component_ok b && component_ok a
  | _ => false
  end.

Definition is_reference (type field : str) (obj : object) : bool :=
  match obj with
  | [(k0, VStr t); (k1, VStr s)] =>
      str_eqb k0 "_type" && str_eqb t type && str_eqb k1 field && ref_ok s
  | _ => false
  end.

Definition is_tagged (obj : object) : bool :=
  is_vector2 obj || is_vector3 obj || is_color obj
  || is_reference "ExtResource" "id" obj
  || is_reference "SubResource" "id" obj
  || is_reference "NodePath" "path" obj.

(** [canonical nested v]: [v] is a value that [parseValue] gives back
    from its serialization; [nested] inside an array or a dictionary.
    A dictionary is canonical when it is a tagged record, or when its
    keys are distinct and in the order of a JavaScript object, none
    starts with an underscore, and it is not shaped like a vector or a
    color. *)
Fixpoint canonical (nested : bool) (v : value) : bool :=
  match v with
  | VUndef => false
  | VNull => true
  | VBool _ => true
  | VNum n => safe_number n
  | VStr s => string_ok nested s
  | VArr items => forallb (canonical true) items
  | VObj obj =>
      is_tagged obj
      || (obj_unique obj && obj_ordered obj
          && negb (vec2_shape obj) && negb (vec3_shape obj)
          && negb (color_shape obj)
          && (fix entries (o : object) : bool :=
                match o with
                | [] => true
                | (k, x) :: r => key_ok k && canonical true x && entries r
                end) obj)
  end.

(** A character that changes nothing in the state of the splitter. *)
Definition plain_char (c : ascii) : bool :=
  negb (ch_eqb c dquote) && negb (is_open c) && negb (is_close c)
  && negb (ch_eqb c ",").

(** The character before the next one, after the text [t]. *)
Definition last_prev (t : str) (prev : option ascii) : option ascii :=
  match rev t with
  | x :: _ => Some x
  | [] => prev
  end.

(** What the round trip needs of the text of a value: [parseValue] gives
    the value back, the text is a non-empty trimmed piece of one line,
    and inside an array or a dictionary the splitter passes over it. *)
Definition round_trips (nested : bool) (v : value) : Prop :=
  let t := serializeValue v in
  parseValue t = v /\ t <> [] /\ trimmed t = true /\ no_newline t = true
  /\ (nested = true -> token t).

(** The text of one entry of a dictionary. *)
Definition pair_text (kv : str * value) : str :=
  serializeString (fst kv) ++ ": " ++ serializeValue (snd kv).

(** The entries that [serializeValue] prints: the keys that start with
    an underscore are left out. *)
Definition printed_entries (obj : object) : object :=
  filter (fun kv => negb (startsWith "_" (fst kv))) obj.

(** A dictionary that [serializeValue] prints as a dictionary: no
    recognized [_type] tag, and not shaped like a vector or a color. *)
Definition printed_as_dictionary (obj : object) : bool :=
  negb (existsb (fun t => is_string t (obj_get "_type" obj))
          ["Vector2"; "Vector3"; "Color"; "ExtResource"; "SubResource";
           "NodePath"])
  && negb (vec2_shape obj) && negb (vec3_shape obj) && negb (color_shape obj).

Definition no_underscore_keys (obj : object) : bool :=
  forallb (fun kv => negb (startsWith "_" (fst kv))) obj.

(* ------------------------------------------------------------------ *)
(** ** Canonical documents *)

(** The value of a quoted attribute: the attribute grammar has no
    escape, so it holds no quote, and it stays on its line. *)
Definition quoted_ok (s : str) : bool := no_char dquote s && no_newline s.

(** An optional quoted attribute, printed only when it is not empty. *)
Definition optional_ok (o : option str) : bool :=
  match o with
  | Some s => negb (is_empty s) && quoted_ok s
  | None => true
  end.

(** The value of an attribute printed without quotes: one token of the
    third alternative of the attribute expression. *)
Definition bare_ok (s : str) : bool :=
  match s with
  | c :: _ =>
      negb (ch_eqb c dquote) && negb (ch_eqb c "[")
      && forallb (fun x => negb (is_ws x || ch_eqb x "]")) s
  | [] => false
  end.

(** An integer that the model prints and reads exactly. *)
Definition integer_ok (n : number) : bool :=
  match n with
  | Finite _ 0 => safe_number n
  | _ => false
  end.

Definition optional_integer_ok (o : option number) : bool :=
  match o with
  | Some n => integer_ok n
  | None => true
  end.

(** An array attribute ([groups], [binds]): printed only when it is not
    empty, and captured up to the first closing bracket. *)
Definition array_attribute_ok (o : option (list value)) : bool :=
  match o with
  | Some [] => false
  | Some items =>
      forallb (canonical true) items
      && no_char "]" (join ", " (map serializeValue items))
  | None => true
  end.

(** The name of a property: what [parseProperty] reads back as the key,
    and a key that [properties[key] = value] records. *)
Definition property_key_ok (k : str) : bool :=
  negb (is_empty k) && trimmed k && no_char "=" k && no_newline k
  && negb (startsWith "[" k)
  && negb (str_eqb k "__proto__").

(** The properties of a block: distinct keys in the order of a
    JavaScript object, valid keys, canonical values. *)
Definition properties_ok (props : object) : bool :=
  obj_unique props && obj_ordered props
  && forallb (fun kv => property_key_ok (fst kv) && canonical false (snd kv))
       props.

Definition header_ok (h : SceneHeader) : bool :=
  match hdr_loadSteps h with
  | Some n => integer_ok n && num_truthy n
  | None => true
  end
  && integer_ok (hdr_format h)
  && optional_ok (hdr_uid h).

Definition externalResource_ok (r : ExternalResource) : bool :=
  quoted_ok (ext_type r) && quoted_ok (ext_path r) && quoted_ok (ext_id r)
  && optional_ok (ext_uid r).

Definition subResource_ok (r : SubResource) : bool :=
  quoted_ok (sub_type r) && quoted_ok (sub_id r)
  && properties_ok (sub_properties r).

Definition node_ok (n : SceneNode) : bool :=
  quoted_ok (node_name n)
  && optional_ok (node_type n)
  && match node_parent n with Some p => quoted_ok p | None => true end
  && match node_instance n with Some i => bare_ok i | None => true end
  && optional_ok (node_instancePlaceholder n)
  && optional_ok (node_owner n)
  && optional_integer_ok (node_index n)
  && array_attribute_ok (node_groups n)
  && properties_ok (node_properties n).

Definition connection_ok (c : SignalConnection) : bool :=
  quoted_ok (conn_signal c) && quoted_ok (conn_from c)
  && quoted_ok (conn_to c) && quoted_ok (conn_method c)
  && optional_integer_ok (conn_flags c)
  && array_attribute_ok (conn_binds c).

(** The documents that [parse] gives back from their serialization. *)
Definition canonical_scene (scene : ParsedScene) : bool :=
  header_ok (header scene)
  && forallb externalResource_ok (externalResources scene)
  && forallb subResource_ok (subResources scene)
  && forallb node_ok (nodes scene)
  && forallb connection_ok (connections scene).

(** The text after an attribute without quotes: the end of the line, a
    space or the closing bracket. *)
Definition delimited (rest : str) : bool :=
  match rest with
  | c :: _ => is_ws c || ch_eqb c "]"
  | [] => true
  end.

(* ------------------------------------------------------------------ *)
(** ** The attributes of a serialized tag line *)

Inductive attribute_piece :=
| QuotedAttr (key value : str)
| BareAttr (key value : str)
| ArrayAttr (key inner : str).

(** The text of an attribute, with the space before it. *)
Definition piece_text (p : attribute_piece) : str :=
  match p with
  | QuotedAttr key v => " " ++ key ++ "=" ++ quote v
  | BareAttr key v => " " ++ key ++ "=" ++ v
  | ArrayAttr key inner => " " ++ key ++ "=" ++ ("[" ++ inner ++ "]")
  end.

(** What [parseAttributes] records for it. *)
Definition piece_attr (p : attribute_piece) : str * str :=
  match p with
  | QuotedAttr key v => (key, v)
  | BareAttr key v => (key, v)
  | ArrayAttr key inner => (key, "[" ++ inner ++ "]")
  end.

Definition piece_ok (p : attribute_piece) : bool :=
  match p with
  | QuotedAttr key v =>
      negb (is_empty key) && forallb is_word key && no_char dquote v
  | BareAttr key v =>
      negb (is_empty key) && forallb is_word key && bare_ok v
  | ArrayAttr key inner =>
      negb (is_empty key) && forallb is_word key && no_char "]" inner
  end.

Definition pieces_text (ps : list attribute_piece) : str :=
  concat (map piece_text ps).

(** An optional attribute. *)
Definition optional_piece (present : bool) (p : attribute_piece)
    : list attribute_piece :=
  if present then [p] else [].

(** [attrs.key] on the attributes of a list of pieces: the last piece
    with the key. *)
Definition pieces_attr (key : str) (ps : list attribute_piece) : option str :=
  attr key (rev (map piece_attr ps)).

Definition array_inner (o : option (list value)) : str :=
  match o with
  | Some l => join ", " (map serializeValue l)
  | None => []
  end.

Definition header_pieces (h : SceneHeader) : list attribute_piece :=
  optional_piece (num_opt_truthy (hdr_loadSteps h))
    (BareAttr "load_steps" (show_num (hdr_loadSteps h)))
  ++ [BareAttr "format" (num_to_string (hdr_format h))]
  ++ optional_piece (str_truthy (hdr_uid h))
       (QuotedAttr "uid" (show_str (hdr_uid h))).

Definition externalResource_pieces (r : ExternalResource)
    : list attribute_piece :=
  [QuotedAttr "type" (ext_type r); QuotedAttr "path" (ext_path r)]
  ++ optional_piece (str_truthy (ext_uid r))
       (QuotedAttr "uid" (show_str (ext_uid r)))
  ++ [QuotedAttr "id" (ext_id r)].

Definition subResource_pieces (r : SubResource) : list attribute_piece :=
  [QuotedAttr "type" (sub_type r); QuotedAttr "id" (sub_id r)].

Definition node_pieces (n : SceneNode) : list attribute_piece :=
  [QuotedAttr "name" (node_name n)]
  ++ optional_piece (str_truthy (node_type n))
       (QuotedAttr "type" (show_str (node_type n)))
  ++ match node_parent n with
     | Some p => [QuotedAttr "parent" p]
     | None => []
     end
  ++ optional_piece (str_truthy (node_instance n))
       (BareAttr "instance" (show_str (node_instance n)))
  ++ optional_piece (str_truthy (node_instancePlaceholder n))
       (QuotedAttr "instance_placeholder"
          (show_str (node_instancePlaceholder n)))
  ++ optional_piece (str_truthy (node_owner n))
       (QuotedAttr "owner" (show_str (node_owner n)))
  ++ match node_index n with
     | Some i => [BareAttr "index" (num_to_string i)]
     | None => []
     end
  ++ optional_piece (nonempty_array (node_groups n))
       (ArrayAttr "groups" (array_inner (node_groups n))).

Definition connection_pieces (c : SignalConnection) : list attribute_piece :=
  [QuotedAttr "signal" (conn_signal c); QuotedAttr "from" (conn_from c);
   QuotedAttr "to" (conn_to c); QuotedAttr "method" (conn_method c)]
  ++ match conn_flags c with
     | Some f => [BareAttr "flags" (num_to_string f)]
     | None => []
     end
  ++ optional_piece (nonempty_array (conn_binds c))
       (ArrayAttr "binds" (array_inner (conn_binds c))).

(** The line after the properties of a block: the end of the text, an
    empty line or the next tag. *)
Definition ends_block (rest : list str) : bool :=
  match rest with
  | [] => true
  | l :: _ => is_empty (trim l) || startsWith "[" (trim l)
  end.

(* ------------------------------------------------------------------ *)
(** ** Documents used by the round-trip statements *)

(** The text of a scene with the value forms of the grammar. *)
Definition sample_text : str :=
  join [newline]
    [ "[gd_scene load_steps=3 format=3 uid=" ++ quote "uid://b4x1" ++ "]";
      [];
      "[ext_resource type=" ++ quote "Script" ++ " path="
        ++ quote "res://player.gd" ++ " id=" ++ quote "1_abc" ++ "]";
      [];
      "[sub_resource type=" ++ quote "RectangleShape2D" ++ " id="
        ++ quote "shape_1" ++ "]";
      "size = Vector2(32, 32.5)";
      [];
      "[node name=" ++ quote "Main" ++ " type=" ++ quote "Node2D" ++ "]";
      [];
      "[node name=" ++ quote "Player" ++ " type=" ++ quote "CharacterBody2D"
        ++ " parent=" ++ quote "." ++ " groups=[" ++ quote "actors" ++ ", "
        ++ quote "saved" ++ "]]";
      "position = Vector2(100, -200)";
      "modulate = Color(1, 0.5, 0.25, 1)";
      "script = ExtResource(" ++ quote "1_abc" ++ ")";
      "shape = SubResource(" ++ quote "shape_1" ++ ")";
      "target = NodePath(" ++ quote "../Main" ++ ")";
      "speed = 300.5";
      "visible = true";
      "material = null";
      "title = " ++ quote ("say " ++ [backslash; dquote] ++ "hi"
                           ++ [backslash; dquote]);
      "tags = [" ++ quote "a" ++ ", [1, 2], Vector2(0, 1)]";
      "stats = {" ++ quote "hp" ++ ": 10, " ++ quote "name" ++ ": "
        ++ quote "hero" ++ "}";
      "transform = Transform2D(1, 0, 0, 1, 0, 0)";
      [];
      "[connection signal=" ++ quote "pressed" ++ " from=" ++ quote "Button"
        ++ " to=" ++ quote "." ++ " method=" ++ quote "_on_pressed"
        ++ " flags=3]";
      [] ].

(** The same kind of scene, built without the parser. *)
Definition sample_scene : ParsedScene :=
  {| header := {| hdr_type := gd_scene; hdr_loadSteps := Some (Finite 2 0);
                  hdr_format := Finite 3 0; hdr_uid := Some "uid://c7" |};
     externalResources :=
       [ {| ext_type := "Texture2D"; ext_path := "res://icon.png";
            ext_id := "1"; ext_uid := None |} ];
     subResources :=
       [ {| sub_type := "CircleShape2D"; sub_id := "c1";
            sub_properties := [("radius", VNum (Finite 125 1))] |} ];
     nodes :=
       [ plain_node "Main" "Node2D" None [];
         plain_node "Icon" "Sprite2D" (Some ".")
           [ ("texture", tagged "ExtResource" [("id", VStr "1")]);
             ("position",
              tagged "Vector2" [("x", VNum (Finite 10 0));
                                ("y", VNum (Finite (-4) 0))]);
             ("label", VStr "two words");
             ("frames", VArr [VNum (Finite 1 0); VBool false; VNull]);
             ("meta", VObj [("layer", VNum (Finite 2 0))]) ] ];
     connections :=
       [ {| conn_signal := "ready"; conn_from := "Icon"; conn_to := ".";
            conn_method := "_on_ready"; conn_flags := None;
            conn_binds := None |} ] |}.

(** A text with the two dictionaries that the first round-trip sentence
    of the specification names: one shaped like a 2D vector, one with a
    key that starts with an underscore. *)
Definition shaped_text : str :=
  join [newline]
    [ "[gd_scene format=3]";
      [];
      "[node name=" ++ quote "Root" ++ " type=" ++ quote "Node2D" ++ "]";
      "offset = {" ++ quote "x" ++ ": 1, " ++ quote "y" ++ ": 2}";
      "data = {" ++ quote "_hidden" ++ ": 1}";
      [] ].

(** The values that the second round-trip sentence of the specification
    speaks of: null, booleans, numbers, strings that [serializeValue]
    does not print raw, arrays, dictionaries and tagged records. *)
Fixpoint typed_value (v : value) : bool :=
  match v with
  | VUndef => false
  | VNull => true
  | VBool _ => true
  | VNum _ => true
  | VStr s => negb (isGodotValueString s)
  | VArr items => forallb typed_value items
  | VObj obj =>
      (fix entries (o : object) : bool :=
         match o with
         | [] => true
         | (_, x) :: r => typed_value x && entries r
         end) obj
  end.

Definition typed_document (scene : ParsedScene) : bool :=
  forallb (fun r => forallb (fun kv => typed_value (snd kv)) (sub_properties r))
    (subResources scene)
  && forallb (fun n => forallb (fun kv => typed_value (snd kv))
                         (node_properties n))
       (nodes scene).

(** A label whose text has two lines. *)
Definition multiline_scene : ParsedScene :=
  scene_of
    [ plain_node "Title" "Label" None
        [("text", VStr ("Hello" ++ [newline] ++ "World"))] ]
    [].

(** A document that is not in normal form: a load step count of zero,
    an empty [uid], a node with an empty list of groups, an untagged
    dictionary shaped like a 2D vector and one shaped like a color, and a
    dictionary with an index key and a key that starts with an
    underscore. *)
Definition loose_scene : ParsedScene :=
  {| header := {| hdr_type := gd_scene; hdr_loadSteps := Some (Finite 0 0);
                  hdr_format := Finite 3 0; hdr_uid := Some [] |};
     externalResources := [];
     subResources := [];
     nodes :=
       [ {| node_name := "Root"; node_type := Some "Node2D";
            node_parent := None; node_instance := None;
            node_instancePlaceholder := None; node_owner := Some [];
            node_index := None; node_groups := Some [];
            node_properties :=
              [ ("offset", VObj [("x", VNum (Finite 1 0));
                                 ("y", VNum (Finite 2 0))]);
                ("tint", VObj [("r", VNum (Finite 1 0));
                               ("g", VNum (Finite 5 1));
                               ("b", VNum (Finite 0 0))]);
                ("data", VObj [("0", VStr "first");
                               ("_hidden", VNum (Finite 1 0));
                               ("name", VStr "n")]) ] |} ];
     connections := [] |}.

(** An array with a string that ends in a backslash before another
    item. *)
Definition backslash_array : value :=
  VArr [VStr ("a" ++ [backslash]); VNum (Finite 1 0)].

(* ------------------------------------------------------------------ *)
(** ** Notions used by the statements on the helpers *)

(** Nothing in the scene is reached by [removeNode] on the path: no node
    has it, no node passes the children test, no connection starts or
    ends there. *)
Definition untouched_path (scene : ParsedScene) (nodePath : str) : bool :=
  negb (has_path nodePath (nodes scene))
  && forallb (fun n => negb (is_child_of nodePath n)) (nodes scene)
  && forallb (fun c => negb (str_eqb (conn_from c) nodePath)
                       && negb (str_eqb (conn_to c) nodePath))
       (connections scene).

(** The node that [addNode] stores: the fields of the argument, with an
    empty property map when it has none. *)
Definition stored_node (node : SceneNode) (properties : option object)
    : SceneNode :=
  {| node_name := node_name node;
     node_type := node_type node;
     node_parent := node_parent node;
     node_instance := node_instance node;
     node_instancePlaceholder := node_instancePlaceholder node;
     node_owner := node_owner node;
     node_index := node_index node;
     node_groups := node_groups node;
     node_properties := match properties with
                        | Some p => p
                        | None => []
                        end |}.

(* ------------------------------------------------------------------ *)
(** ** Texts without [__proto__], documents that [serialize] prints *)

(** [hay.includes(needle)] *)
Fixpoint contains (needle hay : str) : bool :=
  startsWith needle hay
  || match hay with
     | _ :: r => contains needle r
     | [] => false
     end.

(** A text in which [__proto__] does not occur: no property line and no
    dictionary entry of such a text has the key [__proto__], so that
    parsing it never changes the prototype of an object. *)
Definition prototype_free (content : str) : bool :=
  negb (contains "__proto__" content).

(** Whether [serialize] raises: the values that it prints are the
    property values and the non-empty [groups] and [binds]. *)
Definition properties_raise (props : object) : bool :=
  existsb (fun kv => serializeValue_raises (snd kv)) props.

Definition array_attribute_raises (o : option (list value)) : bool :=
  match o with
  | Some (x :: l) => serializeValue_raises (VArr (x :: l))
  | _ => false
  end.

Definition serialize_raises (scene : ParsedScene) : bool :=
  existsb (fun r => properties_raise (sub_properties r)) (subResources scene)
  || existsb (fun n => array_attribute_raises (node_groups n)
                       || properties_raise (node_properties n))
       (nodes scene)
  || existsb (fun c => array_attribute_raises (conn_binds c))
       (connections scene).

(* ------------------------------------------------------------------ *)
(** ** The normal form of a document *)

(** [normalize_value v] is printed like [v] and keeps only what is
    printed: a dictionary that [serializeValue] prints as a constructor
    call (a record with one of the six [_type]s, or a dictionary shaped
    like a vector or a color) becomes the tagged record with the printed
    fields; in any other dictionary the entries whose key starts with an
    underscore are left out. *)
Fixpoint normalize_value (v : value) : value :=
  match v with
  | VArr items => VArr (map normalize_value items)
  | VObj obj =>
      let get k := obj_get k obj in
      let reference type field :=
        VObj [("_type", VStr type); (field, get field)] in
      if is_string "Vector2" (get "_type") then
        VObj [("_type", VStr "Vector2"); ("x", get "x"); ("y", get "y")]
      else if is_string "Vector3" (get "_type") then
        VObj [("_type", VStr "Vector3"); ("x", get "x"); ("y", get "y");
              ("z", get "z")]
      else if is_string "Color" (get "_type") then
        VObj [("_type", VStr "Color"); ("r", get "r"); ("g", get "g");
              ("b", get "b"); ("a", get "a")]
      else if is_string "ExtResource" (get "_type") then
        reference "ExtResource" "id"
      else if is_string "SubResource" (get "_type") then
        reference "SubResource" "id"
      else if is_string "NodePath" (get "_type") then
        reference "NodePath" "path"
      else if vec2_shape obj then
        VObj [("_type", VStr "Vector2"); ("x", get "x"); ("y", get "y")]
      else if vec3_shape obj then
        VObj [("_type", VStr "Vector3"); ("x", get "x"); ("y", get "y");
              ("z", get "z")]
      else if color_shape obj then
        VObj [("_type", VStr "Color"); ("r", get "r"); ("g", get "g");
              ("b", get "b");
              ("a", if is_number (get "a") then get "a"
                    else VNum (Finite 1 0))]
      else
        VObj ((fix entries (o : object) : object :=
                 match o with
                 | [] => []
                 | (k, x) :: r =>
                     if startsWith "_" k then entries r
                     else (k, normalize_value x) :: entries r
                 end) obj)
  | _ => v
  end.

(** An optional attribute that is printed only when it is not empty. *)
Definition normalize_optional (o : option str) : option str :=
  if str_truthy o then o else None.

(** [groups] and [binds] are printed only when they are not empty. *)
Definition normalize_array_attribute (o : option (list value))
    : option (list value) :=
  match o with
  | Some (x :: l) => Some (map normalize_value (x :: l))
  | _ => None
  end.

Definition normalize_properties (props : object) : object :=
  map (fun kv => (fst kv, normalize_value (snd kv))) props.

Definition normalize_header (h : SceneHeader) : SceneHeader :=
  {| hdr_type := hdr_type h;
     hdr_loadSteps := if num_opt_truthy (hdr_loadSteps h)
                      then hdr_loadSteps h else None;
     hdr_format := hdr_format h;
     hdr_uid := normalize_optional (hdr_uid h) |}.

Definition normalize_externalResource (r : ExternalResource)
    : ExternalResource :=
  {| ext_type := ext_type r; ext_path := ext_path r; ext_id := ext_id r;
     ext_uid := normalize_optional (ext_uid r) |}.

Definition normalize_subResource (r : SubResource) : SubResource :=
  {| sub_type := sub_type r; sub_id := sub_id r;
     sub_properties := normalize_properties (sub_properties r) |}.

Definition normalize_node (n : SceneNode) : SceneNode :=
  {| node_name := node_name n;
     node_type := normalize_optional (node_type n);
     node_parent := node_parent n;
     node_instance := normalize_optional (node_instance n);
     node_instancePlaceholder :=
       normalize_optional (node_instancePlaceholder n);
     node_owner := normalize_optional (node_owner n);
     node_index := node_index n;
     node_groups := normalize_array_attribute (node_groups n);
     node_properties := normalize_properties (node_properties n) |}.

Definition normalize_connection (c : SignalConnection) : SignalConnection :=
  {| conn_signal := conn_signal c; conn_from := conn_from c;
     conn_to := conn_to c; conn_method := conn_method c;
     conn_flags := conn_flags c;
     conn_binds := normalize_array_attribute (conn_binds c) |}.

(** The normal form of a document: what [serialize] prints of it, and
    nothing else. *)
Definition normalize_scene (scene : ParsedScene) : ParsedScene :=
  {| header := normalize_header (header scene);
     externalResources :=
       map normalize_externalResource (externalResources scene);
     subResources := map normalize_subResource (subResources scene);
     nodes := map normalize_node (nodes scene);
     connections := map normalize_connection (connections scene) |}.
(* ================================================================== *)
(** * Properties *)
(* ================================================================== *)

Unset Implicit Arguments.

(** ** Strings *)

Lemma ch_eqb_eq a b : ch_eqb a b = true <-> a = b.
Proof. apply Ascii.eqb_eq. Qed.

Lemma ch_eqb_refl a : ch_eqb a a = true.
Proof. apply Ascii.eqb_refl. Qed.

Lemma ch_eqb_neq a b : ch_eqb a b = false <-> a <> b.
Proof. apply Ascii.eqb_neq. Qed.

Lemma ch_eqb_sym a b : ch_eqb a b = ch_eqb b a.
Proof. apply Ascii.eqb_sym. Qed.

Lemma str_eqb_eq a b : str_eqb a b = true <-> a = b.
Proof.
  revert b; induction a as [|x a IH]; intros [|y b]; simpl;
    try (split; [discriminate | discriminate]); try tauto.
  rewrite andb_true_iff, ch_eqb_eq, IH.
  split; [intros [-> ->]; reflexivity | intros H; inversion H; auto].
Qed.

Lemma str_eqb_refl a : str_eqb a a = true.
Proof. apply str_eqb_eq; reflexivity. Qed.

Lemma str_eqb_neq a b : str_eqb a b = false <-> a <> b.
Proof.
  rewrite <- str_eqb_eq. destruct (str_eqb a b); split; congruence.
Qed.

Lemma str_eqb_sym a b : str_eqb a b = str_eqb b a.
Proof.
  destruct (str_eqb a b) eqn:E.
  - apply str_eqb_eq in E; subst; symmetry; apply str_eqb_refl.
  - symmetry; apply str_eqb_neq; apply str_eqb_neq in E; congruence.
Qed.

(** ** C8, C9, C4: the value grammar on the texts of the specification *)

(** C8: value-parsing [[Vector2(1,2), [3,4], {"a": 1}]] gives a
    three-element array: the record with the fields [_type] = Vector2,
    [x] = 1 and [y] = 2, the array [3, 4], and the dictionary that maps a
    to 1.  The commas inside the constructor call and inside the nested
    array do not split. *)
Theorem array_depth_safety :
  parseValue ("[Vector2(1,2), [3,4], {" ++ quote "a" ++ ": 1}]")
  = VArr [ VObj [("_type", VStr "Vector2"); ("x", VNum (Finite 1 0));
                 ("y", VNum (Finite 2 0))];
           VArr [VNum (Finite 3 0); VNum (Finite 4 0)];
           VObj [("a", VNum (Finite 1 0))] ]
  /\ parseProperty ("values = [Vector2(1,2), [3,4], {" ++ quote "a" ++ ": 1}]")
     = ("values",
        VArr [ VObj [("_type", VStr "Vector2"); ("x", VNum (Finite 1 0));
                     ("y", VNum (Finite 2 0))];
               VArr [VNum (Finite 3 0); VNum (Finite 4 0)];
               VObj [("a", VNum (Finite 1 0))] ]).
Proof. split; vm_compute; reflexivity. Qed.

(** C9: value-parsing the quoted literal [Hello \"World\"] gives the
    string [Hello "World"], and serializing that string gives the quoted
    literal back. *)
Theorem string_escape_fidelity :
  parseValue (quote ("Hello \" ++ quote "World\")) = VStr ("Hello " ++ quote "World")
  /\ serializeValue (VStr ("Hello " ++ quote "World"))
     = quote ("Hello \" ++ quote "World\").
Proof. split; vm_compute; reflexivity. Qed.

(** C4 (the code at the failing input): the dictionary text with the
    quoted key [a:b] and the value 1 is split at the colon inside the
    quotes: the key is the two characters quote, a and the value is the
    string that starts with b and a quote. *)
Theorem dictionary_colon_in_key :
  parseValue ("{" ++ quote "a:b" ++ ": 1}")
  = VObj [(dquote :: "a", VStr ("b" ++ [dquote] ++ ": 1"))]
  /\ parseValue ("{" ++ quote "a:b" ++ ": 1}") <> VObj [("a:b", VNum (Finite 1 0))].
Proof. split; vm_compute; [reflexivity | discriminate]. Qed.

(** ** C10: the default header *)

Lemma parse_loop_header_unchanged lines :
  forallb (fun l => negb (is_header_line l)) lines = true ->
  forall skip result, header (parse_loop lines skip result) = header result.
Proof.
  induction lines as [|l rest IH]; intros Hall skip result.
  - reflexivity.
  - cbn [forallb] in Hall. apply andb_true_iff in Hall as [Hl Hrest].
    cbn [parse_loop].
    destruct skip as [|k]; [|apply IH; assumption].
    unfold is_header_line in Hl. apply negb_true_iff in Hl. rewrite Hl.
    destruct (startsWith "[ext_resource" (trim l)).
    { rewrite IH by assumption. reflexivity. }
    destruct (startsWith "[sub_resource" (trim l)).
    { destruct (parseSubResource l rest) as [s n].
      rewrite IH by assumption. reflexivity. }
    destruct (startsWith "[node" (trim l)).
    { destruct (parseNode l rest) as [s n].
      rewrite IH by assumption. reflexivity. }
    destruct (startsWith "[connection" (trim l)).
    { rewrite IH by assumption. reflexivity. }
    apply IH; assumption.
Qed.

(** C10: when no line of the input starts, after trimming, with
    [[gd_scene] or [[gd_resource], [parse] returns a document whose header
    is the default one: type gd_scene, format 3, no loadSteps, no uid. *)
Theorem parse_default_header (content : str) :
  forallb (fun l => negb (is_header_line l)) (split newline content) = true ->
  header (parse content) = default_header.
Proof.
  intros H. unfold parse. rewrite parse_loop_header_unchanged by assumption.
  reflexivity.
Qed.

Lemma parse_default_header_witness :
  header (parse []) = default_header
  /\ header (parse ("# a comment" ++ [newline] ++ "[node name=" ++ quote "Main"
                    ++ "]" ++ [newline] ++ "speed = 3")) = default_header.
Proof.
  split; apply parse_default_header; reflexivity.
Defined.

(** ** Objects *)

Lemma obj_has_app k o o' : obj_has k (o ++ o') = obj_has k o || obj_has k o'.
Proof.
  induction o as [|[k1 v1] o IH]; simpl; [reflexivity|].
  rewrite IH, orb_assoc. reflexivity.
Qed.

Lemma obj_get_app k o o' :
  obj_get k (o ++ o') = if obj_has k o then obj_get k o else obj_get k o'.
Proof.
  induction o as [|[k1 v1] o IH]; simpl; [reflexivity|].
  destruct (str_eqb k1 k); simpl; auto.
Qed.

Lemma obj_get_absent k o : obj_has k o = false -> obj_get k o = VUndef.
Proof.
  induction o as [|[k1 v1] o IH]; simpl; [reflexivity|].
  destruct (str_eqb k1 k); simpl; [discriminate | auto].
Qed.

Lemma obj_has_replace k k' v o : obj_has k (obj_replace k' v o) = obj_has k o.
Proof.
  induction o as [|[k1 v1] o IH]; simpl; [reflexivity|].
  destruct (str_eqb k1 k'); simpl; [reflexivity | rewrite IH; reflexivity].
Qed.

Lemma obj_get_replace k k' v o :
  obj_has k' o = true ->
  obj_get k (obj_replace k' v o) = if str_eqb k' k then v else obj_get k o.
Proof.
  induction o as [|[k1 v1] o IH]; simpl; [discriminate|].
  destruct (str_eqb k1 k') eqn:E1; simpl.
  - apply str_eqb_eq in E1; subst k1. intros _.
    destruct (str_eqb k' k); reflexivity.
  - intros H. rewrite IH by assumption.
    destruct (str_eqb k1 k) eqn:E2; [|reflexivity].
    apply str_eqb_eq in E2; subst k1. rewrite str_eqb_sym, E1. reflexivity.
Qed.

Lemma obj_has_insert_index k k' v o :
  obj_has k (obj_insert_index k' v o) = str_eqb k' k || obj_has k o.
Proof.
  induction o as [|[k1 v1] o IH]; simpl; [reflexivity|].
  destruct (is_array_index k1 && (N_of_digits k1 <? N_of_digits k')%N); simpl.
  - rewrite IH. destruct (str_eqb k1 k), (str_eqb k' k); reflexivity.
  - reflexivity.
Qed.

Lemma obj_get_insert_index k k' v o :
  obj_has k' o = false ->
  obj_get k (obj_insert_index k' v o) = if str_eqb k' k then v else obj_get k o.
Proof.
  induction o as [|[k1 v1] o IH]; simpl; [reflexivity|].
  intros H. apply orb_false_iff in H as [H1 H2].
  destruct (is_array_index k1 && (N_of_digits k1 <? N_of_digits k')%N); simpl.
  - rewrite IH by assumption.
    destruct (str_eqb k1 k) eqn:E; [|reflexivity].
    apply str_eqb_eq in E; subst k1. rewrite str_eqb_sym, H1. reflexivity.
  - reflexivity.
Qed.

Lemma obj_has_define k k' v o :
  obj_has k (obj_define k' v o) = str_eqb k' k || obj_has k o.
Proof.
  unfold obj_define. destruct (obj_has k' o) eqn:E.
  - rewrite obj_has_replace. destruct (str_eqb k' k) eqn:E2; [|reflexivity].
    apply str_eqb_eq in E2; subst. rewrite E. reflexivity.
  - destruct (is_array_index k').
    + apply obj_has_insert_index.
    + rewrite obj_has_app. simpl. rewrite orb_false_r, orb_comm. reflexivity.
Qed.

Lemma obj_get_define k k' v o :
  obj_get k (obj_define k' v o) = if str_eqb k' k then v else obj_get k o.
Proof.
  unfold obj_define. destruct (obj_has k' o) eqn:E.
  - apply obj_get_replace; assumption.
  - destruct (is_array_index k').
    + apply obj_get_insert_index; assumption.
    + rewrite obj_get_app. simpl.
      destruct (str_eqb k' k) eqn:E2.
      * apply str_eqb_eq in E2; subst. rewrite E. reflexivity.
      * destruct (obj_has k o) eqn:E3; [reflexivity|].
        symmetry; apply obj_get_absent; assumption.
Qed.

Lemma fold_define_has k l : forall acc,
  obj_has k (fold_left (fun o kv => obj_define (fst kv) (snd kv) o) l acc)
  = obj_has k l || obj_has k acc.
Proof.
  induction l as [|[k1 v1] l IH]; intros acc; simpl; [reflexivity|].
  rewrite IH, obj_has_define.
  destruct (str_eqb k1 k), (obj_has k l); reflexivity.
Qed.

Lemma fold_define_get k l : forall acc,
  obj_unique l = true ->
  obj_get k (fold_left (fun o kv => obj_define (fst kv) (snd kv) o) l acc)
  = if obj_has k l then obj_get k l else obj_get k acc.
Proof.
  induction l as [|[k1 v1] l IH]; intros acc Hu; simpl in *; [reflexivity|].
  apply andb_true_iff in Hu as [Hk Hu]. apply negb_true_iff in Hk.
  rewrite IH by assumption. rewrite obj_get_define.
  destruct (str_eqb k1 k) eqn:E; simpl; [|reflexivity].
  apply str_eqb_eq in E; subst k1. rewrite Hk. reflexivity.
Qed.

(** A spread is a shallow merge: the keys of [b] override, the other
    keys of [a] survive. *)
Lemma obj_spread_get k a b :
  obj_unique a = true -> obj_unique b = true ->
  obj_get k (obj_spread a b)
  = if obj_has k b then obj_get k b else obj_get k a.
Proof.
  intros Ha Hb. unfold obj_spread. rewrite fold_left_app.
  rewrite fold_define_get by assumption.
  destruct (obj_has k b); [reflexivity|].
  rewrite fold_define_get by assumption. simpl.
  destruct (obj_has k a) eqn:E; [reflexivity|].
  symmetry; apply obj_get_absent; assumption.
Qed.

Lemma obj_spread_has k a b :
  obj_has k (obj_spread a b) = obj_has k b || obj_has k a.
Proof.
  unfold obj_spread. rewrite fold_left_app, !fold_define_has. simpl.
  rewrite orb_false_r. reflexivity.
Qed.

(** ** C7: modifyNode *)

Lemma modify_first_none path upd l :
  has_path path l = false -> modify_first path upd l = None.
Proof.
  induction l as [|n l IH]; simpl; [reflexivity|].
  intros H. apply orb_false_iff in H as [H1 H2].
  rewrite H1, IH by assumption. reflexivity.
Qed.

Lemma modify_first_found path upd before n after :
  has_path path before = false ->
  getNodePath n = path ->
  modify_first path upd (before ++ n :: after)
  = Some (before ++ apply_updates upd n :: after).
Proof.
  induction before as [|m before IH]; simpl; intros Hb Hn.
  - subst path. rewrite str_eqb_refl. reflexivity.
  - apply orb_false_iff in Hb as [H1 H2].
    rewrite H1, IH by assumption. reflexivity.
Qed.

(** C7: on a path that no node has, [modifyNode] returns false and the
    scene is unchanged; on the path of a node it returns true, only the
    first node with that path changes, and its property map is the
    shallow merge of the old map and the supplied one: supplied keys
    override, the other keys survive. *)
Theorem modifyNode_merge (scene : ParsedScene) (nodePath : str)
    (updates : NodeUpdates) :
  (has_path nodePath (nodes scene) = false ->
   modifyNode scene nodePath updates = (false, scene))
  /\
  (forall before n after props,
     nodes scene = before ++ n :: after ->
     has_path nodePath before = false ->
     getNodePath n = nodePath ->
     upd_properties updates = Some props ->
     obj_unique (node_properties n) = true ->
     obj_unique props = true ->
     modifyNode scene nodePath updates
     = (true, with_nodes scene (before ++ apply_updates updates n :: after))
     /\ forall k,
          obj_get k (node_properties (apply_updates updates n))
          = (if obj_has k props then obj_get k props
             else obj_get k (node_properties n))
          /\ obj_has k (node_properties (apply_updates updates n))
             = obj_has k props || obj_has k (node_properties n)).
Proof.
  split.
  - intros H. unfold modifyNode. rewrite modify_first_none by assumption.
    reflexivity.
  - intros before n after props Hnodes Hb Hn Hp Hu1 Hu2. split.
    + unfold modifyNode. rewrite Hnodes.
      rewrite modify_first_found by assumption. reflexivity.
    + intros k. unfold apply_updates; simpl. rewrite Hp. split.
      * apply obj_spread_get; assumption.
      * apply obj_spread_has.
Qed.

Lemma modifyNode_merge_witness :
  let position0 := tagged "Vector2" [("x", VNum (Finite 0 0)); ("y", VNum (Finite 0 0))] in
  let player := plain_node "Player" "CharacterBody2D" None [("position", position0)] in
  let scene := scene_of [player] [] in
  let updates := only_properties [("speed", VNum (Finite 300 0))] in
  modifyNode scene "NonExistent" updates = (false, scene)
  /\ modifyNode scene "Player" updates
     = (true, scene_of
                [plain_node "Player" "CharacterBody2D" None
                   [("position", position0); ("speed", VNum (Finite 300 0))]] []).
Proof.
  intros position0 player scene updates. split.
  - apply (proj1 (modifyNode_merge scene "NonExistent" updates)). reflexivity.
  - apply (proj2 (modifyNode_merge scene "Player" updates)
             [] player [] [("speed", VNum (Finite 300 0))]); reflexivity.
Defined.

(** ** C6: removeNode *)

Lemma set_has_app x s t : set_has x (s ++ t) = set_has x s || set_has x t.
Proof. unfold set_has. apply existsb_app. Qed.

Lemma set_has_add x y s : set_has x (set_add y s) = str_eqb x y || set_has x s.
Proof.
  unfold set_add. destruct (set_has y s) eqn:E.
  - destruct (str_eqb x y) eqn:E2; [|reflexivity].
    apply str_eqb_eq in E2; subst. rewrite E. reflexivity.
  - rewrite set_has_app. simpl. unfold set_has at 2. simpl.
    rewrite !orb_false_r, orb_comm. reflexivity.
Qed.

Lemma pathsToRemove_loop nodePath x l : forall set,
  set_has x
    (fold_left
       (fun set node =>
          if is_child_of nodePath node then set_add (getNodePath node) set
          else set) l set)
  = set_has x set
    || existsb (fun m => is_child_of nodePath m && str_eqb x (getNodePath m)) l.
Proof.
  induction l as [|n l IH]; intros set; simpl.
  - rewrite orb_false_r. reflexivity.
  - rewrite IH. destruct (is_child_of nodePath n); simpl.
    + rewrite set_has_add.
      destruct (str_eqb x (getNodePath n)), (set_has x set); reflexivity.
    + reflexivity.
Qed.

Lemma pathsToRemove_spec scene nodePath p :
  set_has p (pathsToRemove scene nodePath) = removed_path scene nodePath p.
Proof.
  unfold pathsToRemove, removed_path. rewrite pathsToRemove_loop.
  unfold set_has at 1. simpl. rewrite orb_false_r. reflexivity.
Qed.

Lemma filter_ext_all {A} (f g : A -> bool) l :
  (forall x, f x = g x) -> filter f l = filter g l.
Proof. intros H. apply filter_ext. assumption. Qed.

(** [removeNode] keeps, in their order, exactly
    the nodes whose computed path is not a removed path, and the
    connections whose [from] and [to] are not removed paths; the removed
    paths are the target path and the computed paths of the nodes whose
    path is a strict descendant of the target or whose stored parent
    starts with the target path.  Resources are untouched.  In the
    scenario of the specification, removing Player keeps Main, Enemy and
    the connection from Button. *)
Lemma removeNode_cascade (scene : ParsedScene) (nodePath : str) :
  nodes (removeNode scene nodePath)
  = filter (fun n => negb (removed_path scene nodePath (getNodePath n)))
      (nodes scene)
  /\ connections (removeNode scene nodePath)
     = filter (fun c => negb (removed_path scene nodePath (conn_from c))
                        && negb (removed_path scene nodePath (conn_to c)))
         (connections scene)
  /\ (forall n, In n (nodes scene) -> claimed_removed nodePath n = true ->
                ~ In n (nodes (removeNode scene nodePath)))
  /\ externalResources (removeNode scene nodePath) = externalResources scene
  /\ subResources (removeNode scene nodePath) = subResources scene
  /\ map node_name (nodes (removeNode cascade_scene "Player")) = ["Main"; "Enemy"]
  /\ connections (removeNode cascade_scene "Player") = connections cascade_scene.
Proof.
  assert (Hn : nodes (removeNode scene nodePath)
               = filter (fun n => negb (removed_path scene nodePath (getNodePath n)))
                   (nodes scene)).
  { unfold removeNode; simpl. apply filter_ext_all. intros n.
    rewrite pathsToRemove_spec. reflexivity. }
  split; [exact Hn|]. split.
  { unfold removeNode; simpl. apply filter_ext_all. intros c.
    rewrite !pathsToRemove_spec. reflexivity. }
  split.
  { intros n Hin Hc. rewrite Hn. rewrite filter_In. intros [_ Hk].
    apply negb_true_iff in Hk. unfold removed_path in Hk.
    apply orb_false_iff in Hk as [Hk1 Hk2].
    unfold claimed_removed in Hc. rewrite Hk1 in Hc. simpl in Hc.
    assert (existsb (fun m => is_child_of nodePath m
                              && str_eqb (getNodePath n) (getNodePath m))
              (nodes scene) = true) as Hex.
    { apply existsb_exists. exists n. split; [assumption|].
      rewrite Hc, str_eqb_refl. reflexivity. }
    congruence. }
  repeat split; vm_compute; reflexivity.
Qed.

(** Removing the path [.] from a scene whose root
    and whose child of the root are both called Main removes the root
    too, although the root is not the target, has no parent and is no
    strict descendant of the target. *)
Lemma removeNode_removes_unrelated_node :
  ~ (forall scene nodePath,
       nodes (removeNode scene nodePath)
       = filter (fun n => negb (claimed_removed nodePath n)) (nodes scene)).
Proof.
  intros H. specialize (H twin_scene "."). vm_compute in H. discriminate.
Qed.

(** ** Characters of printed numbers *)

Lemma forallb_impl {A} (p r : A -> bool) l :
  (forall x, p x = true -> r x = true) ->
  forallb p l = true -> forallb r l = true.
Proof.
  intros H. induction l as [|x l IH]; simpl; [reflexivity|].
  intros E. apply andb_true_iff in E as [E1 E2].
  rewrite (H _ E1), IH by assumption. reflexivity.
Qed.

Lemma uint_chars_digits u : forallb is_digit (uint_chars u) = true.
Proof. induction u; simpl; auto. Qed.

Lemma digits_of_N_digits n : forallb is_digit (digits_of_N n) = true.
Proof. apply uint_chars_digits. Qed.

Lemma forallb_dropWhileEnd p r s :
  forallb p s = true -> forallb p (dropWhileEnd r s) = true.
Proof.
  induction s as [|c s IH]; simpl; [reflexivity|].
  intros E. apply andb_true_iff in E as [E1 E2]. specialize (IH E2).
  destruct (dropWhileEnd r s) as [|x t].
  - destruct (r c); simpl; [reflexivity | rewrite E1; reflexivity].
  - cbn [forallb]. rewrite E1. exact IH.
Qed.

Lemma forallb_firstn {A} (p : A -> bool) n l :
  forallb p l = true -> forallb p (firstn n l) = true.
Proof.
  revert n; induction l as [|x l IH]; intros [|n]; simpl; auto.
  intros E. apply andb_true_iff in E as [E1 E2]. rewrite E1; simpl; auto.
Qed.

Lemma forallb_skipn {A} (p : A -> bool) n l :
  forallb p l = true -> forallb p (skipn n l) = true.
Proof.
  revert n; induction l as [|x l IH]; intros [|n]; simpl; auto.
  intros E. apply andb_true_iff in E as [E1 E2]. auto.
Qed.

Lemma forallb_repeat {A} (p : A -> bool) x n :
  p x = true -> forallb p (repeat x n) = true.
Proof. intros H. induction n; simpl; [reflexivity | rewrite H; assumption]. Qed.

Lemma is_digit_num_char c : is_digit c = true -> num_char c = true.
Proof. intros H. unfold num_char. rewrite H. reflexivity. Qed.

Lemma num_to_string_chars x : forallb num_char (num_to_string x) = true.
Proof.
  destruct x as [|neg|m e]; [reflexivity | destruct neg; reflexivity |].
  unfold num_to_string.
  destruct (m =? 0)%Z; [reflexivity|]. cbv zeta.
  set (ds := digits_of_N (Z.abs_N m)).
  set (s := dropWhileEnd (fun c => ch_eqb c "0") ds).
  assert (Hds : forallb num_char ds = true).
  { apply forallb_impl with (p := is_digit);
      [apply is_digit_num_char | apply digits_of_N_digits]. }
  assert (Hs : forallb num_char s = true)
    by (apply forallb_dropWhileEnd; exact Hds).
  assert (He : forall n, forallb num_char (digits_of_N n) = true).
  { intros n. apply forallb_impl with (p := is_digit);
      [apply is_digit_num_char | apply digits_of_N_digits]. }
  rewrite forallb_app. apply andb_true_iff. split.
  { destruct (m <? 0)%Z; reflexivity. }
  repeat match goal with
         | |- context [if ?b then _ else _] => destruct b
         end;
    try (destruct s as [|d [|d' s']]; [reflexivity | |];
         cbn [forallb andb app] in * );
    repeat (rewrite ?forallb_app; cbn [forallb andb]);
    rewrite ?Hs, ?He, ?forallb_repeat, ?forallb_firstn, ?forallb_skipn by (assumption || reflexivity);
    try reflexivity.
  all: try (apply andb_true_iff in Hs as [-> Hs]; simpl; try reflexivity).
  all: rewrite andb_true_r; exact Hs.
Qed.

(** ** C3: the load_steps field of the header line *)

Lemma split_nonempty c s : split c s <> [].
Proof.
  destruct s as [|x r]; simpl; [discriminate|].
  destruct (ch_eqb x c); [discriminate|].
  destruct (split c r); discriminate.
Qed.

Lemma split_cons_ne c x r :
  ch_eqb x c = false ->
  split c (x :: r) = (x :: hd [] (split c r)) :: tl (split c r).
Proof.
  intros H. simpl. rewrite H.
  destruct (split c r) eqn:E; [apply split_nonempty in E; contradiction|].
  reflexivity.
Qed.

Lemma split_app_sep c a b :
  forallb (fun x => negb (ch_eqb x c)) a = true ->
  split c (a ++ c :: b) = a :: split c b.
Proof.
  induction a as [|x a IH]; intros H.
  - simpl. rewrite ch_eqb_refl. reflexivity.
  - cbn [forallb] in H. apply andb_true_iff in H as [H1 H2].
    apply negb_true_iff in H1.
    change ((x :: a) ++ c :: b) with (x :: (a ++ c :: b)).
    rewrite split_cons_ne by assumption. rewrite IH by assumption.
    reflexivity.
Qed.

Lemma split_no_sep c a :
  forallb (fun x => negb (ch_eqb x c)) a = true -> split c a = [a].
Proof.
  induction a as [|x a IH]; intros H; [reflexivity|].
  cbn [forallb] in H. apply andb_true_iff in H as [H1 H2].
  apply negb_true_iff in H1.
  rewrite split_cons_ne by assumption. rewrite IH by assumption.
  reflexivity.
Qed.

Lemma num_to_string_no_space x :
  forallb (fun c => negb (ch_eqb c " ")) (num_to_string x) = true.
Proof.
  apply forallb_impl with (p := num_char); [|apply num_to_string_chars].
  intros c H. destruct (ch_eqb c " ") eqn:E; [|reflexivity].
  apply ch_eqb_eq in E; subst c. discriminate.
Qed.

Lemma header_type_str_no_space t :
  forallb (fun c => negb (ch_eqb c " ")) ("[" ++ header_type_str t) = true.
Proof. destruct t; reflexivity. Qed.

Ltac assoc_right :=
  repeat (rewrite <- app_assoc || rewrite <- app_comm_cons).

Lemma second_part_load_steps h n :
  hdr_loadSteps h = Some n -> num_truthy n = true ->
  second_part (serializeHeader h) = "load_steps=" ++ num_to_string n.
Proof.
  intros Hl Ht. unfold second_part, serializeHeader.
  rewrite Hl. cbn [num_opt_truthy show_num]. rewrite Ht.
  set (p0 := "[" ++ header_type_str (hdr_type h)).
  set (p1 := "load_steps=" ++ num_to_string n).
  assert (H0 : forallb (fun c => negb (ch_eqb c " ")) p0 = true)
    by apply header_type_str_no_space.
  assert (H1 : forallb (fun c => negb (ch_eqb c " ")) p1 = true).
  { unfold p1. rewrite forallb_app, num_to_string_no_space. reflexivity. }
  clearbody p0 p1.
  destruct (str_truthy (hdr_uid h)); cbn [app join]; assoc_right;
    rewrite (split_app_sep " " p0 _ H0);
    rewrite (split_app_sep " " p1 _ H1); reflexivity.
Qed.

Lemma second_part_format h :
  num_opt_truthy (hdr_loadSteps h) = false ->
  startsWith "format=" (second_part (serializeHeader h)) = true.
Proof.
  intros Hl. unfold second_part, serializeHeader. rewrite Hl.
  set (p0 := "[" ++ header_type_str (hdr_type h)).
  assert (H0 : forallb (fun c => negb (ch_eqb c " ")) p0 = true)
    by apply header_type_str_no_space.
  clearbody p0.
  destruct (str_truthy (hdr_uid h)); cbn [app join]; assoc_right;
    rewrite (split_app_sep " " p0 _ H0);
    repeat (rewrite split_cons_ne by reflexivity); reflexivity.
Qed.

(** C3, as the code has it: the header line prints the stored
    [loadSteps] as it is (and nothing when it is absent, zero or NaN): the
    serializer does not recompute it.  It is [updateLoadSteps], called by
    [addNode] and [removeNode], that stores the number of external
    resources plus the number of sub-resources plus one, so that the
    header line printed right after these helpers shows that count. *)
Theorem load_steps_is_stored_not_recomputed (scene : ParsedScene) :
  (forall n, hdr_loadSteps (header scene) = Some n -> num_truthy n = true ->
     second_part (serializeHeader (header scene))
     = "load_steps=" ++ num_to_string n)
  /\ (num_opt_truthy (hdr_loadSteps (header scene)) = false ->
      startsWith "format=" (second_part (serializeHeader (header scene))) = true)
  /\ hdr_loadSteps (header (updateLoadSteps scene)) = Some (count_load_steps scene)
  /\ second_part (serializeHeader (header (updateLoadSteps scene)))
     = "load_steps=" ++ num_to_string (count_load_steps scene)
  /\ (forall node properties,
        second_part (serializeHeader (header (addNode scene node properties)))
        = "load_steps=" ++ num_to_string (count_load_steps scene))
  /\ (forall nodePath,
        second_part (serializeHeader (header (removeNode scene nodePath)))
        = "load_steps=" ++ num_to_string (count_load_steps scene)).
Proof.
  assert (Ht : num_truthy (count_load_steps scene) = true).
  { unfold count_load_steps, num_truthy. apply negb_true_iff.
    apply Z.eqb_neq. lia. }
  split; [intros n Hn Hnt; apply second_part_load_steps; assumption|].
  split; [apply second_part_format|].
  split; [reflexivity|].
  split; [apply second_part_load_steps; [reflexivity | exact Ht]|].
  split.
  - intros node properties. apply second_part_load_steps; [reflexivity | exact Ht].
  - intros nodePath. apply second_part_load_steps; [reflexivity | exact Ht].
Qed.

Lemma load_steps_is_stored_not_recomputed_witness :
  second_part (serializeHeader (header stale_scene)) = "load_steps=5"
  /\ startsWith "format="
       (second_part (serializeHeader (header (scene_of [] [])))) = true.
Proof.
  split.
  - apply (proj1 (load_steps_is_stored_not_recomputed stale_scene)
             (Finite 5 0)); reflexivity.
  - apply (proj1 (proj2 (load_steps_is_stored_not_recomputed (scene_of [] [])))).
    reflexivity.
Defined.

(** C3, as stated, fails: with no resource and five stored load steps
    the header line of [serialize] shows 5, not 0 + 0 + 1. *)
Lemma load_steps_not_recomputed_by_serialize :
  ~ (forall scene,
       second_part (header_line scene)
       = "load_steps=" ++ num_to_string (count_load_steps scene)).
Proof.
  intros H. specialize (H stale_scene). vm_compute in H. discriminate.
Qed.

(** ** Termination of the value grammar *)

Lemma length_trimStart s : length (trimStart s) <= length s.
Proof.
  induction s as [|c s IH]; simpl; [lia|].
  destruct (is_ws c); simpl; lia.
Qed.

Lemma length_trimEnd s : length (trimEnd s) <= length s.
Proof.
  induction s as [|c s IH]; simpl; [lia|].
  destruct (trimEnd s); [destruct (is_ws c)|]; simpl in *; lia.
Qed.

Lemma length_trim s : length (trim s) <= length s.
Proof.
  unfold trim. pose proof (length_trimEnd (trimStart s)).
  pose proof (length_trimStart s). lia.
Qed.

Lemma length_slice_to_last a s : length (slice_to_last a s) <= length s - 1.
Proof.
  unfold slice_to_last. rewrite length_firstn, length_skipn. lia.
Qed.

Section Total.

Variable pv : str -> option value.

Lemma parseArray_loop_total inner : forall prev depth current inString result,
  (forall t, length t <= length inner + length current -> pv t <> None) ->
  parseArray_loop pv inner prev depth current inString result <> None.
Proof.
  induction inner as [|char rest IH]; intros prev depth current inString result H;
    cbn [parseArray_loop].
  - assert (Hc : pv (trim current) <> None).
    { apply H. pose proof (length_trim current). simpl. lia. }
    destruct (negb (is_empty (trim current))); [|discriminate].
    destruct (pv (trim current)); [discriminate | contradiction].
  - assert (Hc : pv (trim current) <> None).
    { apply H. pose proof (length_trim current). simpl. lia. }
    assert (Hrec : forall t, length t <= length rest + length (current ++ [char]) ->
                             pv t <> None).
    { intros t Ht. apply H. rewrite length_app in Ht. simpl in *. lia. }
    assert (Hnil : forall t, length t <= length rest + length (@nil ascii) ->
                             pv t <> None).
    { intros t Ht. apply H. simpl in *. lia. }
    repeat match goal with
           | |- context [if ?b then _ else _] => destruct b
           end;
      try (destruct (pv (trim current)); [|contradiction]); auto.
Qed.

Lemma parseDictionary_loop_bound inner :
  forall prev depth current inString pairs n,
    length inner + length current <= n ->
    Forall (fun p => length p <= n) pairs ->
    Forall (fun p => length p <= n)
      (parseDictionary_loop inner prev depth current inString pairs).
Proof.
  induction inner as [|char rest IH]; intros prev depth current inString pairs n Hn Hp;
    cbn [parseDictionary_loop].
  - destruct (negb (is_empty (trim current))); [|assumption].
    apply Forall_app. split; [assumption|]. constructor; [|constructor].
    pose proof (length_trim current). simpl in *. lia.
  - assert (Hrec : length rest + length (current ++ [char]) <= n).
    { rewrite length_app. simpl in *. lia. }
    assert (Hnil : length rest + length (@nil ascii) <= n) by (simpl in *; lia).
    assert (Hp' : Forall (fun p => length p <= n) (pairs ++ [trim current])).
    { apply Forall_app. split; [assumption|]. constructor; [|constructor].
      pose proof (length_trim current). simpl in *. lia. }
    repeat match goal with
           | |- context [if ?b then _ else _] => destruct b
           end; auto.
Qed.

Lemma parseDictionary_pair_total result p n :
  length p <= n ->
  (forall t, length t <= n -> pv t <> None) ->
  parseDictionary_pair pv result p <> None.
Proof.
  intros Hp H. unfold parseDictionary_pair.
  destruct (indexOf ":" p) as [i|]; [|discriminate].
  assert (H1 : pv (trim (firstn i p)) <> None).
  { apply H. pose proof (length_trim (firstn i p)).
    rewrite length_firstn in *. lia. }
  assert (H2 : pv (trim (skipn (S i) p)) <> None).
  { apply H. pose proof (length_trim (skipn (S i) p)).
    rewrite length_skipn in *. lia. }
  destruct (pv (trim (firstn i p))); [|contradiction].
  destruct (pv (trim (skipn (S i) p))); [discriminate | contradiction].
Qed.

Lemma parseDictionary_pairs_total pairs n : forall result,
  Forall (fun p => length p <= n) pairs ->
  (forall t, length t <= n -> pv t <> None) ->
  parseDictionary_pairs pv pairs result <> None.
Proof.
  induction pairs as [|p pairs IH]; intros result Hp H; [discriminate|].
  inversion Hp; subst. cbn [parseDictionary_pairs].
  pose proof (parseDictionary_pair_total result p n) as Ht.
  destruct (parseDictionary_pair pv result p); [|tauto].
  apply IH; assumption.
Qed.

Lemma inner_length s :
  startsWith "[" (trim s) = true \/ startsWith "{" (trim s) = true ->
  length (trim (slice_to_last 1 (trim s))) + 1 <= length s.
Proof.
  intros H.
  pose proof (length_trim (slice_to_last 1 (trim s))).
  pose proof (length_slice_to_last 1 (trim s)).
  pose proof (length_trim s).
  assert (length (trim s) <> 0).
  { destruct (trim s); [destruct H; discriminate | discriminate]. }
  lia.
Qed.

Lemma parseArray_rec_total s :
  (forall t, length t + 1 <= length s -> pv t <> None) ->
  parseArray_rec pv s <> None.
Proof.
  intros H. unfold parseArray_rec.
  destruct (startsWith "[" (trim s)) eqn:E; [|discriminate].
  destruct (negb (endsWith "]" (trim s))); [discriminate|]. cbn [negb orb].
  destruct (is_empty _); [discriminate|].
  apply parseArray_loop_total. intros t Ht. apply H.
  pose proof (@inner_length s (or_introl E)). simpl in Ht. lia.
Qed.

Lemma parseDictionary_rec_total s :
  (forall t, length t + 1 <= length s -> pv t <> None) ->
  parseDictionary_rec pv s <> None.
Proof.
  intros H. unfold parseDictionary_rec.
  destruct (startsWith "{" (trim s)) eqn:E; [|discriminate].
  destruct (negb (endsWith "}" (trim s))); [discriminate|]. cbn [negb orb].
  destruct (is_empty _); [discriminate|].
  pose proof (@inner_length s (or_intror E)).
  apply parseDictionary_pairs_total
    with (n := length (trim (slice_to_last 1 (trim s)))).
  - apply parseDictionary_loop_bound; [simpl; lia | constructor].
  - intros t Ht. apply H. lia.
Qed.



End Total.

Section Extensional.

Variables pv pv' : str -> option value.

Lemma parseArray_loop_ext inner : forall prev depth current inString result,
  (forall t, length t <= length inner + length current -> pv t = pv' t) ->
  parseArray_loop pv inner prev depth current inString result
  = parseArray_loop pv' inner prev depth current inString result.
Proof.
  induction inner as [|char rest IH]; intros prev depth current inString result H;
    cbn [parseArray_loop].
  - rewrite (H (trim current)); [reflexivity|].
    pose proof (length_trim current). simpl. lia.
  - assert (Hc : pv (trim current) = pv' (trim current)).
    { apply H. pose proof (length_trim current). simpl. lia. }
    assert (Hrec : forall t, length t <= length rest + length (current ++ [char]) ->
                             pv t = pv' t).
    { intros t Ht. apply H. rewrite length_app in Ht. simpl in *. lia. }
    assert (Hnil : forall t, length t <= length rest + length (@nil ascii) ->
                             pv t = pv' t).
    { intros t Ht. apply H. simpl in *. lia. }
    repeat match goal with
           | |- context [if ?b then _ else _] => destruct b
           end;
      rewrite <- ?Hc; try (destruct (pv (trim current))); auto.
Qed.

Lemma parseDictionary_pair_ext result p n :
  length p <= n ->
  (forall t, length t <= n -> pv t = pv' t) ->
  parseDictionary_pair pv result p = parseDictionary_pair pv' result p.
Proof.
  intros Hp H. unfold parseDictionary_pair.
  destruct (indexOf ":" p) as [i|]; [|reflexivity].
  rewrite <- !H; [reflexivity | |].
  - pose proof (length_trim (skipn (S i) p)). rewrite length_skipn in *. lia.
  - pose proof (length_trim (firstn i p)). rewrite length_firstn in *. lia.
Qed.

Lemma parseDictionary_pairs_ext pairs n : forall result,
  Forall (fun p => length p <= n) pairs ->
  (forall t, length t <= n -> pv t = pv' t) ->
  parseDictionary_pairs pv pairs result = parseDictionary_pairs pv' pairs result.
Proof.
  induction pairs as [|p pairs IH]; intros result Hp H; [reflexivity|].
  inversion Hp; subst. cbn [parseDictionary_pairs].
  rewrite (parseDictionary_pair_ext result p n) by assumption.
  destruct (parseDictionary_pair pv' result p); [|reflexivity].
  apply IH; assumption.
Qed.

Lemma parseArray_rec_ext s :
  (forall t, length t + 1 <= length s -> pv t = pv' t) ->
  parseArray_rec pv s = parseArray_rec pv' s.
Proof.
  intros H. unfold parseArray_rec.
  destruct (startsWith "[" (trim s)) eqn:E; [|reflexivity].
  destruct (negb (endsWith "]" (trim s))); [reflexivity|]. cbn [negb orb].
  destruct (is_empty _); [reflexivity|].
  apply parseArray_loop_ext. intros t Ht. apply H.
  pose proof (@inner_length s (or_introl E)). simpl in Ht. lia.
Qed.

Lemma parseDictionary_rec_ext s :
  (forall t, length t + 1 <= length s -> pv t = pv' t) ->
  parseDictionary_rec pv s = parseDictionary_rec pv' s.
Proof.
  intros H. unfold parseDictionary_rec.
  destruct (startsWith "{" (trim s)) eqn:E; [|reflexivity].
  destruct (negb (endsWith "}" (trim s))); [reflexivity|]. cbn [negb orb].
  destruct (is_empty _); [reflexivity|].
  pose proof (@inner_length s (or_intror E)).
  apply parseDictionary_pairs_ext
    with (n := length (trim (slice_to_last 1 (trim s)))).
  - apply parseDictionary_loop_bound; [simpl; lia | constructor].
  - intros t Ht. apply H. lia.
Qed.


End Extensional.

Lemma option_map_not_none {A B} (f : A -> B) o :
  o <> None -> option_map f o <> None.
Proof. destruct o; [discriminate | tauto]. Qed.

(** With more fuel than the string is long, [parseValue_fuel] returns,
    and the result does not depend on the fuel. *)
Lemma parseValue_fuel_stable n : forall s fuel fuel',
  length s <= n -> length s < fuel -> length s < fuel' ->
  parseValue_fuel fuel s = parseValue_fuel fuel' s
  /\ parseValue_fuel fuel s <> None.
Proof.
  induction n as [n IH] using lt_wf_ind.
  intros s [|f] [|f'] Hn Hf Hf'; try lia.
  pose proof (length_trim s) as Hts.
  assert (Hext : forall t, length t + 1 <= length (trim s) ->
                           parseValue_fuel f t = parseValue_fuel f' t).
  { intros t Ht. apply (IH (length t)); lia. }
  assert (Htot : forall t, length t + 1 <= length (trim s) ->
                           parseValue_fuel f t <> None).
  { intros t Ht. apply (IH (length t) ltac:(lia) t f f); lia. }
  cbn [parseValue_fuel]. unfold parseValue_body. cbv zeta.
  rewrite <- (parseArray_rec_ext _ _ (trim s) Hext).
  rewrite <- (parseDictionary_rec_ext _ _ (trim s) Hext).
  split; [reflexivity|].
  repeat match goal with
         | |- context [if ?b then _ else _] => destruct b
         end; try discriminate.
  - apply option_map_not_none, parseArray_rec_total, Htot.
  - apply option_map_not_none, parseDictionary_rec_total, Htot.
Qed.

Lemma parseValue_fuel_enough s fuel :
  length s < fuel -> parseValue_fuel fuel s = Some (parseValue s).
Proof.
  intros H. unfold parseValue.
  destruct (@parseValue_fuel_stable (length s) s fuel (S (length s))
              (le_n _) H ltac:(lia)) as [E1 E2].
  rewrite <- E1. destruct (parseValue_fuel fuel s); [reflexivity | contradiction].
Qed.

(** ** C2: parse is total and skips the lines it does not recognize *)

Lemma parse_loop_skips_unrecognized l rest result :
  is_tag_line l = false ->
  parse_loop (l :: rest) 0 result = parse_loop rest 0 result.
Proof.
  unfold is_tag_line. intros H.
  repeat (apply orb_false_iff in H; destruct H as [H ?]).
  cbn [parse_loop].
  repeat match goal with
         | E : startsWith ?p ?x = false |- _ => rewrite E; clear E
         end.
  reflexivity.
Qed.

Lemma split_join c lines :
  lines <> [] ->
  forallb (fun l => forallb (fun x => negb (ch_eqb x c)) l) lines = true ->
  split c (join [c] lines) = lines.
Proof.
  induction lines as [|p [|p' r] IH]; intros Hne H; [contradiction | |].
  - cbn [join]. apply split_no_sep. cbn [forallb] in H.
    apply andb_true_iff in H as [H _]. exact H.
  - cbn [forallb] in H. apply andb_true_iff in H as [H1 H2].
    change (join [c] (p :: p' :: r)) with (p ++ [c] ++ join [c] (p' :: r)).
    cbn [app]. rewrite split_app_sep by assumption.
    rewrite IH; [reflexivity | discriminate | exact H2].
Qed.

Lemma parse_lines_loop lines :
  lines <> [] -> forallb no_newline lines = true ->
  parse_lines lines = parse_loop lines 0 empty_scene.
Proof.
  intros Hne H. unfold parse_lines, parse.
  rewrite split_join by assumption. reflexivity.
Qed.


(** ** Trimming, slicing, searching *)

Lemma trimEnd_snoc s c : is_ws c = false -> trimEnd (s ++ [c]) = s ++ [c].
Proof.
  intros H. induction s as [|x s IH]; simpl.
  - rewrite H. reflexivity.
  - rewrite IH. destruct (s ++ [c]) eqn:E; [|reflexivity].
    destruct s; discriminate.
Qed.

Lemma trimEnd_last s d :
  s <> [] -> is_ws (last s d) = false -> trimEnd s = s.
Proof.
  intros Hne H. destruct (exists_last Hne) as [s' [c ->]].
  rewrite last_last in H. apply trimEnd_snoc; assumption.
Qed.

Lemma trim_trimmed s : trimmed s = true -> trim s = s.
Proof.
  destruct s as [|c s]; [reflexivity|]. unfold trimmed, trim.
  intros H. apply andb_true_iff in H as [H1 H2].
  apply negb_true_iff in H1, H2.
  cbn [trimStart]. rewrite H1.
  apply trimEnd_last with (d := c); [discriminate | assumption].
Qed.

Lemma trimmed_ends c s d :
  is_ws c = false -> is_ws d = false -> trimmed (c :: s ++ [d]) = true.
Proof.
  intros Hc Hd. unfold trimmed. rewrite Hc.
  change (c :: s ++ [d]) with ((c :: s) ++ [d]). rewrite last_last, Hd.
  reflexivity.
Qed.

Lemma trimStart_ws w s :
  forallb is_ws w = true -> trimStart (w ++ s) = trimStart s.
Proof.
  induction w as [|c w IH]; simpl; [reflexivity|].
  intros H. apply andb_true_iff in H as [H1 H2]. rewrite H1. auto.
Qed.

Lemma trimEnd_nil_iff s : trimEnd s = [] <-> forallb is_ws s = true.
Proof.
  induction s as [|c s IH]; simpl; [tauto|].
  destruct (trimEnd s) eqn:E.
  - destruct (is_ws c); simpl; [tauto | split; discriminate].
  - split; [discriminate|]. intros H. apply andb_true_iff in H as [_ H].
    apply IH in H. discriminate.
Qed.

Lemma trimEnd_ws s w :
  forallb is_ws w = true -> trimEnd (s ++ w) = trimEnd s.
Proof.
  intros H. induction s as [|c s IH]; simpl.
  - apply trimEnd_nil_iff; assumption.
  - rewrite IH. reflexivity.
Qed.

Lemma trimStart_trimmed s : trimmed s = true -> trimStart s = s.
Proof.
  destruct s as [|c s]; [reflexivity|]. unfold trimmed. intros H.
  apply andb_true_iff in H as [H _]. apply negb_true_iff in H.
  simpl. rewrite H. reflexivity.
Qed.

(** Whitespace around a trimmed text is removed by [trim]. *)
Lemma trim_pad w1 s w2 :
  forallb is_ws w1 = true -> forallb is_ws w2 = true -> trimmed s = true ->
  trim (w1 ++ s ++ w2) = s.
Proof.
  intros H1 H2 Hs. unfold trim. rewrite trimStart_ws by assumption.
  destruct s as [|c s].
  - simpl. replace (trimStart w2) with (@nil ascii); [reflexivity|].
    symmetry. clear -H2. induction w2 as [|x w IH]; simpl in *; [reflexivity|].
    apply andb_true_iff in H2 as [-> H2]. auto.
  - pose proof Hs as Hs'. unfold trimmed in Hs.
    apply andb_true_iff in Hs as [Hc Hl]. apply negb_true_iff in Hc.
    change ((c :: s) ++ w2) with (c :: (s ++ w2)). cbn [trimStart].
    rewrite Hc. change (c :: (s ++ w2)) with ((c :: s) ++ w2).
    rewrite trimEnd_ws by assumption.
    apply trim_trimmed in Hs'. unfold trim in Hs'.
    cbn [trimStart] in Hs'. rewrite Hc in Hs'. exact Hs'.
Qed.

Lemma startsWith_app p s : startsWith p (p ++ s) = true.
Proof. induction p; simpl; [reflexivity|]. rewrite ch_eqb_refl; assumption. Qed.

Lemma endsWith_snoc c s d : endsWith c (s ++ [d]) = ch_eqb d c.
Proof. unfold endsWith. rewrite rev_app_distr. reflexivity. Qed.

Lemma slice_to_last_exact p s d :
  slice_to_last (length p) (p ++ s ++ [d]) = s.
Proof.
  unfold slice_to_last. rewrite skipn_app, skipn_all, Nat.sub_diag.
  simpl. rewrite !length_app. simpl.
  replace (length p + (length s + 1) - 1 - length p) with (length s) by lia.
  rewrite firstn_app, firstn_all, Nat.sub_diag. simpl. apply app_nil_r.
Qed.

Lemma indexOf_app c a b :
  no_char c a = true -> indexOf c (a ++ c :: b) = Some (length a).
Proof.
  induction a as [|x a IH]; simpl; intros H.
  - rewrite ch_eqb_refl. reflexivity.
  - apply andb_true_iff in H as [H1 H2]. apply negb_true_iff in H1.
    rewrite H1, IH by assumption. reflexivity.
Qed.

Lemma firstn_exact {A} (a b : list A) : firstn (length a) (a ++ b) = a.
Proof.
  rewrite firstn_app, firstn_all, Nat.sub_diag. simpl. apply app_nil_r.
Qed.

Lemma skipn_exact {A} (a b : list A) x :
  skipn (S (length a)) (a ++ x :: b) = b.
Proof.
  induction a; simpl; [reflexivity | assumption].
Qed.

(** ** Escaping *)

Lemma escape_cons c s :
  escape (c :: s)
  = (if ch_eqb c backslash then [backslash; backslash]
     else if ch_eqb c dquote then [backslash; dquote]
     else [c]) ++ escape s.
Proof.
  unfold escape. cbn [replace_char].
  destruct (ch_eqb c backslash) eqn:E1.
  - apply ch_eqb_eq in E1; subst c. reflexivity.
  - cbn [replace_char]. destruct (ch_eqb c dquote); reflexivity.
Qed.

Lemma escape_nil : escape [] = [].
Proof. reflexivity. Qed.

Lemma replace_pair_cons_other a b by_ x r :
  ch_eqb x a = false ->
  replace_pair a b by_ (x :: r) = x :: replace_pair a b by_ r.
Proof.
  intros H. destruct r as [|y r]; cbn [replace_pair]; [reflexivity|].
  rewrite H. reflexivity.
Qed.

Lemma replace_pair_cons2 a b by_ x y r :
  replace_pair a b by_ (x :: y :: r)
  = if ch_eqb x a && ch_eqb y b then by_ ++ replace_pair a b by_ r
    else x :: replace_pair a b by_ (y :: r).
Proof. reflexivity. Qed.

Lemma unquote_pass s :
  replace_pair backslash dquote [dquote]
    (replace_char dquote [backslash; dquote] s) = s.
Proof.
  induction s as [|c s IH]; [reflexivity|].
  cbn [replace_char]. destruct (ch_eqb c dquote) eqn:E.
  - apply ch_eqb_eq in E; subst c. cbn [app].
    rewrite replace_pair_cons2. rewrite !ch_eqb_refl. cbn [andb app].
    rewrite IH. reflexivity.
  - destruct (replace_char dquote [backslash; dquote] s) as [|y r] eqn:Er.
    + cbn [replace_pair]. rewrite <- IH. reflexivity.
    + rewrite replace_pair_cons2.
      assert (Hy : ch_eqb c backslash && ch_eqb y dquote = false).
      { destruct (ch_eqb c backslash) eqn:Ec; [|reflexivity]. simpl.
        destruct s as [|z s]; [discriminate|]. cbn [replace_char] in Er.
        destruct (ch_eqb z dquote) eqn:Ez.
        - inversion Er; subst. reflexivity.
        - inversion Er; subst. exact Ez. }
      rewrite Hy, IH. reflexivity.
Qed.

Lemma unbackslash_pass s :
  replace_pair backslash backslash [backslash]
    (replace_char backslash [backslash; backslash] s) = s.
Proof.
  induction s as [|c s IH]; [reflexivity|].
  cbn [replace_char]. destruct (ch_eqb c backslash) eqn:E.
  - apply ch_eqb_eq in E; subst c. cbn [app].
    rewrite replace_pair_cons2.
    rewrite ch_eqb_refl. cbn [andb app]. rewrite IH. reflexivity.
  - rewrite replace_pair_cons_other by assumption. rewrite IH. reflexivity.
Qed.

(** Unescaping undoes escaping, for every string. *)
Lemma unescape_escape s : unescape (escape s) = s.
Proof.
  unfold unescape, escape. rewrite unquote_pass. apply unbackslash_pass.
Qed.

(** ** Printing and reading numbers *)

Lemma uint_of_digits_chars u : uint_of_digits (uint_chars u) = u.
Proof. induction u; simpl; [reflexivity | rewrite IHu; reflexivity ..]. Qed.

Lemma N_of_digits_of_N n : N_of_digits (digits_of_N n) = n.
Proof.
  unfold N_of_digits, digits_of_N. rewrite uint_of_digits_chars.
  apply DecimalN.Unsigned.of_to.
Qed.

Lemma digits_of_N_nonempty n : digits_of_N n <> [].
Proof.
  unfold digits_of_N. destruct n as [|p]; [discriminate|].
  simpl. pose proof (DecimalPos.Unsigned.to_uint_nonnil p) as H.
  destruct (Pos.to_uint p); [contradiction | discriminate ..].
Qed.

Lemma N_of_digits_leading_zeros k s :
  N_of_digits (repeat "0"%char k ++ s) = N_of_digits s.
Proof. induction k; simpl; [reflexivity | exact IHk]. Qed.

Lemma is_digit_not_ws c : is_digit c = true -> is_ws c = false.
Proof.
  unfold is_digit, is_ws. intros H. apply andb_true_iff in H as [H1 H2].
  apply Nat.leb_le in H1, H2.
  apply orb_false_iff; split; [apply orb_false_iff; split|].
  - apply andb_false_iff. right. apply Nat.leb_gt. lia.
  - apply Nat.eqb_neq. lia.
  - apply Nat.eqb_neq. lia.
Qed.

Lemma span_all p s : forallb p s = true -> span p s = (s, []).
Proof.
  induction s as [|c s IH]; simpl; [reflexivity|].
  intros H. apply andb_true_iff in H as [H1 H2].
  rewrite H1, IH by assumption. reflexivity.
Qed.

Lemma span_app p a c r :
  forallb p a = true -> p c = false -> span p (a ++ c :: r) = (a, c :: r).
Proof.
  induction a as [|x a IH]; simpl; intros Ha Hc.
  - rewrite Hc. reflexivity.
  - apply andb_true_iff in Ha as [H1 H2].
    rewrite H1, IH by assumption. reflexivity.
Qed.

Lemma length_dropWhileEnd p s : length (dropWhileEnd p s) <= length s.
Proof.
  induction s as [|c s IH]; simpl; [lia|].
  destruct (dropWhileEnd p s); [destruct (p c)|]; simpl in *; lia.
Qed.

Lemma dropWhileEnd_zeros s :
  dropWhileEnd (fun c => ch_eqb c "0") s
  ++ repeat "0"%char
       (length s - length (dropWhileEnd (fun c => ch_eqb c "0") s))
  = s.
Proof.
  induction s as [|c s IH]; [reflexivity|]. cbn [dropWhileEnd].
  pose proof (length_dropWhileEnd (fun c => ch_eqb c "0") s) as Hl.
  destruct (dropWhileEnd (fun c => ch_eqb c "0") s) as [|x t] eqn:E.
  - simpl in IH. destruct (ch_eqb c "0") eqn:Ec.
    + apply ch_eqb_eq in Ec; subst c. simpl. rewrite Nat.sub_0_r in IH.
      rewrite IH. reflexivity.
    + simpl. rewrite Nat.sub_0_r in *. rewrite IH. reflexivity.
  - replace (length (c :: s) - length (c :: x :: t))
      with (length s - length (x :: t)) by (simpl; lia).
    rewrite <- app_comm_cons. rewrite IH. reflexivity.
Qed.

Lemma dropWhileEnd_keep p s :
  match rev s with x :: _ => p x = false | [] => True end ->
  dropWhileEnd p s = s.
Proof.
  induction s as [|c s IH]; [reflexivity|]. cbn [dropWhileEnd rev].
  intros H. destruct (rev s) as [|x r] eqn:E.
  - assert (s = []) by (destruct s; [reflexivity|];
                        apply (f_equal (@length _)) in E;
                        rewrite length_rev in E; discriminate).
    subst s. simpl in *. rewrite H. reflexivity.
  - simpl in H. rewrite IH by exact H.
    destruct s; [discriminate | reflexivity].
Qed.

Lemma safe_number_nonzero m e :
  safe_number (Finite m e) = true -> e <> 0 -> m <> 0%Z.
Proof.
  intros H He Hm. subst m. unfold safe_number in H. simpl in H.
  destruct e; [contradiction | discriminate].
Qed.

Lemma num_to_string_safe m e :
  safe_number (Finite m e) = true ->
  num_to_string (Finite m e) = safe_text m e.
Proof.
  intros Hs. pose proof Hs as Hs0. unfold safe_number in Hs. cbv zeta in Hs.
  apply andb_true_iff in Hs as [Hs H3]. apply andb_true_iff in Hs as [H1 H2].
  apply Nat.leb_le in H2. apply Nat.ltb_lt in H3.
  unfold num_to_string, safe_text, sign_text. cbv zeta.
  set (ds := digits_of_N (Z.abs_N m)) in *.
  pose proof (length_dropWhileEnd (fun c => ch_eqb c "0") ds) as Hl.
  destruct (m =? 0)%Z eqn:Em.
  { apply Z.eqb_eq in Em. subst m.
    destruct e; [reflexivity|]. exfalso.
    apply (safe_number_nonzero _ _ Hs0); [discriminate | reflexivity]. }
  f_equal.
  destruct (e =? 0) eqn:Ee.
  - apply Nat.eqb_eq in Ee. subst e.
    set (s := dropWhileEnd (fun c => ch_eqb c "0") ds) in *.
    replace ((Z.of_nat (length s) <=? Z.of_nat (length ds) - Z.of_nat 0)%Z)
      with true by (symmetry; apply Z.leb_le; lia).
    replace ((Z.of_nat (length ds) - Z.of_nat 0 <=? 21)%Z)
      with true by (symmetry; apply Z.leb_le; lia).
    cbn [andb].
    replace (Z.to_nat (Z.of_nat (length ds) - Z.of_nat 0 - Z.of_nat (length s)))
      with (length ds - length s) by lia.
    apply dropWhileEnd_zeros.
  - apply Nat.eqb_neq in Ee. cbn [orb] in H1. apply negb_true_iff in H1.
    assert (Hk : dropWhileEnd (fun c => ch_eqb c "0") ds = ds).
    { apply dropWhileEnd_keep. unfold endsWith in H1.
      destruct (rev ds); [exact I | exact H1]. }
    rewrite Hk.
    replace ((Z.of_nat (length ds) <=? Z.of_nat (length ds) - Z.of_nat e)%Z)
      with false by (symmetry; apply Z.leb_gt; lia).
    cbn [andb].
    destruct (e <? length ds) eqn:El.
    + apply Nat.ltb_lt in El.
      replace ((0 <? Z.of_nat (length ds) - Z.of_nat e)%Z)
        with true by (symmetry; apply Z.ltb_lt; lia).
      replace ((Z.of_nat (length ds) - Z.of_nat e <=? 21)%Z)
        with true by (symmetry; apply Z.leb_le; lia).
      cbn [andb].
      replace (Z.to_nat (Z.of_nat (length ds) - Z.of_nat e))
        with (length ds - e) by lia.
      reflexivity.
    + apply Nat.ltb_ge in El.
      replace ((0 <? Z.of_nat (length ds) - Z.of_nat e)%Z)
        with false by (symmetry; apply Z.ltb_ge; lia).
      replace ((-6 <? Z.of_nat (length ds) - Z.of_nat e)%Z)
        with true by (symmetry; apply Z.ltb_lt; lia).
      replace ((Z.of_nat (length ds) - Z.of_nat e <=? 0)%Z)
        with true by (symmetry; apply Z.leb_le; lia).
      cbn [andb].
      replace (Z.to_nat (- (Z.of_nat (length ds) - Z.of_nat e)))
        with (e - length ds) by lia.
      reflexivity.
Qed.

Lemma safe_text_body m e : safe_text m e = sign_text m ++ safe_body m e.
Proof. reflexivity. Qed.

Lemma class_neq (p : ascii -> bool) c x :
  p c = true -> p x = false -> ch_eqb c x = false.
Proof.
  intros Hc Hx. destruct (ch_eqb c x) eqn:E; [|reflexivity].
  apply ch_eqb_eq in E. subst. congruence.
Qed.

Lemma strip_fraction_zeros_keep s e :
  e <> 0 -> s <> [] -> endsWith "0" s = false ->
  strip_fraction_zeros (rev s) e = (rev s, e).
Proof.
  intros He Hs H. unfold endsWith in H.
  destruct e; [contradiction|].
  destruct (rev s) as [|x r] eqn:E.
  - reflexivity.
  - simpl. rewrite H. reflexivity.
Qed.

Lemma endsWith_app c a b : b <> [] -> endsWith c (a ++ b) = endsWith c b.
Proof.
  intros Hb. unfold endsWith. rewrite rev_app_distr.
  destruct (rev b) eqn:E; [|reflexivity].
  apply (f_equal (@length _)) in E. rewrite length_rev in E.
  destruct b; [contradiction | discriminate].
Qed.

(** The shape of the text of a safe number. *)
Lemma safe_body_shape m e :
  safe_number (Finite m e) = true ->
  exists d1 d2,
    safe_body m e = d1 ++ (if e =? 0 then [] else "."%char :: d2)
    /\ d1 <> [] /\ forallb is_digit d1 = true /\ forallb is_digit d2 = true
    /\ length d2 = e
    /\ N_of_digits (d1 ++ d2) = Z.abs_N m
    /\ (e <> 0 ->
        strip_fraction_zeros (rev (d1 ++ d2)) e = (rev (d1 ++ d2), e)).
Proof.
  intros Hs. unfold safe_number in Hs. cbv zeta in Hs.
  apply andb_true_iff in Hs as [Hs H3]. apply andb_true_iff in Hs as [H1 H2].
  unfold safe_body. cbv zeta.
  set (ds := digits_of_N (Z.abs_N m)) in *.
  pose proof (digits_of_N_digits (Z.abs_N m)) as Hd. fold ds in Hd.
  pose proof (digits_of_N_nonempty (Z.abs_N m)) as Hne. fold ds in Hne.
  pose proof (N_of_digits_of_N (Z.abs_N m)) as Hv. fold ds in Hv.
  destruct (e =? 0) eqn:Ee.
  - apply Nat.eqb_eq in Ee. subst e. exists ds, [].
    rewrite !app_nil_r. repeat split; auto. intros H; contradiction.
  - apply Nat.eqb_neq in Ee. cbn [orb] in H1. apply negb_true_iff in H1.
    destruct (e <? length ds) eqn:El.
    + apply Nat.ltb_lt in El.
      exists (firstn (length ds - e) ds), (skipn (length ds - e) ds).
      rewrite firstn_skipn. repeat split; auto.
      * intros E. apply (f_equal (@length _)) in E.
        rewrite length_firstn in E. simpl in E. lia.
      * apply forallb_firstn; assumption.
      * apply forallb_skipn; assumption.
      * rewrite length_skipn. lia.
      * intros _. apply strip_fraction_zeros_keep; assumption.
    + apply Nat.ltb_ge in El.
      exists "0", (repeat "0"%char (e - length ds) ++ ds).
      repeat split; auto.
      * discriminate.
      * rewrite forallb_app, forallb_repeat by reflexivity. exact Hd.
      * rewrite length_app, repeat_length. lia.
      * change ("0" ++ repeat "0"%char (e - length ds) ++ ds)
          with (repeat "0"%char (S (e - length ds)) ++ ds).
        rewrite N_of_digits_leading_zeros. exact Hv.
      * intros _. apply strip_fraction_zeros_keep; [assumption | |].
        -- destruct ds; [contradiction | discriminate].
        -- change ("0" ++ repeat "0"%char (e - length ds) ++ ds)
             with (("0" ++ repeat "0"%char (e - length ds)) ++ ds).
           rewrite endsWith_app by assumption. exact H1.
Qed.

Lemma signed_abs m : signed (m <? 0)%Z (Z.of_N (Z.abs_N m)) = m.
Proof.
  unfold signed. rewrite N2Z.inj_abs_N.
  destruct (m <? 0)%Z eqn:E.
  - apply Z.ltb_lt in E. lia.
  - apply Z.ltb_ge in E. lia.
Qed.

Lemma read_sign_safe m body d r :
  body = d :: r -> is_digit d = true ->
  read_sign (sign_text m ++ body) = ((m <? 0)%Z, body).
Proof.
  intros -> Hd. unfold sign_text. destruct (m <? 0)%Z; [reflexivity|].
  simpl. rewrite (class_neq is_digit d "-" Hd eq_refl).
  rewrite (class_neq is_digit d "+" Hd eq_refl). reflexivity.
Qed.

Lemma trimStart_safe m body d r :
  body = d :: r -> is_digit d = true ->
  trimStart (sign_text m ++ body) = sign_text m ++ body.
Proof.
  intros -> Hd. unfold sign_text. destruct (m <? 0)%Z; [reflexivity|].
  simpl. rewrite (is_digit_not_ws d Hd). reflexivity.
Qed.

Lemma parseFloat_safe m e :
  safe_number (Finite m e) = true ->
  parseFloat (num_to_string (Finite m e)) = Finite m e.
Proof.
  intros Hs. rewrite num_to_string_safe by assumption.
  rewrite safe_text_body.
  destruct (@safe_body_shape m e Hs) as (d1 & d2 & Hb & Hne & Hd1 & Hd2 & Hl & Hv & Hstrip).
  destruct d1 as [|d r1] eqn:Ed1; [contradiction|]. rewrite <- Ed1 in *.
  assert (Hd : is_digit d = true).
  { rewrite Ed1 in Hd1. simpl in Hd1. apply andb_true_iff in Hd1 as [H _]. exact H. }
  assert (Hbody : exists r, safe_body m e = d :: r).
  { rewrite Hb, Ed1. eexists. reflexivity. }
  destruct Hbody as [r Hr].
  unfold parseFloat.
  rewrite (@trimStart_safe m _ d r Hr Hd), (@read_sign_safe m _ d r Hr Hd).
  rewrite Hr. cbn [startsWith]. rewrite (ch_eqb_sym "I" d).
  rewrite (class_neq is_digit d "I" Hd eq_refl).
  cbn [andb]. rewrite <- Hr, Hb.
  destruct (e =? 0) eqn:Ee.
  - apply Nat.eqb_eq in Ee. subst e.
    destruct d2; [|discriminate]. rewrite app_nil_r in *.
    rewrite span_all by assumption.
    rewrite Ed1 at 1. cbn [is_empty andb length].
    unfold decimal_value. cbn [Z.leb Z.sub Z.of_nat Z.compare Z.opp Z.add].
    rewrite app_nil_r, Hv. rewrite Z.pow_0_r, Z.mul_1_r, signed_abs. reflexivity.
  - apply Nat.eqb_neq in Ee.
    rewrite span_app by (assumption || reflexivity).
    cbn [ch_eqb]. rewrite ch_eqb_refl. rewrite span_all by assumption.
    rewrite Ed1 at 1. cbn [is_empty andb].
    unfold decimal_value. rewrite Hl.
    replace (0 <=? 0 - Z.of_nat e)%Z with false
      by (symmetry; apply Z.leb_gt; lia).
    replace (Z.to_nat (- (0 - Z.of_nat e))) with e by lia.
    rewrite Hstrip by assumption. rewrite rev_involutive, Hv, signed_abs.
    reflexivity.
Qed.

Lemma parseInt_safe m :
  safe_number (Finite m 0) = true ->
  parseInt (num_to_string (Finite m 0)) = Finite m 0.
Proof.
  intros Hs. rewrite num_to_string_safe by assumption.
  rewrite safe_text_body. unfold safe_body. cbn [Nat.eqb].
  pose proof (digits_of_N_digits (Z.abs_N m)) as Hd.
  pose proof (digits_of_N_nonempty (Z.abs_N m)) as Hne.
  destruct (digits_of_N (Z.abs_N m)) as [|d r] eqn:E; [contradiction|].
  assert (Hd0 : is_digit d = true).
  { simpl in Hd. apply andb_true_iff in Hd as [H _]. exact H. }
  unfold parseInt.
  rewrite (@trimStart_safe m _ d r eq_refl Hd0), (@read_sign_safe m _ d r eq_refl Hd0).
  rewrite span_all by assumption. cbn [is_empty].
  rewrite <- E, N_of_digits_of_N, signed_abs. reflexivity.
Qed.

Lemma is_int_literal_signed m body d r :
  body = d :: r -> is_digit d = true ->
  is_int_literal (sign_text m ++ body) = forallb is_digit body.
Proof.
  intros -> Hd. unfold is_int_literal, sign_text. destruct (m <? 0)%Z.
  - cbn [app]. rewrite ch_eqb_refl. reflexivity.
  - cbn [app]. rewrite (class_neq is_digit d "-" Hd eq_refl). reflexivity.
Qed.

Lemma is_float_literal_signed m body d r :
  body = d :: r -> is_digit d = true ->
  is_float_literal (sign_text m ++ body)
  = let (d1, r1) := span is_digit body in
    match r1 with
    | c :: r2 => ch_eqb c "." && negb (is_empty d1)
                 && negb (is_empty r2) && forallb is_digit r2
    | [] => false
    end.
Proof.
  intros -> Hd. unfold is_float_literal, sign_text. destruct (m <? 0)%Z.
  - cbn [app]. rewrite ch_eqb_refl. reflexivity.
  - cbn [app]. rewrite (class_neq is_digit d "-" Hd eq_refl). reflexivity.
Qed.

Lemma is_int_literal_safe m :
  safe_number (Finite m 0) = true ->
  is_int_literal (num_to_string (Finite m 0)) = true.
Proof.
  intros Hs. rewrite num_to_string_safe by assumption.
  rewrite safe_text_body. unfold safe_body. cbn [Nat.eqb].
  pose proof (digits_of_N_digits (Z.abs_N m)) as Hd.
  pose proof (digits_of_N_nonempty (Z.abs_N m)) as Hne.
  destruct (digits_of_N (Z.abs_N m)) as [|d r] eqn:E; [contradiction|].
  assert (Hd0 : is_digit d = true).
  { simpl in Hd. apply andb_true_iff in Hd as [H _]. exact H. }
  rewrite (@is_int_literal_signed m _ d r eq_refl Hd0). exact Hd.
Qed.

Lemma is_literal_safe_fraction m e :
  safe_number (Finite m e) = true -> e <> 0 ->
  is_int_literal (num_to_string (Finite m e)) = false
  /\ is_float_literal (num_to_string (Finite m e)) = true.
Proof.
  intros Hs He. rewrite num_to_string_safe by assumption.
  rewrite safe_text_body.
  destruct (@safe_body_shape m e Hs) as (d1 & d2 & Hb & Hne & Hd1 & Hd2 & Hl & Hv & Hstrip).
  apply Nat.eqb_neq in He. rewrite He in Hb.
  destruct d1 as [|d r1] eqn:Ed1; [contradiction|]. rewrite <- Ed1 in *.
  assert (Hd : is_digit d = true).
  { rewrite Ed1 in Hd1. simpl in Hd1. apply andb_true_iff in Hd1 as [H _]. exact H. }
  assert (Hr : safe_body m e = d :: (r1 ++ "."%char :: d2)).
  { rewrite Hb, Ed1. reflexivity. }
  rewrite (@is_int_literal_signed m _ d _ Hr Hd).
  rewrite (@is_float_literal_signed m _ d _ Hr Hd).
  rewrite Hb. split.
  - rewrite forallb_app. cbn [forallb]. cbn [is_digit nat_of_ascii].
    rewrite andb_false_r. reflexivity.
  - rewrite span_app by (assumption || reflexivity).
    rewrite ch_eqb_refl. rewrite Ed1 at 1. cbn [is_empty negb andb].
    rewrite Hd2. destruct d2; [simpl in Hl; apply Nat.eqb_neq in He; lia|].
    reflexivity.
Qed.

(** ** The top-level splitter *)

Lemma toggles_not_quote prev c : ch_eqb c dquote = false -> toggles prev c = false.
Proof. intros H. unfold toggles. rewrite H. reflexivity. Qed.

Lemma toggles_not_backslash prev c :
  not_backslash prev = true -> toggles prev c = ch_eqb c dquote.
Proof.
  unfold toggles, not_backslash. intros H. destruct prev as [p|].
  - rewrite H. apply andb_true_r.
  - apply andb_true_r.
Qed.

Lemma balanced_scan_app a : forall b prev depth inString,
  balanced_scan (a ++ b) prev depth inString
  = match balanced_scan a prev depth inString with
    | Some (prev', depth', inString') => balanced_scan b prev' depth' inString'
    | None => None
    end.
Proof.
  induction a as [|c a IH]; intros b prev depth inString; [reflexivity|].
  cbn [app balanced_scan].
  repeat match goal with
         | |- context [if ?x then _ else _] => destruct x
         end; try reflexivity; apply IH.
Qed.

Lemma balanced_scan_shift t : forall prev depth inString prev' depth' inString' k,
  (0 <= k)%Z ->
  balanced_scan t prev depth inString = Some (prev', depth', inString') ->
  balanced_scan t prev (depth + k) inString = Some (prev', (depth' + k)%Z, inString').
Proof.
  induction t as [|c t IH]; intros prev depth inString prev' depth' inString' k Hk H.
  - simpl in *. inversion H; subst. reflexivity.
  - cbn [balanced_scan] in *.
    destruct (if toggles prev c then negb inString else inString); cbn [negb] in *.
    + apply IH; assumption.
    + set (d2 := if is_close c
                 then ((if is_open c then depth + 1 else depth) - 1)%Z
                 else (if is_open c then (depth + 1)%Z else depth)) in *.
      replace (if is_close c
               then ((if is_open c then depth + k + 1 else depth + k) - 1)%Z
               else (if is_open c then (depth + k + 1)%Z else (depth + k)%Z))
        with (d2 + k)%Z
        by (unfold d2; destruct (is_close c), (is_open c); lia).
      destruct (ch_eqb c "," && (d2 <=? 0)%Z) eqn:E; [discriminate|].
      replace (ch_eqb c "," && (d2 + k <=? 0)%Z) with false.
      * apply IH; assumption.
      * symmetry. apply andb_false_iff in E as [E|E]; [rewrite E; reflexivity|].
        apply andb_false_iff. right. apply Z.leb_gt. apply Z.leb_gt in E. lia.
Qed.

Lemma balanced_scan_prev t : forall p q depth inString,
  t <> [] -> not_backslash p = true -> not_backslash q = true ->
  balanced_scan t p depth inString = balanced_scan t q depth inString.
Proof.
  destruct t as [|c t]; intros p q depth inString Hne Hp Hq; [contradiction|].
  cbn [balanced_scan].
  rewrite (toggles_not_backslash p c Hp), (toggles_not_backslash q c Hq).
  reflexivity.
Qed.

Lemma balanced_token t : balanced t = true -> token t.
Proof.
  unfold balanced, token. intros H prev depth Hp Hd.
  destruct (balanced_scan t None 0 false) as [[[p' d'] s']|] eqn:E; [|discriminate].
  apply andb_true_iff in H as [H1 H2]. apply Z.eqb_eq in H1.
  apply negb_true_iff in H2. subst d' s'.
  destruct t as [|c t].
  - exists prev. reflexivity.
  - exists p'. rewrite (@balanced_scan_prev (c :: t) prev None depth false)
      by (discriminate || assumption || reflexivity).
    apply (@balanced_scan_shift (c :: t) None 0 false p' 0 false depth Hd) in E.
    exact E.
Qed.

Section Loops.

Variable pv : str -> option value.

(** The loops pass over a text that [balanced_scan] accepts. *)
Lemma parseArray_loop_scan t : forall rest prev depth current inString result
                                      prev' depth' inString',
  balanced_scan t prev depth inString = Some (prev', depth', inString') ->
  parseArray_loop pv (t ++ rest) prev depth current inString result
  = parseArray_loop pv rest prev' depth' (current ++ t) inString' result.
Proof.
  induction t as [|c t IH];
    intros rest prev depth current inString result prev' depth' inString' H.
  - simpl in H. inversion H; subst. rewrite app_nil_r. reflexivity.
  - cbn [app parseArray_loop balanced_scan] in *.
    replace (current ++ c :: t) with ((current ++ [c]) ++ t)
      by (rewrite <- app_assoc; reflexivity).
    destruct (if toggles prev c then negb inString else inString);
      cbn [negb] in *.
    + apply IH; assumption.
    + set (d2 := if is_close c
                 then ((if is_open c then depth + 1 else depth) - 1)%Z
                 else (if is_open c then (depth + 1)%Z else depth)) in *.
      destruct (ch_eqb c ",") eqn:Ec; cbn [andb] in *.
      * destruct (d2 <=? 0)%Z eqn:E; [discriminate|].
        replace (d2 =? 0)%Z with false
          by (symmetry; apply Z.eqb_neq; apply Z.leb_gt in E; lia).
        apply IH; assumption.
      * apply IH; assumption.
Qed.

Lemma parseDictionary_loop_scan t : forall rest prev depth current inString pairs
                                           prev' depth' inString',
  balanced_scan t prev depth inString = Some (prev', depth', inString') ->
  parseDictionary_loop (t ++ rest) prev depth current inString pairs
  = parseDictionary_loop rest prev' depth' (current ++ t) inString' pairs.
Proof.
  induction t as [|c t IH];
    intros rest prev depth current inString pairs prev' depth' inString' H.
  - simpl in H. inversion H; subst. rewrite app_nil_r. reflexivity.
  - cbn [app parseDictionary_loop balanced_scan] in *.
    replace (current ++ c :: t) with ((current ++ [c]) ++ t)
      by (rewrite <- app_assoc; reflexivity).
    destruct (if toggles prev c then negb inString else inString);
      cbn [negb] in *.
    + apply IH; assumption.
    + set (d2 := if is_close c
                 then ((if is_open c then depth + 1 else depth) - 1)%Z
                 else (if is_open c then (depth + 1)%Z else depth)) in *.
      destruct (ch_eqb c ",") eqn:Ec; cbn [andb] in *.
      * destruct (d2 <=? 0)%Z eqn:E; [discriminate|].
        replace (d2 =? 0)%Z with false
          by (symmetry; apply Z.eqb_neq; apply Z.leb_gt in E; lia).
        apply IH; assumption.
      * apply IH; assumption.
Qed.

End Loops.

Lemma join_cons2 sep p p' r : join sep (p :: p' :: r) = p ++ sep ++ join sep (p' :: r).
Proof. reflexivity. Qed.

Lemma is_empty_false_iff (s : str) : is_empty s = false <-> s <> [].
Proof. destruct s; simpl; split; congruence. Qed.

Section Items.

Variable pv : str -> option value.

(** The loop of [parseArray] on the texts of the items, joined by a
    comma and a space. *)
Lemma parseArray_loop_items texts : forall vs current result prev,
  texts <> [] ->
  Forall token texts ->
  Forall (fun t => trimmed t = true /\ t <> []) texts ->
  Forall2 (fun t v => pv t = Some v) texts vs ->
  forallb is_ws current = true ->
  not_backslash prev = true ->
  parseArray_loop pv (join ", " texts) prev 0 current false result
  = Some (result ++ vs).
Proof.
  induction texts as [|t [|t2 r] IH];
    intros vs current result prev Hne Htok Htrim Hpv Hcur Hprev;
    [contradiction | |].
  - inversion Htok as [|? ? Ht _]; subst.
    inversion Htrim as [|? ? [Htr Htne] _]; subst.
    inversion Hpv as [|? v ? vs' Hv Hvs]; subst. inversion Hvs; subst.
    destruct (Ht prev 0%Z Hprev ltac:(lia)) as [prev' Hscan].
    cbn [join]. rewrite <- (app_nil_r t) at 1.
    erewrite parseArray_loop_scan by exact Hscan.
    cbn [parseArray_loop].
    replace (trim (current ++ t)) with t
      by (symmetry; rewrite <- (app_nil_r t) at 1;
          apply trim_pad; [assumption | reflexivity | assumption]).
    apply is_empty_false_iff in Htne. rewrite Htne. cbn [negb].
    rewrite Hv. reflexivity.
  - inversion Htok as [|? ? Ht Htok']; subst.
    inversion Htrim as [|? ? [Htr Htne] Htrim']; subst.
    inversion Hpv as [|? v ? vs' Hv Hvs]; subst.
    destruct (Ht prev 0%Z Hprev ltac:(lia)) as [prev' Hscan].
    rewrite join_cons2. remember (join ", " (t2 :: r)) as J eqn:EJ.
    erewrite parseArray_loop_scan by exact Hscan.
    cbn [app parseArray_loop].
    rewrite (toggles_not_quote prev' "," eq_refl).
    cbn [negb is_open is_close ch_eqb orb andb Z.eqb].
    replace (Ascii.eqb "," "[") with false by reflexivity.
    cbn.
    replace (trim (current ++ t)) with t
      by (symmetry; rewrite <- (app_nil_r t) at 1;
          apply trim_pad; [assumption | reflexivity | assumption]).
    rewrite Hv. subst J.
    rewrite (IH vs' " " (result ++ [v]) (Some " "%char));
      [rewrite <- app_assoc; reflexivity | discriminate | assumption ..
       | reflexivity | reflexivity].
Qed.

End Items.

(** The first loop of [parseDictionary] on the texts of the pairs. *)
Lemma parseDictionary_loop_items texts : forall current pairs prev,
  texts <> [] ->
  Forall token texts ->
  Forall (fun t => trimmed t = true /\ t <> []) texts ->
  forallb is_ws current = true ->
  not_backslash prev = true ->
  parseDictionary_loop (join ", " texts) prev 0 current false pairs
  = pairs ++ texts.
Proof.
  induction texts as [|t [|t2 r] IH];
    intros current pairs prev Hne Htok Htrim Hcur Hprev;
    [contradiction | |].
  - inversion Htok as [|? ? Ht _]; subst.
    inversion Htrim as [|? ? [Htr Htne] _]; subst.
    destruct (Ht prev 0%Z Hprev ltac:(lia)) as [prev' Hscan].
    cbn [join]. rewrite <- (app_nil_r t) at 1.
    erewrite parseDictionary_loop_scan by exact Hscan.
    cbn [parseDictionary_loop].
    replace (trim (current ++ t)) with t
      by (symmetry; rewrite <- (app_nil_r t) at 1;
          apply trim_pad; [assumption | reflexivity | assumption]).
    apply is_empty_false_iff in Htne. rewrite Htne. reflexivity.
  - inversion Htok as [|? ? Ht Htok']; subst.
    inversion Htrim as [|? ? [Htr Htne] Htrim']; subst.
    destruct (Ht prev 0%Z Hprev ltac:(lia)) as [prev' Hscan].
    rewrite join_cons2. remember (join ", " (t2 :: r)) as J eqn:EJ.
    erewrite parseDictionary_loop_scan by exact Hscan.
    cbn [app parseDictionary_loop].
    rewrite (toggles_not_quote prev' "," eq_refl).
    cbn.
    replace (trim (current ++ t)) with t
      by (symmetry; rewrite <- (app_nil_r t) at 1;
          apply trim_pad; [assumption | reflexivity | assumption]).
    subst J.
    rewrite (IH " " (pairs ++ [t]) (Some " "%char));
      [rewrite <- app_assoc; reflexivity | discriminate | assumption ..
       | reflexivity | reflexivity].
Qed.

(** ** Tokens *)

Lemma last_prev_cons c t prev : last_prev (c :: t) prev = last_prev t (Some c).
Proof.
  unfold last_prev. cbn [rev]. destruct (rev t); reflexivity.
Qed.

Lemma last_prev_snoc t c prev : last_prev (t ++ [c]) prev = Some c.
Proof. unfold last_prev. rewrite rev_app_distr. reflexivity. Qed.

Lemma balanced_scan_plain t : forall prev depth inString,
  forallb plain_char t = true ->
  balanced_scan t prev depth inString = Some (last_prev t prev, depth, inString).
Proof.
  induction t as [|c t IH]; intros prev depth inString H; [reflexivity|].
  cbn [forallb] in H. apply andb_true_iff in H as [Hc Ht].
  unfold plain_char in Hc.
  repeat (apply andb_true_iff in Hc; destruct Hc as [Hc ?]).
  repeat match goal with
         | E : negb _ = true |- _ => apply negb_true_iff in E
         end.
  cbn [balanced_scan]. rewrite toggles_not_quote by assumption.
  rewrite last_prev_cons.
  destruct inString; cbn [negb].
  - apply IH; assumption.
  - repeat match goal with E : _ = false |- _ => rewrite E; clear E end.
    cbn [andb]. apply IH; assumption.
Qed.

Lemma token_plain t : forallb plain_char t = true -> token t.
Proof.
  intros H prev depth _ _. eexists. apply balanced_scan_plain; assumption.
Qed.

(** Inside a string nothing changes as long as no quote toggles. *)
Lemma balanced_scan_in_string_no_quote t : forall prev depth,
  no_char dquote t = true ->
  balanced_scan t prev depth true = Some (last_prev t prev, depth, true).
Proof.
  induction t as [|c t IH]; intros prev depth H; [reflexivity|].
  cbn [no_char forallb] in H. apply andb_true_iff in H as [Hc Ht].
  apply negb_true_iff in Hc.
  cbn [balanced_scan]. rewrite toggles_not_quote by assumption.
  cbn [negb]. rewrite last_prev_cons. apply IH; assumption.
Qed.

Lemma escape_app a b : escape (a ++ b) = escape a ++ escape b.
Proof.
  induction a as [|c a IH]; [reflexivity|].
  change ((c :: a) ++ b) with (c :: (a ++ b)).
  rewrite !escape_cons, IH, app_assoc. reflexivity.
Qed.

Lemma balanced_scan_in_string_escape s : forall prev depth,
  balanced_scan (escape s) prev depth true
  = Some (last_prev (escape s) prev, depth, true).
Proof.
  induction s as [|c s IH]; intros prev depth; [reflexivity|].
  rewrite escape_cons.
  destruct (ch_eqb c backslash) eqn:E1; [|destruct (ch_eqb c dquote) eqn:E2].
  - cbn [app balanced_scan]. rewrite !toggles_not_quote by reflexivity.
    cbn [negb]. rewrite IH, !last_prev_cons. reflexivity.
  - cbn [app balanced_scan]. rewrite toggles_not_quote by reflexivity.
    cbn [negb]. unfold toggles at 1. rewrite !ch_eqb_refl. cbn [negb andb].
    rewrite IH, !last_prev_cons. reflexivity.
  - cbn [app balanced_scan]. rewrite toggles_not_quote by exact E2.
    cbn [negb]. rewrite IH, !last_prev_cons. reflexivity.
Qed.

Lemma escape_last_not_backslash s :
  endsWith backslash s = false ->
  not_backslash (last_prev (escape s) (Some dquote)) = true.
Proof.
  intros H. destruct (rev s) as [|c r] eqn:E.
  - assert (s = []).
    { destruct s; [reflexivity|]. apply (f_equal (@length _)) in E.
      rewrite length_rev in E. discriminate. }
    subst s. reflexivity.
  - assert (Hs : s = rev r ++ [c]).
    { rewrite <- (rev_involutive s), E. reflexivity. }
    unfold endsWith in H. rewrite E in H.
    rewrite Hs, escape_app. rewrite (escape_cons c []), escape_nil, app_nil_r.
    rewrite H. destruct (ch_eqb c dquote).
    + change [backslash; dquote] with ([backslash] ++ [dquote]).
      rewrite app_assoc, last_prev_snoc. reflexivity.
    + rewrite last_prev_snoc. cbn [not_backslash]. rewrite H. reflexivity.
Qed.

Lemma token_between_quotes t :
  (forall prev depth,
     balanced_scan t prev depth true = Some (last_prev t prev, depth, true)) ->
  not_backslash (last_prev t (Some dquote)) = true ->
  token (quote t).
Proof.
  intros Hin Hlast prev depth Hp Hd. unfold quote.
  change (dquote :: t ++ [dquote]) with ([dquote] ++ t ++ [dquote]).
  rewrite balanced_scan_app. cbn [balanced_scan].
  rewrite (toggles_not_backslash prev dquote Hp), ch_eqb_refl. cbn [negb].
  rewrite balanced_scan_app, Hin. cbn [balanced_scan].
  rewrite (toggles_not_backslash _ dquote Hlast), ch_eqb_refl. cbn.
  eexists. reflexivity.
Qed.

Lemma token_quoted s : endsWith backslash s = false -> token (quote (escape s)).
Proof.
  intros H. apply token_between_quotes.
  - intros. apply balanced_scan_in_string_escape.
  - apply escape_last_not_backslash; assumption.
Qed.

Lemma last_prev_not_backslash t prev :
  endsWith backslash t = false -> not_backslash prev = true ->
  not_backslash (last_prev t prev) = true.
Proof.
  unfold endsWith, last_prev. intros H Hp.
  destruct (rev t); [assumption|]. cbn [not_backslash]. rewrite H. reflexivity.
Qed.

Lemma token_reference s : ref_ok s = true -> token (quote s).
Proof.
  unfold ref_ok. intros H.
  apply andb_true_iff in H as [H H3]. apply andb_true_iff in H as [H1 H2].
  apply negb_true_iff in H3.
  apply token_between_quotes.
  - intros. apply balanced_scan_in_string_no_quote; assumption.
  - apply last_prev_not_backslash; [assumption | reflexivity].
Qed.

(** Tokens joined by a comma and a space, inside a bracket. *)
Lemma balanced_scan_join ts : forall prev depth,
  (1 <= depth)%Z -> not_backslash prev = true -> Forall token ts ->
  exists prev', balanced_scan (join ", " ts) prev depth false
                = Some (prev', depth, false).
Proof.
  induction ts as [|t [|t2 r] IH]; intros prev depth Hd Hp Hts.
  - exists prev. reflexivity.
  - inversion Hts; subst. cbn [join]. apply H1; [assumption | lia].
  - inversion Hts as [|? ? Ht Hts']; subst.
    rewrite join_cons2. remember (join ", " (t2 :: r)) as J eqn:EJ.
    destruct (Ht prev depth Hp ltac:(lia)) as [p1 H1].
    rewrite balanced_scan_app, H1. cbn [app balanced_scan].
    rewrite (toggles_not_quote p1 "," eq_refl). cbn [negb].
    replace (is_open ",") with false by reflexivity.
    replace (is_close ",") with false by reflexivity.
    replace (depth <=? 0)%Z with false by (symmetry; apply Z.leb_gt; lia).
    rewrite andb_false_r.
    rewrite (toggles_not_quote (Some ","%char) " " eq_refl). cbn.
    subst J. apply IH; [assumption | reflexivity | assumption].
Qed.

Lemma token_bracket pre o c ts :
  forallb plain_char pre = true ->
  is_open o = true -> is_close o = false -> ch_eqb o dquote = false ->
  ch_eqb o "," = false ->
  is_close c = true -> is_open c = false -> ch_eqb c dquote = false ->
  ch_eqb c "," = false ->
  Forall token ts ->
  token (pre ++ o :: join ", " ts ++ [c]).
Proof.
  intros Hpre Ho1 Ho2 Ho3 Ho4 Hc1 Hc2 Hc3 Hc4 Hts prev depth Hp Hd.
  rewrite balanced_scan_app, balanced_scan_plain by assumption.
  cbn [balanced_scan]. rewrite toggles_not_quote by exact Ho3. cbn [negb].
  rewrite Ho1, Ho2, Ho4. cbn [andb].
  rewrite balanced_scan_app.
  destruct (@balanced_scan_join ts (Some o) (depth + 1)%Z ltac:(lia)) as [p1 H1];
    [cbn [not_backslash]; destruct (ch_eqb o backslash) eqn:E; [|reflexivity];
     apply ch_eqb_eq in E; subst o; discriminate | assumption |].
  rewrite H1. cbn [balanced_scan]. rewrite toggles_not_quote by exact Hc3.
  cbn [negb]. rewrite Hc1, Hc2, Hc4. cbn [andb].
  eexists. f_equal. f_equal. f_equal. lia.
Qed.

Lemma token_pair k v : token k -> token v -> token (k ++ ": " ++ v).
Proof.
  intros Hk Hv prev depth Hp Hd.
  destruct (Hk prev depth Hp Hd) as [p1 H1].
  rewrite balanced_scan_app, H1. cbn [app balanced_scan].
  rewrite (toggles_not_quote p1 ":" eq_refl). cbn [negb].
  replace (is_open ":") with false by reflexivity.
  replace (is_close ":") with false by reflexivity.
  replace (ch_eqb ":" ",") with false by reflexivity. cbn [andb].
  rewrite (toggles_not_quote (Some ":"%char) " " eq_refl). cbn [negb].
  replace (is_open " ") with false by reflexivity.
  replace (is_close " ") with false by reflexivity.
  replace (ch_eqb " " ",") with false by reflexivity. cbn [andb].
  apply Hv; [reflexivity | assumption].
Qed.

Lemma num_char_plain c : num_char c = true -> plain_char c = true.
Proof.
  unfold num_char. intros H. apply orb_true_iff in H as [H|H].
  - unfold plain_char.
    rewrite (class_neq is_digit c dquote H eq_refl).
    rewrite (class_neq is_digit c "," H eq_refl).
    unfold is_open, is_close.
    rewrite (class_neq is_digit c "[" H eq_refl),
      (class_neq is_digit c "{" H eq_refl),
      (class_neq is_digit c "(" H eq_refl),
      (class_neq is_digit c "]" H eq_refl),
      (class_neq is_digit c "}" H eq_refl),
      (class_neq is_digit c ")" H eq_refl).
    reflexivity.
  - cbn [existsb] in H.
    repeat (apply orb_true_iff in H; destruct H as [H|H];
            [apply ch_eqb_eq in H; subst c; reflexivity|]).
    discriminate.
Qed.

Lemma token_number n : token (num_to_string n).
Proof.
  apply token_plain. apply forallb_impl with (p := num_char).
  - apply num_char_plain.
  - apply num_to_string_chars.
Qed.

(** ** Unfolding parseValue *)

Lemma parseValue_body_ext pv pv' s :
  (forall t, length t + 1 <= length (trim s) -> pv t = pv' t) ->
  parseValue_body pv s = parseValue_body pv' s.
Proof.
  intros H. unfold parseValue_body. cbv zeta.
  rewrite (parseArray_rec_ext pv pv' (trim s) H).
  rewrite (parseDictionary_rec_ext pv pv' (trim s) H).
  reflexivity.
Qed.

(** [parseValue] satisfies the recursive equation of the source. *)
Lemma parseValue_unfold s :
  parseValue_body (fun t => Some (parseValue t)) s = Some (parseValue s).
Proof.
  rewrite <- (parseValue_fuel_enough s (S (length s))) by lia.
  cbn [parseValue_fuel]. symmetry. apply parseValue_body_ext.
  intros t Ht. apply parseValue_fuel_enough.
  pose proof (length_trim s). lia.
Qed.

Lemma parseValue_from_body s v :
  parseValue_body (fun t => Some (parseValue t)) s = Some v -> parseValue s = v.
Proof. rewrite parseValue_unfold. congruence. Qed.

Lemma parseArray_total s :
  parseArray_rec (fun t => Some (parseValue t)) s = Some (parseArray s).
Proof.
  unfold parseArray.
  assert (E : parseArray_rec (parseValue_fuel (S (length s))) s
              = parseArray_rec (fun t => Some (parseValue t)) s).
  { apply parseArray_rec_ext. intros t Ht. apply parseValue_fuel_enough. lia. }
  rewrite E.
  pose proof (@parseArray_rec_total (fun t => Some (parseValue t)) s) as Ht.
  destruct (parseArray_rec (fun t => Some (parseValue t)) s); [reflexivity|].
  exfalso. apply Ht; [intros; discriminate | reflexivity].
Qed.

(** ** Values: primitives and strings *)

Lemma slice_to_last_prefix n p s d :
  length p = n -> slice_to_last n (p ++ s ++ [d]) = s.
Proof. intros <-. apply slice_to_last_exact. Qed.

Lemma parseValue_quoted s : parseValue (quote (escape s)) = VStr s.
Proof.
  apply parseValue_from_body. unfold parseValue_body. cbv zeta.
  assert (Ht : trim (quote (escape s)) = quote (escape s)).
  { apply trim_trimmed. apply trimmed_ends; reflexivity. }
  rewrite Ht. unfold quote at 1 2 3. cbn [str_eqb ch_eqb Ascii.eqb andb].
  replace (str_eqb (dquote :: escape s ++ [dquote]) "null") with false
    by reflexivity.
  replace (str_eqb (dquote :: escape s ++ [dquote]) "true") with false
    by reflexivity.
  replace (str_eqb (dquote :: escape s ++ [dquote]) "false") with false
    by reflexivity.
  unfold quote.
  change (dquote :: escape s ++ [dquote]) with ([dquote] ++ escape s ++ [dquote]).
  rewrite startsWith_app.
  rewrite (app_assoc [dquote] (escape s) [dquote]), endsWith_snoc, ch_eqb_refl.
  cbn [andb]. rewrite <- app_assoc.
  rewrite (@slice_to_last_prefix 1 [dquote] (escape s) dquote eq_refl).
  rewrite unescape_escape. reflexivity.
Qed.

Lemma matches_constructor_prefix name : forall s,
  matches_constructor name s = true -> exists rest, s = name ++ rest.
Proof.
  induction name as [|x name IH]; intros s H.
  - exists s. reflexivity.
  - destruct s as [|y s]; [discriminate|]. cbn [matches_constructor] in H.
    apply andb_true_iff in H as [H1 H2]. apply ch_eqb_eq in H1. subst y.
    destruct (IH s H2) as [rest ->]. exists rest. reflexivity.
Qed.

Lemma parseValue_raw s :
  isGodotValueString s = true -> trimmed s = true ->
  parsed_constructor s = false ->
  parseValue s = VStr s.
Proof.
  intros Hg Ht Hp. apply parseValue_from_body.
  unfold parseValue_body. cbv zeta. rewrite (trim_trimmed s Ht).
  unfold parsed_constructor in Hp. cbn [existsb] in Hp.
  repeat (apply orb_false_iff in Hp; destruct Hp as [? Hp]).
  unfold isGodotValueString in Hg. cbn [existsb] in Hg.
  repeat (apply orb_true_iff in Hg; destruct Hg as [Hg|Hg];
          [apply matches_constructor_prefix in Hg; destruct Hg as [rest ->];
           cbn in *;
           repeat match goal with
                  | E : ?x = false |- context [?x] => rewrite E
                  end;
           reflexivity|]).
  discriminate.
Qed.

(** ** Values: numbers *)

Lemma trimmed_no_ws s : forallb (fun c => negb (is_ws c)) s = true -> trimmed s = true.
Proof.
  intros H. destruct s as [|c s]; [reflexivity|].
  unfold trimmed. pose proof H as H0.
  cbn [forallb] in H. apply andb_true_iff in H as [H1 _]. rewrite H1.
  cbn [andb].
  assert (Hl : In (last (c :: s) c) (c :: s)).
  { destruct (@exists_last _ (c :: s) ltac:(discriminate)) as [s' [x E]].
    rewrite E, last_last. apply in_or_app. right. left. reflexivity. }
  rewrite forallb_forall in H0. apply H0. exact Hl.
Qed.

Lemma num_char_not_ws c : num_char c = true -> negb (is_ws c) = true.
Proof.
  unfold num_char. intros H. apply orb_true_iff in H as [H|H].
  - rewrite is_digit_not_ws by assumption. reflexivity.
  - cbn [existsb] in H.
    repeat (apply orb_true_iff in H; destruct H as [H|H];
            [apply ch_eqb_eq in H; subst c; reflexivity|]).
    discriminate.
Qed.

Lemma num_to_string_trimmed n : trimmed (num_to_string n) = true.
Proof.
  apply trimmed_no_ws. apply forallb_impl with (p := num_char).
  - apply num_char_not_ws.
  - apply num_to_string_chars.
Qed.

Lemma num_to_string_no_char c n :
  num_char c = false -> no_char c (num_to_string n) = true.
Proof.
  intros Hc. unfold no_char. apply forallb_impl with (p := num_char).
  - intros x Hx. apply negb_true_iff. apply (class_neq num_char x c Hx Hc).
  - apply num_to_string_chars.
Qed.

Lemma num_to_string_safe_nonempty m e :
  safe_number (Finite m e) = true -> num_to_string (Finite m e) <> [].
Proof.
  intros Hs. rewrite num_to_string_safe, safe_text_body by assumption.
  destruct (@safe_body_shape m e Hs) as (d1 & d2 & Hb & Hne & _).
  rewrite Hb. intros E. apply app_eq_nil in E as [_ E].
  apply app_eq_nil in E as [E _]. contradiction.
Qed.

Lemma parseValue_number n :
  safe_number n = true -> parseValue (num_to_string n) = VNum n.
Proof.
  intros Hs. destruct n as [| |m e]; try discriminate.
  apply parseValue_from_body. unfold parseValue_body. cbv zeta.
  rewrite (trim_trimmed _ (num_to_string_trimmed (Finite m e))).
  pose proof (num_to_string_no_char dquote (Finite m e) eq_refl) as Hq.
  pose proof (num_to_string_no_char "l" (Finite m e) eq_refl) as Hl.
  pose proof (num_to_string_no_char "u" (Finite m e) eq_refl) as Hu.
  pose proof (num_to_string_safe_nonempty m e Hs) as Hne.
  pose proof (fun H => @is_int_literal_safe m H) as Hint.
  pose proof (fun H => @parseInt_safe m H) as Hpi.
  pose proof (@is_literal_safe_fraction m e Hs) as Hfl.
  pose proof (@parseFloat_safe m e Hs) as Hpf.
  remember (num_to_string (Finite m e)) as t eqn:Et.
  destruct t as [|c r]; [contradiction|].
  cbn [no_char forallb] in Hq.
  apply andb_true_iff in Hq as [Hq _]. apply negb_true_iff in Hq.
  assert (E1 : str_eqb (c :: r) "null" = false).
  { apply str_eqb_neq. intros E. rewrite E in Hl. discriminate. }
  assert (E2 : str_eqb (c :: r) "true" = false).
  { apply str_eqb_neq. intros E. rewrite E in Hu. discriminate. }
  assert (E3 : str_eqb (c :: r) "false" = false).
  { apply str_eqb_neq. intros E. rewrite E in Hl. discriminate. }
  rewrite E1, E2, E3. cbn [startsWith]. rewrite ch_eqb_sym, Hq. cbn [andb].
  destruct (Nat.eq_dec e 0) as [->|He].
  - rewrite <- Et in Hint, Hpi. rewrite Et.
    rewrite is_int_literal_safe, parseInt_safe by assumption. reflexivity.
  - destruct (Hfl He) as [-> ->]. rewrite Hpf. reflexivity.
Qed.

(** The text of a component of a vector or of a color reads back. *)
Lemma parseFloat_component v :
  component_ok v = true ->
  exists n, v = VNum n /\ parseFloat (trim (num_to_string n)) = n.
Proof.
  destruct v as [| | |n| | |]; try discriminate. intros H. exists n.
  split; [reflexivity|].
  rewrite (trim_trimmed _ (num_to_string_trimmed n)).
  destruct n as [|neg|m e].
  - reflexivity.
  - destruct neg; reflexivity.
  - apply parseFloat_safe. exact H.
Qed.

(** ** Values: tagged records *)

Lemma parse_components_join ns : forall pre,
  ns <> [] ->
  forallb is_ws pre = true -> no_char "," pre = true ->
  Forall (fun n => component_ok (VNum n) = true) ns ->
  parse_components (pre ++ join ", " (map num_to_string ns)) = map VNum ns.
Proof.
  unfold parse_components.
  induction ns as [|n [|n2 r] IH]; intros pre Hne Hws Hc Hok; [contradiction | |].
  - inversion Hok as [|? ? Hn _]; subst. cbn [map join].
    destruct (parseFloat_component _ Hn) as (n' & E & Hp). inversion E; subst n'.
    rewrite split_no_sep.
    + cbn [map]. rewrite <- (app_nil_r (num_to_string n)) at 1.
      rewrite trim_pad by (assumption || reflexivity || apply num_to_string_trimmed).
      rewrite (trim_trimmed _ (num_to_string_trimmed n)) in Hp.
      rewrite Hp. reflexivity.
    + fold (no_char "," (pre ++ num_to_string n)). unfold no_char in *.
      rewrite forallb_app, Hc. apply num_to_string_no_char. reflexivity.
  - inversion Hok as [|? ? Hn Hok']; subst.
    destruct (parseFloat_component _ Hn) as (n' & E & Hp). inversion E; subst n'.
    change (join ", " (map num_to_string (n :: n2 :: r)))
      with (num_to_string n ++ ", " ++ join ", " (map num_to_string (n2 :: r))).
    remember (join ", " (map num_to_string (n2 :: r))) as J eqn:EJ.
    replace (pre ++ num_to_string n ++ ", " ++ J)
      with ((pre ++ num_to_string n) ++ ","%char :: (" " ++ J))
      by (rewrite <- app_assoc; reflexivity).
    rewrite split_app_sep.
    + cbn [map]. rewrite <- (app_nil_r (num_to_string n)) at 1.
      rewrite trim_pad by (assumption || reflexivity || apply num_to_string_trimmed).
      rewrite (trim_trimmed _ (num_to_string_trimmed n)) in Hp. rewrite Hp.
      subst J. rewrite IH; [reflexivity | discriminate | reflexivity
                            | reflexivity | assumption].
    + fold (no_char "," (pre ++ num_to_string n)). unfold no_char in *.
      rewrite forallb_app, Hc. apply num_to_string_no_char. reflexivity.
Qed.

Lemma no_newline_app a b : no_newline (a ++ b) = no_newline a && no_newline b.
Proof. apply forallb_app. Qed.

Lemma no_newline_num n : no_newline (num_to_string n) = true.
Proof. apply num_to_string_no_char. reflexivity. Qed.

Lemma no_newline_join_nums ns :
  no_newline (join ", " (map num_to_string ns)) = true.
Proof.
  induction ns as [|n [|n2 r] IH]; [reflexivity | apply no_newline_num |].
  change (join ", " (map num_to_string (n :: n2 :: r)))
    with (num_to_string n ++ ", " ++ join ", " (map num_to_string (n2 :: r))).
  rewrite !no_newline_app, no_newline_num, IH. reflexivity.
Qed.

Lemma Forall_token_nums ns : Forall token (map num_to_string ns).
Proof.
  induction ns; constructor; [apply token_number | assumption].
Qed.

(** The text [name(n1, n2, ...)] of a constructor call over numbers. *)
Lemma constructor_text_facts name ns :
  name <> [] -> forallb plain_char name = true ->
  no_newline name = true ->
  is_ws (hd " "%char name) = false ->
  let t := name ++ "(" ++ join ", " (map num_to_string ns) ++ ")" in
  t <> [] /\ trimmed t = true /\ no_newline t = true /\ token t.
Proof.
  intros Hne Hplain Hnl Hws t. subst t.
  destruct name as [|c name]; [contradiction|]. cbn [hd] in Hws.
  split; [discriminate|]. split.
  { change ((c :: name) ++ "(" ++ join ", " (map num_to_string ns) ++ ")")
      with (c :: (name ++ "(" ++ join ", " (map num_to_string ns) ++ ")")).
    replace (name ++ "(" ++ join ", " (map num_to_string ns) ++ ")")
      with ((name ++ "(" ++ join ", " (map num_to_string ns)) ++ [")"%char])
      by (rewrite <- !app_assoc; reflexivity).
    apply trimmed_ends; [assumption | reflexivity]. }
  split.
  { rewrite !no_newline_app, Hnl, no_newline_join_nums. reflexivity. }
  apply (token_bracket (c :: name) "(" ")" (map num_to_string ns));
    try reflexivity; try assumption.
  apply Forall_token_nums.
Qed.

Ltac component_numbers :=
  repeat match goal with
         | H : component_ok ?v = true |- _ =>
             let n := fresh "n" in
             let E := fresh "E" in
             let Hp := fresh "Hp" in
             let Hc := fresh "Hc" in
             pose proof H as Hc;
             destruct (parseFloat_component v H) as (n & E & Hp);
             subst v; clear H
         end.

Ltac str_eqs :=
  repeat match goal with
         | H : str_eqb _ _ = true |- _ => apply str_eqb_eq in H; subst
         end.

Lemma parse_constructor_call (pv : str -> option value) name ns r :
  match name with c :: _ => existsb (ch_eqb c) ["V"; "C"]%char | [] => false end = true ->
  ns <> [] ->
  Forall (fun n => component_ok (VNum n) = true) ns ->
  (forall t parts,
     t = name ++ "(" ++ join ", " (map num_to_string ns) ++ ")" ->
     trim t = t ->
     str_eqb t "null" = false -> str_eqb t "true" = false ->
     str_eqb t "false" = false ->
     startsWith [dquote] t && endsWith dquote t = false ->
     is_int_literal t = false -> is_float_literal t = false ->
     parts = map VNum ns ->
     parse_components (slice_to_last (length name + 1) t) = parts ->
     r t parts) ->
  r (name ++ "(" ++ join ", " (map num_to_string ns) ++ ")") (map VNum ns).
Proof.
  intros Hc Hne Hok Hr.
  destruct name as [|c name]; [discriminate|].
  apply Hr; try reflexivity.
  - apply trim_trimmed.
    replace ((c :: name) ++ "(" ++ join ", " (map num_to_string ns) ++ ")")
      with (c :: (name ++ "(" ++ join ", " (map num_to_string ns)) ++ [")"%char])
      by (cbn [app]; rewrite <- !app_assoc; reflexivity).
    apply trimmed_ends; [|reflexivity].
    cbn [existsb] in Hc.
    repeat (apply orb_true_iff in Hc; destruct Hc as [Hc|Hc];
            [apply ch_eqb_eq in Hc; subst c; reflexivity|]).
    discriminate.
  - cbn [existsb] in Hc.
    repeat (apply orb_true_iff in Hc; destruct Hc as [Hc|Hc];
            [apply ch_eqb_eq in Hc; subst c; reflexivity|]).
    discriminate.
  - cbn [existsb] in Hc.
    repeat (apply orb_true_iff in Hc; destruct Hc as [Hc|Hc];
            [apply ch_eqb_eq in Hc; subst c; reflexivity|]).
    discriminate.
  - cbn [existsb] in Hc.
    repeat (apply orb_true_iff in Hc; destruct Hc as [Hc|Hc];
            [apply ch_eqb_eq in Hc; subst c; reflexivity|]).
    discriminate.
  - cbn [existsb] in Hc.
    repeat (apply orb_true_iff in Hc; destruct Hc as [Hc|Hc];
            [apply ch_eqb_eq in Hc; subst c; reflexivity|]).
    discriminate.
  - cbn [existsb] in Hc.
    repeat (apply orb_true_iff in Hc; destruct Hc as [Hc|Hc];
            [apply ch_eqb_eq in Hc; subst c; reflexivity|]).
    discriminate.
  - cbn [existsb] in Hc.
    repeat (apply orb_true_iff in Hc; destruct Hc as [Hc|Hc];
            [apply ch_eqb_eq in Hc; subst c; reflexivity|]).
    discriminate.
  - replace ((c :: name) ++ "(" ++ join ", " (map num_to_string ns) ++ ")")
      with (((c :: name) ++ "(") ++ join ", " (map num_to_string ns) ++ [")"%char])
      by (rewrite <- !app_assoc; reflexivity).
    rewrite slice_to_last_prefix by (rewrite length_app; reflexivity).
    rewrite <- (app_nil_l (join ", " (map num_to_string ns))).
    apply parse_components_join; (assumption || reflexivity).
Qed.

Lemma round_trips_vector2 nested obj :
  is_vector2 obj = true -> round_trips nested (VObj obj).
Proof.
  unfold is_vector2. intros H.
  destruct obj as [|[k0 [| | | |t| |]] [|[k1 x] [|[k2 y] [|]]]]; try discriminate.
  repeat (apply andb_true_iff in H; destruct H as [H ?]).
  str_eqs. component_numbers.
  unfold round_trips. cbv zeta.
  match goal with
  | |- context [serializeValue ?v] =>
      assert (Etext : serializeValue v
                      = "Vector2" ++ "(" ++ join ", " (map num_to_string [n0; n]) ++ ")")
        by (cbn; repeat (rewrite <- app_assoc; cbn [app]); reflexivity);
      rewrite Etext
  end.
  pose proof (constructor_text_facts "Vector2" [n0; n] ltac:(discriminate)
                eq_refl eq_refl eq_refl) as (F1 & F2 & F3 & F4).
  split; [|auto].
  apply parseValue_from_body.
  apply (parse_constructor_call (fun t => Some (parseValue t)) "Vector2" [n0; n]
           (fun t parts =>
              parseValue_body (fun t => Some (parseValue t)) t
              = Some (tagged "Vector2" [("x", component 0 parts);
                                         ("y", component 1 parts)]))).
  - reflexivity.
  - discriminate.
  - repeat constructor; assumption.
  - intros t parts Et Htrim E1 E2 E3 E4 E5 E6 Eparts Hparse.
    unfold parseValue_body. cbv zeta.
    rewrite Htrim, E1, E2, E3, E4, E5, E6.
    rewrite Et at 1. cbn [startsWith app ch_eqb]. rewrite !ch_eqb_refl.
    cbn [andb]. change 8 with (length "Vector2" + 1). rewrite Hparse.
    reflexivity.
Qed.

Lemma round_trips_vector3 nested obj :
  is_vector3 obj = true -> round_trips nested (VObj obj).
Proof.
  unfold is_vector3. intros H.
  destruct obj as [|[k0 [| | | |t| |]] [|[k1 x] [|[k2 y] [|[k3 z] [|]]]]];
    try discriminate.
  repeat (apply andb_true_iff in H; destruct H as [H ?]).
  str_eqs. component_numbers.
  unfold round_trips. cbv zeta.
  match goal with
  | |- context [serializeValue ?v] =>
      assert (Etext : serializeValue v
                      = "Vector3" ++ "(" ++ join ", " (map num_to_string [n1; n0; n]) ++ ")")
        by (cbn; repeat (rewrite <- app_assoc; cbn [app]); reflexivity);
      rewrite Etext
  end.
  pose proof (constructor_text_facts "Vector3" [n1; n0; n] ltac:(discriminate)
                eq_refl eq_refl eq_refl) as (F1 & F2 & F3 & F4).
  split; [|auto].
  apply parseValue_from_body.
  apply (parse_constructor_call (fun t => Some (parseValue t)) "Vector3" [n1; n0; n]
           (fun t parts =>
              parseValue_body (fun t => Some (parseValue t)) t
              = Some (tagged "Vector3" [("x", component 0 parts);
                                         ("y", component 1 parts);
                                         ("z", component 2 parts)]))).
  - reflexivity.
  - discriminate.
  - repeat constructor; assumption.
  - intros t parts Et Htrim E1 E2 E3 E4 E5 E6 Eparts Hparse.
    unfold parseValue_body. cbv zeta.
    rewrite Htrim, E1, E2, E3, E4, E5, E6.
    replace (startsWith "Vector2(" t) with false by (subst t; reflexivity).
    replace (startsWith "Vector3(" t) with true by (subst t; reflexivity).
    change 8 with (length "Vector3" + 1). rewrite Hparse.
    reflexivity.
Qed.

Lemma round_trips_color nested obj :
  is_color obj = true -> round_trips nested (VObj obj).
Proof.
  unfold is_color. intros H.
  destruct obj as [|[k0 [| | | |t| |]] [|[k1 r] [|[k2 g] [|[k3 b] [|[k4 a] [|]]]]]];
    try discriminate.
  repeat (apply andb_true_iff in H; destruct H as [H ?]).
  str_eqs. component_numbers.
  unfold round_trips. cbv zeta.
  match goal with
  | |- context [serializeValue ?v] =>
      assert (Etext : serializeValue v
                      = "Color" ++ "(" ++ join ", " (map num_to_string [n2; n1; n0; n]) ++ ")")
        by (cbn; repeat (rewrite <- app_assoc; cbn [app]); reflexivity);
      rewrite Etext
  end.
  pose proof (constructor_text_facts "Color" [n2; n1; n0; n] ltac:(discriminate)
                eq_refl eq_refl eq_refl) as (F1 & F2 & F3 & F4).
  split; [|auto].
  apply parseValue_from_body.
  apply (parse_constructor_call (fun t => Some (parseValue t)) "Color" [n2; n1; n0; n]
           (fun t parts =>
              parseValue_body (fun t => Some (parseValue t)) t
              = Some (tagged "Color"
                        [("r", component 0 parts); ("g", component 1 parts);
                         ("b", component 2 parts);
                         ("a", nullish_or (component 3 parts) (VNum (Finite 1 0)))]))).
  - reflexivity.
  - discriminate.
  - repeat constructor; assumption.
  - intros t parts Et Htrim E1 E2 E3 E4 E5 E6 Eparts Hparse.
    unfold parseValue_body. cbv zeta.
    rewrite Htrim, E1, E2, E3, E4, E5, E6.
    replace (startsWith "Vector2(" t) with false by (subst t; reflexivity).
    replace (startsWith "Vector3(" t) with false by (subst t; reflexivity).
    replace (startsWith "Color(" t) with true by (subst t; reflexivity).
    change 6 with (length "Color" + 1). rewrite Hparse.
    reflexivity.
Qed.

(** References: [ExtResource("id")], [SubResource("id")],
    [NodePath("path")]. *)
Lemma replace_quotes_none s : no_char dquote s = true -> replace_char dquote [] s = s.
Proof.
  induction s as [|c s IH]; [reflexivity|]. cbn [no_char forallb].
  intros H. apply andb_true_iff in H as [H1 H2]. apply negb_true_iff in H1.
  cbn [replace_char]. rewrite H1. rewrite IH by exact H2. reflexivity.
Qed.

Lemma unquote_reference s :
  no_char dquote s = true -> replace_char dquote [] (quote s) = s.
Proof.
  intros H. unfold quote. cbn [replace_char]. rewrite ch_eqb_refl. cbn [app].
  assert (E : forall t, replace_char dquote [] (t ++ [dquote]) = replace_char dquote [] t).
  { induction t as [|c t IH]; cbn [app replace_char].
    - rewrite ch_eqb_refl. reflexivity.
    - destruct (ch_eqb c dquote); rewrite IH; reflexivity. }
  rewrite E. apply replace_quotes_none. exact H.
Qed.

Lemma reference_text_facts name s :
  name <> [] -> forallb plain_char name = true -> no_newline name = true ->
  is_ws (hd " "%char name) = false ->
  ref_ok s = true ->
  let t := name ++ "(" ++ quote s ++ ")" in
  t <> [] /\ trimmed t = true /\ no_newline t = true /\ token t.
Proof.
  intros Hne Hplain Hnl Hws Hs t. subst t.
  destruct name as [|c name]; [contradiction|]. cbn [hd] in Hws.
  split; [discriminate|]. split.
  { replace ((c :: name) ++ "(" ++ quote s ++ ")")
      with (c :: (name ++ "(" ++ quote s) ++ [")"%char])
      by (cbn [app]; rewrite <- !app_assoc; reflexivity).
    apply trimmed_ends; [assumption | reflexivity]. }
  split.
  { unfold ref_ok in Hs. apply andb_true_iff in Hs as [Hs _].
    apply andb_true_iff in Hs as [_ Hs].
    unfold quote. rewrite !no_newline_app, Hnl. cbn [no_newline forallb].
    fold (no_newline (s ++ [dquote])). rewrite no_newline_app, Hs. reflexivity. }
  apply (token_bracket (c :: name) "(" ")" [quote s]);
    try reflexivity; try assumption.
  constructor; [apply token_reference; assumption | constructor].
Qed.

Lemma round_trips_reference nested type field obj :
  In (type, field, length type + 1)
     [("ExtResource", "id", 12); ("SubResource", "id", 12); ("NodePath", "path", 9)] ->
  is_reference type field obj = true -> round_trips nested (VObj obj).
Proof.
  unfold is_reference. intros Hin H.
  destruct obj as [|[k0 [| | | |t| |]] [|[k1 [| | | |s| |]] [|]]]; try discriminate.
  repeat (apply andb_true_iff in H; destruct H as [H ?]).
  str_eqs. rename H0 into Hs.
  pose proof Hs as Hs'. unfold ref_ok in Hs'.
  apply andb_true_iff in Hs' as [Hs' _]. apply andb_true_iff in Hs' as [Hq _].
  unfold round_trips. cbv zeta.
  cbn [In] in Hin.
  destruct Hin as [E|[E|[E|[]]]]; inversion E; subst; clear E.
  - match goal with
    | |- context [serializeValue ?v] =>
        assert (Etext : serializeValue v = "ExtResource" ++ "(" ++ quote s ++ ")")
          by (cbn; repeat (rewrite <- app_assoc; cbn [app]); reflexivity);
        rewrite Etext
    end.
    pose proof (reference_text_facts "ExtResource" s ltac:(discriminate)
                  eq_refl eq_refl eq_refl Hs) as (F1 & F2 & F3 & F4).
    split; [|auto].
    apply parseValue_from_body. unfold parseValue_body. cbv zeta.
    rewrite (trim_trimmed _ F2).
    replace (("ExtResource" ++ "(" ++ quote s ++ ")"))
      with ("ExtResource(" ++ quote s ++ [")"%char]) by reflexivity.
    rewrite (slice_to_last_prefix 12 "ExtResource(" (quote s) ")" eq_refl).
    rewrite unquote_reference by assumption. reflexivity.
  - match goal with
    | |- context [serializeValue ?v] =>
        assert (Etext : serializeValue v = "SubResource" ++ "(" ++ quote s ++ ")")
          by (cbn; repeat (rewrite <- app_assoc; cbn [app]); reflexivity);
        rewrite Etext
    end.
    pose proof (reference_text_facts "SubResource" s ltac:(discriminate)
                  eq_refl eq_refl eq_refl Hs) as (F1 & F2 & F3 & F4).
    split; [|auto].
    apply parseValue_from_body. unfold parseValue_body. cbv zeta.
    rewrite (trim_trimmed _ F2).
    replace (("SubResource" ++ "(" ++ quote s ++ ")"))
      with ("SubResource(" ++ quote s ++ [")"%char]) by reflexivity.
    rewrite (slice_to_last_prefix 12 "SubResource(" (quote s) ")" eq_refl).
    rewrite unquote_reference by assumption. reflexivity.
  - match goal with
    | |- context [serializeValue ?v] =>
        assert (Etext : serializeValue v = "NodePath" ++ "(" ++ quote s ++ ")")
          by (cbn; repeat (rewrite <- app_assoc; cbn [app]); reflexivity);
        rewrite Etext
    end.
    pose proof (reference_text_facts "NodePath" s ltac:(discriminate)
                  eq_refl eq_refl eq_refl Hs) as (F1 & F2 & F3 & F4).
    split; [|auto].
    apply parseValue_from_body. unfold parseValue_body. cbv zeta.
    rewrite (trim_trimmed _ F2).
    replace (("NodePath" ++ "(" ++ quote s ++ ")"))
      with ("NodePath(" ++ quote s ++ [")"%char]) by reflexivity.
    rewrite (slice_to_last_prefix 9 "NodePath(" (quote s) ")" eq_refl).
    rewrite unquote_reference by assumption. reflexivity.
Qed.

(** ** Values: strings and primitives *)

Lemma no_char_escape c s :
  ch_eqb c backslash = false -> ch_eqb c dquote = false ->
  no_char c s = true -> no_char c (escape s) = true.
Proof.
  intros Hb Hq. induction s as [|x s IH]; [reflexivity|].
  cbn [no_char forallb]. intros H. apply andb_true_iff in H as [H1 H2].
  rewrite escape_cons. unfold no_char in *. rewrite forallb_app.
  rewrite (IH H2), andb_true_r.
  destruct (ch_eqb x backslash) eqn:E1; [|destruct (ch_eqb x dquote) eqn:E2].
  - cbn [forallb]. rewrite (ch_eqb_sym backslash c), Hb. reflexivity.
  - cbn [forallb]. rewrite (ch_eqb_sym backslash c), Hb.
    rewrite (ch_eqb_sym dquote c), Hq. reflexivity.
  - cbn [forallb]. rewrite H1. reflexivity.
Qed.

Lemma no_newline_quote s : no_newline s = true -> no_newline (quote s) = true.
Proof.
  intros H. unfold quote.
  change (dquote :: s ++ [dquote]) with ([dquote] ++ s ++ [dquote]).
  rewrite !no_newline_app, H. reflexivity.
Qed.

Lemma godot_string_nonempty s : isGodotValueString s = true -> s <> [].
Proof.
  intros H. unfold isGodotValueString in H. cbn [existsb] in H.
  repeat (apply orb_true_iff in H; destruct H as [H|H];
          [apply matches_constructor_prefix in H; destruct H as [rest ->];
           discriminate|]).
  discriminate.
Qed.

Lemma round_trips_string nested s :
  string_ok nested s = true -> round_trips nested (VStr s).
Proof.
  unfold string_ok, round_trips. intros H. cbv zeta.
  apply andb_true_iff in H as [Hnl H]. cbn [serializeValue].
  unfold serializeString. destruct (isGodotValueString s) eqn:Eg.
  - apply andb_true_iff in H as [H Hb]. apply andb_true_iff in H as [Ht Hp].
    apply negb_true_iff in Hp.
    split; [apply parseValue_raw; assumption|].
    split; [apply godot_string_nonempty; assumption|].
    split; [assumption|]. split; [assumption|].
    intros ->. cbn [negb orb] in Hb. apply balanced_token. exact Hb.
  - split; [apply parseValue_quoted|].
    split; [discriminate|].
    split; [apply trimmed_ends; reflexivity|].
    split.
    + apply no_newline_quote. apply no_char_escape; (reflexivity || assumption).
    + intros ->. cbn [negb orb] in H. apply negb_true_iff in H.
      apply token_quoted. exact H.
Qed.

Lemma round_trips_null nested : round_trips nested VNull.
Proof.
  unfold round_trips. cbv zeta. cbn [serializeValue].
  repeat split; try discriminate.
  intros _. apply token_plain. reflexivity.
Qed.

Lemma round_trips_bool nested b : round_trips nested (VBool b).
Proof.
  unfold round_trips. cbv zeta. cbn [serializeValue].
  destruct b; (repeat split; try discriminate);
    intros _; apply token_plain; reflexivity.
Qed.

Lemma round_trips_number nested n :
  safe_number n = true -> round_trips nested (VNum n).
Proof.
  intros H. unfold round_trips. cbv zeta. cbn [serializeValue].
  split; [apply parseValue_number; assumption|].
  split; [destruct n; try discriminate;
          apply num_to_string_safe_nonempty; assumption|].
  split; [apply num_to_string_trimmed|].
  split; [apply no_newline_num|].
  intros _. apply token_number.
Qed.

(** ** Values: arrays *)

Lemma trimmed_cons_snoc c s :
  trimmed (c :: s) = true -> is_ws c = false /\ is_ws (last (c :: s) c) = false.
Proof.
  unfold trimmed. intros H. apply andb_true_iff in H as [H1 H2].
  apply negb_true_iff in H1, H2. auto.
Qed.

Lemma trimmed_app a b :
  a <> [] -> b <> [] -> trimmed a = true -> trimmed b = true ->
  trimmed (a ++ b) = true.
Proof.
  intros Ha Hb Hta Htb.
  destruct a as [|x a]; [contradiction|].
  destruct (@exists_last _ b Hb) as [b' [y Eb]]. subst b.
  apply trimmed_cons_snoc in Hta as [Hx _].
  destruct b' as [|z b'].
  - cbn [app] in Htb. apply trimmed_cons_snoc in Htb as [Hy _].
    change ((x :: a) ++ [y]) with (x :: a ++ [y]).
    apply trimmed_ends; assumption.
  - change ((z :: b') ++ [y]) with (z :: b' ++ [y]) in Htb.
    apply trimmed_cons_snoc in Htb as [_ Hy].
    change (z :: b' ++ [y]) with ((z :: b') ++ [y]) in Hy.
    rewrite last_last in Hy.
    replace ((x :: a) ++ (z :: b') ++ [y]) with (x :: (a ++ z :: b') ++ [y])
      by (cbn [app]; rewrite <- app_assoc; reflexivity).
    apply trimmed_ends; assumption.
Qed.

Lemma trimmed_join texts :
  texts <> [] ->
  Forall (fun t => trimmed t = true /\ t <> []) texts ->
  trimmed (join ", " texts) = true /\ join ", " texts <> [].
Proof.
  induction texts as [|t [|t2 r] IH]; intros Hne H; [contradiction | |].
  - inversion H as [|? ? [H1 H2] _]; subst. cbn [join]. auto.
  - inversion H as [|? ? [H1 H2] H']; subst.
    destruct (IH ltac:(discriminate) H') as [I1 I2].
    rewrite join_cons2. remember (join ", " (t2 :: r)) as J eqn:EJ. split.
    + destruct t as [|x t]; [contradiction|].
      destruct (@exists_last _ J I2) as [J' [y EJ']]. rewrite EJ'.
      apply trimmed_cons_snoc in H1 as [Hx _].
      assert (Hy : is_ws y = false).
      { rewrite EJ' in I1. destruct J' as [|z J'].
        - cbn [app] in I1. apply trimmed_cons_snoc in I1 as [Hy _]. exact Hy.
        - change ((z :: J') ++ [y]) with (z :: J' ++ [y]) in I1.
          apply trimmed_cons_snoc in I1 as [_ Hy].
          change (z :: J' ++ [y]) with ((z :: J') ++ [y]) in Hy.
          rewrite last_last in Hy. exact Hy. }
      replace ((x :: t) ++ ", " ++ J' ++ [y]) with (x :: (t ++ ", " ++ J') ++ [y])
        by (cbn [app]; rewrite <- !app_assoc; reflexivity).
      apply trimmed_ends; assumption.
    + destruct t; [contradiction | discriminate].
Qed.

Lemma no_newline_join texts :
  Forall (fun t => no_newline t = true) texts ->
  no_newline (join ", " texts) = true.
Proof.
  induction texts as [|t [|t2 r] IH]; intros H; [reflexivity | |].
  - inversion H; subst. assumption.
  - inversion H; subst. rewrite join_cons2, !no_newline_app.
    rewrite IH by assumption.
    replace (no_newline t) with true by (symmetry; assumption). reflexivity.
Qed.

(** The text of a bracketed list of pieces. *)
Lemma bracket_text_facts o c texts :
  is_ws o = false -> is_ws c = false ->
  ch_eqb o newline = false -> ch_eqb c newline = false ->
  Forall (fun t => no_newline t = true) texts ->
  let t := [o] ++ join ", " texts ++ [c] in
  t <> [] /\ trimmed t = true /\ no_newline t = true.
Proof.
  intros Ho Hc Hon Hcn Hnl t. subst t. split; [discriminate|]. split.
  - cbn [app]. apply trimmed_ends; assumption.
  - rewrite !no_newline_app, no_newline_join by assumption.
    cbn [no_newline forallb]. rewrite Hon, Hcn. reflexivity.
Qed.

Lemma array_text items :
  serializeValue (VArr items) = "[" ++ join ", " (map serializeValue items) ++ "]".
Proof. reflexivity. Qed.

Lemma round_trips_array nested items :
  Forall (round_trips true) items -> round_trips nested (VArr items).
Proof.
  intros H. unfold round_trips. cbv zeta. rewrite array_text.
  set (texts := map serializeValue items).
  assert (Htok : Forall token texts).
  { unfold texts. apply Forall_map. eapply Forall_impl; [|exact H].
    intros v Hv. apply Hv. reflexivity. }
  assert (Htrim : Forall (fun t => trimmed t = true /\ t <> []) texts).
  { unfold texts. apply Forall_map. eapply Forall_impl; [|exact H].
    intros v (_ & H1 & H2 & _). auto. }
  assert (Hnl : Forall (fun t => no_newline t = true) texts).
  { unfold texts. apply Forall_map. eapply Forall_impl; [|exact H].
    intros v (_ & _ & _ & H3 & _). auto. }
  assert (Hpv : Forall2 (fun t v => (fun t => Some (parseValue t)) t = Some v)
                  texts items).
  { unfold texts. clear -H. induction H as [|v l Hv Hl IH]; cbn [map];
      constructor; [|exact IH].
    destruct Hv as (H0 & _). cbv beta. rewrite H0. reflexivity. }
  destruct (bracket_text_facts "[" "]" texts eq_refl eq_refl eq_refl eq_refl Hnl)
    as (F1 & F2 & F3).
  split.
  - apply parseValue_from_body. unfold parseValue_body. cbv zeta.
    rewrite (trim_trimmed _ F2).
    set (t := "[" ++ join ", " texts ++ "]") in *.
    replace (str_eqb t "null") with false by reflexivity.
    replace (str_eqb t "true") with false by reflexivity.
    replace (str_eqb t "false") with false by reflexivity.
    replace (startsWith [dquote] t) with false by reflexivity.
    replace (is_int_literal t) with false by reflexivity.
    replace (is_float_literal t) with false by reflexivity.
    replace (startsWith "Vector2(" t) with false by reflexivity.
    replace (startsWith "Vector3(" t) with false by reflexivity.
    replace (startsWith "Color(" t) with false by reflexivity.
    replace (startsWith "ExtResource(" t) with false by reflexivity.
    replace (startsWith "SubResource(" t) with false by reflexivity.
    replace (startsWith "NodePath(" t) with false by reflexivity.
    replace (startsWith "[" t) with true by reflexivity.
    cbn [andb]. unfold parseArray_rec.
    rewrite (trim_trimmed _ F2).
    replace (startsWith "[" t) with true by reflexivity.
    unfold t.
    rewrite (app_assoc "[" (join ", " texts) "]"), endsWith_snoc, ch_eqb_refl.
    rewrite <- app_assoc. cbn [negb orb].
    rewrite (slice_to_last_prefix 1 "[" (join ", " texts) "]" eq_refl).
    destruct items as [|v items'].
    + reflexivity.
    + assert (Hne : texts <> []) by (unfold texts; discriminate).
      destruct (trimmed_join texts Hne Htrim) as [J1 J2].
      rewrite (trim_trimmed _ J1).
      apply is_empty_false_iff in J2. rewrite J2.
      rewrite (parseArray_loop_items (fun t => Some (parseValue t)) texts
                 (v :: items') [] [] None Hne Htok Htrim Hpv eq_refl eq_refl).
      reflexivity.
  - split; [assumption|]. split; [assumption|]. split; [assumption|].
    intros _.
    apply (token_bracket [] "[" "]" texts); try reflexivity. assumption.
Qed.

(** ** Values: dictionaries *)

Lemma serializeValue_dictionary obj :
  printed_as_dictionary obj = true ->
  serializeValue (VObj obj)
  = "{" ++ join ", " (map pair_text (printed_entries obj)) ++ "}".
Proof.
  unfold printed_as_dictionary. intros H.
  repeat (apply andb_true_iff in H; destruct H as [H ?]).
  repeat match goal with
         | E : negb _ = true |- _ => apply negb_true_iff in E
         end.
  cbn [existsb] in H.
  repeat (apply orb_false_iff in H; destruct H as [? H]).
  unfold vec2_shape, vec3_shape, color_shape in *.
  cbn [serializeValue]. cbv zeta.
  repeat match goal with
         | E : ?x = false |- context [if ?x then _ else _] => rewrite E
         end.
  f_equal. f_equal. f_equal.
  clear. induction obj as [|[k x] obj IH]; [reflexivity|].
  unfold printed_entries in *. cbn [filter fst].
  destruct (startsWith "_" k); cbn [negb map]; rewrite <- IH; reflexivity.
Qed.

Lemma no_underscore_printed obj :
  no_underscore_keys obj = true -> printed_entries obj = obj.
Proof.
  unfold no_underscore_keys, printed_entries.
  induction obj as [|kv obj IH]; [reflexivity|]. cbn [forallb filter].
  intros H. apply andb_true_iff in H as [H1 H2]. rewrite H1, IH by assumption.
  reflexivity.
Qed.

Lemma no_underscore_no_type obj :
  no_underscore_keys obj = true -> obj_get "_type" obj = VUndef.
Proof.
  unfold no_underscore_keys.
  induction obj as [|[k x] obj IH]; [reflexivity|]. cbn [forallb fst obj_get].
  intros H. apply andb_true_iff in H as [H1 H2]. apply negb_true_iff in H1.
  destruct (str_eqb k "_type") eqn:E.
  - apply str_eqb_eq in E. subst k. discriminate.
  - apply IH. exact H2.
Qed.

Lemma obj_unique_mid acc k v r :
  obj_unique (acc ++ (k, v) :: r) = true -> obj_has k acc = false.
Proof.
  induction acc as [|[k1 v1] acc IH]; [reflexivity|].
  cbn [app obj_unique obj_has]. intros H.
  apply andb_true_iff in H as [H1 H2]. apply negb_true_iff in H1.
  rewrite obj_has_app in H1. apply orb_false_iff in H1 as [_ H1].
  cbn [obj_has] in H1. apply orb_false_iff in H1 as [H1 _].
  rewrite (str_eqb_sym k1 k), H1. cbn [orb]. apply IH. exact H2.
Qed.

Lemma obj_insert_index_append acc k v r :
  obj_ordered (acc ++ (k, v) :: r) = true -> is_array_index k = true ->
  obj_insert_index k v acc = acc ++ [(k, v)].
Proof.
  induction acc as [|[k1 v1] acc IH]; intros H Hk; [reflexivity|].
  cbn [app obj_ordered] in H. apply andb_true_iff in H as [H1 H2].
  rewrite forallb_app in H1. apply andb_true_iff in H1 as [_ H1].
  cbn [forallb fst] in H1. apply andb_true_iff in H1 as [H1 _].
  rewrite Hk in H1. cbn [obj_insert_index]. rewrite H1. cbn [app].
  rewrite IH by assumption. reflexivity.
Qed.

Lemma obj_set_append acc k v r :
  obj_unique (acc ++ (k, v) :: r) = true ->
  obj_ordered (acc ++ (k, v) :: r) = true ->
  str_eqb k "__proto__" = false ->
  obj_set k v acc = acc ++ [(k, v)].
Proof.
  intros Hu Ho Hp. unfold obj_set. rewrite Hp, (obj_unique_mid acc k v r Hu).
  destruct (is_array_index k) eqn:E; [|reflexivity].
  apply (obj_insert_index_append acc k v r); assumption.
Qed.

Lemma serializeString_no_colon k :
  no_char ":" k = true -> no_char ":" (serializeString k) = true.
Proof.
  intros H. unfold serializeString. destruct (isGodotValueString k); [exact H|].
  unfold quote, no_char. cbn [forallb]. rewrite forallb_app.
  fold (no_char ":" (escape k)).
  rewrite no_char_escape by (reflexivity || assumption). reflexivity.
Qed.

Section Entries.

Variable pv : str -> option value.

Lemma parseDictionary_pairs_entries obj : forall acc,
  Forall (fun kv =>
            key_ok (fst kv) = true
            /\ pv (serializeString (fst kv)) = Some (VStr (fst kv))
            /\ trimmed (serializeString (fst kv)) = true
            /\ pv (serializeValue (snd kv)) = Some (snd kv)
            /\ trimmed (serializeValue (snd kv)) = true) obj ->
  obj_unique (acc ++ obj) = true ->
  obj_ordered (acc ++ obj) = true ->
  parseDictionary_pairs pv (map pair_text obj) acc = Some (acc ++ obj).
Proof.
  induction obj as [|[k v] obj IH]; intros acc H Hu Hord.
  - rewrite app_nil_r. reflexivity.
  - inversion H as [|? ? (Hk & Hpk & Htk & Hpv & Htv) H']; subst.
    cbn [fst snd] in *.
    cbn [map parseDictionary_pairs]. unfold parseDictionary_pair, pair_text.
    cbn [fst snd].
    unfold key_ok in Hk.
    repeat (apply andb_true_iff in Hk; destruct Hk as [Hk ?]).
    repeat match goal with
           | E : negb _ = true |- _ => apply negb_true_iff in E
           end.
    change (serializeString k ++ ": " ++ serializeValue v)
      with (serializeString k ++ ":"%char :: (" " ++ serializeValue v)).
    rewrite indexOf_app by (apply serializeString_no_colon; assumption).
    rewrite firstn_exact, skipn_exact.
    rewrite (trim_trimmed _ Htk), Hpk.
    rewrite <- (app_nil_r (serializeValue v)) at 1.
    rewrite trim_pad by (reflexivity || assumption).
    rewrite Hpv. cbn [js_String].
    assert (Hset : obj_set k v acc = acc ++ [(k, v)]).
    { apply (obj_set_append acc k v obj Hu Hord).
      apply str_eqb_neq. intros ->. discriminate. }
    rewrite Hset. rewrite IH.
    + rewrite <- app_assoc. reflexivity.
    + assumption.
    + rewrite <- app_assoc. exact Hu.
    + rewrite <- app_assoc. exact Hord.
Qed.

End Entries.

Lemma key_round_trips k :
  key_ok k = true -> round_trips true (VStr k).
Proof.
  unfold key_ok. intros H.
  apply andb_true_iff in H as [H _]. apply andb_true_iff in H as [H _].
  apply round_trips_string. exact H.
Qed.

Lemma pair_text_facts k v :
  key_ok k = true -> round_trips true v ->
  token (pair_text (k, v))
  /\ (trimmed (pair_text (k, v)) = true /\ pair_text (k, v) <> [])
  /\ no_newline (pair_text (k, v)) = true.
Proof.
  intros Hk Hv. destruct (key_round_trips k Hk) as (_ & K1 & K2 & K3 & K4).
  destruct Hv as (_ & V1 & V2 & V3 & V4). cbn [serializeValue] in *.
  unfold pair_text. cbn [fst snd].
  set (kt := serializeString k) in *. set (vt := serializeValue v) in *.
  split; [apply token_pair; auto|]. split; [split|].
  - destruct kt as [|x kt]; [contradiction|].
    destruct (@exists_last _ vt V1) as [vt' [y E]]. rewrite E.
    apply trimmed_cons_snoc in K2 as [Hx _].
    assert (Hy : is_ws y = false).
    { rewrite E in V2. destruct vt' as [|z vt'].
      - cbn [app] in V2. apply trimmed_cons_snoc in V2 as [Hy _]. exact Hy.
      - change ((z :: vt') ++ [y]) with (z :: vt' ++ [y]) in V2.
        apply trimmed_cons_snoc in V2 as [_ Hy].
        change (z :: vt' ++ [y]) with ((z :: vt') ++ [y]) in Hy.
        rewrite last_last in Hy. exact Hy. }
    replace ((x :: kt) ++ ": " ++ vt' ++ [y]) with (x :: (kt ++ ": " ++ vt') ++ [y])
      by (cbn [app]; rewrite <- !app_assoc; reflexivity).
    apply trimmed_ends; assumption.
  - destruct kt; [contradiction | discriminate].
  - rewrite !no_newline_app, K3, V3. reflexivity.
Qed.

Lemma round_trips_dictionary nested obj :
  obj_unique obj = true -> obj_ordered obj = true ->
  vec2_shape obj = false -> vec3_shape obj = false -> color_shape obj = false ->
  Forall (fun kv => key_ok (fst kv) = true /\ round_trips true (snd kv)) obj ->
  round_trips nested (VObj obj).
Proof.
  intros Hu Hord S2 S3 SC H.
  assert (Hnu : no_underscore_keys obj = true).
  { unfold no_underscore_keys. apply forallb_forall. intros kv Hin.
    rewrite Forall_forall in H. destruct (H kv Hin) as [Hk _].
    unfold key_ok in Hk.
    repeat (apply andb_true_iff in Hk; destruct Hk as [Hk ?]). assumption. }
  assert (Hpd : printed_as_dictionary obj = true).
  { unfold printed_as_dictionary. rewrite (no_underscore_no_type obj Hnu).
    rewrite S2, S3, SC. reflexivity. }
  unfold round_trips. cbv zeta.
  rewrite (serializeValue_dictionary obj Hpd), (no_underscore_printed obj Hnu).
  set (texts := map pair_text obj).
  assert (Hfacts : Forall (fun t => token t /\ (trimmed t = true /\ t <> [])
                                    /\ no_newline t = true) texts).
  { unfold texts. apply Forall_map. eapply Forall_impl; [|exact H].
    intros [k v] [Hk Hv]. apply pair_text_facts; assumption. }
  assert (Htok : Forall token texts)
    by (eapply Forall_impl; [|exact Hfacts]; intros t Ht; apply Ht).
  assert (Htrim : Forall (fun t => trimmed t = true /\ t <> []) texts)
    by (eapply Forall_impl; [|exact Hfacts]; intros t Ht; apply Ht).
  assert (Hnl : Forall (fun t => no_newline t = true) texts)
    by (eapply Forall_impl; [|exact Hfacts]; intros t Ht; apply Ht).
  destruct (bracket_text_facts "{" "}" texts eq_refl eq_refl eq_refl eq_refl Hnl)
    as (F1 & F2 & F3).
  split.
  - apply parseValue_from_body. unfold parseValue_body. cbv zeta.
    rewrite (trim_trimmed _ F2).
    set (t := "{" ++ join ", " texts ++ "}") in *.
    replace (str_eqb t "null") with false by reflexivity.
    replace (str_eqb t "true") with false by reflexivity.
    replace (str_eqb t "false") with false by reflexivity.
    replace (startsWith [dquote] t) with false by reflexivity.
    replace (is_int_literal t) with false by reflexivity.
    replace (is_float_literal t) with false by reflexivity.
    replace (startsWith "Vector2(" t) with false by reflexivity.
    replace (startsWith "Vector3(" t) with false by reflexivity.
    replace (startsWith "Color(" t) with false by reflexivity.
    replace (startsWith "ExtResource(" t) with false by reflexivity.
    replace (startsWith "SubResource(" t) with false by reflexivity.
    replace (startsWith "NodePath(" t) with false by reflexivity.
    replace (startsWith "[" t) with false by reflexivity.
    replace (startsWith "{" t) with true by reflexivity.
    cbn [andb]. unfold parseDictionary_rec.
    rewrite (trim_trimmed _ F2).
    replace (startsWith "{" t) with true by reflexivity.
    unfold t.
    rewrite (app_assoc "{" (join ", " texts) "}"), endsWith_snoc, ch_eqb_refl.
    rewrite <- app_assoc. cbn [negb orb].
    rewrite (slice_to_last_prefix 1 "{" (join ", " texts) "}" eq_refl).
    destruct obj as [|kv obj'].
    + reflexivity.
    + assert (Hne : texts <> []) by (unfold texts; discriminate).
      destruct (trimmed_join texts Hne Htrim) as [J1 J2].
      rewrite (trim_trimmed _ J1).
      apply is_empty_false_iff in J2. rewrite J2.
      rewrite (parseDictionary_loop_items texts [] [] None Hne Htok Htrim
                 eq_refl eq_refl).
      cbn [app]. unfold texts.
      rewrite (parseDictionary_pairs_entries (fun t => Some (parseValue t))
                 (kv :: obj') []).
      * reflexivity.
      * eapply Forall_impl; [|exact H]. intros [k v] [Hk Hv].
        cbn [fst snd] in *.
        destruct (key_round_trips k Hk) as (K0 & _ & K2 & _).
        destruct Hv as (V0 & _ & V2 & _). cbn [serializeValue] in K0, K2.
        rewrite K0, V0. auto.
      * exact Hu.
      * exact Hord.
  - split; [assumption|]. split; [assumption|]. split; [assumption|].
    intros _.
    apply (token_bracket [] "{" "}" texts); try reflexivity. assumption.
Qed.

(** ** The round trip of canonical values *)

Lemma value_induction (P : value -> Prop) :
  P VUndef -> P VNull -> (forall b, P (VBool b)) -> (forall n, P (VNum n)) ->
  (forall s, P (VStr s)) ->
  (forall items, Forall P items -> P (VArr items)) ->
  (forall obj, Forall (fun kv => P (snd kv)) obj -> P (VObj obj)) ->
  forall v, P v.
Proof.
  intros HU HN HB HNum HS HA HO.
  fix IH 1. intros [| |b|n|s|items|obj].
  - exact HU.
  - exact HN.
  - apply HB.
  - apply HNum.
  - apply HS.
  - apply HA. induction items as [|v items IHl]; constructor; [apply IH | exact IHl].
  - apply HO. induction obj as [|[k v] obj IHl]; constructor; [apply IH | exact IHl].
Qed.

Lemma round_trips_tagged nested obj :
  is_tagged obj = true -> round_trips nested (VObj obj).
Proof.
  unfold is_tagged. intros H.
  repeat (apply orb_true_iff in H; destruct H as [H|H]).
  - apply round_trips_vector2; assumption.
  - apply round_trips_vector3; assumption.
  - apply round_trips_color; assumption.
  - apply (round_trips_reference nested "ExtResource" "id"); [|assumption].
    left. reflexivity.
  - apply (round_trips_reference nested "SubResource" "id"); [|assumption].
    right. left. reflexivity.
  - apply (round_trips_reference nested "NodePath" "path"); [|assumption].
    right. right. left. reflexivity.
Qed.

(** [parseValue] gives a canonical value back from its serialization. *)
Theorem canonical_round_trips v : forall nested,
  canonical nested v = true -> round_trips nested v.
Proof.
  induction v as [| |b|n|s|items IH|obj IH] using value_induction;
    intros nested H.
  - discriminate.
  - apply round_trips_null.
  - apply round_trips_bool.
  - apply round_trips_number. exact H.
  - apply round_trips_string. exact H.
  - apply round_trips_array. cbn [canonical] in H.
    rewrite forallb_forall in H. rewrite Forall_forall in *.
    intros v Hin. apply IH; [assumption | apply H; assumption].
  - cbn [canonical] in H. apply orb_true_iff in H as [H|H].
    + apply round_trips_tagged. exact H.
    + repeat (apply andb_true_iff in H; destruct H as [H ?]).
      repeat match goal with
             | E : negb _ = true |- _ => apply negb_true_iff in E
             end.
      apply round_trips_dictionary; try assumption.
      clear -IH H0.
      induction obj as [|[k x] obj IHo]; [constructor|].
      inversion IH as [|? ? Hx Hrest]; subst.
      apply andb_true_iff in H0 as [H0 Hr].
      apply andb_true_iff in H0 as [Hk Hc].
      constructor.
      * cbn [fst snd] in *. split; [assumption|]. apply Hx. assumption.
      * apply IHo; assumption.
Qed.

(** ** Attribute lists *)

Lemma parseAttributes_scan_skip a : forall b attrs,
  parseAttributes_scan (a ++ b) (length a) attrs = parseAttributes_scan b 0 attrs.
Proof.
  induction a as [|c a IH]; intros b attrs; [reflexivity|].
  cbn [app length parseAttributes_scan]. apply IH.
Qed.

Lemma span_none p c r : p c = false -> span p (c :: r) = ([], c :: r).
Proof. intros H. simpl. rewrite H. reflexivity. Qed.

Lemma match_attribute_nonword c r :
  is_word c = false -> match_attribute (c :: r) = None.
Proof.
  intros H. unfold match_attribute. rewrite span_none by assumption. reflexivity.
Qed.

Lemma scan_nonword c r attrs :
  is_word c = false ->
  parseAttributes_scan (c :: r) 0 attrs = parseAttributes_scan r 0 attrs.
Proof.
  intros H. cbn [parseAttributes_scan].
  rewrite match_attribute_nonword by assumption. reflexivity.
Qed.

(** A word that is not followed by an equals sign holds no match. *)
Lemma scan_word w : forall c r attrs,
  forallb is_word w = true -> is_word c = false -> ch_eqb c "=" = false ->
  parseAttributes_scan (w ++ c :: r) 0 attrs = parseAttributes_scan r 0 attrs.
Proof.
  induction w as [|x w IH]; intros c r attrs Hw Hc He.
  - cbn [app]. apply scan_nonword. assumption.
  - cbn [forallb] in Hw. apply andb_true_iff in Hw as [Hx Hw].
    cbn [app parseAttributes_scan].
    assert (Hm : match_attribute (x :: w ++ c :: r) = None).
    { unfold match_attribute.
      change (x :: w ++ c :: r) with ((x :: w) ++ c :: r).
      rewrite span_app by (cbn [forallb]; try rewrite Hx; assumption).
      cbn [is_empty]. rewrite He. reflexivity. }
    rewrite Hm. apply IH; assumption.
Qed.

Lemma scan_match key v n s r attrs :
  match_attribute s = Some (key, v, n) ->
  forall m, s = m ++ r -> length m = n -> m <> [] ->
  parseAttributes_scan s 0 attrs = parseAttributes_scan r 0 ((key, v) :: attrs).
Proof.
  intros Hm m Es Hl Hne. destruct m as [|c m]; [contradiction|].
  subst s. cbn [app parseAttributes_scan] in *.
  change (c :: m ++ r) with ((c :: m) ++ r) in Hm. cbn [app] in Hm.
  rewrite Hm. subst n.
  replace (length (c :: m) - 1) with (length m) by (cbn [length]; lia).
  apply parseAttributes_scan_skip.
Qed.

Lemma is_word_not_eq c : is_word c = true -> ch_eqb c "=" = false.
Proof. intros H. apply (class_neq is_word c "=" H eq_refl). Qed.

Lemma scan_quoted key v rest attrs :
  key <> [] -> forallb is_word key = true -> no_char dquote v = true ->
  parseAttributes_scan (key ++ "=" ++ quote v ++ rest) 0 attrs
  = parseAttributes_scan rest 0 ((key, v) :: attrs).
Proof.
  intros Hne Hw Hv.
  apply (scan_match key v (length key + 1 + (length v + 2)) _ rest attrs)
    with (m := key ++ "=" ++ quote v).
  - unfold match_attribute.
    change (key ++ "=" ++ quote v ++ rest)
      with (key ++ "="%char :: (quote v ++ rest)).
    rewrite span_app by (assumption || reflexivity).
    apply is_empty_false_iff in Hne. rewrite Hne.
    rewrite ch_eqb_refl. unfold quote. cbn [app]. rewrite ch_eqb_refl.
    rewrite <- app_assoc. cbn [app].
    rewrite span_app.
    + reflexivity.
    + unfold no_char in Hv. exact Hv.
    + rewrite ch_eqb_refl. reflexivity.
  - rewrite <- !app_assoc. reflexivity.
  - unfold quote. rewrite !length_app. cbn [length]. rewrite length_app.
    cbn [length]. lia.
  - destruct key; [contradiction | discriminate].
Qed.

Lemma span_delimited p v rest :
  forallb p v = true ->
  match rest with c :: _ => p c = false | [] => True end ->
  span p (v ++ rest) = (v, rest).
Proof.
  intros Hv Hr. destruct rest as [|c rest].
  - rewrite app_nil_r. apply span_all. assumption.
  - apply span_app; assumption.
Qed.

Lemma scan_bare key v rest attrs :
  key <> [] -> forallb is_word key = true -> bare_ok v = true ->
  delimited rest = true ->
  parseAttributes_scan (key ++ "=" ++ v ++ rest) 0 attrs
  = parseAttributes_scan rest 0 ((key, v) :: attrs).
Proof.
  intros Hne Hw Hv Hr.
  destruct v as [|c v]; [discriminate|]. unfold bare_ok in Hv.
  apply andb_true_iff in Hv as [Hv Hall]. apply andb_true_iff in Hv as [Hq Hb].
  apply negb_true_iff in Hq, Hb.
  apply (scan_match key (c :: v) (length key + 1 + length (c :: v)) _ rest attrs)
    with (m := key ++ "=" ++ (c :: v)).
  - unfold match_attribute.
    change (key ++ "=" ++ (c :: v) ++ rest)
      with (key ++ "="%char :: ((c :: v) ++ rest)).
    rewrite span_app by (assumption || reflexivity).
    apply is_empty_false_iff in Hne. rewrite Hne.
    rewrite ch_eqb_refl.
    rewrite (span_delimited (fun c => negb (is_ws c || ch_eqb c "]")) (c :: v) rest Hall).
    + cbn [app is_empty]. rewrite Hq, Hb. reflexivity.
    + destruct rest as [|d rest]; [exact I|]. cbn [delimited] in Hr.
      rewrite Hr. reflexivity.
  - rewrite <- !app_assoc. reflexivity.
  - rewrite !length_app. cbn [length]. lia.
  - destruct key; [contradiction | discriminate].
Qed.

Lemma scan_array key inner rest attrs :
  key <> [] -> forallb is_word key = true -> no_char "]" inner = true ->
  parseAttributes_scan (key ++ "=" ++ ("[" ++ inner ++ "]") ++ rest) 0 attrs
  = parseAttributes_scan rest 0 ((key, "[" ++ inner ++ "]") :: attrs).
Proof.
  intros Hne Hw Hv.
  apply (scan_match key ("[" ++ inner ++ "]") (length key + 1 + (length inner + 2))
           _ rest attrs)
    with (m := key ++ "=" ++ ("[" ++ inner ++ "]")).
  - unfold match_attribute.
    change (key ++ "=" ++ ("[" ++ inner ++ "]") ++ rest)
      with (key ++ "="%char :: (("[" ++ inner ++ "]") ++ rest)).
    rewrite span_app by (assumption || reflexivity).
    apply is_empty_false_iff in Hne. rewrite Hne.
    rewrite ch_eqb_refl. cbn [app].
    replace (ch_eqb "[" dquote) with false by reflexivity.
    rewrite ch_eqb_refl.
    rewrite <- app_assoc. cbn [app].
    rewrite span_app.
    + reflexivity.
    + unfold no_char in Hv. exact Hv.
    + rewrite ch_eqb_refl. reflexivity.
  - rewrite <- !app_assoc. reflexivity.
  - cbn [app]. repeat (rewrite ?length_app; cbn [length]). lia.
  - destruct key; [contradiction | discriminate].
Qed.

Lemma delimited_pieces ps : delimited (pieces_text ps ++ "]") = true.
Proof. destruct ps as [|[k v|k v|k v] ps]; reflexivity. Qed.

Lemma pieces_text_cons p ps : pieces_text (p :: ps) = piece_text p ++ pieces_text ps.
Proof. reflexivity. Qed.

Lemma pieces_text_app a b : pieces_text (a ++ b) = pieces_text a ++ pieces_text b.
Proof. unfold pieces_text. rewrite map_app, concat_app. reflexivity. Qed.

Lemma pieces_text_optional c p :
  pieces_text (optional_piece c p) = if c then piece_text p else [].
Proof. destruct c; [apply app_nil_r | reflexivity]. Qed.

Lemma scan_pieces ps : forall attrs,
  forallb piece_ok ps = true ->
  parseAttributes_scan (pieces_text ps ++ "]") 0 attrs
  = rev (map piece_attr ps) ++ attrs.
Proof.
  induction ps as [|p ps IH]; intros attrs H.
  - reflexivity.
  - cbn [forallb] in H. apply andb_true_iff in H as [Hp Hps].
    rewrite pieces_text_cons. cbn [map rev]. rewrite <- !app_assoc.
    cbn [app].
    destruct p as [key v|key v|key inner]; unfold piece_ok in Hp;
      apply andb_true_iff in Hp as [Hp Hv];
      apply andb_true_iff in Hp as [Hk Hw];
      apply negb_true_iff in Hk; apply is_empty_false_iff in Hk;
      cbn [piece_text piece_attr]; rewrite <- !app_assoc; cbn [app];
      rewrite scan_nonword by reflexivity.
    + change (key ++ "="%char :: quote v ++ pieces_text ps ++ "]")
        with (key ++ "=" ++ quote v ++ (pieces_text ps ++ "]")).
      rewrite scan_quoted by assumption. apply IH. assumption.
    + change (key ++ "="%char :: v ++ pieces_text ps ++ "]")
        with (key ++ "=" ++ v ++ (pieces_text ps ++ "]")).
      rewrite scan_bare by (assumption || apply delimited_pieces).
      apply IH. assumption.
    + replace (key ++ "="%char :: "["%char :: inner ++ "]"%char :: pieces_text ps ++ "]")
        with (key ++ "=" ++ ("[" ++ inner ++ "]") ++ (pieces_text ps ++ "]"))
        by (cbn [app]; rewrite <- !app_assoc; reflexivity).
      rewrite scan_array by assumption. apply IH. assumption.
Qed.

(** The attributes of a tag line: an opening bracket, the tag, the
    attributes, a closing bracket. *)
Lemma parseAttributes_tag_line tag ps :
  forallb is_word tag = true -> forallb piece_ok ps = true ->
  parseAttributes ("[" ++ tag ++ pieces_text ps ++ "]") = rev (map piece_attr ps).
Proof.
  intros Ht Hps. unfold parseAttributes. cbn [app].
  rewrite scan_nonword by reflexivity.
  rewrite <- (app_nil_r (rev (map piece_attr ps))).
  rewrite <- (scan_pieces ps [] Hps).
  destruct ps as [|p ps].
  - cbn [pieces_text map concat app].
    rewrite scan_word by (assumption || reflexivity).
    rewrite scan_nonword by reflexivity. reflexivity.
  - rewrite pieces_text_cons.
    assert (E : exists r, piece_text p ++ pieces_text ps ++ "]" = " "%char :: r).
    { destruct p; eexists; cbn [piece_text app]; reflexivity. }
    destruct E as [r E]. rewrite <- app_assoc, E.
    rewrite scan_word by (assumption || reflexivity).
    rewrite scan_nonword by reflexivity. reflexivity.
Qed.

Lemma attr_app key a b :
  attr key (a ++ b) = match attr key a with Some v => Some v | None => attr key b end.
Proof.
  induction a as [|[k v] a IH]; [reflexivity|]. cbn [app attr].
  destruct (str_eqb k key); [reflexivity | exact IH].
Qed.

Lemma pieces_attr_app key a b :
  pieces_attr key (a ++ b)
  = match pieces_attr key b with
    | Some v => Some v
    | None => pieces_attr key a
    end.
Proof.
  unfold pieces_attr. rewrite map_app, rev_app_distr. apply attr_app.
Qed.

Lemma pieces_attr_cons key p ps :
  pieces_attr key (p :: ps)
  = match pieces_attr key ps with
    | Some v => Some v
    | None => if str_eqb (fst (piece_attr p)) key then Some (snd (piece_attr p))
              else None
    end.
Proof.
  change (p :: ps) with ([p] ++ ps). rewrite pieces_attr_app.
  destruct (pieces_attr key ps); [reflexivity|].
  unfold pieces_attr. cbn [map rev app attr].
  destruct (piece_attr p) as [k v]. reflexivity.
Qed.

Lemma pieces_attr_nil key : pieces_attr key [] = None.
Proof. reflexivity. Qed.

Lemma pieces_attr_optional key c p :
  pieces_attr key (optional_piece c p)
  = if c then (if str_eqb (fst (piece_attr p)) key then Some (snd (piece_attr p))
               else None)
    else None.
Proof.
  destruct c; [|reflexivity]. unfold optional_piece.
  rewrite pieces_attr_cons, pieces_attr_nil. reflexivity.
Qed.

Lemma bare_ok_number n : num_to_string n <> [] -> bare_ok (num_to_string n) = true.
Proof.
  intros Hne. pose proof (num_to_string_chars n) as Hc.
  destruct (num_to_string n) as [|c r] eqn:E; [contradiction|].
  unfold bare_ok.
  assert (Hall : forall x, num_char x = true ->
                           negb (is_ws x || ch_eqb x "]") = true).
  { intros x Hx. pose proof (num_char_not_ws x Hx) as Hw.
    apply negb_true_iff in Hw. rewrite Hw.
    rewrite (class_neq num_char x "]" Hx eq_refl). reflexivity. }
  rewrite (forallb_impl num_char _ _ Hall Hc).
  cbn [forallb] in Hc. apply andb_true_iff in Hc as [Hc _].
  rewrite (class_neq num_char c dquote Hc eq_refl).
  rewrite (class_neq num_char c "[" Hc eq_refl). reflexivity.
Qed.

Lemma integer_ok_safe n : integer_ok n = true -> exists m, n = Finite m 0 /\ safe_number n = true.
Proof.
  destruct n as [| |m [|e]]; try discriminate. intros H. exists m. auto.
Qed.

Lemma integer_text n :
  integer_ok n = true ->
  bare_ok (num_to_string n) = true /\ num_to_string n <> []
  /\ parseInt (num_to_string n) = n /\ no_newline (num_to_string n) = true.
Proof.
  intros H. destruct (integer_ok_safe n H) as (m & -> & Hs).
  pose proof (num_to_string_safe_nonempty m 0 Hs) as Hne.
  split; [apply bare_ok_number; assumption|]. split; [assumption|].
  split; [apply parseInt_safe; assumption | apply no_newline_num].
Qed.

(** ** Tag lines *)

Ltac split_ok H :=
  repeat match type of H with
         | _ && _ = true =>
             let H1 := fresh "Hok" in
             apply andb_true_iff in H; destruct H as [H H1]
         end.

Lemma quoted_ok_parts s : quoted_ok s = true -> no_char dquote s = true /\ no_newline s = true.
Proof. unfold quoted_ok. intros H. apply andb_true_iff in H. exact H. Qed.

Lemma optional_ok_parts o :
  optional_ok o = true ->
  match o with
  | Some s => s <> [] /\ no_char dquote s = true /\ no_newline s = true
  | None => True
  end.
Proof.
  destruct o as [s|]; [|auto]. unfold optional_ok. intros H.
  apply andb_true_iff in H as [H1 H2]. apply negb_true_iff in H1.
  apply is_empty_false_iff in H1. apply quoted_ok_parts in H2. tauto.
Qed.

Lemma optional_piece_ok key o :
  negb (is_empty key) && forallb is_word key = true ->
  optional_ok o = true ->
  forallb piece_ok (optional_piece (str_truthy o) (QuotedAttr key (show_str o))) = true.
Proof.
  intros Hk H. destruct o as [s|]; [|reflexivity].
  apply optional_ok_parts in H as (Hne & Hq & _).
  apply is_empty_false_iff in Hne. cbn [str_truthy]. rewrite Hne.
  cbn [negb optional_piece forallb piece_ok show_str]. rewrite Hk, Hq. reflexivity.
Qed.

Lemma pieces_attr_optional_quoted key key' o :
  optional_ok o = true ->
  pieces_attr key (optional_piece (str_truthy o) (QuotedAttr key' (show_str o)))
  = if str_eqb key' key then o else None.
Proof.
  intros H. rewrite pieces_attr_optional. cbn [piece_attr fst snd].
  destruct o as [s|]; [|destruct (str_eqb key' key); reflexivity].
  apply optional_ok_parts in H as (Hne & _).
  apply is_empty_false_iff in Hne. cbn [str_truthy show_str]. rewrite Hne.
  reflexivity.
Qed.

Lemma serializeExtResource_pieces r :
  serializeExtResource r
  = "[" ++ "ext_resource" ++ pieces_text (externalResource_pieces r) ++ "]".
Proof.
  unfold serializeExtResource, externalResource_pieces.
  rewrite !pieces_text_app, pieces_text_optional.
  cbn [pieces_text map concat piece_text].
  destruct (str_truthy (ext_uid r));
    repeat (rewrite <- app_assoc; cbn [app]); reflexivity.
Qed.

Lemma externalResource_pieces_ok r :
  externalResource_ok r = true ->
  forallb piece_ok (externalResource_pieces r) = true.
Proof.
  unfold externalResource_ok. intros H. split_ok H.
  apply quoted_ok_parts in H as [H _].
  apply quoted_ok_parts in Hok1 as [Hok1 _].
  apply quoted_ok_parts in Hok0 as [Hok0 _].
  unfold externalResource_pieces. rewrite !forallb_app.
  rewrite optional_piece_ok by (reflexivity || assumption).
  cbn [forallb piece_ok]. cbn. rewrite H, Hok1, Hok0. reflexivity.
Qed.

Lemma parseExtResource_serialize r :
  externalResource_ok r = true ->
  parseExtResource (serializeExtResource r) = r.
Proof.
  intros Hok. pose proof (externalResource_pieces_ok r Hok) as Hp.
  unfold parseExtResource. rewrite serializeExtResource_pieces.
  rewrite parseAttributes_tag_line by (reflexivity || assumption).
  unfold externalResource_ok in Hok. split_ok Hok.
  unfold attr_or_empty.
  fold (pieces_attr "type" (externalResource_pieces r)).
  fold (pieces_attr "path" (externalResource_pieces r)).
  fold (pieces_attr "id" (externalResource_pieces r)).
  fold (pieces_attr "uid" (externalResource_pieces r)).
  unfold externalResource_pieces.
  repeat (rewrite ?pieces_attr_app, ?pieces_attr_cons, ?pieces_attr_nil,
           ?pieces_attr_optional_quoted by assumption;
          cbn [piece_attr fst snd]).
  repeat match goal with
         | |- context [str_eqb ?a ?b] =>
             let v := eval vm_compute in (str_eqb a b) in
             change (str_eqb a b) with v
         end.
  cbv iota.
  destruct r as [t p i u]; cbn [ext_type ext_path ext_id ext_uid] in *.
  destruct u; reflexivity.
Qed.

Lemma parseArray_canonical items :
  Forall (round_trips true) items ->
  parseArray (serializeValue (VArr items)) = items.
Proof.
  intros H. pose proof (round_trips_array false items H) as (Hp & _ & F2 & _).
  pose proof (parseValue_unfold (serializeValue (VArr items))) as Hb.
  rewrite Hp in Hb. rewrite array_text in *.
  unfold parseValue_body in Hb. cbv zeta in Hb.
  rewrite (trim_trimmed _ F2) in Hb.
  set (t := "[" ++ join ", " (map serializeValue items) ++ "]") in *.
  replace (str_eqb t "null") with false in Hb by reflexivity.
  replace (str_eqb t "true") with false in Hb by reflexivity.
  replace (str_eqb t "false") with false in Hb by reflexivity.
  replace (startsWith [dquote] t) with false in Hb by reflexivity.
  replace (is_int_literal t) with false in Hb by reflexivity.
  replace (is_float_literal t) with false in Hb by reflexivity.
  replace (startsWith "Vector2(" t) with false in Hb by reflexivity.
  replace (startsWith "Vector3(" t) with false in Hb by reflexivity.
  replace (startsWith "Color(" t) with false in Hb by reflexivity.
  replace (startsWith "ExtResource(" t) with false in Hb by reflexivity.
  replace (startsWith "SubResource(" t) with false in Hb by reflexivity.
  replace (startsWith "NodePath(" t) with false in Hb by reflexivity.
  replace (startsWith "[" t) with true in Hb by reflexivity.
  cbn [andb] in Hb. rewrite parseArray_total in Hb. cbn [option_map] in Hb.
  congruence.
Qed.

Lemma pieces_attr_optional_eq key c p :
  str_eqb (fst (piece_attr p)) key = true ->
  pieces_attr key (optional_piece c p)
  = if c then Some (snd (piece_attr p)) else None.
Proof. intros H. rewrite pieces_attr_optional, H. reflexivity. Qed.

Lemma pieces_attr_optional_neq key c p :
  str_eqb (fst (piece_attr p)) key = false ->
  pieces_attr key (optional_piece c p) = None.
Proof. intros H. rewrite pieces_attr_optional, H. destruct c; reflexivity. Qed.

Lemma optional_value o :
  optional_ok o = true ->
  (if str_truthy o then Some (show_str o) else None) = o.
Proof.
  intros H. destruct o as [s|]; [|reflexivity].
  apply optional_ok_parts in H as (Hne & _).
  apply is_empty_false_iff in Hne. cbn [str_truthy show_str]. rewrite Hne.
  reflexivity.
Qed.

Lemma option_some_id {A} (o : option A) :
  match o with Some v => Some v | None => None end = o.
Proof. destruct o; reflexivity. Qed.

Ltac eval_str_eqb :=
  repeat match goal with
         | |- context [str_eqb ?a ?b] =>
             let v := eval vm_compute in (str_eqb a b) in
             change (str_eqb a b) with v
         end.

Ltac lookup_pieces :=
  repeat first
    [ rewrite pieces_attr_app
    | rewrite pieces_attr_cons
    | rewrite pieces_attr_nil
    | rewrite pieces_attr_optional_neq by reflexivity
    | rewrite pieces_attr_optional_eq by reflexivity ];
  cbn [piece_attr fst snd]; eval_str_eqb; cbv iota;
  rewrite ?option_some_id.

Lemma serializeHeader_pieces h :
  serializeHeader h
  = "[" ++ header_type_str (hdr_type h) ++ pieces_text (header_pieces h) ++ "]".
Proof.
  unfold serializeHeader, header_pieces. cbv zeta.
  rewrite !pieces_text_app, !pieces_text_optional.
  cbn [pieces_text map concat piece_text].
  destruct (num_opt_truthy (hdr_loadSteps h)), (str_truthy (hdr_uid h));
    cbn [app join]; repeat (rewrite <- app_assoc; cbn [app]); reflexivity.
Qed.

Lemma header_type_word t : forallb is_word (header_type_str t) = true.
Proof. destruct t; reflexivity. Qed.

Lemma header_pieces_ok h :
  header_ok h = true -> forallb piece_ok (header_pieces h) = true.
Proof.
  unfold header_ok. intros H. split_ok H.
  unfold header_pieces. rewrite !forallb_app.
  rewrite optional_piece_ok by (reflexivity || assumption).
  destruct (integer_text _ Hok0) as (Hb & _).
  cbn [forallb piece_ok]. rewrite Hb.
  destruct (hdr_loadSteps h) as [n|]; [|reflexivity].
  apply andb_true_iff in H as [H1 H2].
  destruct (integer_text _ H1) as (Hb1 & _).
  cbn [num_opt_truthy show_num]. rewrite H2.
  cbn [optional_piece forallb piece_ok]. rewrite Hb1. reflexivity.
Qed.

Lemma parseHeader_serialize h :
  header_ok h = true -> parseHeader (serializeHeader h) = h.
Proof.
  intros H. pose proof (header_pieces_ok h H) as Hp.
  unfold parseHeader. cbv zeta. rewrite serializeHeader_pieces.
  rewrite parseAttributes_tag_line by (apply header_type_word || assumption).
  unfold header_ok in H. split_ok H.
  unfold attr_if_truthy.
  fold (pieces_attr "load_steps" (header_pieces h)).
  fold (pieces_attr "format" (header_pieces h)).
  fold (pieces_attr "uid" (header_pieces h)).
  unfold header_pieces. lookup_pieces.
  rewrite (optional_value _ Hok).
  destruct (integer_text _ Hok0) as (_ & Hne & Hpi & _).
  apply is_empty_false_iff in Hne. rewrite Hne, Hpi.
  destruct h as [t ls f u]; cbn [hdr_type hdr_loadSteps hdr_format hdr_uid] in *.
  assert (Et : (if startsWith "[gd_scene"
                     ("[" ++ header_type_str t
                      ++ pieces_text
                           (optional_piece (num_opt_truthy ls)
                              (BareAttr "load_steps" (show_num ls))
                            ++ [BareAttr "format" (num_to_string f)]
                            ++ optional_piece (str_truthy u)
                                 (QuotedAttr "uid" (show_str u))) ++ "]")
                then gd_scene else gd_resource) = t).
  { destruct t; reflexivity. }
  rewrite Et. clear Et.
  assert (El : match
                 (if num_opt_truthy ls then Some (show_num ls) else None)
               with
               | Some v => if is_empty v then None else Some (parseInt v)
               | None => None
               end = ls).
  { destruct ls as [n|]; [|reflexivity].
    apply andb_true_iff in H as [H1 H2].
    destruct (integer_text _ H1) as (_ & Hne1 & Hpi1 & _).
    apply is_empty_false_iff in Hne1.
    cbn [num_opt_truthy show_num]. rewrite H2, Hne1, Hpi1. reflexivity. }
  destruct u; rewrite El; reflexivity.
Qed.

Lemma serializeSubResource_pieces r :
  serializeSubResource r
  = ("[" ++ "sub_resource" ++ pieces_text (subResource_pieces r) ++ "]")
    :: map property_line (sub_properties r).
Proof.
  unfold serializeSubResource, subResource_pieces.
  cbn [pieces_text map concat piece_text].
  f_equal. repeat (rewrite <- app_assoc; cbn [app]). reflexivity.
Qed.

Lemma subResource_pieces_ok r :
  subResource_ok r = true -> forallb piece_ok (subResource_pieces r) = true.
Proof.
  unfold subResource_ok. intros H. split_ok H.
  apply quoted_ok_parts in H as [H _].
  apply quoted_ok_parts in Hok0 as [Hok0 _].
  unfold subResource_pieces. cbn. rewrite H, Hok0. reflexivity.
Qed.

Lemma tag_line_trimmed tag ps : trimmed ("[" ++ tag ++ pieces_text ps ++ "]") = true.
Proof.
  cbn [app]. rewrite app_assoc. apply trimmed_ends; reflexivity.
Qed.

Lemma parseSubResource_serialize r rest k :
  subResource_ok r = true ->
  parseProperties rest [] = (sub_properties r, k) ->
  parseSubResource ("[" ++ "sub_resource" ++ pieces_text (subResource_pieces r) ++ "]")
    rest = (r, k).
Proof.
  intros H Hprops. pose proof (subResource_pieces_ok r H) as Hp.
  unfold parseSubResource. cbv zeta.
  rewrite (trim_trimmed _ (tag_line_trimmed _ _)).
  rewrite parseAttributes_tag_line by (reflexivity || assumption).
  rewrite Hprops. unfold attr_or_empty.
  fold (pieces_attr "type" (subResource_pieces r)).
  fold (pieces_attr "id" (subResource_pieces r)).
  unfold subResource_pieces. lookup_pieces.
  destruct r; reflexivity.
Qed.

Lemma array_attribute_value o :
  array_attribute_ok o = true ->
  match (if nonempty_array o then Some ("[" ++ array_inner o ++ "]") else None) with
  | Some v => if is_empty v then None else Some (parseArray v)
  | None => None
  end = o.
Proof.
  intros H. destruct o as [[|v items]|]; [discriminate | | reflexivity].
  cbn [array_attribute_ok] in H. apply andb_true_iff in H as [H _].
  cbn [nonempty_array array_inner]. rewrite <- array_text.
  rewrite parseArray_canonical; [reflexivity|].
  apply Forall_forall. intros x Hx. apply canonical_round_trips.
  rewrite forallb_forall in H. apply H. assumption.
Qed.

Lemma integer_attribute_value o :
  optional_integer_ok o = true ->
  match match o with Some i => Some (num_to_string i) | None => None end with
  | Some v => if is_empty v then None else Some (parseInt v)
  | None => None
  end = o.
Proof.
  intros H. destruct o as [n|]; [|reflexivity].
  destruct (integer_text _ H) as (_ & Hne & Hpi & _).
  apply is_empty_false_iff in Hne. rewrite Hne, Hpi. reflexivity.
Qed.

Lemma array_piece_ok key o :
  negb (is_empty key) && forallb is_word key = true ->
  array_attribute_ok o = true ->
  forallb piece_ok
    (optional_piece (nonempty_array o) (ArrayAttr key (array_inner o))) = true.
Proof.
  intros Hk H. destruct o as [[|v items]|]; try reflexivity.
  cbn [array_attribute_ok] in H. apply andb_true_iff in H as [_ H].
  cbn [nonempty_array optional_piece forallb piece_ok array_inner].
  rewrite Hk, H. reflexivity.
Qed.

Lemma integer_piece_ok key (o : option number) :
  negb (is_empty key) && forallb is_word key = true ->
  optional_integer_ok o = true ->
  forallb piece_ok
    match o with Some i => [BareAttr key (num_to_string i)] | None => [] end
  = true.
Proof.
  intros Hk H. destruct o as [n|]; [|reflexivity].
  destruct (integer_text _ H) as (Hb & _).
  cbn [forallb piece_ok]. rewrite Hk, Hb. reflexivity.
Qed.

Lemma serializeConnection_pieces c :
  serializeConnection c
  = "[" ++ "connection" ++ pieces_text (connection_pieces c) ++ "]".
Proof.
  unfold serializeConnection, connection_pieces.
  rewrite !pieces_text_app, pieces_text_optional.
  cbn [pieces_text map concat piece_text].
  destruct (conn_flags c), (conn_binds c) as [[|v items]|];
    cbn [nonempty_array show_array array_inner pieces_text map concat piece_text];
    rewrite ?array_text, ?app_nil_r;
    repeat (rewrite <- app_assoc; cbn [app]); reflexivity.
Qed.

Lemma connection_pieces_ok c :
  connection_ok c = true -> forallb piece_ok (connection_pieces c) = true.
Proof.
  unfold connection_ok. intros H. split_ok H.
  apply quoted_ok_parts in H as [H _].
  apply quoted_ok_parts in Hok3 as [Hok3 _].
  apply quoted_ok_parts in Hok2 as [Hok2 _].
  apply quoted_ok_parts in Hok1 as [Hok1 _].
  unfold connection_pieces. rewrite !forallb_app.
  rewrite array_piece_ok by (reflexivity || assumption).
  rewrite integer_piece_ok by (reflexivity || assumption).
  cbn. rewrite H, Hok3, Hok2, Hok1. reflexivity.
Qed.

Lemma parseConnection_serialize c :
  connection_ok c = true -> parseConnection (serializeConnection c) = c.
Proof.
  intros H. pose proof (connection_pieces_ok c H) as Hp.
  unfold parseConnection. cbv zeta. rewrite serializeConnection_pieces.
  rewrite parseAttributes_tag_line by (reflexivity || assumption).
  unfold connection_ok in H. split_ok H.
  unfold attr_or_empty, attr_if_truthy.
  fold (pieces_attr "signal" (connection_pieces c)).
  fold (pieces_attr "from" (connection_pieces c)).
  fold (pieces_attr "to" (connection_pieces c)).
  fold (pieces_attr "method" (connection_pieces c)).
  fold (pieces_attr "flags" (connection_pieces c)).
  fold (pieces_attr "binds" (connection_pieces c)).
  unfold connection_pieces.
  destruct c as [sg fr to me fl bi];
    cbn [conn_signal conn_from conn_to conn_method conn_flags conn_binds] in *.
  pose proof (array_attribute_value bi Hok) as Hb.
  pose proof (integer_attribute_value fl Hok0) as Hf.
  destruct fl as [f|]; lookup_pieces; f_equal; assumption.
Qed.

Lemma serializeNode_pieces n :
  serializeNode n
  = ("[" ++ "node" ++ pieces_text (node_pieces n) ++ "]")
    :: map property_line (node_properties n).
Proof.
  unfold serializeNode, node_pieces. f_equal.
  rewrite !pieces_text_app, !pieces_text_optional.
  destruct (node_parent n), (node_index n), (node_groups n) as [[|v items]|];
    cbn [nonempty_array show_array array_inner pieces_text map concat piece_text];
    rewrite ?array_text, ?app_nil_r;
    destruct (str_truthy (node_type n)), (str_truthy (node_instance n)),
      (str_truthy (node_instancePlaceholder n)), (str_truthy (node_owner n));
    repeat (rewrite <- app_assoc; cbn [app]); reflexivity.
Qed.

Lemma quoted_piece_ok key (o : option str) :
  negb (is_empty key) && forallb is_word key = true ->
  match o with Some p => quoted_ok p | None => true end = true ->
  forallb piece_ok
    match o with Some p => [QuotedAttr key p] | None => [] end = true.
Proof.
  intros Hk H. destruct o as [p|]; [|reflexivity].
  apply quoted_ok_parts in H as [H _].
  cbn [forallb piece_ok]. rewrite Hk, H. reflexivity.
Qed.

Lemma bare_piece_ok key (o : option str) :
  negb (is_empty key) && forallb is_word key = true ->
  match o with Some i => bare_ok i | None => true end = true ->
  forallb piece_ok
    (optional_piece (str_truthy o) (BareAttr key (show_str o))) = true.
Proof.
  intros Hk H. destruct o as [[|c i]|]; [discriminate | | reflexivity].
  cbn [str_truthy is_empty negb optional_piece show_str forallb piece_ok].
  rewrite Hk, H. reflexivity.
Qed.

Lemma bare_value (o : option str) :
  match o with Some i => bare_ok i | None => true end = true ->
  (if str_truthy o then Some (show_str o) else None) = o.
Proof. destruct o as [[|c i]|]; [discriminate | reflexivity | reflexivity]. Qed.

Lemma node_pieces_ok n :
  node_ok n = true -> forallb piece_ok (node_pieces n) = true.
Proof.
  unfold node_ok. intros H. split_ok H.
  apply quoted_ok_parts in H as [H _].
  unfold node_pieces. rewrite !forallb_app.
  rewrite !optional_piece_ok by (reflexivity || assumption).
  rewrite array_piece_ok by (reflexivity || assumption).
  rewrite integer_piece_ok by (reflexivity || assumption).
  rewrite quoted_piece_ok by (reflexivity || assumption).
  rewrite bare_piece_ok by (reflexivity || assumption).
  cbn. rewrite H. reflexivity.
Qed.

Lemma parseNode_serialize n rest k :
  node_ok n = true ->
  parseProperties rest [] = (node_properties n, k) ->
  parseNode ("[" ++ "node" ++ pieces_text (node_pieces n) ++ "]") rest = (n, k).
Proof.
  intros H Hprops. pose proof (node_pieces_ok n H) as Hp.
  unfold parseNode. cbv zeta.
  rewrite (trim_trimmed _ (tag_line_trimmed _ _)).
  rewrite parseAttributes_tag_line by (reflexivity || assumption).
  rewrite Hprops.
  unfold node_ok in H. split_ok H.
  unfold attr_or_empty, attr_if_truthy.
  fold (pieces_attr "name" (node_pieces n)).
  fold (pieces_attr "type" (node_pieces n)).
  fold (pieces_attr "parent" (node_pieces n)).
  fold (pieces_attr "instance" (node_pieces n)).
  fold (pieces_attr "instance_placeholder" (node_pieces n)).
  fold (pieces_attr "owner" (node_pieces n)).
  fold (pieces_attr "index" (node_pieces n)).
  fold (pieces_attr "groups" (node_pieces n)).
  unfold node_pieces.
  destruct n as [na ty pa ins ip ow ix gr props];
    cbn [node_name node_type node_parent node_instance
         node_instancePlaceholder node_owner node_index node_groups
         node_properties] in *.
  pose proof (array_attribute_value gr Hok0) as Hg.
  pose proof (integer_attribute_value ix Hok1) as Hi.
  pose proof (optional_value ty Hok6) as Hty.
  pose proof (optional_value ip Hok3) as Hip.
  pose proof (optional_value ow Hok2) as How.
  pose proof (bare_value ins Hok4) as Hins.
  destruct pa as [p|], ix as [i|]; lookup_pieces; f_equal; f_equal; assumption.
Qed.

(** ** Property lines *)

Lemma trimmed_mid a m b :
  a <> [] -> b <> [] -> trimmed a = true -> trimmed b = true ->
  trimmed (a ++ m ++ b) = true.
Proof.
  intros Ha Hb Hta Htb.
  destruct a as [|x a]; [contradiction|].
  destruct (@exists_last _ b Hb) as [b' [y Eb]]. subst b.
  apply trimmed_cons_snoc in Hta as [Hx _].
  assert (Hy : is_ws y = false).
  { destruct (b' ++ [y]) as [|z w] eqn:E; [destruct b'; discriminate|].
    apply trimmed_cons_snoc in Htb as [_ Hl]. rewrite <- E in Hl.
    rewrite last_last in Hl. exact Hl. }
  replace ((x :: a) ++ m ++ b' ++ [y]) with (x :: (a ++ m ++ b') ++ [y])
    by (cbn [app]; rewrite <- !app_assoc; reflexivity).
  apply trimmed_ends; assumption.
Qed.

Lemma property_key_ok_parts k :
  property_key_ok k = true ->
  k <> [] /\ trimmed k = true /\ no_char "=" k = true /\ no_newline k = true
  /\ startsWith "[" k = false /\ str_eqb k "__proto__" = false.
Proof.
  unfold property_key_ok. intros H.
  apply andb_true_iff in H as [H H6]. apply andb_true_iff in H as [H H5].
  apply andb_true_iff in H as [H H4]. apply andb_true_iff in H as [H H3].
  apply andb_true_iff in H as [H1 H2].
  apply negb_true_iff in H1, H5, H6. apply is_empty_false_iff in H1.
  auto 10.
Qed.

Lemma properties_ok_parts props :
  properties_ok props = true ->
  obj_unique props = true /\ obj_ordered props = true
  /\ forallb (fun kv => property_key_ok (fst kv) && canonical false (snd kv))
       props = true.
Proof.
  unfold properties_ok. intros H.
  apply andb_true_iff in H as [H H3]. apply andb_true_iff in H as [H1 H2].
  auto.
Qed.

Lemma property_line_facts k v :
  property_key_ok k = true -> canonical false v = true ->
  let l := property_line (k, v) in
  trimmed l = true /\ is_empty l = false /\ startsWith "[" l = false
  /\ parseProperty l = (k, v) /\ no_newline l = true.
Proof.
  intros Hk Hv l.
  destruct (canonical_round_trips v false Hv) as (Hp & Hne & Htr & Hnl & _).
  apply property_key_ok_parts in Hk as (Hk & Hok4 & Hok3 & Hok2 & Hok1 & Hok).
  subst l. unfold property_line. cbn [fst snd].
  set (t := serializeValue v) in *.
  assert (Htl : trimmed (k ++ " = " ++ t) = true)
    by (apply trimmed_mid; assumption).
  split; [exact Htl|].
  destruct k as [|c k']; [contradiction|].
  split; [reflexivity|]. split.
  { cbn [app startsWith] in *. exact Hok1. }
  split.
  - unfold parseProperty.
    replace ((c :: k') ++ " = " ++ t)
      with (((c :: k') ++ " ") ++ "="%char :: (" " ++ t))
      by (rewrite <- app_assoc; reflexivity).
    rewrite indexOf_app.
    + rewrite firstn_exact, skipn_exact.
      rewrite <- (app_nil_l ((c :: k') ++ " ")).
      rewrite (trim_pad [] (c :: k') " ") by (reflexivity || assumption).
      rewrite <- (app_nil_r (" " ++ t)), <- app_assoc.
      rewrite (trim_pad " " t []) by (reflexivity || assumption).
      rewrite Hp. reflexivity.
    + unfold no_char in *. rewrite forallb_app, Hok3. reflexivity.
  - rewrite !no_newline_app, Hok2, Hnl. reflexivity.
Qed.

Lemma parseProperties_lines props : forall acc rest,
  obj_unique (acc ++ props) = true ->
  obj_ordered (acc ++ props) = true ->
  forallb (fun kv => property_key_ok (fst kv) && canonical false (snd kv)) props
  = true ->
  ends_block rest = true ->
  parseProperties (map property_line props ++ rest) acc
  = (acc ++ props, length props).
Proof.
  induction props as [|[k v] props IH]; intros acc rest Hu Hord Hall Hend.
  - cbn [map app length]. rewrite app_nil_r.
    destruct rest as [|l rest]; [reflexivity|].
    cbn [parseProperties ends_block] in *. rewrite Hend. reflexivity.
  - cbn [forallb fst snd] in Hall. apply andb_true_iff in Hall as [Hkv Hall].
    apply andb_true_iff in Hkv as [Hk Hv].
    destruct (property_line_facts k v Hk Hv) as (Ht & Hne & Hsw & Hpp & _).
    cbn [map app parseProperties].
    rewrite (trim_trimmed _ Ht), Hne, Hsw, Hpp. cbn [orb].
    apply property_key_ok_parts in Hk as (Hk & _ & _ & _ & _ & Hok).
    apply is_empty_false_iff in Hk. rewrite Hk. cbn [negb].
    rewrite (obj_set_append acc k v props Hu Hord Hok).
    rewrite (IH (acc ++ [(k, v)]) rest).
    + rewrite <- app_assoc. reflexivity.
    + rewrite <- app_assoc. exact Hu.
    + rewrite <- app_assoc. exact Hord.
    + exact Hall.
    + exact Hend.
Qed.

Lemma parseProperties_blank_end rest : forall acc k,
  parseProperties (rest ++ repeat [] k) acc = parseProperties rest acc.
Proof.
  induction rest as [|l rest IH]; intros acc k.
  - destruct k; reflexivity.
  - cbn [app parseProperties].
    destruct (is_empty (trim l) || startsWith "[" (trim l)); [reflexivity|].
    destruct (parseProperty (trim l)) as [key v].
    rewrite IH. reflexivity.
Qed.

(** ** The loop of [parse] on the lines of [serialize] *)

Lemma parse_loop_skip a : forall b r,
  parse_loop (a ++ b) (length a) r = parse_loop b 0 r.
Proof.
  induction a as [|l a IH]; intros b r; [reflexivity|].
  cbn [app length parse_loop]. apply IH.
Qed.

Lemma parse_loop_blank rest r :
  parse_loop ([] :: rest) 0 r = parse_loop rest 0 r.
Proof. reflexivity. Qed.

Lemma parse_loop_blanks k : forall skip r, parse_loop (repeat [] k) skip r = r.
Proof.
  induction k as [|k IH]; intros skip r; [reflexivity|].
  cbn [repeat]. destruct skip; [rewrite parse_loop_blank|cbn [parse_loop]];
    apply IH.
Qed.

Lemma parseProperties_blank_end_eq rest k :
  parseProperties (rest ++ repeat [] k) [] = parseProperties rest [].
Proof. apply parseProperties_blank_end. Qed.

Lemma parse_loop_blank_end L k : forall skip r,
  parse_loop (L ++ repeat [] k) skip r = parse_loop L skip r.
Proof.
  induction L as [|l L IH]; intros skip r.
  - cbn [app]. rewrite parse_loop_blanks. destruct skip; reflexivity.
  - cbn [app parse_loop]. destruct skip as [|s]; [|apply IH].
    unfold parseSubResource, parseNode. cbv zeta.
    rewrite !parseProperties_blank_end_eq.
    destruct (parseProperties L []) as [props n].
    rewrite !IH. reflexivity.
Qed.

Lemma parse_loop_header h rest r :
  header_ok h = true ->
  parse_loop (serializeHeader h :: rest) 0 r
  = parse_loop rest 0 (set_header h r).
Proof.
  intros H. cbn [parse_loop]. cbv zeta.
  pose proof (parseHeader_serialize h H) as E.
  rewrite serializeHeader_pieces in *.
  rewrite (trim_trimmed _ (tag_line_trimmed _ _)). rewrite E.
  destruct (hdr_type h); reflexivity.
Qed.

Lemma parse_loop_externalResources xs : forall rest r,
  forallb externalResource_ok xs = true ->
  parse_loop (map serializeExtResource xs ++ rest) 0 r
  = parse_loop rest 0 (fold_left (fun r x => push_externalResource x r) xs r).
Proof.
  induction xs as [|x xs IH]; intros rest r H; [reflexivity|].
  cbn [forallb] in H. apply andb_true_iff in H as [Hx Hxs].
  cbn [map app fold_left]. rewrite <- (IH rest _ Hxs).
  cbn [parse_loop]. cbv zeta.
  pose proof (parseExtResource_serialize x Hx) as E.
  rewrite serializeExtResource_pieces in *.
  rewrite (trim_trimmed _ (tag_line_trimmed _ _)). rewrite E.
  reflexivity.
Qed.

Lemma parse_loop_connections xs : forall rest r,
  forallb connection_ok xs = true ->
  parse_loop (map serializeConnection xs ++ rest) 0 r
  = parse_loop rest 0 (fold_left (fun r x => push_connection x r) xs r).
Proof.
  induction xs as [|x xs IH]; intros rest r H; [reflexivity|].
  cbn [forallb] in H. apply andb_true_iff in H as [Hx Hxs].
  cbn [map app fold_left]. rewrite <- (IH rest _ Hxs).
  cbn [parse_loop]. cbv zeta.
  pose proof (parseConnection_serialize x Hx) as E.
  rewrite serializeConnection_pieces in *.
  rewrite (trim_trimmed _ (tag_line_trimmed _ _)). rewrite E.
  reflexivity.
Qed.

Lemma parse_loop_subResources xs : forall rest r,
  forallb subResource_ok xs = true ->
  parse_loop (flat_map (fun s => serializeSubResource s ++ [[]]) xs ++ rest) 0 r
  = parse_loop rest 0 (fold_left (fun r x => push_subResource x r) xs r).
Proof.
  induction xs as [|x xs IH]; intros rest r H; [reflexivity|].
  cbn [forallb] in H. apply andb_true_iff in H as [Hx Hxs].
  cbn [flat_map fold_left]. rewrite <- (IH rest _ Hxs).
  rewrite serializeSubResource_pieces.
  remember ("[" ++ "sub_resource" ++ pieces_text (subResource_pieces x) ++ "]")
    as line eqn:El.
  repeat (rewrite <- app_assoc; cbn [app]). subst line.
  set (tail := flat_map (fun s => serializeSubResource s ++ [[]]) xs ++ rest).
  assert (Hprops : parseProperties
                     (map property_line (sub_properties x) ++ [] :: tail) []
                   = (sub_properties x, length (sub_properties x))).
  { unfold subResource_ok in Hx. split_ok Hx.
    apply properties_ok_parts in Hok as (Hu & Hord & Hall).
    apply (parseProperties_lines (sub_properties x) [] ([] :: tail));
      [exact Hu | exact Hord | exact Hall | reflexivity]. }
  pose proof (parseSubResource_serialize x _ _ Hx Hprops) as Hps.
  cbn [parse_loop]. cbv zeta.
  rewrite (trim_trimmed _ (tag_line_trimmed _ _)).
  replace (startsWith "[gd_scene" ("[" ++ "sub_resource" ++ pieces_text (subResource_pieces x) ++ "]")) with false by reflexivity.
  replace (startsWith "[gd_resource" ("[" ++ "sub_resource" ++ pieces_text (subResource_pieces x) ++ "]")) with false by reflexivity.
  replace (startsWith "[ext_resource" ("[" ++ "sub_resource" ++ pieces_text (subResource_pieces x) ++ "]")) with false by reflexivity.
  replace (startsWith "[sub_resource" ("[" ++ "sub_resource" ++ pieces_text (subResource_pieces x) ++ "]")) with true by reflexivity.
  cbn [orb].
  match goal with
  | |- context [parseSubResource ?a ?b] =>
      replace (parseSubResource a b) with (x, length (sub_properties x))
        by (symmetry; exact Hps)
  end.
  rewrite <- (length_map property_line (sub_properties x)).
  rewrite parse_loop_skip. apply parse_loop_blank.
Qed.

Lemma parse_loop_nodes xs : forall rest r,
  forallb node_ok xs = true ->
  parse_loop (flat_map (fun n => serializeNode n ++ [[]]) xs ++ rest) 0 r
  = parse_loop rest 0 (fold_left (fun r x => push_node x r) xs r).
Proof.
  induction xs as [|x xs IH]; intros rest r H; [reflexivity|].
  cbn [forallb] in H. apply andb_true_iff in H as [Hx Hxs].
  cbn [flat_map fold_left]. rewrite <- (IH rest _ Hxs).
  rewrite serializeNode_pieces.
  remember ("[" ++ "node" ++ pieces_text (node_pieces x) ++ "]") as line eqn:El.
  repeat (rewrite <- app_assoc; cbn [app]). subst line.
  set (tail := flat_map (fun n => serializeNode n ++ [[]]) xs ++ rest).
  assert (Hprops : parseProperties
                     (map property_line (node_properties x) ++ [] :: tail) []
                   = (node_properties x, length (node_properties x))).
  { unfold node_ok in Hx. split_ok Hx.
    apply properties_ok_parts in Hok as (Hu & Hord & Hall).
    apply (parseProperties_lines (node_properties x) [] ([] :: tail));
      [exact Hu | exact Hord | exact Hall | reflexivity]. }
  pose proof (parseNode_serialize x _ _ Hx Hprops) as Hps.
  cbn [parse_loop]. cbv zeta.
  rewrite (trim_trimmed _ (tag_line_trimmed _ _)).
  replace (startsWith "[gd_scene" ("[" ++ "node" ++ pieces_text (node_pieces x) ++ "]")) with false by reflexivity.
  replace (startsWith "[gd_resource" ("[" ++ "node" ++ pieces_text (node_pieces x) ++ "]")) with false by reflexivity.
  replace (startsWith "[ext_resource" ("[" ++ "node" ++ pieces_text (node_pieces x) ++ "]")) with false by reflexivity.
  replace (startsWith "[sub_resource" ("[" ++ "node" ++ pieces_text (node_pieces x) ++ "]")) with false by reflexivity.
  replace (startsWith "[node" ("[" ++ "node" ++ pieces_text (node_pieces x) ++ "]")) with true by reflexivity.
  cbn [orb].
  match goal with
  | |- context [parseNode ?a ?b] =>
      replace (parseNode a b) with (x, length (node_properties x))
        by (symmetry; exact Hps)
  end.
  rewrite <- (length_map property_line (node_properties x)).
  rewrite parse_loop_skip. apply parse_loop_blank.
Qed.

(** ** The lines of [serialize] *)

Lemma quoted_attribute_line key v :
  no_newline key = true -> no_newline v = true ->
  no_newline (piece_text (QuotedAttr key v)) = true.
Proof.
  intros Hk Hv. cbn [piece_text]. rewrite !no_newline_app, Hk.
  rewrite (no_newline_quote v Hv). reflexivity.
Qed.

Lemma bare_attribute_line key v :
  no_newline key = true -> no_newline v = true ->
  no_newline (piece_text (BareAttr key v)) = true.
Proof.
  intros Hk Hv. cbn [piece_text]. rewrite !no_newline_app, Hk, Hv. reflexivity.
Qed.

Lemma bare_no_newline v : bare_ok v = true -> no_newline v = true.
Proof.
  destruct v as [|c v]; [reflexivity|]. unfold bare_ok. intros H.
  apply andb_true_iff in H as [_ H]. unfold no_newline.
  rewrite forallb_forall in *. intros x Hx. specialize (H x Hx).
  apply negb_true_iff in H. apply orb_false_iff in H as [H _].
  apply negb_true_iff. destruct (ch_eqb x newline) eqn:E; [|reflexivity].
  apply ch_eqb_eq in E. subst x. discriminate.
Qed.

Lemma optional_piece_line key o :
  no_newline key = true -> optional_ok o = true ->
  forallb (fun p => no_newline (piece_text p))
    (optional_piece (str_truthy o) (QuotedAttr key (show_str o))) = true.
Proof.
  intros Hk H. destruct o as [s|]; [|reflexivity].
  apply optional_ok_parts in H as (_ & _ & Hnl).
  destruct (str_truthy (Some s)); [|reflexivity].
  cbn [optional_piece forallb show_str].
  rewrite quoted_attribute_line by assumption. reflexivity.
Qed.

Lemma quoted_piece_line key (o : option str) :
  no_newline key = true ->
  match o with Some p => quoted_ok p | None => true end = true ->
  forallb (fun p => no_newline (piece_text p))
    match o with Some p => [QuotedAttr key p] | None => [] end = true.
Proof.
  intros Hk H. destruct o as [p|]; [|reflexivity].
  apply quoted_ok_parts in H as [_ H]. cbn [forallb].
  rewrite quoted_attribute_line by assumption. reflexivity.
Qed.

Lemma bare_piece_line key (o : option str) :
  no_newline key = true ->
  match o with Some i => bare_ok i | None => true end = true ->
  forallb (fun p => no_newline (piece_text p))
    (optional_piece (str_truthy o) (BareAttr key (show_str o))) = true.
Proof.
  intros Hk H. destruct o as [i|]; [|reflexivity].
  destruct (str_truthy (Some i)); [|reflexivity].
  cbn [optional_piece forallb show_str].
  rewrite bare_attribute_line by (assumption || apply bare_no_newline; assumption).
  reflexivity.
Qed.

Lemma integer_piece_line key (o : option number) :
  no_newline key = true ->
  forallb (fun p => no_newline (piece_text p))
    match o with Some i => [BareAttr key (num_to_string i)] | None => [] end
  = true.
Proof.
  intros Hk. destruct o as [n|]; [|reflexivity]. cbn [forallb].
  rewrite bare_attribute_line by (assumption || apply no_newline_num).
  reflexivity.
Qed.

Lemma array_piece_line key o :
  no_newline key = true -> array_attribute_ok o = true ->
  forallb (fun p => no_newline (piece_text p))
    (optional_piece (nonempty_array o) (ArrayAttr key (array_inner o))) = true.
Proof.
  intros Hk H. destruct o as [[|v items]|]; try reflexivity.
  cbn [array_attribute_ok] in H. apply andb_true_iff in H as [H _].
  cbn [nonempty_array optional_piece forallb piece_text array_inner].
  rewrite !no_newline_app, Hk.
  rewrite no_newline_join; [reflexivity|].
  apply Forall_map. apply Forall_forall. intros x Hx.
  rewrite forallb_forall in H.
  destruct (canonical_round_trips x true (H x Hx)) as (_ & _ & _ & Hnl & _).
  exact Hnl.
Qed.

Lemma tag_line_no_newline tag ps :
  no_newline tag = true ->
  forallb (fun p => no_newline (piece_text p)) ps = true ->
  no_newline ("[" ++ tag ++ pieces_text ps ++ "]") = true.
Proof.
  intros Ht Hps. rewrite !no_newline_app, Ht. cbn [no_newline forallb andb].
  replace (no_newline (pieces_text ps)) with true; [reflexivity|].
  symmetry. induction ps as [|p ps IH]; [reflexivity|].
  cbn [forallb] in Hps. apply andb_true_iff in Hps as [Hp Hps].
  rewrite pieces_text_cons, no_newline_app, Hp, IH by assumption. reflexivity.
Qed.

Lemma serializeHeader_line h :
  header_ok h = true ->
  trimmed (serializeHeader h) = true /\ no_newline (serializeHeader h) = true
  /\ serializeHeader h <> [].
Proof.
  intros H. rewrite serializeHeader_pieces.
  split; [apply tag_line_trimmed|]. split; [|discriminate].
  apply tag_line_no_newline; [destruct (hdr_type h); reflexivity|].
  unfold header_ok in H. split_ok H.
  unfold header_pieces. rewrite !forallb_app.
  rewrite optional_piece_line by (reflexivity || assumption).
  cbn [forallb].
  rewrite bare_attribute_line by (reflexivity || apply no_newline_num).
  destruct (hdr_loadSteps h) as [n|]; [|reflexivity].
  destruct (num_opt_truthy (Some n)); [|reflexivity].
  cbn [optional_piece forallb show_num].
  rewrite bare_attribute_line by (reflexivity || apply no_newline_num).
  reflexivity.
Qed.

Lemma serializeExtResource_line r :
  externalResource_ok r = true ->
  trimmed (serializeExtResource r) = true
  /\ no_newline (serializeExtResource r) = true.
Proof.
  intros H. rewrite serializeExtResource_pieces.
  split; [apply tag_line_trimmed|].
  apply tag_line_no_newline; [reflexivity|].
  unfold externalResource_ok in H. split_ok H.
  apply quoted_ok_parts in H as [_ H].
  apply quoted_ok_parts in Hok1 as [_ Hok1].
  apply quoted_ok_parts in Hok0 as [_ Hok0].
  unfold externalResource_pieces. rewrite !forallb_app.
  rewrite optional_piece_line by (reflexivity || assumption).
  cbn [forallb].
  rewrite !quoted_attribute_line by (reflexivity || assumption).
  reflexivity.
Qed.

Lemma serializeConnection_line c :
  connection_ok c = true ->
  trimmed (serializeConnection c) = true
  /\ no_newline (serializeConnection c) = true.
Proof.
  intros H. rewrite serializeConnection_pieces.
  split; [apply tag_line_trimmed|].
  apply tag_line_no_newline; [reflexivity|].
  unfold connection_ok in H. split_ok H.
  apply quoted_ok_parts in H as [_ H].
  apply quoted_ok_parts in Hok3 as [_ Hok3].
  apply quoted_ok_parts in Hok2 as [_ Hok2].
  apply quoted_ok_parts in Hok1 as [_ Hok1].
  unfold connection_pieces. rewrite !forallb_app.
  rewrite array_piece_line by (reflexivity || assumption).
  rewrite integer_piece_line by reflexivity.
  cbn [forallb].
  rewrite !quoted_attribute_line by (reflexivity || assumption).
  reflexivity.
Qed.

Lemma property_lines_facts props :
  forallb (fun kv => property_key_ok (fst kv) && canonical false (snd kv)) props
  = true ->
  Forall (fun l => trimmed l = true /\ no_newline l = true)
    (map property_line props).
Proof.
  intros H. apply Forall_map. apply Forall_forall. intros [k v] Hin.
  rewrite forallb_forall in H. specialize (H _ Hin). cbn [fst snd] in H.
  apply andb_true_iff in H as [Hk Hv].
  destruct (property_line_facts k v Hk Hv) as (Ht & _ & _ & _ & Hnl). auto.
Qed.

Lemma serializeSubResource_lines r :
  subResource_ok r = true ->
  Forall (fun l => trimmed l = true /\ no_newline l = true)
    (serializeSubResource r ++ [[]]).
Proof.
  intros H. rewrite serializeSubResource_pieces.
  unfold subResource_ok in H. split_ok H.
  apply quoted_ok_parts in H as [_ H].
  apply quoted_ok_parts in Hok0 as [_ Hok0].
  apply properties_ok_parts in Hok as (_ & _ & Hall).
  apply Forall_app. split; [|repeat constructor].
  constructor; [|apply property_lines_facts; assumption].
  split; [apply tag_line_trimmed|].
  apply tag_line_no_newline; [reflexivity|].
  unfold subResource_pieces. cbn [forallb].
  rewrite !quoted_attribute_line by (reflexivity || assumption).
  reflexivity.
Qed.

Lemma serializeNode_lines n :
  node_ok n = true ->
  Forall (fun l => trimmed l = true /\ no_newline l = true)
    (serializeNode n ++ [[]]).
Proof.
  intros H. rewrite serializeNode_pieces.
  unfold node_ok in H. split_ok H.
  apply quoted_ok_parts in H as [_ H].
  apply properties_ok_parts in Hok as (_ & _ & Hall).
  apply Forall_app. split; [|repeat constructor].
  constructor; [|apply property_lines_facts; assumption].
  split; [apply tag_line_trimmed|].
  apply tag_line_no_newline; [reflexivity|].
  unfold node_pieces. rewrite !forallb_app.
  rewrite !optional_piece_line by (reflexivity || assumption).
  rewrite array_piece_line by (reflexivity || assumption).
  rewrite integer_piece_line by reflexivity.
  rewrite quoted_piece_line by (reflexivity || assumption).
  rewrite bare_piece_line by (reflexivity || assumption).
  cbn [forallb].
  rewrite !quoted_attribute_line by (reflexivity || assumption).
  reflexivity.
Qed.

Lemma join_snoc sep L x :
  L <> [] -> join sep (L ++ [x]) = join sep L ++ sep ++ x.
Proof.
  induction L as [|a [|b L] IH]; intros Hne; [contradiction | reflexivity |].
  change (join sep ((a :: b :: L) ++ [x]))
    with (a ++ sep ++ join sep ((b :: L) ++ [x])).
  rewrite IH by discriminate.
  change (join sep (a :: b :: L)) with (a ++ sep ++ join sep (b :: L)).
  rewrite <- !app_assoc. reflexivity.
Qed.

Lemma repeat_snoc {A} (x : A) k : repeat x k ++ [x] = repeat x (S k).
Proof. induction k as [|k IH]; [reflexivity|]. cbn [repeat app]. rewrite IH. reflexivity. Qed.

Lemma join_blanks L k :
  L <> [] ->
  join [newline] (L ++ repeat [] k) = join [newline] L ++ repeat newline k.
Proof.
  intros Hne. induction k as [|k IH].
  - cbn [repeat]. rewrite !app_nil_r. reflexivity.
  - rewrite <- !repeat_snoc, app_assoc.
    rewrite join_snoc by (destruct L; [contradiction|discriminate]).
    rewrite IH, app_nil_r, <- app_assoc. reflexivity.
Qed.

Lemma blank_decomposition (lines : list str) :
  hd [] lines <> [] ->
  exists L k, lines = L ++ repeat [] k /\ hd [] L <> [] /\ last L [] <> [].
Proof.
  induction lines as [|x M IH] using rev_ind; intros Hhd.
  - contradiction.
  - destruct x as [|c x].
    + destruct M as [|m M]; [contradiction|].
      destruct (IH Hhd) as (L & k & E & H1 & H2).
      exists L, (S k). rewrite E, <- repeat_snoc, app_assoc. auto.
    + exists (M ++ [c :: x]), 0. cbn [repeat]. rewrite app_nil_r, last_last.
      split; [reflexivity|]. split; [exact Hhd | discriminate].
Qed.

Lemma trimmed_join_lines (L : list str) :
  hd [] L <> [] -> last L [] <> [] ->
  trimmed (hd [] L) = true -> trimmed (last L []) = true ->
  trimmed (join [newline] L) = true.
Proof.
  intros Hh Hl Hth Htl.
  destruct L as [|a L]; [contradiction|]. cbn [hd] in *.
  destruct L as [|b L] using rev_ind; [exact Hth|]. clear IHL.
  change (a :: L ++ [b]) with ((a :: L) ++ [b]) in *.
  rewrite last_last in *.
  rewrite join_snoc by discriminate.
  destruct L as [|a2 L].
  - cbn [join]. apply (trimmed_mid a [newline] b); assumption.
  - change (join [newline] (a :: a2 :: L))
      with (a ++ [newline] ++ join [newline] (a2 :: L)).
    rewrite <- !app_assoc.
    replace (a ++ [newline] ++ join [newline] (a2 :: L) ++ [newline] ++ b)
      with (a ++ ([newline] ++ join [newline] (a2 :: L) ++ [newline]) ++ b)
      by (rewrite <- !app_assoc; reflexivity).
    apply trimmed_mid; assumption.
Qed.

Lemma fold_push_externalResources xs : forall r,
  fold_left (fun r x => push_externalResource x r) xs r
  = {| header := header r;
       externalResources := externalResources r ++ xs;
       subResources := subResources r;
       nodes := nodes r;
       connections := connections r |}.
Proof.
  induction xs as [|x xs IH]; intros r.
  - cbn [fold_left]. rewrite app_nil_r. destruct r; reflexivity.
  - cbn [fold_left]. rewrite IH. cbn. rewrite <- app_assoc. reflexivity.
Qed.

Lemma fold_push_subResources xs : forall r,
  fold_left (fun r x => push_subResource x r) xs r
  = {| header := header r;
       externalResources := externalResources r;
       subResources := subResources r ++ xs;
       nodes := nodes r;
       connections := connections r |}.
Proof.
  induction xs as [|x xs IH]; intros r.
  - cbn [fold_left]. rewrite app_nil_r. destruct r; reflexivity.
  - cbn [fold_left]. rewrite IH. cbn. rewrite <- app_assoc. reflexivity.
Qed.

Lemma fold_push_nodes xs : forall r,
  fold_left (fun r x => push_node x r) xs r
  = {| header := header r;
       externalResources := externalResources r;
       subResources := subResources r;
       nodes := nodes r ++ xs;
       connections := connections r |}.
Proof.
  induction xs as [|x xs IH]; intros r.
  - cbn [fold_left]. rewrite app_nil_r. destruct r; reflexivity.
  - cbn [fold_left]. rewrite IH. cbn. rewrite <- app_assoc. reflexivity.
Qed.

Lemma fold_push_connections xs : forall r,
  fold_left (fun r x => push_connection x r) xs r
  = {| header := header r;
       externalResources := externalResources r;
       subResources := subResources r;
       nodes := nodes r;
       connections := connections r ++ xs |}.
Proof.
  induction xs as [|x xs IH]; intros r.
  - cbn [fold_left]. rewrite app_nil_r. destruct r; reflexivity.
  - cbn [fold_left]. rewrite IH. cbn. rewrite <- app_assoc. reflexivity.
Qed.

Lemma parse_loop_serialize_lines scene :
  canonical_scene scene = true ->
  parse_loop (serialize_lines scene) 0 empty_scene = scene.
Proof.
  unfold canonical_scene. intros H. split_ok H.
  unfold serialize_lines. cbn [app].
  rewrite parse_loop_header by assumption. rewrite parse_loop_blank.
  rewrite parse_loop_externalResources by assumption.
  assert (Eb : forall rest r,
             parse_loop (match externalResources scene with
                         | [] => []
                         | _ :: _ => [[]]
                         end ++ rest) 0 r = parse_loop rest 0 r).
  { intros rest r. destruct (externalResources scene); reflexivity. }
  rewrite Eb.
  rewrite parse_loop_subResources by assumption.
  rewrite parse_loop_nodes by assumption.
  rewrite <- (app_nil_r (map serializeConnection (connections scene))).
  rewrite parse_loop_connections by assumption.
  cbn [parse_loop].
  rewrite fold_push_connections, fold_push_nodes, fold_push_subResources,
    fold_push_externalResources.
  destruct scene; reflexivity.
Qed.

Lemma serialize_lines_facts scene :
  canonical_scene scene = true ->
  Forall (fun l => trimmed l = true /\ no_newline l = true)
    (serialize_lines scene)
  /\ hd [] (serialize_lines scene) <> [].
Proof.
  unfold canonical_scene. intros H. split_ok H.
  destruct (serializeHeader_line _ H) as (Ht & Hnl & Hne).
  split; [|exact Hne].
  unfold serialize_lines.
  apply Forall_app. split.
  { constructor; [split; assumption|]. constructor; [split; reflexivity|].
    constructor. }
  apply Forall_app. split.
  { apply Forall_map. apply Forall_forall. intros x Hx.
    rewrite forallb_forall in Hok2. apply serializeExtResource_line; auto. }
  apply Forall_app. split.
  { destruct (externalResources scene); constructor;
      [split; reflexivity | constructor]. }
  apply Forall_app. split.
  { apply Forall_flat_map. apply Forall_forall. intros x Hx.
    rewrite forallb_forall in Hok1. apply serializeSubResource_lines; auto. }
  apply Forall_app. split.
  { apply Forall_flat_map. apply Forall_forall. intros x Hx.
    rewrite forallb_forall in Hok0. apply serializeNode_lines; auto. }
  apply Forall_map. apply Forall_forall. intros x Hx.
  rewrite forallb_forall in Hok. apply serializeConnection_line; auto.
Qed.

Lemma serialize_text scene :
  canonical_scene scene = true ->
  exists L k,
    serialize_lines scene = L ++ repeat [] k
    /\ serialize scene = join [newline] (L ++ [[]])
    /\ forallb no_newline (L ++ [[]]) = true.
Proof.
  intros H. destruct (serialize_lines_facts scene H) as [Hall Hhd].
  destruct (blank_decomposition _ Hhd) as (L & k & E & H1 & H2).
  exists L, k. split; [exact E|].
  rewrite E in Hall. apply Forall_app in Hall as [HL _].
  assert (Hne : L <> []) by (intros ->; apply H1; reflexivity).
  assert (Hth : trimmed (hd [] L) = true).
  { destruct L as [|a L]; [contradiction|].
    inversion HL as [|? ? [Ha _] _]; subst. exact Ha. }
  assert (Htl : trimmed (last L []) = true).
  { destruct (@exists_last _ L Hne) as [L' [b Eb]]. subst L.
    rewrite last_last. apply Forall_app in HL as [_ Hb].
    inversion Hb as [|? ? [Hb' _] _]; subst. exact Hb'. }
  split.
  - unfold serialize. rewrite E, join_blanks by assumption.
    rewrite <- (app_nil_l (join [newline] L ++ repeat newline k)).
    rewrite trim_pad.
    + rewrite join_snoc by assumption. rewrite app_nil_r. reflexivity.
    + reflexivity.
    + clear. induction k; [reflexivity | assumption].
    + apply trimmed_join_lines; assumption.
  - rewrite forallb_app. cbn [forallb no_newline andb].
    rewrite andb_true_r. apply forallb_forall. intros l Hl.
    rewrite Forall_forall in HL. apply (HL l Hl).
Qed.

(** [parse] gives back a canonical document from its serialization. *)
Lemma parse_serialize scene :
  canonical_scene scene = true -> parse (serialize scene) = scene.
Proof.
  intros H. destruct (serialize_text scene H) as (L & k & E & Es & Hnl).
  rewrite Es. unfold parse.
  rewrite split_join; [|destruct L; discriminate | exact Hnl].
  change [[]] with (repeat (@nil ascii) 1).
  rewrite parse_loop_blank_end.
  rewrite <- (parse_loop_blank_end L k), <- E.
  apply parse_loop_serialize_lines. exact H.
Qed.


(* ================================================================== *)
(** * Properties of the helpers *)
(* ================================================================== *)

(** ** Values *)

(** X1: [parseValue] gives a canonical value back from the text that
    [serializeValue] prints for it, at the top level of a property as
    well as inside an array or a dictionary. *)
Theorem parseValue_serializeValue (nested : bool) (v : value) :
  canonical nested v = true -> parseValue (serializeValue v) = v.
Proof. intros H. apply (canonical_round_trips v nested H). Qed.

Lemma parseValue_serializeValue_witness :
  parseValue
    (serializeValue
       (VArr [ tagged "Color" [("r", VNum (Finite 1 0)); ("g", VNum (Finite 5 1));
                               ("b", VNum (Finite 0 0)); ("a", VNum (Finite 1 0))];
               VStr "a, b]";
               VObj [("k", VArr [VNull; VBool true])] ]))
  = VArr [ tagged "Color" [("r", VNum (Finite 1 0)); ("g", VNum (Finite 5 1));
                           ("b", VNum (Finite 0 0)); ("a", VNum (Finite 1 0))];
           VStr "a, b]";
           VObj [("k", VArr [VNull; VBool true])] ].
Proof. apply (parseValue_serializeValue false). vm_compute. reflexivity. Defined.

(** X2: a string that is not printed raw is printed between quotes with
    its backslashes and quotes escaped, and [parseValue] reads the text
    back as the same string, whatever the string holds (quotes,
    backslashes, line breaks, the text of a number or of a keyword). *)
Theorem quoted_string_round_trip (s : str) :
  isGodotValueString s = false ->
  serializeValue (VStr s) = quote (escape s)
  /\ parseValue (serializeValue (VStr s)) = VStr s.
Proof.
  intros H. cbn [serializeValue]. unfold serializeString. rewrite H.
  split; [reflexivity | apply parseValue_quoted].
Qed.

Lemma quoted_string_round_trip_witness :
  parseValue (serializeValue (VStr ("null\" ++ [dquote; newline] ++ " 12")))
  = VStr ("null\" ++ [dquote; newline] ++ " 12").
Proof.
  apply (proj2 (quoted_string_round_trip ("null\" ++ [dquote; newline] ++ " 12")
                  eq_refl)).
Defined.

(** X3: a string that starts like a constructor call that [parseValue]
    does not decompose (Rect2, Transform2D, Transform3D, Basis,
    Quaternion, AABB, Plane) and has no space at its ends is printed as
    it is, and [parseValue] reads that text back as the same string. *)
Theorem raw_constructor_pass_through (s : str) :
  isGodotValueString s = true -> trimmed s = true ->
  parsed_constructor s = false ->
  serializeValue (VStr s) = s /\ parseValue s = VStr s.
Proof.
  intros H Ht Hp. split.
  - cbn [serializeValue]. unfold serializeString. rewrite H. reflexivity.
  - apply parseValue_raw; assumption.
Qed.

Lemma raw_constructor_pass_through_witness :
  serializeValue (VStr "Transform2D(1, 0, 0, 1, 0, 0)")
  = "Transform2D(1, 0, 0, 1, 0, 0)"
  /\ parseValue "Transform2D(1, 0, 0, 1, 0, 0)"
     = VStr "Transform2D(1, 0, 0, 1, 0, 0)".
Proof.
  apply (raw_constructor_pass_through "Transform2D(1, 0, 0, 1, 0, 0)");
    reflexivity.
Defined.

Lemma trimStart_all_ws s : forallb is_ws s = true -> trimStart s = [].
Proof.
  induction s as [|c s IH]; [reflexivity|]. cbn [forallb trimStart].
  intros H. apply andb_true_iff in H as [H1 H2]. rewrite H1. auto.
Qed.

Lemma trimStart_app s w :
  forallb is_ws w = true ->
  trimStart (s ++ w) = match trimStart s with [] => [] | t => t ++ w end.
Proof.
  intros Hw. induction s as [|c s IH].
  - cbn [app trimStart]. apply trimStart_all_ws. exact Hw.
  - cbn [app trimStart]. destruct (is_ws c); [exact IH | reflexivity].
Qed.

Lemma trim_padded w1 s w2 :
  forallb is_ws w1 = true -> forallb is_ws w2 = true ->
  trim (w1 ++ s ++ w2) = trim s.
Proof.
  intros H1 H2. unfold trim. rewrite trimStart_ws by assumption.
  rewrite trimStart_app by assumption.
  destruct (trimStart s) as [|c t] eqn:E; [reflexivity|].
  apply trimEnd_ws. exact H2.
Qed.

Lemma parseValue_body_trim pv s s' :
  trim s = trim s' -> parseValue_body pv s = parseValue_body pv s'.
Proof. intros H. unfold parseValue_body. cbv zeta. rewrite H. reflexivity. Qed.

(** X4: whitespace before and after the text of a value changes nothing
    in what [parseValue] returns. *)
Theorem parseValue_ignores_padding (w1 s w2 : str) :
  forallb is_ws w1 = true -> forallb is_ws w2 = true ->
  parseValue (w1 ++ s ++ w2) = parseValue s.
Proof.
  intros H1 H2. apply parseValue_from_body.
  rewrite (parseValue_body_trim _ (w1 ++ s ++ w2) s) by (apply trim_padded; assumption).
  apply parseValue_unfold.
Qed.

Lemma parseValue_ignores_padding_witness :
  parseValue ("  " ++ "Vector2(1, 2)" ++ [" "%char; "013"%char])
  = parseValue "Vector2(1, 2)".
Proof.
  apply (parseValue_ignores_padding "  " "Vector2(1, 2)" [" "%char; "013"%char]);
    reflexivity.
Defined.

(** X5: [parseArray] gives back the items of an array of canonical
    values from the text that [serializeValue] prints for the array (the
    [groups] and [binds] of a tag line are read this way). *)
Theorem parseArray_serialized (items : list value) :
  forallb (canonical true) items = true ->
  parseArray (serializeValue (VArr items)) = items.
Proof.
  intros H. apply parseArray_canonical. apply Forall_forall. intros x Hx.
  apply canonical_round_trips. rewrite forallb_forall in H. apply H. exact Hx.
Qed.

Lemma parseArray_serialized_witness :
  parseArray (serializeValue (VArr [VStr "enemies"; VStr "a, b"; VNum (Finite 3 0)]))
  = [VStr "enemies"; VStr "a, b"; VNum (Finite 3 0)].
Proof.
  apply (parseArray_serialized [VStr "enemies"; VStr "a, b"; VNum (Finite 3 0)]).
  vm_compute. reflexivity.
Defined.

(** ** Tag lines *)



Lemma span_parts p s : s = fst (span p s) ++ snd (span p s).
Proof.
  induction s as [|c s IH]; [reflexivity|]. cbn [span].
  destruct (p c); [|reflexivity].
  destruct (span p s) as [a b]. cbn [fst snd app] in *. rewrite IH at 1.
  reflexivity.
Qed.

Lemma match_attribute_without_equals s :
  no_char "=" s = true -> match_attribute s = None.
Proof.
  intros H. unfold match_attribute.
  pose proof (span_parts is_word s) as E.
  destruct (span is_word s) as [key r1]. cbn [fst snd] in E.
  destruct (is_empty key); [reflexivity|].
  destruct r1 as [|c r2]; [reflexivity|].
  destruct (ch_eqb c "=") eqn:Ec; [|reflexivity].
  exfalso. rewrite E in H. unfold no_char in H. rewrite forallb_app in H.
  apply andb_true_iff in H as [_ H]. cbn [forallb] in H.
  rewrite Ec in H. discriminate.
Qed.

Lemma parseAttributes_scan_without_equals s : forall skip attrs,
  no_char "=" s = true -> parseAttributes_scan s skip attrs = attrs.
Proof.
  induction s as [|c s IH]; intros skip attrs H; [reflexivity|].
  cbn [parseAttributes_scan].
  assert (Hs : no_char "=" s = true).
  { unfold no_char in *. cbn [forallb] in H. apply andb_true_iff in H. tauto. }
  destruct skip as [|k]; [|apply IH; exact Hs].
  rewrite match_attribute_without_equals by exact H. apply IH. exact Hs.
Qed.

(** X7: a line without an equals sign has no attribute. *)
Theorem parseAttributes_without_equals (line : str) :
  no_char "=" line = true -> parseAttributes line = [].
Proof. intros H. apply parseAttributes_scan_without_equals. exact H. Qed.

Lemma parseAttributes_without_equals_witness :
  parseAttributes "[node name Main type Node2D]" = [].
Proof.
  apply (parseAttributes_without_equals "[node name Main type Node2D]").
  reflexivity.
Defined.

(** X8: [parseHeader] gives a header back from the line that
    [serializeHeader] prints for it, when [load_steps] (if present, not
    zero) and [format] are integers printed exactly and the [uid] (if
    present) is not empty and holds no quote. *)
Theorem parseHeader_serializeHeader (h : SceneHeader) :
  header_ok h = true -> parseHeader (serializeHeader h) = h.
Proof. intros H. apply parseHeader_serialize. exact H. Qed.

Lemma parseHeader_serializeHeader_witness :
  parseHeader
    (serializeHeader {| hdr_type := gd_resource; hdr_loadSteps := Some (Finite 4 0);
                        hdr_format := Finite 3 0; hdr_uid := Some "uid://x1" |})
  = {| hdr_type := gd_resource; hdr_loadSteps := Some (Finite 4 0);
       hdr_format := Finite 3 0; hdr_uid := Some "uid://x1" |}.
Proof.
  apply (parseHeader_serializeHeader
           {| hdr_type := gd_resource; hdr_loadSteps := Some (Finite 4 0);
              hdr_format := Finite 3 0; hdr_uid := Some "uid://x1" |}).
  vm_compute. reflexivity.
Defined.

(** X9: [parseExtResource] gives an external resource back from the
    line that [serializeExtResource] prints for it, when its type, path
    and id hold no quote and no line break and its [uid], if present, is
    not empty and holds no quote and no line break. *)
Theorem parseExtResource_serializeExtResource (r : ExternalResource) :
  externalResource_ok r = true ->
  parseExtResource (serializeExtResource r) = r.
Proof. intros H. apply parseExtResource_serialize. exact H. Qed.

Lemma parseExtResource_serializeExtResource_witness :
  parseExtResource
    (serializeExtResource {| ext_type := "Texture2D"; ext_path := "res://my icon.png";
                             ext_id := "1_x"; ext_uid := Some "uid://t" |})
  = {| ext_type := "Texture2D"; ext_path := "res://my icon.png";
       ext_id := "1_x"; ext_uid := Some "uid://t" |}.
Proof.
  apply (parseExtResource_serializeExtResource
           {| ext_type := "Texture2D"; ext_path := "res://my icon.png";
              ext_id := "1_x"; ext_uid := Some "uid://t" |}).
  vm_compute. reflexivity.
Defined.

(** X10: [parseConnection] gives a connection back from the line that
    [serializeConnection] prints for it, when its signal, ends and method
    hold no quote and no line break, its flags are an integer printed
    exactly, and its binds, if present, are a non-empty array of
    canonical values whose text holds no closing bracket. *)
Theorem parseConnection_serializeConnection (c : SignalConnection) :
  connection_ok c = true -> parseConnection (serializeConnection c) = c.
Proof. intros H. apply parseConnection_serialize. exact H. Qed.

Lemma parseConnection_serializeConnection_witness :
  parseConnection
    (serializeConnection
       {| conn_signal := "pressed"; conn_from := "UI/Button"; conn_to := ".";
          conn_method := "_on_pressed"; conn_flags := Some (Finite 3 0);
          conn_binds := Some [VNum (Finite 1 0); VStr "left"] |})
  = {| conn_signal := "pressed"; conn_from := "UI/Button"; conn_to := ".";
       conn_method := "_on_pressed"; conn_flags := Some (Finite 3 0);
       conn_binds := Some [VNum (Finite 1 0); VStr "left"] |}.
Proof.
  apply (parseConnection_serializeConnection
           {| conn_signal := "pressed"; conn_from := "UI/Button"; conn_to := ".";
              conn_method := "_on_pressed"; conn_flags := Some (Finite 3 0);
              conn_binds := Some [VNum (Finite 1 0); VStr "left"] |}).
  vm_compute. reflexivity.
Defined.

(** ** Property lines and blocks *)

Lemma trimStart_parts s :
  exists w, forallb is_ws w = true /\ s = w ++ trimStart s.
Proof.
  induction s as [|c s (w & Hw & E)]; [exists []; auto|].
  cbn [trimStart]. destruct (is_ws c) eqn:Ec.
  - exists (c :: w). cbn [forallb app]. rewrite Ec, Hw. rewrite <- E. auto.
  - exists []. auto.
Qed.

Lemma trimEnd_parts s :
  exists w, forallb is_ws w = true /\ s = trimEnd s ++ w.
Proof.
  induction s as [|c s (w & Hw & E)]; [exists []; auto|].
  cbn [trimEnd]. destruct (trimEnd s) as [|x t] eqn:Et.
  - cbn [app] in E. subst w. destruct (is_ws c) eqn:Ec.
    + exists (c :: s). cbn [forallb app]. rewrite Ec, Hw. auto.
    + exists s. auto.
  - exists w. split; [exact Hw|]. cbn [app] in *. rewrite <- E. reflexivity.
Qed.

Lemma trim_parts s :
  exists w1 w2, forallb is_ws w1 = true /\ forallb is_ws w2 = true
                /\ s = w1 ++ trim s ++ w2.
Proof.
  destruct (trimStart_parts s) as (w1 & H1 & E1).
  destruct (trimEnd_parts (trimStart s)) as (w2 & H2 & E2).
  exists w1, w2. unfold trim. rewrite <- E2. auto.
Qed.

Lemma trim_trim s : trim (trim s) = trim s.
Proof.
  destruct (trim_parts s) as (w1 & w2 & H1 & H2 & E).
  rewrite E at 2. symmetry. apply trim_padded; assumption.
Qed.

Lemma forallb_trim p s : forallb p s = true -> forallb p (trim s) = true.
Proof.
  destruct (trim_parts s) as (w1 & w2 & _ & _ & E). intros H.
  rewrite E in H. rewrite !forallb_app in H.
  apply andb_true_iff in H as [_ H]. apply andb_true_iff in H as [H _].
  exact H.
Qed.

Lemma indexOf_none c s : no_char c s = true -> indexOf c s = None.
Proof.
  induction s as [|x s IH]; [reflexivity|]. unfold no_char. cbn [forallb indexOf].
  intros H. apply andb_true_iff in H as [H1 H2]. apply negb_true_iff in H1.
  rewrite H1. unfold no_char in IH. rewrite IH by exact H2. reflexivity.
Qed.

(** X11: [parseProperty] gives the key and the value back from the line
    that [serializeNode] and [serializeSubResource] print for a property,
    when the key is a valid property name (not empty, no whitespace at
    its ends, no equals sign, no line break, no bracket at its start, not
    [__proto__]) and the value is canonical: the line is split at its
    first equals sign only. *)
Theorem parseProperty_property_line (k : str) (v : value) :
  property_key_ok k = true -> canonical false v = true ->
  parseProperty (k ++ " = " ++ serializeValue v) = (k, v).
Proof.
  intros Hk Hv.
  destruct (property_line_facts k v Hk Hv) as (_ & _ & _ & H & _). exact H.
Qed.

Lemma parseProperty_property_line_witness :
  parseProperty ("text" ++ " = " ++ serializeValue (VStr "a = b"))
  = ("text", VStr "a = b").
Proof.
  apply (parseProperty_property_line "text" (VStr "a = b")); reflexivity.
Defined.

(** X12: in the block of a node or of a sub-resource, a line without an
    equals sign that is neither blank nor a tag is consumed and records
    nothing: the properties are those of the lines after it, and the block
    is one line longer. *)
Theorem parseProperties_skips_line_without_equals (l : str) (rest : list str)
    (properties : object) :
  no_char "=" l = true -> is_empty (trim l) = false ->
  startsWith "[" (trim l) = false ->
  parseProperties (l :: rest) properties
  = (fst (parseProperties rest properties),
     S (snd (parseProperties rest properties))).
Proof.
  intros Heq Hne Hsw. cbn [parseProperties]. rewrite Hne, Hsw. cbn [orb].
  unfold parseProperty.
  rewrite indexOf_none by (apply forallb_trim; exact Heq).
  cbn [is_empty negb].
  destruct (parseProperties rest properties) as [p n]. reflexivity.
Qed.

Lemma parseProperties_skips_line_without_equals_witness :
  parseProperties ["World" ++ [dquote]; "speed = 3"] []
  = (fst (parseProperties ["speed = 3"] []),
     S (snd (parseProperties ["speed = 3"] []))).
Proof.
  apply (parseProperties_skips_line_without_equals ("World" ++ [dquote])
           ["speed = 3"] []); reflexivity.
Defined.

(** X13: [parseNode] gives a node back from the lines that
    [serializeNode] prints for it, followed by the end of the text, a
    blank line or a tag line, and consumes one line for each property.
    The attributes of the node are those that the attribute expression
    reads back ([node_ok]); the keys of the properties are distinct valid
    property names in the order of a JavaScript object (array indices
    first, ascending); the values are canonical. *)
Theorem parseNode_serializeNode (n : SceneNode) (rest : list str) :
  node_ok n = true -> ends_block rest = true ->
  parseNode (hd [] (serializeNode n)) (tl (serializeNode n) ++ rest)
  = (n, length (node_properties n)).
Proof.
  intros H Hend. rewrite serializeNode_pieces. cbn [hd tl].
  apply parseNode_serialize; [exact H|].
  unfold node_ok in H. split_ok H.
  apply properties_ok_parts in Hok as (Hu & Hord & Hall).
  apply (parseProperties_lines (node_properties n) [] rest); assumption.
Qed.

Lemma parseNode_serializeNode_witness :
  parseNode
    (hd [] (serializeNode
              (plain_node "Player" "CharacterBody2D" (Some ".")
                 [("speed", VNum (Finite 3005 1)); ("name", VStr "p 1")])))
    (tl (serializeNode
           (plain_node "Player" "CharacterBody2D" (Some ".")
              [("speed", VNum (Finite 3005 1)); ("name", VStr "p 1")]))
     ++ [[]; "[node name=Next]"])
  = (plain_node "Player" "CharacterBody2D" (Some ".")
       [("speed", VNum (Finite 3005 1)); ("name", VStr "p 1")], 2).
Proof.
  apply (parseNode_serializeNode
           (plain_node "Player" "CharacterBody2D" (Some ".")
              [("speed", VNum (Finite 3005 1)); ("name", VStr "p 1")])
           [[]; "[node name=Next]"]); vm_compute; reflexivity.
Defined.

(** X14: [parseSubResource] gives a sub-resource back from the lines
    that [serializeSubResource] prints for it, followed by the end of the
    text, a blank line or a tag line, and consumes one line for each
    property.  The type and the id of the sub-resource hold no quote and
    no line break; the keys of the properties are distinct valid property
    names in the order of a JavaScript object; the values are
    canonical. *)
Theorem parseSubResource_serializeSubResource (r : SubResource)
    (rest : list str) :
  subResource_ok r = true -> ends_block rest = true ->
  parseSubResource (hd [] (serializeSubResource r))
    (tl (serializeSubResource r) ++ rest)
  = (r, length (sub_properties r)).
Proof.
  intros H Hend. rewrite serializeSubResource_pieces. cbn [hd tl].
  apply parseSubResource_serialize; [exact H|].
  unfold subResource_ok in H. split_ok H.
  apply properties_ok_parts in Hok as (Hu & Hord & Hall).
  apply (parseProperties_lines (sub_properties r) [] rest); assumption.
Qed.

Lemma parseSubResource_serializeSubResource_witness :
  parseSubResource
    (hd [] (serializeSubResource
              {| sub_type := "RectangleShape2D"; sub_id := "s1";
                 sub_properties :=
                   [("size", tagged "Vector2" [("x", VNum (Finite 32 0));
                                               ("y", VNum (Finite 16 0))])] |}))
    (tl (serializeSubResource
           {| sub_type := "RectangleShape2D"; sub_id := "s1";
              sub_properties :=
                [("size", tagged "Vector2" [("x", VNum (Finite 32 0));
                                            ("y", VNum (Finite 16 0))])] |})
     ++ [])
  = ({| sub_type := "RectangleShape2D"; sub_id := "s1";
        sub_properties :=
          [("size", tagged "Vector2" [("x", VNum (Finite 32 0));
                                      ("y", VNum (Finite 16 0))])] |}, 1).
Proof.
  apply (parseSubResource_serializeSubResource
           {| sub_type := "RectangleShape2D"; sub_id := "s1";
              sub_properties :=
                [("size", tagged "Vector2" [("x", VNum (Finite 32 0));
                                            ("y", VNum (Finite 16 0))])] |}
           []); vm_compute; reflexivity.
Defined.

(** ** The lines of a text *)

Lemma split_newlines c s k :
  split c (s ++ repeat c k) = split c s ++ repeat [] k.
Proof.
  induction s as [|x s IH].
  - cbn [app]. induction k as [|k IHk]; [reflexivity|].
    cbn [repeat split]. rewrite ch_eqb_refl, IHk. reflexivity.
  - cbn [app split]. destruct (ch_eqb x c); [rewrite IH; reflexivity|].
    rewrite IH. destruct (split c s) as [|cur r] eqn:E;
      [apply split_nonempty in E; contradiction|].
    reflexivity.
Qed.

(** X15: line breaks added at the end of a text change nothing in the
    document that [parse] returns. *)
Theorem parse_ignores_trailing_newlines (content : str) (k : nat) :
  parse (content ++ repeat newline k) = parse content.
Proof.
  unfold parse. rewrite split_newlines. apply parse_loop_blank_end.
Qed.

Lemma parseProperties_trim rest : forall acc,
  parseProperties (map trim rest) acc = parseProperties rest acc.
Proof.
  induction rest as [|l rest IH]; intros acc; [reflexivity|].
  cbn [map parseProperties]. rewrite trim_trim.
  destruct (is_empty (trim l) || startsWith "[" (trim l)); [reflexivity|].
  destruct (parseProperty (trim l)) as [key v]. rewrite IH. reflexivity.
Qed.

Lemma parse_loop_trim lines : forall skip r,
  parse_loop (map trim lines) skip r = parse_loop lines skip r.
Proof.
  induction lines as [|l lines IH]; intros skip r; [reflexivity|].
  cbn [map parse_loop]. destruct skip as [|k]; [|apply IH].
  rewrite trim_trim. unfold parseSubResource, parseNode. cbv zeta.
  rewrite trim_trim, !parseProperties_trim.
  destruct (parseProperties lines []) as [props n].
  rewrite !IH. reflexivity.
Qed.

(** X16: the whitespace at the ends of the lines of a text (indentation,
    trailing spaces, the carriage return of a CRLF line end) changes
    nothing in the document that [parse] returns: the text with every
    line trimmed has the same parse. *)
Theorem parse_ignores_line_padding (lines : list str) :
  lines <> [] -> forallb no_newline lines = true ->
  parse (join [newline] (map trim lines)) = parse (join [newline] lines).
Proof.
  intros Hne Hnl. unfold parse.
  rewrite !split_join.
  - apply parse_loop_trim.
  - exact Hne.
  - exact Hnl.
  - destruct lines; [contradiction | discriminate].
  - rewrite forallb_forall in *. intros x Hx. apply in_map_iff in Hx.
    destruct Hx as (l & <- & Hl). apply forallb_trim. apply (Hnl l Hl).
Qed.

Lemma parse_ignores_line_padding_witness :
  parse (join [newline]
           (map trim ["[gd_scene format=3]" ++ ["013"%char]; ["013"%char];
                      "  [node name=Main]" ++ ["013"%char];
                      "speed = 3 " ++ ["013"%char]]))
  = parse (join [newline]
             ["[gd_scene format=3]" ++ ["013"%char]; ["013"%char];
              "  [node name=Main]" ++ ["013"%char];
              "speed = 3 " ++ ["013"%char]]).
Proof.
  apply (parse_ignores_line_padding
           ["[gd_scene format=3]" ++ ["013"%char]; ["013"%char];
            "  [node name=Main]" ++ ["013"%char];
            "speed = 3 " ++ ["013"%char]]); [discriminate | reflexivity].
Defined.

(** ** Removing nodes *)

Lemma filter_keep_all {A} (f : A -> bool) l :
  forallb f l = true -> filter f l = l.
Proof.
  induction l as [|x l IH]; [reflexivity|]. cbn [forallb filter].
  intros H. apply andb_true_iff in H as [H1 H2]. rewrite H1, IH by exact H2.
  reflexivity.
Qed.

Lemma pathsToRemove_no_child nodePath l : forall set,
  forallb (fun n => negb (is_child_of nodePath n)) l = true ->
  fold_left
    (fun set node =>
       if is_child_of nodePath node then set_add (getNodePath node) set
       else set) l set = set.
Proof.
  induction l as [|n l IH]; intros set H; [reflexivity|].
  cbn [forallb] in H. apply andb_true_iff in H as [H1 H2].
  apply negb_true_iff in H1. cbn [fold_left]. rewrite H1. apply IH. exact H2.
Qed.

Lemma updateLoadSteps_idempotent scene :
  updateLoadSteps (updateLoadSteps scene) = updateLoadSteps scene.
Proof. reflexivity. Qed.

Lemma removeNode_untouched scene nodePath :
  untouched_path scene nodePath = true ->
  removeNode scene nodePath = updateLoadSteps scene.
Proof.
  unfold untouched_path. intros H. split_ok H. apply negb_true_iff in H.
  unfold removeNode, pathsToRemove. cbv zeta.
  rewrite pathsToRemove_no_child by exact Hok0.
  rewrite !filter_keep_all.
  - destruct scene; reflexivity.
  - apply forallb_forall. intros c Hc. rewrite forallb_forall in Hok.
    specialize (Hok c Hc). cbn [set_has existsb]. rewrite !orb_false_r.
    exact Hok.
  - apply forallb_forall. intros n Hn. cbn [set_has existsb].
    rewrite orb_false_r. apply negb_true_iff.
    destruct (str_eqb (getNodePath n) nodePath) eqn:E; [|reflexivity].
    exfalso. unfold has_path in H.
    assert (Ht : existsb (fun n => str_eqb (getNodePath n) nodePath)
                   (nodes scene) = true).
    { apply existsb_exists. exists n. auto. }
    rewrite Ht in H. discriminate.
Qed.

(** X17: [removeNode] on a path that nothing in the scene has to do
    with (no node has the path, no node passes the children test, no
    connection starts or ends there) removes nothing: it only stores the
    new [loadSteps]. *)
Theorem removeNode_absent_path (scene : ParsedScene) (nodePath : str) :
  untouched_path scene nodePath = true ->
  removeNode scene nodePath = updateLoadSteps scene.
Proof. apply removeNode_untouched. Qed.

Lemma removeNode_absent_path_witness :
  removeNode cascade_scene "Coin" = updateLoadSteps cascade_scene.
Proof. apply (removeNode_absent_path cascade_scene "Coin"). reflexivity. Defined.

(** X18: removing a node right after adding it gives the scene back as
    it was before, with the recomputed [loadSteps], when nothing in the
    scene had to do with the path of the new node. *)
Theorem removeNode_after_addNode (scene : ParsedScene) (node : SceneNode)
    (properties : option object) :
  untouched_path scene (getNodePath node) = true ->
  removeNode (addNode scene node properties) (getNodePath node)
  = updateLoadSteps scene.
Proof.
  unfold untouched_path. intros H. split_ok H. apply negb_true_iff in H.
  set (p := getNodePath node) in *.
  unfold removeNode, pathsToRemove, addNode. cbv zeta.
  cbn [nodes connections updateLoadSteps push_node set_header header
       externalResources subResources].
  rewrite fold_left_app.
  rewrite (pathsToRemove_no_child p (nodes scene)) by exact Hok0.
  cbn [fold_left].
  match goal with
  | |- context [if is_child_of p ?n then set_add (getNodePath ?n) [p] else [p]] =>
      replace (if is_child_of p n then set_add (getNodePath n) [p] else [p])
        with [p]
        by (destruct (is_child_of p n); [|reflexivity];
            change (getNodePath n) with p; unfold set_add; cbn [set_has existsb];
            rewrite str_eqb_refl; reflexivity)
  end.
  rewrite filter_app. cbn [filter set_has existsb].
  match goal with
  | |- context [str_eqb (getNodePath ?n) p] =>
      change (getNodePath n) with p
  end.
  rewrite str_eqb_refl. cbn [orb negb]. rewrite app_nil_r.
  rewrite !filter_keep_all.
  - destruct scene as [h e s n c]. reflexivity.
  - apply forallb_forall. intros c Hc. rewrite forallb_forall in Hok.
    specialize (Hok c Hc). rewrite !orb_false_r. exact Hok.
  - apply forallb_forall. intros n Hn. rewrite orb_false_r.
    apply negb_true_iff.
    destruct (str_eqb (getNodePath n) p) eqn:E; [|reflexivity].
    exfalso. unfold has_path in H.
    assert (Ht : existsb (fun n => str_eqb (getNodePath n) p) (nodes scene) = true).
    { apply existsb_exists. exists n. auto. }
    rewrite Ht in H. discriminate.
Qed.

Lemma removeNode_after_addNode_witness :
  removeNode (addNode cascade_scene (plain_node "Coin" "Area2D" (Some ".") []) None)
    (getNodePath (plain_node "Coin" "Area2D" (Some ".") []))
  = updateLoadSteps cascade_scene.
Proof.
  apply (removeNode_after_addNode cascade_scene
           (plain_node "Coin" "Area2D" (Some ".") []) None).
  reflexivity.
Defined.

(** X19: removing the same path twice gives what removing it once
    gives. *)
Theorem removeNode_idempotent (scene : ParsedScene) (nodePath : str) :
  removeNode (removeNode scene nodePath) nodePath = removeNode scene nodePath.
Proof.
  rewrite removeNode_untouched.
  - reflexivity.
  - unfold untouched_path, removeNode. cbv zeta.
    cbn [nodes connections updateLoadSteps set_header].
    assert (Hp : set_has nodePath (pathsToRemove scene nodePath) = true).
    { rewrite pathsToRemove_spec. unfold removed_path.
      rewrite str_eqb_refl. reflexivity. }
    apply andb_true_iff. split; [apply andb_true_iff; split|].
    + apply negb_true_iff. unfold has_path.
      destruct (existsb _ _) eqn:E; [|reflexivity]. exfalso.
      apply existsb_exists in E as (n & Hn & En).
      apply filter_In in Hn as [_ Hn]. apply str_eqb_eq in En.
      rewrite En, Hp in Hn. discriminate.
    + apply forallb_forall. intros n Hn. apply filter_In in Hn as [Hin Hn].
      apply negb_true_iff in Hn. rewrite pathsToRemove_spec in Hn.
      unfold removed_path in Hn. apply orb_false_iff in Hn as [_ Hn].
      apply negb_true_iff.
      destruct (is_child_of nodePath n) eqn:E; [|reflexivity]. exfalso.
      assert (Ht : existsb (fun m => is_child_of nodePath m
                                     && str_eqb (getNodePath n) (getNodePath m))
                     (nodes scene) = true).
      { apply existsb_exists. exists n. rewrite E, str_eqb_refl. auto. }
      rewrite Ht in Hn. discriminate.
    + apply forallb_forall. intros c Hc. apply filter_In in Hc as [_ Hc].
      apply andb_true_iff in Hc as [H1 H2].
      apply negb_true_iff in H1, H2.
      apply andb_true_iff. split; apply negb_true_iff.
      * destruct (str_eqb (conn_from c) nodePath) eqn:E; [|reflexivity].
        apply str_eqb_eq in E. rewrite E, Hp in H1. discriminate.
      * destruct (str_eqb (conn_to c) nodePath) eqn:E; [|reflexivity].
        apply str_eqb_eq in E. rewrite E, Hp in H2. discriminate.
Qed.

(** ** More on values and on the loop of [parse] *)

(** X20: a color written with three components is read as the record
    with the fields [_type] = Color, [r], [g], [b] and [a] = 1: the
    components are numbers printed exactly, NaN or infinite. *)
Theorem color_alpha_defaults_to_one (r g b : number) :
  component_ok (VNum r) = true -> component_ok (VNum g) = true ->
  component_ok (VNum b) = true ->
  parseValue ("Color(" ++ num_to_string r ++ ", " ++ num_to_string g ++ ", "
              ++ num_to_string b ++ ")")
  = VObj [("_type", VStr "Color"); ("r", VNum r); ("g", VNum g); ("b", VNum b);
          ("a", VNum (Finite 1 0))].
Proof.
  intros Hr Hg Hb. apply parseValue_from_body.
  replace ("Color(" ++ num_to_string r ++ ", " ++ num_to_string g ++ ", "
           ++ num_to_string b ++ ")")
    with ("Color" ++ "(" ++ join ", " (map num_to_string [r; g; b]) ++ ")")
    by (cbn [join map app]; repeat (rewrite <- app_assoc; cbn [app]);
        reflexivity).
  apply (parse_constructor_call (fun t => Some (parseValue t)) "Color" [r; g; b]
           (fun t parts =>
              parseValue_body (fun t => Some (parseValue t)) t
              = Some (tagged "Color"
                        [("r", component 0 parts); ("g", component 1 parts);
                         ("b", component 2 parts);
                         ("a", nullish_or (component 3 parts) (VNum (Finite 1 0)))]))).
  - reflexivity.
  - discriminate.
  - repeat constructor; assumption.
  - intros t parts Et Htrim E1 E2 E3 E4 E5 E6 Eparts Hparse.
    unfold parseValue_body. cbv zeta.
    rewrite Htrim, E1, E2, E3, E4, E5, E6.
    replace (startsWith "Vector2(" t) with false by (subst t; reflexivity).
    replace (startsWith "Vector3(" t) with false by (subst t; reflexivity).
    replace (startsWith "Color(" t) with true by (subst t; reflexivity).
    change 6 with (length "Color" + 1). rewrite Hparse.
    reflexivity.
Qed.

Lemma color_alpha_defaults_to_one_witness :
  parseValue ("Color(" ++ num_to_string (Finite 1 0) ++ ", "
              ++ num_to_string (Finite 5 1) ++ ", "
              ++ num_to_string (Finite 25 2) ++ ")")
  = VObj [("_type", VStr "Color"); ("r", VNum (Finite 1 0));
          ("g", VNum (Finite 5 1)); ("b", VNum (Finite 25 2));
          ("a", VNum (Finite 1 0))].
Proof.
  apply (color_alpha_defaults_to_one (Finite 1 0) (Finite 5 1) (Finite 25 2));
    reflexivity.
Defined.

Lemma split_app c a b : split c (a ++ c :: b) = split c a ++ split c b.
Proof.
  induction a as [|x a IH].
  - cbn [app split]. rewrite ch_eqb_refl. reflexivity.
  - cbn [app split]. rewrite IH. destruct (ch_eqb x c); [reflexivity|].
    destruct (split c a) as [|cur r] eqn:E;
      [apply split_nonempty in E; contradiction|].
    reflexivity.
Qed.

Lemma parseProperties_before_blank rest l2 : forall acc,
  parseProperties (rest ++ [] :: l2) acc = parseProperties rest acc.
Proof.
  induction rest as [|l rest IH]; intros acc; [reflexivity|].
  cbn [app parseProperties].
  destruct (is_empty (trim l) || startsWith "[" (trim l)); [reflexivity|].
  destruct (parseProperty (trim l)) as [key v]. rewrite IH. reflexivity.
Qed.

Lemma parseProperties_count rest : forall acc,
  snd (parseProperties rest acc) <= length rest.
Proof.
  induction rest as [|l rest IH]; intros acc; [cbn; lia|].
  cbn [parseProperties length].
  destruct (is_empty (trim l) || startsWith "[" (trim l)); [cbn; lia|].
  destruct (parseProperty (trim l)) as [key v].
  match goal with
  | |- context [parseProperties rest ?a] =>
      specialize (IH a); destruct (parseProperties rest a) as [p n]
  end.
  cbn [snd] in *. lia.
Qed.

Lemma parse_loop_before_blank l1 l2 : forall skip r,
  skip <= length l1 ->
  parse_loop (l1 ++ [] :: l2) skip r = parse_loop l2 0 (parse_loop l1 skip r).
Proof.
  induction l1 as [|l l1 IH]; intros skip r Hs.
  - cbn [length] in Hs. assert (skip = 0) by lia. subst skip. reflexivity.
  - cbn [app parse_loop length] in *. destruct skip as [|k]; [|apply IH; lia].
    unfold parseSubResource, parseNode. cbv zeta.
    rewrite !parseProperties_before_blank.
    pose proof (parseProperties_count l1 []) as Hc.
    destruct (parseProperties l1 []) as [props n]. cbn [snd] in Hc.
    rewrite !IH by (try exact Hc; lia).
    repeat match goal with
           | |- context [if ?c then _ else _] => destruct c
           end; reflexivity.
Qed.

Ltac parse_loop_fields :=
  let l := fresh "l" in
  let lines := fresh "lines" in
  let IH := fresh "IH" in
  intros lines; induction lines as [|l lines IH]; intros skip r;
  [ cbn [parse_loop]; rewrite app_nil_r; reflexivity | ];
  cbn [parse_loop]; destruct skip as [|k]; [|apply IH];
  unfold parseSubResource, parseNode; cbv zeta;
  destruct (parseProperties lines []) as [props n];
  repeat match goal with
         | |- context [if ?c then _ else _] => destruct c
         end;
  rewrite IH;
  match goal with
  | |- _ = _ ++ ?f (parse_loop lines ?m ?s) =>
      rewrite (IH m s); cbn; rewrite <- ?app_assoc; reflexivity
  end.

Lemma parse_loop_externalResources_of lines : forall skip r,
  externalResources (parse_loop lines skip r)
  = externalResources r ++ externalResources (parse_loop lines skip empty_scene).
Proof. revert lines. parse_loop_fields. Qed.

Lemma parse_loop_subResources_of lines : forall skip r,
  subResources (parse_loop lines skip r)
  = subResources r ++ subResources (parse_loop lines skip empty_scene).
Proof. revert lines. parse_loop_fields. Qed.

Lemma parse_loop_nodes_of lines : forall skip r,
  nodes (parse_loop lines skip r)
  = nodes r ++ nodes (parse_loop lines skip empty_scene).
Proof. revert lines. parse_loop_fields. Qed.

Lemma parse_loop_connections_of lines : forall skip r,
  connections (parse_loop lines skip r)
  = connections r ++ connections (parse_loop lines skip empty_scene).
Proof. revert lines. parse_loop_fields. Qed.

(** X21: the resources, nodes and connections of two texts put one
    after the other with an empty line between them are those of the
    first text followed by those of the second. *)
Theorem parse_blank_line_concatenation (a b : str) :
  externalResources (parse (a ++ [newline; newline] ++ b))
  = externalResources (parse a) ++ externalResources (parse b)
  /\ subResources (parse (a ++ [newline; newline] ++ b))
     = subResources (parse a) ++ subResources (parse b)
  /\ nodes (parse (a ++ [newline; newline] ++ b))
     = nodes (parse a) ++ nodes (parse b)
  /\ connections (parse (a ++ [newline; newline] ++ b))
     = connections (parse a) ++ connections (parse b).
Proof.
  unfold parse. cbn [app]. rewrite split_app.
  cbn [split]. rewrite ch_eqb_refl.
  rewrite parse_loop_before_blank by lia.
  rewrite parse_loop_externalResources_of, parse_loop_subResources_of,
    parse_loop_nodes_of, parse_loop_connections_of.
  auto.
Qed.

(** X22: [removeNode] tests the stored parent of a node with
    [startsWith]: a node whose stored parent begins with the target path
    is removed, also when the target is only the beginning of a name
    (removing [Play] removes the children of [Player]). *)
Theorem removeNode_parent_prefix (scene : ParsedScene) (nodePath : str)
    (n : SceneNode) (q : str) :
  In n (nodes scene) -> node_parent n = Some q ->
  startsWith nodePath q = true ->
  ~ In n (nodes (removeNode scene nodePath)).
Proof.
  intros Hin Hq Hsw Hn. unfold removeNode in Hn. cbv zeta in Hn.
  cbn [nodes updateLoadSteps set_header] in Hn.
  apply filter_In in Hn as [_ Hn]. apply negb_true_iff in Hn.
  rewrite pathsToRemove_spec in Hn. unfold removed_path in Hn.
  apply orb_false_iff in Hn as [_ Hn].
  assert (Ht : existsb (fun m => is_child_of nodePath m
                                 && str_eqb (getNodePath n) (getNodePath m))
                 (nodes scene) = true).
  { apply existsb_exists. exists n. split; [exact Hin|].
    unfold is_child_of, parent_startsWith. rewrite Hq, Hsw, str_eqb_refl.
    rewrite orb_true_r. reflexivity. }
  rewrite Ht in Hn. discriminate.
Qed.

Lemma removeNode_parent_prefix_witness :
  ~ In (plain_node "Sprite" "Sprite2D" (Some "Player") [])
      (nodes (removeNode cascade_scene "Play")).
Proof.
  apply (removeNode_parent_prefix cascade_scene "Play"
           (plain_node "Sprite" "Sprite2D" (Some "Player") []) "Player").
  - right. right. left. reflexivity.
  - reflexivity.
  - reflexivity.
Defined.

Lemma tagged_text_printed_raw obj :
  is_tagged obj = true -> isGodotValueString (serializeValue (VObj obj)) = true.
Proof.
  unfold is_tagged. intros H.
  repeat (apply orb_true_iff in H; destruct H as [H|H]).
  - unfold is_vector2 in H.
    destruct obj as [|[k0 [| | | |t| |]] [|[k1 x] [|[k2 y] [|]]]]; try discriminate.
    repeat (apply andb_true_iff in H; destruct H as [H ?]).
    str_eqs. reflexivity.
  - unfold is_vector3 in H.
    destruct obj as [|[k0 [| | | |t| |]] [|[k1 x] [|[k2 y] [|[k3 z] [|]]]]];
      try discriminate.
    repeat (apply andb_true_iff in H; destruct H as [H ?]).
    str_eqs. reflexivity.
  - unfold is_color in H.
    destruct obj as [|[k0 [| | | |t| |]] [|[k1 r] [|[k2 g] [|[k3 b] [|[k4 a] [|]]]]]];
      try discriminate.
    repeat (apply andb_true_iff in H; destruct H as [H ?]).
    str_eqs. reflexivity.
  - unfold is_reference in H.
    destruct obj as [|[k0 [| | | |t| |]] [|[k1 [| | | |s| |]] [|]]]; try discriminate.
    repeat (apply andb_true_iff in H; destruct H as [H ?]).
    str_eqs. reflexivity.
  - unfold is_reference in H.
    destruct obj as [|[k0 [| | | |t| |]] [|[k1 [| | | |s| |]] [|]]]; try discriminate.
    repeat (apply andb_true_iff in H; destruct H as [H ?]).
    str_eqs. reflexivity.
  - unfold is_reference in H.
    destruct obj as [|[k0 [| | | |t| |]] [|[k1 [| | | |s| |]] [|]]]; try discriminate.
    repeat (apply andb_true_iff in H; destruct H as [H ?]).
    str_eqs. reflexivity.
Qed.

(** X23: a string whose characters are the text of a tagged record
    (a vector, a color, a resource reference or a node path) is printed
    without quotes, like the record itself, and [parseValue] reads that
    text back as the record, not as the string. *)
Theorem string_of_record_text_becomes_record (obj : object) :
  is_tagged obj = true ->
  serializeValue (VStr (serializeValue (VObj obj))) = serializeValue (VObj obj)
  /\ parseValue (serializeValue (VStr (serializeValue (VObj obj)))) = VObj obj.
Proof.
  intros H.
  assert (E : serializeValue (VStr (serializeValue (VObj obj)))
              = serializeValue (VObj obj)).
  { change (serializeValue (VStr (serializeValue (VObj obj))))
      with (serializeString (serializeValue (VObj obj))).
    unfold serializeString. rewrite (tagged_text_printed_raw obj H).
    reflexivity. }
  split; [exact E|]. rewrite E.
  apply (round_trips_tagged false obj H).
Qed.

Lemma string_of_record_text_becomes_record_witness :
  serializeValue (VStr "Vector2(1, 2)") = "Vector2(1, 2)"
  /\ parseValue (serializeValue (VStr "Vector2(1, 2)"))
     = tagged "Vector2" [("x", VNum (Finite 1 0)); ("y", VNum (Finite 2 0))].
Proof.
  apply (string_of_record_text_becomes_record
           [("_type", VStr "Vector2"); ("x", VNum (Finite 1 0));
            ("y", VNum (Finite 2 0))]).
  reflexivity.
Defined.

(** ** The text of [serialize] *)

Lemma trimEnd_keeps_prefix p : forall s,
  forallb (fun c => negb (is_ws c)) p = true ->
  exists t, trimEnd (p ++ s) = p ++ t.
Proof.
  induction p as [|c p IH]; intros s H.
  - exists (trimEnd s). reflexivity.
  - cbn [forallb] in H. apply andb_true_iff in H as [Hc Hp].
    apply negb_true_iff in Hc. destruct (IH s Hp) as (t & E).
    cbn [app trimEnd]. rewrite E.
    destruct (p ++ t) as [|x r] eqn:Ept.
    + rewrite Hc. exists []. destruct p; [reflexivity | discriminate].
    + exists t. rewrite Ept. reflexivity.
Qed.

Lemma trim_fixed_trimmed t : trim t = t -> trimmed t = true.
Proof.
  intros E. destruct t as [|c r]; [reflexivity|].
  assert (Hc : is_ws c = false).
  { destruct (is_ws c) eqn:Ec; [|reflexivity]. exfalso.
    apply (f_equal (@length ascii)) in E. unfold trim in E.
    cbn [trimStart] in E. rewrite Ec in E.
    pose proof (length_trimEnd (trimStart r)).
    pose proof (length_trimStart r). cbn [length] in E. lia. }
  destruct (@exists_last _ (c :: r) ltac:(discriminate)) as (r' & d & Er).
  assert (Hd : is_ws d = false).
  { destruct (is_ws d) eqn:Ed; [|reflexivity]. exfalso.
    apply (f_equal (@length ascii)) in E. unfold trim in E.
    cbn [trimStart] in E. rewrite Hc in E. rewrite Er in E.
    rewrite trimEnd_ws in E by (cbn [forallb]; rewrite Ed; reflexivity).
    pose proof (length_trimEnd r'). rewrite length_app in E.
    cbn [length] in E. lia. }
  unfold trimmed. rewrite Hc. rewrite Er at 1. rewrite last_last, Hd.
  reflexivity.
Qed.

Lemma trimmed_trim s : trimmed (trim s) = true.
Proof. apply trim_fixed_trimmed. apply trim_trim. Qed.

Lemma join_first sep h tl : exists rest, join sep (h :: tl) = h ++ rest.
Proof.
  destruct tl as [|x tl].
  - exists []. cbn [join]. rewrite app_nil_r. reflexivity.
  - exists (sep ++ join sep (x :: tl)). reflexivity.
Qed.

(** X24: for every document on which [serialize] does not raise, the
    text that it returns starts with the header tag and ends with one
    line break: the text before that line break has no whitespace at
    either end.  ([serialize] raises when a template literal converts an
    object that has an own property [toString].) *)
Theorem serialize_text_frame (scene : ParsedScene) :
  serialize_raises scene = false ->
  exists body,
    serialize scene = body ++ [newline]
    /\ trimmed body = true
    /\ startsWith "[gd_" body = true.
Proof.
  intros _.
  exists (trim (join [newline] (serialize_lines scene))).
  split; [reflexivity|]. split; [apply trimmed_trim|].
  assert (E : exists rest,
             join [newline] (serialize_lines scene) = "[gd_" ++ rest).
  { unfold serialize_lines. cbn [app].
    match goal with
    | |- exists rest, join _ (?h :: ?tl) = _ =>
        destruct (join_first [newline] h tl) as (r & Er); rewrite Er
    end.
    rewrite serializeHeader_pieces.
    destruct (hdr_type (header scene)); eexists; cbn [header_type_str app];
      reflexivity. }
  destruct E as (rest & E). rewrite E.
  unfold trim. cbn [app trimStart].
  replace (is_ws "[") with false by reflexivity.
  change ("["%char :: "g"%char :: "d"%char :: "_"%char :: rest)
    with ("[gd_" ++ rest).
  destruct (trimEnd_keeps_prefix "[gd_" rest eq_refl) as (t & Et).
  rewrite Et. reflexivity.
Qed.

Lemma serialize_text_frame_witness :
  exists body,
    serialize sample_scene = body ++ [newline]
    /\ trimmed body = true
    /\ startsWith "[gd_" body = true.
Proof. apply (serialize_text_frame sample_scene). reflexivity. Defined.

(** ** Adding, then modifying *)

Lemma modify_first_app nodePath updates a b :
  modify_first nodePath updates (a ++ b)
  = match modify_first nodePath updates a with
    | Some a' => Some (a' ++ b)
    | None => option_map (app a) (modify_first nodePath updates b)
    end.
Proof.
  induction a as [|n a IH].
  - cbn [app modify_first option_map]. destruct (modify_first nodePath updates b);
      reflexivity.
  - cbn [app modify_first].
    destruct (str_eqb (getNodePath n) nodePath); [reflexivity|].
    rewrite IH. destruct (modify_first nodePath updates a); [reflexivity|].
    destruct (modify_first nodePath updates b); reflexivity.
Qed.

Lemma modify_first_some nodePath updates l :
  has_path nodePath l = true ->
  exists l', modify_first nodePath updates l = Some l'.
Proof.
  induction l as [|n l IH]; [discriminate|]. unfold has_path. cbn [existsb].
  intros H. cbn [modify_first].
  destruct (str_eqb (getNodePath n) nodePath); [eexists; reflexivity|].
  cbn [orb] in H. destruct (IH H) as (l' & ->). eexists. reflexivity.
Qed.

(** X25: [modifyNode] changes the first node that has the path.  After
    [addNode], the new node is reached when no node of the scene had its
    path: the call returns true and changes the new node alone.  When a
    node of the scene already has the path, that node is changed as
    without the addition, and the new node is left as it was stored. *)
Theorem modifyNode_after_addNode (scene : ParsedScene) (node : SceneNode)
    (properties : option object) (nodePath : str) (updates : NodeUpdates) :
  (has_path nodePath (nodes scene) = false ->
   getNodePath node = nodePath ->
   fst (modifyNode (addNode scene node properties) nodePath updates) = true
   /\ nodes (snd (modifyNode (addNode scene node properties) nodePath updates))
      = nodes scene ++ [apply_updates updates (stored_node node properties)])
  /\
  (has_path nodePath (nodes scene) = true ->
   fst (modifyNode (addNode scene node properties) nodePath updates) = true
   /\ nodes (snd (modifyNode (addNode scene node properties) nodePath updates))
      = nodes (snd (modifyNode scene nodePath updates))
        ++ [stored_node node properties]).
Proof.
  unfold modifyNode, addNode. cbv zeta.
  cbn [nodes updateLoadSteps push_node set_header].
  fold (stored_node node properties).
  rewrite modify_first_app. split.
  - intros Hfresh Hpath. rewrite (modify_first_none _ _ _ Hfresh).
    cbn [modify_first].
    change (getNodePath (stored_node node properties)) with (getNodePath node).
    rewrite Hpath, str_eqb_refl. cbn [option_map fst snd nodes]. auto.
  - intros Hhas. destruct (modify_first_some nodePath updates _ Hhas) as (l' & E).
    rewrite E. cbn [fst snd nodes]. auto.
Qed.

Lemma modifyNode_after_addNode_witness :
  (fst (modifyNode (addNode cascade_scene (plain_node "Coin" "Area2D" None []) None)
          "Coin" (only_properties [("value", VNum (Finite 5 0))])) = true
   /\ nodes (snd (modifyNode
                    (addNode cascade_scene (plain_node "Coin" "Area2D" None []) None)
                    "Coin" (only_properties [("value", VNum (Finite 5 0))])))
      = nodes cascade_scene
        ++ [apply_updates (only_properties [("value", VNum (Finite 5 0))])
              (stored_node (plain_node "Coin" "Area2D" None []) None)])
  /\
  (fst (modifyNode (addNode cascade_scene (plain_node "Main" "Node" None []) None)
          "Main" (only_properties [("value", VNum (Finite 5 0))])) = true
   /\ nodes (snd (modifyNode
                    (addNode cascade_scene (plain_node "Main" "Node" None []) None)
                    "Main" (only_properties [("value", VNum (Finite 5 0))])))
      = nodes (snd (modifyNode cascade_scene "Main"
                      (only_properties [("value", VNum (Finite 5 0))])))
        ++ [stored_node (plain_node "Main" "Node" None []) None]).
Proof.
  split.
  - apply (proj1 (modifyNode_after_addNode cascade_scene
                    (plain_node "Coin" "Area2D" None []) None "Coin"
                    (only_properties [("value", VNum (Finite 5 0))])));
      reflexivity.
  - apply (proj2 (modifyNode_after_addNode cascade_scene
                    (plain_node "Main" "Node" None []) None "Main"
                    (only_properties [("value", VNum (Finite 5 0))]))).
    reflexivity.
Defined.

(** ** C6: removing by path *)

(** C6 (the code at the failing input): in the scene with a root called
    Main and a child of the root also called Main, the two nodes have
    the same computed path.  Removing the path [.] collects the path of
    the child (its stored parent starts with the target) and then removes
    every node with a collected path: the root goes too, although it is
    not the target, has no parent and is no descendant of the target.
    The claim keeps it.  In the scenario of the claim (Main, Player,
    Sprite, Enemy, a connection from Button to [.]), removing Player
    does leave Main, Enemy and the connection. *)
Theorem removeNode_removes_root_with_path_of_child :
  let root :=
    {| node_name := "Main"; node_type := Some "Node2D"; node_parent := None;
       node_instance := None; node_instancePlaceholder := None;
       node_owner := None; node_index := None; node_groups := None;
       node_properties := [] |} in
  let child :=
    {| node_name := "Main"; node_type := Some "Node2D";
       node_parent := Some "."; node_instance := None;
       node_instancePlaceholder := None; node_owner := None;
       node_index := None; node_groups := None; node_properties := [] |} in
  let twins :=
    {| header := {| hdr_type := gd_scene; hdr_loadSteps := None;
                    hdr_format := Finite 3 0; hdr_uid := None |};
       externalResources := []; subResources := [];
       nodes := [root; child]; connections := [] |} in
  let node name type parent :=
    {| node_name := name; node_type := Some type; node_parent := parent;
       node_instance := None; node_instancePlaceholder := None;
       node_owner := None; node_index := None; node_groups := None;
       node_properties := [] |} in
  let button :=
    {| conn_signal := "pressed"; conn_from := "Button"; conn_to := ".";
       conn_method := "_on_pressed"; conn_flags := None;
       conn_binds := None |} in
  let scenario :=
    {| header := {| hdr_type := gd_scene; hdr_loadSteps := None;
                    hdr_format := Finite 3 0; hdr_uid := None |};
       externalResources := []; subResources := [];
       nodes := [ node "Main" "Node2D" None;
                  node "Player" "CharacterBody2D" (Some ".");
                  node "Sprite" "Sprite2D" (Some "Player");
                  node "Enemy" "CharacterBody2D" (Some ".") ];
       connections := [button] |} in
  getNodePath root = "Main" /\ getNodePath child = "Main"
  /\ pathsToRemove twins "." = ["."; "Main"]
  /\ nodes (removeNode twins ".") = []
  /\ nodes (removeNode twins ".") <> [root]
  /\ nodes (removeNode scenario "Player")
     = [node "Main" "Node2D" None; node "Enemy" "CharacterBody2D" (Some ".")]
  /\ connections (removeNode scenario "Player") = [button].
Proof.
  cbv zeta. repeat split; try (vm_compute; reflexivity).
  vm_compute. discriminate.
Qed.

(** ** C2: what the loop of [parse] skips, what a block records *)

Lemma parse_loop_skipn lines : forall skip r,
  parse_loop lines skip r = parse_loop (skipn skip lines) 0 r.
Proof.
  induction lines as [|l lines IH]; intros skip r.
  - destruct skip; reflexivity.
  - destruct skip as [|k]; [reflexivity|]. cbn [parse_loop skipn]. apply IH.
Qed.

Lemma tag_prefixes_differ a b line :
  (exists n, nth n a " "%char <> nth n b " "%char
             /\ n < length a /\ n < length b) ->
  startsWith a line = true -> startsWith b line = false.
Proof.
  intros (n & Hn & Ha & Hb). revert b line n Hn Ha Hb.
  induction a as [|x a IH]; intros b line n Hn Ha Hb Hs; [cbn in Ha; lia|].
  destruct b as [|y b]; [cbn in Hb; lia|].
  destruct line as [|c line]; [discriminate|].
  cbn [startsWith] in *. apply andb_true_iff in Hs as [H1 H2].
  apply ch_eqb_eq in H1. subst c.
  destruct n as [|n].
  - cbn [nth] in Hn. destruct (ch_eqb y x) eqn:E; [|reflexivity].
    apply ch_eqb_eq in E. congruence.
  - cbn [nth length] in *. rewrite (IH b line n Hn) by (lia || assumption).
    apply andb_false_r.
Qed.

Lemma obj_set_records k v properties :
  str_eqb k "__proto__" = false ->
  obj_has k (obj_set k v properties) = true
  /\ obj_get k (obj_set k v properties) = v.
Proof.
  intros H. unfold obj_set. rewrite H.
  fold (obj_define k v properties).
  rewrite obj_has_define, obj_get_define, str_eqb_refl. auto.
Qed.

(** ** The key of a dictionary entry is converted without an error *)

Lemma no_char_firstn c n s : no_char c s = true -> no_char c (firstn n s) = true.
Proof.
  unfold no_char. revert n. induction s as [|x s IH]; intros [|n] H;
    try reflexivity.
  cbn [firstn forallb] in *. apply andb_true_iff in H as [H1 H2].
  rewrite H1, (IH n H2). reflexivity.
Qed.

Lemma no_char_skipn c n s : no_char c s = true -> no_char c (skipn n s) = true.
Proof.
  unfold no_char. revert n. induction s as [|x s IH]; intros [|n] H;
    try reflexivity; [exact H|].
  cbn [skipn forallb] in *. apply andb_true_iff in H as [_ H2]. apply IH, H2.
Qed.

Lemma no_char_slice c a s :
  no_char c s = true -> no_char c (slice_to_last a s) = true.
Proof.
  intros H. unfold slice_to_last. apply no_char_firstn, no_char_skipn, H.
Qed.

Lemma no_char_snoc c s x :
  no_char c s = true -> ch_eqb x c = false -> no_char c (s ++ [x]) = true.
Proof.
  unfold no_char. intros Hs Hx. rewrite forallb_app, Hs. cbn [forallb].
  rewrite Hx. reflexivity.
Qed.

(** The text before the first colon holds no colon. *)
Lemma indexOf_prefix c s : forall i,
  indexOf c s = Some i -> no_char c (firstn i s) = true.
Proof.
  induction s as [|x s IH]; intros i H; [discriminate|].
  cbn [indexOf] in H. destruct (ch_eqb x c) eqn:E.
  - injection H as <-. reflexivity.
  - destruct (indexOf c s) as [j|]; [|discriminate]. injection H as <-.
    cbn [firstn]. unfold no_char in *. cbn [forallb]. rewrite E.
    apply (IH j eq_refl).
Qed.

Section KeyConversion.

Variable pv : str -> option value.
Hypothesis pv_total : forall t v,
  no_char ":" t = true -> pv t = Some v -> js_String_raises v = false.

Lemma parseArray_loop_no_colon inner : forall prev depth current inString result l,
  no_char ":" inner = true -> no_char ":" current = true ->
  existsb js_String_raises result = false ->
  parseArray_loop pv inner prev depth current inString result = Some l ->
  existsb js_String_raises l = false.
Proof.
  induction inner as [|char rest IH];
    intros prev depth current inString result l Hi Hc Hr H.
  - cbn [parseArray_loop] in H.
    destruct (negb (is_empty (trim current))); [|congruence].
    destruct (pv (trim current)) as [v|] eqn:E; [|discriminate].
    injection H as <-. rewrite existsb_app, Hr. cbn [existsb orb].
    rewrite (pv_total (trim current) v); [reflexivity| |exact E].
    apply forallb_trim. exact Hc.
  - unfold no_char in Hi. cbn [forallb] in Hi.
    apply andb_true_iff in Hi as [Hx Hi]. apply negb_true_iff in Hx.
    cbn [parseArray_loop] in H. cbv zeta in H.
    destruct (negb (if toggles prev char then negb inString else inString)).
    + destruct (ch_eqb char "," && _).
      * destruct (pv (trim current)) as [v|] eqn:E; [|discriminate].
        apply IH in H; try assumption; [reflexivity|].
        rewrite existsb_app, Hr. cbn [existsb orb].
        rewrite (pv_total (trim current) v); [reflexivity| |exact E].
        apply forallb_trim. exact Hc.
      * apply IH in H; try assumption. apply no_char_snoc; assumption.
    + apply IH in H; try assumption. apply no_char_snoc; assumption.
Qed.

Lemma parseDictionary_loop_no_colon inner : forall prev depth current inString pairs,
  no_char ":" inner = true -> no_char ":" current = true ->
  forallb (no_char ":") pairs = true ->
  forallb (no_char ":")
    (parseDictionary_loop inner prev depth current inString pairs) = true.
Proof.
  induction inner as [|char rest IH];
    intros prev depth current inString pairs Hi Hc Hp.
  - cbn [parseDictionary_loop].
    destruct (negb (is_empty (trim current))); [|exact Hp].
    rewrite forallb_app, Hp. cbn [forallb].
    assert (Hc' : no_char ":" (trim current) = true)
      by (apply forallb_trim; exact Hc).
    rewrite Hc'. reflexivity.
  - unfold no_char in Hi. cbn [forallb] in Hi.
    apply andb_true_iff in Hi as [Hx Hi]. apply negb_true_iff in Hx.
    cbn [parseDictionary_loop]. cbv zeta.
    destruct (negb (if toggles prev char then negb inString else inString)).
    + destruct (ch_eqb char "," && _).
      * apply IH; try assumption; [reflexivity|].
        rewrite forallb_app, Hp. cbn [forallb].
        assert (Hc' : no_char ":" (trim current) = true)
          by (apply forallb_trim; exact Hc).
        rewrite Hc'. reflexivity.
      * apply IH; try assumption. apply no_char_snoc; assumption.
    + apply IH; try assumption. apply no_char_snoc; assumption.
Qed.

(** Without a colon no entry is recorded. *)
Lemma parseDictionary_pairs_no_colon pairs : forall result,
  forallb (no_char ":") pairs = true ->
  parseDictionary_pairs pv pairs result = Some result.
Proof.
  induction pairs as [|p pairs IH]; intros result H; [reflexivity|].
  cbn [forallb] in H. apply andb_true_iff in H as [Hp H].
  cbn [parseDictionary_pairs]. unfold parseDictionary_pair.
  rewrite (indexOf_none ":" p Hp). apply IH. exact H.
Qed.

Lemma parseValue_body_no_colon s v :
  no_char ":" s = true -> parseValue_body pv s = Some v ->
  js_String_raises v = false.
Proof.
  intros Hs. unfold parseValue_body. cbv zeta.
  assert (Ht : no_char ":" (trim s) = true) by (apply forallb_trim; exact Hs).
  repeat match goal with
         | |- (if ?c then _ else _) = Some _ -> _ =>
             destruct c; [intros H; injection H as <-; reflexivity|]
         end.
  destruct (startsWith "[" (trim s)).
  { unfold parseArray_rec. cbv zeta. rewrite trim_trim.
    destruct (negb (startsWith "[" (trim s)) || negb (endsWith "]" (trim s))).
    { intros H. injection H as <-. reflexivity. }
    destruct (is_empty (trim (slice_to_last 1 (trim s)))).
    { intros H. injection H as <-. reflexivity. }
    destruct (parseArray_loop pv _ None 0 [] false []) as [l|] eqn:E;
      [|discriminate].
    intros H. injection H as <-. cbn [js_String_raises].
    apply (parseArray_loop_no_colon
             (trim (slice_to_last 1 (trim s))) None 0%Z [] false [] l);
      [apply forallb_trim, no_char_slice, Ht | reflexivity | reflexivity
      | exact E]. }
  destruct (startsWith "{" (trim s)).
  { unfold parseDictionary_rec. cbv zeta. rewrite trim_trim.
    destruct (negb (startsWith "{" (trim s)) || negb (endsWith "}" (trim s))).
    { intros H. injection H as <-. reflexivity. }
    destruct (is_empty (trim (slice_to_last 1 (trim s)))).
    { intros H. injection H as <-. reflexivity. }
    rewrite parseDictionary_pairs_no_colon.
    { intros H. injection H as <-. reflexivity. }
    apply parseDictionary_loop_no_colon;
      [apply forallb_trim, no_char_slice, Ht | reflexivity | reflexivity]. }
  intros H. injection H as <-. reflexivity.
Qed.

End KeyConversion.

Lemma parseValue_fuel_no_colon fuel : forall s v,
  no_char ":" s = true -> parseValue_fuel fuel s = Some v ->
  js_String_raises v = false.
Proof.
  induction fuel as [|fuel IH]; intros s v Hs H; [discriminate|].
  cbn [parseValue_fuel] in H.
  apply (parseValue_body_no_colon (parseValue_fuel fuel) IH s v Hs H).
Qed.

(** [String(key)] in [parseDictionary]: the key is parsed from the text
    before the first colon of the entry, and the value of a text without
    a colon has no dictionary entry, so that its conversion to a string
    does not raise. *)
Lemma dictionary_key_conversion_total pair colonIndex :
  indexOf ":" pair = Some colonIndex ->
  js_String_raises (parseValue (trim (firstn colonIndex pair))) = false.
Proof.
  intros H. apply indexOf_prefix in H.
  assert (Ht : no_char ":" (trim (firstn colonIndex pair)) = true)
    by (apply forallb_trim; exact H).
  unfold parseValue.
  destruct (parseValue_fuel _ _) as [v|] eqn:E; [|reflexivity].
  apply (parseValue_fuel_no_colon _ _ v Ht E).
Qed.

(** C2, as the code has it: the recursion of the value grammar returns
    for every string (more fuel than the string is long is enough, and
    the result is that of [parseValue]), and [parse] is a loop over the
    lines that always ends with a document.  A line that this loop
    reaches and whose trimmed form starts with none of the recognized
    tags is skipped: the document is the same as without it.  The lines
    after the header of a node or of a sub-resource are not reached by
    the loop: the block consumes them up to the end of the text, a blank
    line or a line that starts with a bracket, and the loop goes on after
    them.  Each consumed line with a non-empty key before its first
    equals sign is an assignment to the property map, whatever the line
    is; when the key is not [__proto__] the map then has the key, with
    the parsed value.  In a dictionary, the conversion of the parsed key
    of an entry to a string does not raise. *)
Theorem parse_total_and_lenient :
  (forall s fuel, length s < fuel ->
     parseValue_fuel fuel s = Some (parseValue s))
  /\ (forall l rest result,
        is_tag_line l = false ->
        parse_loop (l :: rest) 0 result = parse_loop rest 0 result)
  /\ (forall l rest,
        is_tag_line l = false ->
        forallb no_newline (l :: rest) = true ->
        parse_lines (l :: rest) = parse_lines rest)
  /\ (forall l rest result,
        startsWith "[node" (trim l) = true ->
        node_properties (fst (parseNode l rest)) = fst (parseProperties rest [])
        /\ parse_loop (l :: rest) 0 result
           = parse_loop (skipn (snd (parseProperties rest [])) rest) 0
               (push_node (fst (parseNode l rest)) result))
  /\ (forall l rest result,
        startsWith "[sub_resource" (trim l) = true ->
        sub_properties (fst (parseSubResource l rest))
        = fst (parseProperties rest [])
        /\ parse_loop (l :: rest) 0 result
           = parse_loop (skipn (snd (parseProperties rest [])) rest) 0
               (push_subResource (fst (parseSubResource l rest)) result))
  /\ (forall rest properties,
        ends_block rest = true ->
        parseProperties rest properties = (properties, 0))
  /\ (forall l rest properties,
        is_empty (trim l) = false -> startsWith "[" (trim l) = false ->
        fst (parseProperty (trim l)) <> [] ->
        parseProperties (l :: rest) properties
        = (fst (parseProperties rest
                  (obj_set (fst (parseProperty (trim l)))
                     (snd (parseProperty (trim l))) properties)),
           S (snd (parseProperties rest
                     (obj_set (fst (parseProperty (trim l)))
                        (snd (parseProperty (trim l))) properties)))))
  /\ (forall k v properties,
        str_eqb k "__proto__" = false ->
        obj_has k (obj_set k v properties) = true
        /\ obj_get k (obj_set k v properties) = v)
  /\ (forall pair colonIndex,
        indexOf ":" pair = Some colonIndex ->
        js_String_raises (parseValue (trim (firstn colonIndex pair))) = false).
Proof.
  split; [intros; apply parseValue_fuel_enough; assumption|].
  split; [intros; apply parse_loop_skips_unrecognized; assumption|].
  split.
  { intros l rest H Hnl.
    rewrite parse_lines_loop by (assumption || discriminate).
    rewrite parse_loop_skips_unrecognized by assumption.
    destruct rest as [|l' rest]; [reflexivity|].
    cbn [forallb] in Hnl. apply andb_true_iff in Hnl as [_ Hnl].
    rewrite parse_lines_loop by (assumption || discriminate). reflexivity. }
  split.
  { intros l rest result H. unfold parseNode. cbv zeta.
    cbn [parse_loop]. cbv zeta. unfold parseNode. cbv zeta.
    rewrite (tag_prefixes_differ "[node" "[gd_scene" (trim l))
      by (assumption || (exists 1; cbn; split; [discriminate | lia])).
    rewrite (tag_prefixes_differ "[node" "[gd_resource" (trim l))
      by (assumption || (exists 1; cbn; split; [discriminate | lia])).
    rewrite (tag_prefixes_differ "[node" "[ext_resource" (trim l))
      by (assumption || (exists 1; cbn; split; [discriminate | lia])).
    rewrite (tag_prefixes_differ "[node" "[sub_resource" (trim l))
      by (assumption || (exists 1; cbn; split; [discriminate | lia])).
    rewrite H. cbn [orb].
    destruct (parseProperties rest []) as [props n]. cbn [fst snd node_properties].
    split; [reflexivity | apply parse_loop_skipn]. }
  split.
  { intros l rest result H. unfold parseSubResource. cbv zeta.
    cbn [parse_loop]. cbv zeta. unfold parseSubResource. cbv zeta.
    rewrite (tag_prefixes_differ "[sub_resource" "[gd_scene" (trim l))
      by (assumption || (exists 1; cbn; split; [discriminate | lia])).
    rewrite (tag_prefixes_differ "[sub_resource" "[gd_resource" (trim l))
      by (assumption || (exists 1; cbn; split; [discriminate | lia])).
    rewrite (tag_prefixes_differ "[sub_resource" "[ext_resource" (trim l))
      by (assumption || (exists 1; cbn; split; [discriminate | lia])).
    rewrite H. cbn [orb].
    destruct (parseProperties rest []) as [props n]. cbn [fst snd sub_properties].
    split; [reflexivity | apply parse_loop_skipn]. }
  split.
  { intros rest properties H. destruct rest as [|l rest]; [reflexivity|].
    cbn [ends_block parseProperties] in *. rewrite H. reflexivity. }
  split.
  { intros l rest properties Hne Hsw Hk. cbn [parseProperties].
    rewrite Hne, Hsw. cbn [orb].
    destruct (parseProperty (trim l)) as [k v]. cbn [fst snd] in *.
    apply is_empty_false_iff in Hk. rewrite Hk. cbn [negb].
    destruct (parseProperties rest (obj_set k v properties)) as [p n].
    reflexivity. }
  split; [intros k v properties H; apply obj_set_records; exact H|].
  intros pair colonIndex H. apply dictionary_key_conversion_total. exact H.
Qed.

Lemma parse_total_and_lenient_witness :
  parseValue_fuel 9 "[1, [2]]"
  = Some (VArr [VNum (Finite 1 0); VArr [VNum (Finite 2 0)]])
  /\ parse_lines ["; a comment"; "[node name=Main]"]
     = parse_lines ["[node name=Main]"]
  /\ parseProperties ["; note = draft"; "speed = 3"] []
     = (fst (parseProperties ["speed = 3"]
               (obj_set "; note" (VStr "draft") [])),
        S (snd (parseProperties ["speed = 3"]
                  (obj_set "; note" (VStr "draft") [])))).
Proof.
  split; [|split].
  - apply (proj1 parse_total_and_lenient "[1, [2]]" 9). vm_compute. lia.
  - apply (proj1 (proj2 (proj2 parse_total_and_lenient))); reflexivity.
  - apply (proj1 (proj2 (proj2 (proj2 (proj2 (proj2 (proj2
             parse_total_and_lenient))))))
             "; note = draft" ["speed = 3"] []);
      [reflexivity | reflexivity | discriminate].
Defined.

(** C2, as stated, fails: the comment line [; note = draft] starts with
    no recognized tag, but after the header of a node it is consumed by
    the block and recorded as the property [; note] with the value
    [draft].  Were it skipped without recording anything, adding it as
    the last line of the text would not change the document. *)
Lemma comment_line_in_block_is_recorded :
  is_tag_line "; note = draft" = false
  /\ map node_properties (nodes (parse_lines ["[node name=Main]"]))
     = [[]]
  /\ map node_properties
       (nodes (parse_lines ["[node name=Main]"; "; note = draft"]))
     = [[("; note", VStr "draft")]]
  /\ ~ (forall lines l,
          is_tag_line l = false ->
          parse_lines (lines ++ [l]) = parse_lines lines).
Proof.
  split; [reflexivity|]. split; [vm_compute; reflexivity|].
  split; [vm_compute; reflexivity|].
  intros H.
  specialize (H ["[node name=Main]"] "; note = draft" eq_refl).
  vm_compute in H. discriminate.
Qed.

(** ** The normal form is printed like the value *)

Lemma normalize_value_obj obj :
  normalize_value (VObj obj)
  = let get k := obj_get k obj in
    if is_string "Vector2" (get "_type") then
      VObj [("_type", VStr "Vector2"); ("x", get "x"); ("y", get "y")]
    else if is_string "Vector3" (get "_type") then
      VObj [("_type", VStr "Vector3"); ("x", get "x"); ("y", get "y");
            ("z", get "z")]
    else if is_string "Color" (get "_type") then
      VObj [("_type", VStr "Color"); ("r", get "r"); ("g", get "g");
            ("b", get "b"); ("a", get "a")]
    else if is_string "ExtResource" (get "_type") then
      VObj [("_type", VStr "ExtResource"); ("id", get "id")]
    else if is_string "SubResource" (get "_type") then
      VObj [("_type", VStr "SubResource"); ("id", get "id")]
    else if is_string "NodePath" (get "_type") then
      VObj [("_type", VStr "NodePath"); ("path", get "path")]
    else if vec2_shape obj then
      VObj [("_type", VStr "Vector2"); ("x", get "x"); ("y", get "y")]
    else if vec3_shape obj then
      VObj [("_type", VStr "Vector3"); ("x", get "x"); ("y", get "y");
            ("z", get "z")]
    else if color_shape obj then
      VObj [("_type", VStr "Color"); ("r", get "r"); ("g", get "g");
            ("b", get "b");
            ("a", if is_number (get "a") then get "a" else VNum (Finite 1 0))]
    else
      VObj (map (fun kv => (fst kv, normalize_value (snd kv)))
              (printed_entries obj)).
Proof.
  cbn [normalize_value]. cbv zeta.
  repeat match goal with
         | |- (if ?c then _ else _) = _ => destruct c; [reflexivity|]
         end.
  f_equal. induction obj as [|[k x] obj IH]; [reflexivity|].
  unfold printed_entries in *. cbn [filter fst].
  destruct (startsWith "_" k); cbn [negb map fst snd]; [exact IH|].
  rewrite IH. reflexivity.
Qed.

Lemma printed_entries_no_underscore obj :
  no_underscore_keys
    (map (fun kv => (fst kv, normalize_value (snd kv))) (printed_entries obj))
  = true.
Proof.
  unfold no_underscore_keys, printed_entries.
  induction obj as [|[k x] obj IH]; [reflexivity|]. cbn [filter fst].
  destruct (startsWith "_" k) eqn:E; cbn [negb map forallb fst]; [exact IH|].
  rewrite E, IH. reflexivity.
Qed.

Lemma is_tagged_has_type obj :
  is_tagged obj = true -> obj_get "_type" obj <> VUndef.
Proof.
  unfold is_tagged. intros H.
  repeat (apply orb_true_iff in H; destruct H as [H|H]).
  - unfold is_vector2 in H.
    destruct obj as [|[k0 [| | | |t| |]] [|[k1 x] [|[k2 y] [|]]]]; try discriminate.
    repeat (apply andb_true_iff in H; destruct H as [H ?]).
    str_eqs. discriminate.
  - unfold is_vector3 in H.
    destruct obj as [|[k0 [| | | |t| |]] [|[k1 x] [|[k2 y] [|[k3 z] [|]]]]];
      try discriminate.
    repeat (apply andb_true_iff in H; destruct H as [H ?]).
    str_eqs. discriminate.
  - unfold is_color in H.
    destruct obj as [|[k0 [| | | |t| |]] [|[k1 r] [|[k2 g] [|[k3 b] [|[k4 a] [|]]]]]];
      try discriminate.
    repeat (apply andb_true_iff in H; destruct H as [H ?]).
    str_eqs. discriminate.
  - unfold is_reference in H.
    destruct obj as [|[k0 [| | | |t| |]] [|[k1 [| | | |s| |]] [|]]]; try discriminate.
    repeat (apply andb_true_iff in H; destruct H as [H ?]).
    str_eqs. discriminate.
  - unfold is_reference in H.
    destruct obj as [|[k0 [| | | |t| |]] [|[k1 [| | | |s| |]] [|]]]; try discriminate.
    repeat (apply andb_true_iff in H; destruct H as [H ?]).
    str_eqs. discriminate.
  - unfold is_reference in H.
    destruct obj as [|[k0 [| | | |t| |]] [|[k1 [| | | |s| |]] [|]]]; try discriminate.
    repeat (apply andb_true_iff in H; destruct H as [H ?]).
    str_eqs. discriminate.
Qed.

Lemma serializeValue_normalize v : forall nested,
  canonical nested (normalize_value v) = true ->
  serializeValue (normalize_value v) = serializeValue v.
Proof.
  induction v as [| |b|n|s|items IH|obj IH] using value_induction;
    intros nested H; try reflexivity.
  - cbn [normalize_value canonical serializeValue] in *.
    f_equal. f_equal. f_equal. rewrite map_map.
    apply map_ext_in. intros x Hx.
    rewrite Forall_forall in IH. apply (IH x Hx true).
    rewrite forallb_forall in H. apply H. apply in_map. exact Hx.
  - rewrite normalize_value_obj in *. cbv zeta in *.
    destruct (is_string "Vector2" (obj_get "_type" obj)) eqn:E1.
    { cbn [serializeValue]. cbv zeta. rewrite E1. reflexivity. }
    destruct (is_string "Vector3" (obj_get "_type" obj)) eqn:E2.
    { cbn [serializeValue]. cbv zeta. rewrite E1, E2. reflexivity. }
    destruct (is_string "Color" (obj_get "_type" obj)) eqn:E3.
    { cbn [serializeValue]. cbv zeta. rewrite E1, E2, E3. reflexivity. }
    destruct (is_string "ExtResource" (obj_get "_type" obj)) eqn:E4.
    { cbn [serializeValue]. cbv zeta. rewrite E1, E2, E3, E4. reflexivity. }
    destruct (is_string "SubResource" (obj_get "_type" obj)) eqn:E5.
    { cbn [serializeValue]. cbv zeta. rewrite E1, E2, E3, E4, E5.
      reflexivity. }
    destruct (is_string "NodePath" (obj_get "_type" obj)) eqn:E6.
    { cbn [serializeValue]. cbv zeta. rewrite E1, E2, E3, E4, E5, E6.
      reflexivity. }
    destruct (vec2_shape obj) eqn:S2.
    { unfold vec2_shape in S2. cbn [serializeValue]. cbv zeta.
      rewrite E1, E2, E3, E4, E5, E6, S2. reflexivity. }
    destruct (vec3_shape obj) eqn:S3.
    { unfold vec2_shape, vec3_shape in *. cbn [serializeValue]. cbv zeta.
      rewrite E1, E2, E3, E4, E5, E6, S2, S3. reflexivity. }
    destruct (color_shape obj) eqn:SC.
    { unfold vec2_shape, vec3_shape, color_shape in *.
      cbn [serializeValue]. cbv zeta.
      rewrite E1, E2, E3, E4, E5, E6, S2, S3, SC.
      destruct (is_number (obj_get "a" obj)); reflexivity. }
    assert (Hpd : printed_as_dictionary obj = true).
    { unfold printed_as_dictionary. cbn [existsb].
      rewrite E1, E2, E3, E4, E5, E6, S2, S3, SC. reflexivity. }
    rewrite (serializeValue_dictionary obj Hpd).
    set (E' := map (fun kv => (fst kv, normalize_value (snd kv)))
                 (printed_entries obj)) in *.
    pose proof (printed_entries_no_underscore obj) as Hnu. fold E' in Hnu.
    cbn [canonical] in H. apply orb_true_iff in H as [H|H].
    { exfalso. apply (is_tagged_has_type E' H).
      apply no_underscore_no_type. exact Hnu. }
    repeat (apply andb_true_iff in H; destruct H as [H ?]).
    repeat match goal with
           | E : negb _ = true |- _ => apply negb_true_iff in E
           end.
    assert (Hpd' : printed_as_dictionary E' = true).
    { unfold printed_as_dictionary. cbn [existsb].
      rewrite (no_underscore_no_type E' Hnu). cbn [is_string orb negb].
      repeat match goal with
             | E : ?x = false |- context [?x] => rewrite E
             end.
      reflexivity. }
    rewrite (serializeValue_dictionary E' Hpd'), (no_underscore_printed E' Hnu).
    f_equal. f_equal. f_equal. unfold E'. rewrite map_map.
    apply map_ext_in. intros [k x] Hin. unfold pair_text. cbn [fst snd].
    f_equal. f_equal.
    assert (Hx : In (k, x) obj).
    { unfold printed_entries in Hin. apply filter_In in Hin. tauto. }
    rewrite Forall_forall in IH. apply (IH (k, x) Hx true).
    assert (Hin' : In (k, normalize_value x) E').
    { unfold E'. apply (in_map (fun kv => (fst kv, normalize_value (snd kv)))
                          _ (k, x)). exact Hin. }
    revert Hin' H0. generalize E'. clear.
    induction E' as [|[k1 x1] E' IHE]; intros Hin Hent; [contradiction|].
    apply andb_true_iff in Hent as [Hent Hr].
    apply andb_true_iff in Hent as [_ Hc].
    destruct Hin as [Heq|Hin].
    + inversion Heq; subst. exact Hc.
    + apply IHE; assumption.
Qed.

Lemma str_truthy_normalize o :
  str_truthy (normalize_optional o) = str_truthy o.
Proof.
  unfold normalize_optional. destruct (str_truthy o) eqn:E; [exact E|].
  reflexivity.
Qed.

Lemma show_str_normalize o :
  str_truthy o = true -> show_str (normalize_optional o) = show_str o.
Proof. unfold normalize_optional. intros H. rewrite H. reflexivity. Qed.

Lemma optional_text_normalize (p : str) (f : str -> str) o :
  (if str_truthy (normalize_optional o)
   then p ++ f (show_str (normalize_optional o)) else [])
  = (if str_truthy o then p ++ f (show_str o) else []).
Proof.
  rewrite str_truthy_normalize. destruct (str_truthy o) eqn:E; [|reflexivity].
  rewrite show_str_normalize by exact E. reflexivity.
Qed.

Lemma serializeHeader_normalize h :
  serializeHeader (normalize_header h) = serializeHeader h.
Proof.
  unfold serializeHeader, normalize_header.
  cbn [hdr_type hdr_loadSteps hdr_format hdr_uid].
  rewrite str_truthy_normalize.
  destruct (str_truthy (hdr_uid h)) eqn:Eu;
    [rewrite show_str_normalize by exact Eu|];
    destruct (num_opt_truthy (hdr_loadSteps h)) eqn:El;
    rewrite ?El; reflexivity.
Qed.

Lemma serializeExtResource_normalize r :
  serializeExtResource (normalize_externalResource r) = serializeExtResource r.
Proof.
  unfold serializeExtResource, normalize_externalResource.
  cbn [ext_type ext_path ext_id ext_uid].
  rewrite str_truthy_normalize.
  destruct (str_truthy (ext_uid r)) eqn:Eu; [|reflexivity].
  rewrite show_str_normalize by exact Eu. reflexivity.
Qed.

Lemma nonempty_array_normalize o :
  nonempty_array (normalize_array_attribute o) = nonempty_array o.
Proof. destruct o as [[|x l]|]; reflexivity. Qed.

Lemma array_text_normalize (p : str) o :
  array_attribute_ok (normalize_array_attribute o) = true ->
  (if nonempty_array (normalize_array_attribute o)
   then p ++ show_array (normalize_array_attribute o) else [])
  = (if nonempty_array o then p ++ show_array o else []).
Proof.
  intros H. rewrite nonempty_array_normalize.
  destruct o as [[|x l]|]; try reflexivity.
  cbn [nonempty_array]. f_equal.
  cbn [normalize_array_attribute array_attribute_ok show_array] in *.
  apply andb_true_iff in H as [H _].
  apply (serializeValue_normalize (VArr (x :: l)) true). exact H.
Qed.

Lemma property_lines_normalize props :
  properties_ok (normalize_properties props) = true ->
  map property_line (normalize_properties props) = map property_line props.
Proof.
  intros H. apply properties_ok_parts in H. destruct H as (_ & _ & H).
  unfold normalize_properties in *. rewrite map_map.
  apply map_ext_in. intros [k x] Hin. unfold property_line. cbn [fst snd].
  f_equal. f_equal.
  rewrite forallb_forall in H.
  specialize (H _ (in_map (fun kv => (fst kv, normalize_value (snd kv)))
                     _ _ Hin)).
  cbn [fst snd] in H. apply andb_true_iff in H as [_ H].
  apply (serializeValue_normalize x false). exact H.
Qed.

Lemma serializeSubResource_normalize r :
  subResource_ok (normalize_subResource r) = true ->
  serializeSubResource (normalize_subResource r) = serializeSubResource r.
Proof.
  unfold subResource_ok, serializeSubResource, normalize_subResource.
  cbn [sub_type sub_id sub_properties]. intros H.
  apply andb_true_iff in H as [_ H].
  rewrite property_lines_normalize by exact H. reflexivity.
Qed.

Lemma serializeNode_normalize n :
  node_ok (normalize_node n) = true ->
  serializeNode (normalize_node n) = serializeNode n.
Proof.
  unfold node_ok, serializeNode, normalize_node.
  cbn [node_name node_type node_parent node_instance node_instancePlaceholder
       node_owner node_index node_groups node_properties].
  intros H. apply andb_true_iff in H as [H Hp].
  apply andb_true_iff in H as [_ Hg].
  rewrite property_lines_normalize by exact Hp.
  rewrite (array_text_normalize " groups=" _ Hg).
  rewrite (optional_text_normalize " type=" quote).
  rewrite (optional_text_normalize " instance=" (fun s => s)).
  rewrite (optional_text_normalize " instance_placeholder=" quote).
  rewrite (optional_text_normalize " owner=" quote).
  reflexivity.
Qed.

Lemma serializeConnection_normalize c :
  connection_ok (normalize_connection c) = true ->
  serializeConnection (normalize_connection c) = serializeConnection c.
Proof.
  unfold connection_ok, serializeConnection, normalize_connection.
  cbn [conn_signal conn_from conn_to conn_method conn_flags conn_binds].
  intros H. apply andb_true_iff in H as [_ Hb].
  rewrite (array_text_normalize " binds=" _ Hb). reflexivity.
Qed.

Lemma map_normalize {A B : Type} (f : A -> B) (g : A -> A) (ok : A -> bool) l :
  (forall x, ok (g x) = true -> f (g x) = f x) ->
  forallb ok (map g l) = true -> map f (map g l) = map f l.
Proof.
  intros Hf. induction l as [|x l IH]; [reflexivity|].
  cbn [map forallb]. intros H. apply andb_true_iff in H as [Hx Hl].
  rewrite (Hf x Hx), (IH Hl). reflexivity.
Qed.

Lemma flat_map_normalize {A B : Type} (f : A -> list B) (g : A -> A)
    (ok : A -> bool) l :
  (forall x, ok (g x) = true -> f (g x) = f x) ->
  forallb ok (map g l) = true -> flat_map f (map g l) = flat_map f l.
Proof.
  intros Hf. induction l as [|x l IH]; [reflexivity|].
  cbn [map forallb flat_map]. intros H. apply andb_true_iff in H as [Hx Hl].
  rewrite (Hf x Hx), (IH Hl). reflexivity.
Qed.

(** The normal form of a document is printed like the document. *)
Lemma serialize_normalize scene :
  canonical_scene (normalize_scene scene) = true ->
  serialize (normalize_scene scene) = serialize scene.
Proof.
  unfold canonical_scene, normalize_scene.
  cbn [header externalResources subResources nodes connections].
  intros H.
  apply andb_true_iff in H as [H Hc]. apply andb_true_iff in H as [H Hn].
  apply andb_true_iff in H as [H Hs]. apply andb_true_iff in H as [_ He].
  unfold serialize, serialize_lines.
  cbn [header externalResources subResources nodes connections].
  rewrite serializeHeader_normalize.
  rewrite (map_normalize serializeExtResource normalize_externalResource
             (fun _ => true) (externalResources scene)
             (fun x _ => serializeExtResource_normalize x))
    by (clear; induction (externalResources scene); [reflexivity|assumption]).
  rewrite (flat_map_normalize (fun s => serializeSubResource s ++ [[]])
             normalize_subResource subResource_ok (subResources scene))
    by (try exact Hs; intros x Hx;
        rewrite (serializeSubResource_normalize x Hx); reflexivity).
  rewrite (flat_map_normalize (fun n => serializeNode n ++ [[]])
             normalize_node node_ok (nodes scene))
    by (try exact Hn; intros x Hx;
        rewrite (serializeNode_normalize x Hx); reflexivity).
  rewrite (map_normalize serializeConnection normalize_connection
             connection_ok (connections scene) serializeConnection_normalize Hc).
  destruct (externalResources scene); reflexivity.
Qed.

(** A canonical value is its own normal form. *)
Lemma normalize_canonical v : forall nested,
  canonical nested v = true -> normalize_value v = v.
Proof.
  induction v as [| |b|n|s|items IH|obj IH] using value_induction;
    intros nested H; try reflexivity.
  - cbn [normalize_value canonical] in *. f_equal.
    rewrite forallb_forall in H. rewrite Forall_forall in IH.
    rewrite <- (map_id items) at 2. apply map_ext_in.
    intros x Hx. apply (IH x Hx true). apply H. exact Hx.
  - cbn [canonical] in H. apply orb_true_iff in H as [H|H].
    + clear IH. unfold is_tagged in H.
      repeat (apply orb_true_iff in H; destruct H as [H|H]).
      * unfold is_vector2 in H.
        destruct obj as [|[k0 [| | | |t| |]] [|[k1 x] [|[k2 y] [|]]]];
          try discriminate.
        repeat (apply andb_true_iff in H; destruct H as [H ?]).
        str_eqs. reflexivity.
      * unfold is_vector3 in H.
        destruct obj as [|[k0 [| | | |t| |]] [|[k1 x] [|[k2 y] [|[k3 z] [|]]]]];
          try discriminate.
        repeat (apply andb_true_iff in H; destruct H as [H ?]).
        str_eqs. reflexivity.
      * unfold is_color in H.
        destruct obj as [|[k0 [| | | |t| |]] [|[k1 r] [|[k2 g] [|[k3 b] [|[k4 a] [|]]]]]];
          try discriminate.
        repeat (apply andb_true_iff in H; destruct H as [H ?]).
        str_eqs. reflexivity.
      * unfold is_reference in H.
        destruct obj as [|[k0 [| | | |t| |]] [|[k1 [| | | |s| |]] [|]]];
          try discriminate.
        repeat (apply andb_true_iff in H; destruct H as [H ?]).
        str_eqs. reflexivity.
      * unfold is_reference in H.
        destruct obj as [|[k0 [| | | |t| |]] [|[k1 [| | | |s| |]] [|]]];
          try discriminate.
        repeat (apply andb_true_iff in H; destruct H as [H ?]).
        str_eqs. reflexivity.
      * unfold is_reference in H.
        destruct obj as [|[k0 [| | | |t| |]] [|[k1 [| | | |s| |]] [|]]];
          try discriminate.
        repeat (apply andb_true_iff in H; destruct H as [H ?]).
        str_eqs. reflexivity.
    + repeat (apply andb_true_iff in H; destruct H as [H ?]).
      repeat match goal with
             | E : negb _ = true |- _ => apply negb_true_iff in E
             end.
      assert (Hall : Forall (fun kv => key_ok (fst kv) = true
                                       /\ canonical true (snd kv) = true) obj).
      { clear -H0. induction obj as [|[k x] obj IHo]; [constructor|].
        apply andb_true_iff in H0 as [H0 Hr].
        apply andb_true_iff in H0 as [Hk Hc].
        constructor; [split; assumption | apply IHo; assumption]. }
      assert (Hnu : no_underscore_keys obj = true).
      { unfold no_underscore_keys. apply forallb_forall. intros kv Hin.
        rewrite Forall_forall in Hall. destruct (Hall kv Hin) as [Hk _].
        unfold key_ok in Hk. apply andb_true_iff in Hk as [_ Hk]. exact Hk. }
      rewrite normalize_value_obj. cbv beta zeta.
      rewrite (no_underscore_no_type obj Hnu). cbn [is_string].
      repeat match goal with
             | E : ?x = false |- context [if ?x then _ else _] => rewrite E
             end.
      f_equal. rewrite (no_underscore_printed obj Hnu).
      rewrite <- (map_id obj) at 2. apply map_ext_in.
      intros [k x] Hin. cbn [fst snd]. f_equal.
      rewrite Forall_forall in IH, Hall.
      apply (IH (k, x) Hin true). apply (Hall (k, x) Hin).
Qed.

Lemma normalize_properties_canonical props :
  properties_ok props = true -> normalize_properties props = props.
Proof.
  intros H. apply properties_ok_parts in H. destruct H as (_ & _ & H).
  unfold normalize_properties. rewrite <- (map_id props) at 2.
  apply map_ext_in. intros [k x] Hin. cbn [fst snd]. f_equal.
  rewrite forallb_forall in H. specialize (H _ Hin). cbn [fst snd] in H.
  apply andb_true_iff in H as [_ H]. apply (normalize_canonical x false H).
Qed.

Lemma normalize_optional_canonical o :
  optional_ok o = true -> normalize_optional o = o.
Proof.
  unfold normalize_optional, optional_ok, str_truthy.
  destruct o as [s|]; [|reflexivity]. intros H.
  apply andb_true_iff in H as [H _]. rewrite H. reflexivity.
Qed.

Lemma normalize_array_attribute_canonical o :
  array_attribute_ok o = true -> normalize_array_attribute o = o.
Proof.
  destruct o as [[|x l]|]; try reflexivity; [discriminate|].
  cbn [array_attribute_ok normalize_array_attribute]. intros H.
  apply andb_true_iff in H as [H _]. f_equal.
  pose proof (normalize_canonical (VArr (x :: l)) true H) as E.
  cbn [normalize_value] in E. congruence.
Qed.

Lemma map_canonical {A : Type} (g : A -> A) (ok : A -> bool) l :
  (forall x, ok x = true -> g x = x) ->
  forallb ok l = true -> map g l = l.
Proof.
  intros Hg. induction l as [|x l IH]; [reflexivity|].
  cbn [map forallb]. intros H. apply andb_true_iff in H as [Hx Hl].
  rewrite (Hg x Hx), (IH Hl). reflexivity.
Qed.

(** A canonical document is its own normal form: the condition of
    [serialize_parse_serialize] holds for every canonical document. *)
Lemma normalize_scene_canonical scene :
  canonical_scene scene = true -> normalize_scene scene = scene.
Proof.
  unfold canonical_scene. intros H.
  apply andb_true_iff in H as [H Hc]. apply andb_true_iff in H as [H Hn].
  apply andb_true_iff in H as [H Hs]. apply andb_true_iff in H as [Hh He].
  destruct scene as [h exts subs ns cs].
  cbn [header externalResources subResources nodes connections] in *.
  unfold normalize_scene.
  cbn [header externalResources subResources nodes connections].
  f_equal.
  - destruct h as [t ls f u]. unfold header_ok, normalize_header in *.
    cbn [hdr_type hdr_loadSteps hdr_format hdr_uid] in *.
    apply andb_true_iff in Hh as [Hh Hu]. apply andb_true_iff in Hh as [Hl _].
    rewrite (normalize_optional_canonical u Hu).
    destruct ls as [n|]; [|reflexivity].
    apply andb_true_iff in Hl as [_ Hl]. cbn [num_opt_truthy]. rewrite Hl.
    reflexivity.
  - apply (map_canonical _ externalResource_ok); [|exact He].
    intros [t p i u] Hx. unfold externalResource_ok, normalize_externalResource in *.
    cbn [ext_type ext_path ext_id ext_uid] in *.
    apply andb_true_iff in Hx as [_ Hu].
    rewrite (normalize_optional_canonical u Hu). reflexivity.
  - apply (map_canonical _ subResource_ok); [|exact Hs].
    intros [t i p] Hx. unfold subResource_ok, normalize_subResource in *.
    cbn [sub_type sub_id sub_properties] in *.
    apply andb_true_iff in Hx as [_ Hp].
    rewrite (normalize_properties_canonical p Hp). reflexivity.
  - apply (map_canonical _ node_ok); [|exact Hn].
    intros [nm ty pa ins ip ow ix gr pr] Hx. unfold node_ok, normalize_node in *.
    cbn [node_name node_type node_parent node_instance
         node_instancePlaceholder node_owner node_index node_groups
         node_properties] in *.
    apply andb_true_iff in Hx as [Hx Hpr]. apply andb_true_iff in Hx as [Hx Hgr].
    apply andb_true_iff in Hx as [Hx _]. apply andb_true_iff in Hx as [Hx How].
    apply andb_true_iff in Hx as [Hx Hip]. apply andb_true_iff in Hx as [Hx Hins].
    apply andb_true_iff in Hx as [Hx _]. apply andb_true_iff in Hx as [_ Hty].
    rewrite (normalize_optional_canonical ty Hty),
      (normalize_optional_canonical ip Hip),
      (normalize_optional_canonical ow How),
      (normalize_array_attribute_canonical gr Hgr),
      (normalize_properties_canonical pr Hpr).
    f_equal. unfold normalize_optional, str_truthy.
    destruct ins as [[|c i]|]; try reflexivity. discriminate.
  - apply (map_canonical _ connection_ok); [|exact Hc].
    intros [s f t m fl b] Hx. unfold connection_ok, normalize_connection in *.
    cbn [conn_signal conn_from conn_to conn_method conn_flags conn_binds] in *.
    apply andb_true_iff in Hx as [_ Hb].
    rewrite (normalize_array_attribute_canonical b Hb). reflexivity.
Qed.

(** ** A document with a canonical normal form is printed without an
       error *)

Lemma canonical_typed_is_tagged nested obj :
  canonical nested (VObj obj) = true -> obj_get "_type" obj <> VUndef ->
  is_tagged obj = true.
Proof.
  cbn [canonical]. intros H Ht. apply orb_true_iff in H as [H|H]; [exact H|].
  exfalso. apply Ht. apply no_underscore_no_type.
  repeat (apply andb_true_iff in H; destruct H as [H ?]).
  clear -H0. unfold no_underscore_keys.
  induction obj as [|[k x] obj IHo]; [reflexivity|].
  apply andb_true_iff in H0 as [H0 Hr]. apply andb_true_iff in H0 as [Hk _].
  cbn [forallb fst]. rewrite (IHo Hr).
  unfold key_ok in Hk. apply andb_true_iff in Hk as [_ Hk]. rewrite Hk.
  reflexivity.
Qed.

Lemma component_no_raise w :
  component_ok w = true -> js_String_raises w = false.
Proof. destruct w; try discriminate. reflexivity. Qed.

Lemma is_tagged_fields obj k :
  is_tagged obj = true -> js_String_raises (obj_get k obj) = false.
Proof.
  unfold is_tagged. intros H.
  repeat (apply orb_true_iff in H; destruct H as [H|H]).
  - unfold is_vector2 in H.
    destruct obj as [|[k0 [| | | |t| |]] [|[k1 x] [|[k2 y] [|]]]]; try discriminate.
    repeat (apply andb_true_iff in H; destruct H as [H ?]).
    cbn [obj_get].
    repeat match goal with
           | |- context [if ?c then _ else _] => destruct c
           end; try reflexivity; apply component_no_raise; assumption.
  - unfold is_vector3 in H.
    destruct obj as [|[k0 [| | | |t| |]] [|[k1 x] [|[k2 y] [|[k3 z] [|]]]]];
      try discriminate.
    repeat (apply andb_true_iff in H; destruct H as [H ?]).
    cbn [obj_get].
    repeat match goal with
           | |- context [if ?c then _ else _] => destruct c
           end; try reflexivity; apply component_no_raise; assumption.
  - unfold is_color in H.
    destruct obj as [|[k0 [| | | |t| |]] [|[k1 r] [|[k2 g] [|[k3 b] [|[k4 a] [|]]]]]];
      try discriminate.
    repeat (apply andb_true_iff in H; destruct H as [H ?]).
    cbn [obj_get].
    repeat match goal with
           | |- context [if ?c then _ else _] => destruct c
           end; try reflexivity; apply component_no_raise; assumption.
  - unfold is_reference in H.
    destruct obj as [|[k0 [| | | |t| |]] [|[k1 [| | | |s| |]] [|]]]; try discriminate.
    cbn [obj_get].
    repeat match goal with
           | |- context [if ?c then _ else _] => destruct c
           end; reflexivity.
  - unfold is_reference in H.
    destruct obj as [|[k0 [| | | |t| |]] [|[k1 [| | | |s| |]] [|]]]; try discriminate.
    cbn [obj_get].
    repeat match goal with
           | |- context [if ?c then _ else _] => destruct c
           end; reflexivity.
  - unfold is_reference in H.
    destruct obj as [|[k0 [| | | |t| |]] [|[k1 [| | | |s| |]] [|]]]; try discriminate.
    cbn [obj_get].
    repeat match goal with
           | |- context [if ?c then _ else _] => destruct c
           end; reflexivity.
Qed.

Lemma canonical_record_fields nested rec k :
  canonical nested (VObj rec) = true -> obj_get "_type" rec <> VUndef ->
  js_String_raises (obj_get k rec) = false.
Proof.
  intros H Ht. apply is_tagged_fields.
  apply (canonical_typed_is_tagged nested); assumption.
Qed.

Lemma serializeValue_normal_form_total v : forall nested,
  canonical nested (normalize_value v) = true ->
  serializeValue_raises v = false.
Proof.
  induction v as [| |b|n|s|items IH|obj IH] using value_induction;
    intros nested H; try reflexivity.
  - cbn [normalize_value canonical serializeValue_raises] in *.
    rewrite forallb_forall in H. rewrite Forall_forall in IH.
    destruct (existsb serializeValue_raises items) eqn:E; [|reflexivity].
    apply existsb_exists in E. destruct E as (x & Hx & Hr).
    rewrite (IH x Hx true) in Hr; [discriminate|].
    apply H. apply in_map. exact Hx.
  - rewrite normalize_value_obj in H. cbv beta zeta in H.
    cbn [serializeValue_raises]. cbv beta zeta.
    destruct (is_string "Vector2" (obj_get "_type" obj)) eqn:E1.
    { pose proof (fun k => canonical_record_fields nested _ k H
                             ltac:(discriminate)) as F.
      pose proof (F "x") as Fx. pose proof (F "y") as Fy.
      cbn in Fx, Fy. rewrite Fx, Fy. reflexivity. }
    destruct (is_string "Vector3" (obj_get "_type" obj)) eqn:E2.
    { pose proof (fun k => canonical_record_fields nested _ k H
                             ltac:(discriminate)) as F.
      pose proof (F "x") as Fx. pose proof (F "y") as Fy.
      pose proof (F "z") as Fz.
      cbn in Fx, Fy, Fz. rewrite Fx, Fy, Fz. reflexivity. }
    destruct (is_string "Color" (obj_get "_type" obj)) eqn:E3.
    { pose proof (fun k => canonical_record_fields nested _ k H
                             ltac:(discriminate)) as F.
      pose proof (F "r") as Fr. pose proof (F "g") as Fg.
      pose proof (F "b") as Fb. pose proof (F "a") as Fa.
      cbn in Fr, Fg, Fb, Fa. rewrite Fr, Fg, Fb, Fa. reflexivity. }
    destruct (is_string "ExtResource" (obj_get "_type" obj)) eqn:E4.
    { pose proof (canonical_record_fields nested _ "id" H
                    ltac:(discriminate)) as F.
      cbn in F. exact F. }
    destruct (is_string "SubResource" (obj_get "_type" obj)) eqn:E5.
    { pose proof (canonical_record_fields nested _ "id" H
                    ltac:(discriminate)) as F.
      cbn in F. exact F. }
    destruct (is_string "NodePath" (obj_get "_type" obj)) eqn:E6.
    { pose proof (canonical_record_fields nested _ "path" H
                    ltac:(discriminate)) as F.
      cbn in F. exact F. }
    destruct (vec2_shape obj) eqn:S2.
    { unfold vec2_shape in S2. rewrite S2. reflexivity. }
    destruct (vec3_shape obj) eqn:S3.
    { unfold vec2_shape, vec3_shape in *. rewrite S2, S3. reflexivity. }
    destruct (color_shape obj) eqn:SC.
    { unfold vec2_shape, vec3_shape, color_shape in *.
      rewrite S2, S3, SC. reflexivity. }
    unfold vec2_shape, vec3_shape, color_shape in S2, S3, SC.
    rewrite S2, S3, SC.
    set (E' := map (fun kv => (fst kv, normalize_value (snd kv)))
                 (printed_entries obj)) in *.
    pose proof (printed_entries_no_underscore obj) as Hnu. fold E' in Hnu.
    cbn [canonical] in H. apply orb_true_iff in H as [H|H].
    { exfalso. apply (is_tagged_has_type E' H).
      apply no_underscore_no_type. exact Hnu. }
    repeat (apply andb_true_iff in H; destruct H as [H ?]).
    assert (Hall : forall k x, In (k, x) E' -> canonical true x = true).
    { revert H0. generalize E'. clear.
      induction E' as [|[k1 x1] E' IHE]; intros Hent k x Hin; [contradiction|].
      apply andb_true_iff in Hent as [Hent Hr].
      apply andb_true_iff in Hent as [_ Hc].
      destruct Hin as [Heq|Hin].
      - inversion Heq; subst. exact Hc.
      - apply (IHE Hr k x Hin). }
    assert (Hobj : forall k x, In (k, x) obj -> startsWith "_" k = false ->
                               serializeValue_raises x = false).
    { intros k x Hin Hk. rewrite Forall_forall in IH.
      apply (IH (k, x) Hin true). apply (Hall k).
      unfold E'. apply (in_map (fun kv => (fst kv, normalize_value (snd kv)))
                          _ (k, x)).
      unfold printed_entries. apply filter_In. split; [exact Hin|].
      cbn [fst]. rewrite Hk. reflexivity. }
    clear -Hobj. induction obj as [|[k x] obj IHo]; [reflexivity|].
    destruct (startsWith "_" k) eqn:Ek.
    + apply IHo. intros k' x' Hin. apply Hobj. right. exact Hin.
    + rewrite (Hobj k x (or_introl eq_refl) Ek). cbn [orb].
      apply IHo. intros k' x' Hin. apply Hobj. right. exact Hin.
Qed.

Lemma properties_normal_form_total props :
  properties_ok (normalize_properties props) = true ->
  properties_raise props = false.
Proof.
  intros H. apply properties_ok_parts in H. destruct H as (_ & _ & H).
  unfold properties_raise.
  destruct (existsb _ props) eqn:E; [|reflexivity].
  apply existsb_exists in E. destruct E as ([k x] & Hin & Hr).
  cbn [snd] in Hr. rewrite forallb_forall in H.
  specialize (H _ (in_map (fun kv => (fst kv, normalize_value (snd kv)))
                     _ _ Hin)).
  cbn [fst snd] in H. apply andb_true_iff in H as [_ H].
  rewrite (serializeValue_normal_form_total x false H) in Hr. discriminate.
Qed.

Lemma array_attribute_normal_form_total o :
  array_attribute_ok (normalize_array_attribute o) = true ->
  array_attribute_raises o = false.
Proof.
  destruct o as [[|x l]|]; try reflexivity.
  cbn [normalize_array_attribute array_attribute_ok array_attribute_raises].
  intros H. apply andb_true_iff in H as [H _].
  apply (serializeValue_normal_form_total (VArr (x :: l)) true). exact H.
Qed.

Lemma existsb_map_false {A : Type} (p ok : A -> bool) (g : A -> A) l :
  (forall x, ok (g x) = true -> p x = false) ->
  forallb ok (map g l) = true -> existsb p l = false.
Proof.
  intros Hp. induction l as [|x l IH]; [reflexivity|].
  cbn [map forallb existsb]. intros H. apply andb_true_iff in H as [Hx Hl].
  rewrite (Hp x Hx), (IH Hl). reflexivity.
Qed.

(** [serialize] does not raise on a document whose normal form is
    canonical. *)
Lemma serialize_normal_form_total scene :
  canonical_scene (normalize_scene scene) = true ->
  serialize_raises scene = false.
Proof.
  unfold canonical_scene, normalize_scene, serialize_raises.
  cbn [header externalResources subResources nodes connections].
  intros H.
  apply andb_true_iff in H as [H Hc]. apply andb_true_iff in H as [H Hn].
  apply andb_true_iff in H as [_ Hs].
  rewrite (existsb_map_false _ subResource_ok normalize_subResource
             (subResources scene)); [| |exact Hs].
  2:{ intros r Hr. unfold subResource_ok, normalize_subResource in Hr.
      cbn [sub_type sub_id sub_properties] in Hr.
      apply andb_true_iff in Hr as [_ Hr].
      apply properties_normal_form_total. exact Hr. }
  rewrite (existsb_map_false _ node_ok normalize_node (nodes scene));
    [| |exact Hn].
  2:{ intros n Hx. unfold node_ok, normalize_node in Hx.
      cbn [node_name node_type node_parent node_instance
           node_instancePlaceholder node_owner node_index node_groups
           node_properties] in Hx.
      apply andb_true_iff in Hx as [Hx Hp].
      apply andb_true_iff in Hx as [_ Hg].
      rewrite (array_attribute_normal_form_total _ Hg),
        (properties_normal_form_total _ Hp). reflexivity. }
  rewrite (existsb_map_false _ connection_ok normalize_connection
             (connections scene)); [reflexivity| |exact Hc].
  intros c Hx. unfold connection_ok, normalize_connection in Hx.
  cbn [conn_signal conn_from conn_to conn_method conn_flags conn_binds] in Hx.
  apply andb_true_iff in Hx as [_ Hb].
  apply array_attribute_normal_form_total. exact Hb.
Qed.

(** ** A text without [__proto__] assigns to no such key *)

Lemma startsWith_parts p : forall s,
  startsWith p s = true -> exists q, s = p ++ q.
Proof.
  induction p as [|x p IH]; intros s H; [exists s; reflexivity|].
  destruct s as [|y s]; [discriminate|]. cbn [startsWith] in H.
  apply andb_true_iff in H as [Hx Hp]. apply ch_eqb_eq in Hx. subst y.
  destruct (IH s Hp) as (q & ->). exists q. reflexivity.
Qed.

Lemma contains_parts needle : forall hay,
  contains needle hay = true <-> exists p q, hay = p ++ needle ++ q.
Proof.
  intros hay. split.
  - induction hay as [|c hay IH]; cbn [contains]; intros H.
    + rewrite orb_false_r in H. apply startsWith_parts in H as (q & E).
      exists [], q. exact E.
    + apply orb_true_iff in H as [H|H].
      * apply startsWith_parts in H as (q & E). exists [], q. exact E.
      * destruct (IH H) as (p & q & ->). exists (c :: p), q. reflexivity.
  - intros (p & q & ->). induction p as [|c p IH].
    + cbn [app]. destruct (needle ++ q) eqn:E; cbn [contains];
        rewrite <- E, startsWith_app; reflexivity.
    + cbn [app contains]. rewrite IH. apply orb_true_r.
Qed.

Lemma contains_part needle p m q :
  contains needle (p ++ m ++ q) = false -> contains needle m = false.
Proof.
  intros H. destruct (contains needle m) eqn:E; [|reflexivity].
  apply contains_parts in E as (a & b & ->).
  rewrite <- H. symmetry. apply contains_parts.
  exists (p ++ a), (b ++ q). rewrite <- !app_assoc. reflexivity.
Qed.

Lemma contains_trim needle s :
  contains needle s = false -> contains needle (trim s) = false.
Proof.
  destruct (trim_parts s) as (w1 & w2 & _ & _ & E). intros H.
  rewrite E in H. apply (contains_part needle w1 (trim s) w2 H).
Qed.

Lemma contains_firstn needle n s :
  contains needle s = false -> contains needle (firstn n s) = false.
Proof.
  intros H. rewrite <- (firstn_skipn n s) in H.
  apply (contains_part needle [] (firstn n s) (skipn n s) H).
Qed.

Lemma contains_skipn needle n s :
  contains needle s = false -> contains needle (skipn n s) = false.
Proof.
  intros H. rewrite <- (firstn_skipn n s) in H.
  apply (contains_part needle (firstn n s) (skipn n s) []).
  rewrite app_nil_r. exact H.
Qed.

Lemma contains_slice needle a s :
  contains needle s = false -> contains needle (slice_to_last a s) = false.
Proof.
  intros H. unfold slice_to_last. apply contains_firstn, contains_skipn, H.
Qed.

Lemma contains_self needle : contains needle needle = true.
Proof.
  apply contains_parts. exists [], []. rewrite app_nil_r. reflexivity.
Qed.

(** A replacement that is not seen in the result has not taken place. *)
Lemma replace_pair_unseen a b s :
  no_char b (replace_pair a b [b] s) = true -> replace_pair a b [b] s = s.
Proof.
  unfold no_char. induction s as [|x r IH]; [reflexivity|].
  cbn [replace_pair]. destruct r as [|y r']; [reflexivity|].
  destruct (ch_eqb x a && ch_eqb y b).
  - cbn [app forallb]. rewrite ch_eqb_refl. discriminate.
  - cbn [forallb]. intros H. apply andb_true_iff in H as [_ H].
    rewrite (IH H). reflexivity.
Qed.

Lemma unescape_unseen s t :
  no_char dquote t = true -> no_char backslash t = true ->
  unescape s = t -> s = t.
Proof.
  unfold unescape. intros Hq Hb E.
  assert (E1 : replace_pair backslash dquote [dquote] s = t).
  { rewrite <- E. symmetry. apply replace_pair_unseen. rewrite E. exact Hb. }
  rewrite <- E1. symmetry. apply replace_pair_unseen. rewrite E1. exact Hq.
Qed.

Section KeyText.

Variable pv : str -> option value.
Hypothesis pv_free : forall t v,
  contains "__proto__" t = false -> pv t = Some v ->
  js_String v <> "__proto__".

Lemma parseArray_loop_free inner :
  forall prev depth current inString result l,
  contains "__proto__" (current ++ inner) = false ->
  Forall (fun v => js_String v <> "__proto__") result ->
  parseArray_loop pv inner prev depth current inString result = Some l ->
  Forall (fun v => js_String v <> "__proto__") l.
Proof.
  induction inner as [|char rest IH];
    intros prev depth current inString result l Hc Hr H.
  - cbn [parseArray_loop] in H. rewrite app_nil_r in Hc.
    destruct (negb (is_empty (trim current)));
      [|injection H as <-; exact Hr].
    destruct (pv (trim current)) as [v|] eqn:E; [|discriminate].
    injection H as <-. apply Forall_app. split; [exact Hr|].
    constructor; [|constructor].
    apply (pv_free (trim current) v); [|exact E].
    apply contains_trim. exact Hc.
  - assert (Hcur : contains "__proto__" (trim current) = false).
    { apply contains_trim.
      apply (contains_part "__proto__" [] current (char :: rest) Hc). }
    assert (Hnext : contains "__proto__" ((current ++ [char]) ++ rest) = false).
    { rewrite <- app_assoc. exact Hc. }
    assert (Hrest : contains "__proto__" ([] ++ rest) = false).
    { apply (contains_part "__proto__" (current ++ [char]) rest []).
      rewrite app_nil_r, <- app_assoc. exact Hc. }
    cbn [parseArray_loop] in H. cbv zeta in H.
    destruct (negb (if toggles prev char then negb inString else inString)).
    + destruct (ch_eqb char "," && _).
      * destruct (pv (trim current)) as [v|] eqn:E; [|discriminate].
        apply IH in H; try assumption.
        apply Forall_app. split; [exact Hr|]. constructor; [|constructor].
        apply (pv_free (trim current) v Hcur E).
      * apply IH in H; assumption.
    + apply IH in H; assumption.
Qed.

Lemma array_text_free l :
  Forall (fun v => js_String v <> "__proto__") l ->
  js_String (VArr l) <> "__proto__".
Proof.
  intros H. cbn [js_String].
  destruct l as [|x [|y r]].
  - discriminate.
  - inversion H as [|? ? Hx _]; subst. cbn [map join].
    destruct x; try discriminate; exact Hx.
  - cbn [map]. rewrite join_cons2. intros E.
    assert (Hc : no_char "," "__proto__" = true) by reflexivity.
    rewrite <- E in Hc. unfold no_char in Hc. rewrite !forallb_app in Hc.
    apply andb_true_iff in Hc as [_ Hc]. apply andb_true_iff in Hc as [Hc _].
    discriminate.
Qed.

Lemma parseValue_body_free s v :
  contains "__proto__" s = false -> parseValue_body pv s = Some v ->
  js_String v <> "__proto__".
Proof.
  intros Hs. unfold parseValue_body. cbv zeta.
  assert (Ht : contains "__proto__" (trim s) = false)
    by (apply contains_trim; exact Hs).
  destruct (str_eqb (trim s) "null"); [intros H; injection H as <-; discriminate|].
  destruct (str_eqb (trim s) "true"); [intros H; injection H as <-; discriminate|].
  destruct (str_eqb (trim s) "false"); [intros H; injection H as <-; discriminate|].
  destruct (startsWith [dquote] (trim s) && endsWith dquote (trim s)).
  { intros H. injection H as <-. cbn [js_String]. intros E.
    apply unescape_unseen in E; [|reflexivity|reflexivity].
    pose proof (contains_slice "__proto__" 1 (trim s) Ht) as Hc.
    rewrite E, contains_self in Hc. discriminate. }
  assert (Hnum : forall n, js_String (VNum n) <> "__proto__").
  { intros n E. cbn [js_String] in E.
    pose proof (num_to_string_no_char "_" n eq_refl) as Hc.
    rewrite E in Hc. discriminate. }
  destruct (is_int_literal (trim s)); [intros H; injection H as <-; apply Hnum|].
  destruct (is_float_literal (trim s)); [intros H; injection H as <-; apply Hnum|].
  repeat match goal with
         | |- (if startsWith ?p (trim s) then Some (tagged _ _) else _) = Some _ -> _ =>
             destruct (startsWith p (trim s));
             [intros H; injection H as <-; discriminate|]
         end.
  destruct (startsWith "[" (trim s)).
  { unfold parseArray_rec. cbv zeta. rewrite trim_trim.
    destruct (negb (startsWith "[" (trim s)) || negb (endsWith "]" (trim s))).
    { intros H. injection H as <-. discriminate. }
    destruct (is_empty (trim (slice_to_last 1 (trim s)))).
    { intros H. injection H as <-. discriminate. }
    destruct (parseArray_loop pv _ None 0 [] false []) as [l|] eqn:E;
      [|discriminate].
    intros H. injection H as <-. apply array_text_free.
    apply (parseArray_loop_free
             (trim (slice_to_last 1 (trim s))) None 0%Z [] false [] l);
      [apply contains_trim, contains_slice, Ht | constructor | exact E]. }
  destruct (startsWith "{" (trim s)).
  { destruct (parseDictionary_rec pv (trim s)) as [o|]; [|discriminate].
    intros H. injection H as <-. discriminate. }
  intros H. injection H as <-. cbn [js_String]. intros E.
  rewrite E, contains_self in Ht. discriminate.
Qed.

End KeyText.

Lemma parseValue_fuel_free fuel : forall s v,
  contains "__proto__" s = false -> parseValue_fuel fuel s = Some v ->
  js_String v <> "__proto__".
Proof.
  induction fuel as [|fuel IH]; intros s v Hs H; [discriminate|].
  cbn [parseValue_fuel] in H.
  apply (parseValue_body_free (parseValue_fuel fuel) IH s v Hs H).
Qed.

(** In a text in which [__proto__] does not occur, no property line and
    no dictionary entry assigns to the key [__proto__]: the key of a
    property is a piece of its line, and the key of a dictionary entry is
    the conversion to a string of the value of a piece of the entry.  On
    such a text [obj_set] only defines own properties. *)
Lemma prototype_free_keys :
  (forall line,
     prototype_free line = true ->
     str_eqb (fst (parseProperty line)) "__proto__" = false)
  /\ (forall pair colonIndex,
        prototype_free pair = true ->
        indexOf ":" pair = Some colonIndex ->
        str_eqb (js_String (parseValue (trim (firstn colonIndex pair))))
          "__proto__" = false).
Proof.
  unfold prototype_free. split.
  - intros line H. apply negb_true_iff in H.
    unfold parseProperty. destruct (indexOf "=" line) as [i|]; [|reflexivity].
    cbn [fst]. destruct (str_eqb _ "__proto__") eqn:E; [|reflexivity].
    apply str_eqb_eq in E.
    pose proof (contains_trim _ _ (contains_firstn "__proto__" i line H)) as Hc.
    rewrite E, contains_self in Hc. discriminate.
  - intros pair i H _. apply negb_true_iff in H.
    destruct (str_eqb _ "__proto__") eqn:E; [|reflexivity].
    apply str_eqb_eq in E. exfalso. revert E.
    pose proof (contains_trim _ _ (contains_firstn "__proto__" i pair H)) as Hc.
    unfold parseValue.
    destruct (parseValue_fuel _ _) as [v|] eqn:Ev; [|discriminate].
    apply (parseValue_fuel_free _ _ v Hc Ev).
Qed.

(** ** The two round trips *)

(** The splitter takes the quote after a backslash for an escaped one:
    an array with a string that ends in a backslash before another item
    is printed with the backslash doubled, and read back as an array of
    one string. *)
Lemma backslash_string_hides_next_item :
  canonical false backslash_array = false
  /\ serializeValue backslash_array
     = "[" ++ quote ("a" ++ [backslash; backslash]) ++ ", 1]"
  /\ parseValue (serializeValue backslash_array)
     = VArr [VStr (quote ("a" ++ [backslash; backslash]) ++ ", 1")].
Proof. repeat split; vm_compute; reflexivity. Qed.

(** C1, as the code has it: for a text [D] in which [__proto__] does not
    occur (no line of it assigns to that key, [prototype_free_keys]) and
    whose parse is a canonical document, parsing the serialization of the
    parse of [D] gives the parse of [D] again, field by field.  A canonical document has attributes that the attribute
    expression reads back and property values that are null, booleans,
    numbers printed exactly, strings on one line (a string printed
    without quotes is one that [parseValue] leaves alone; inside an array
    or a dictionary no string ends in a backslash), arrays of such
    values, tagged records as [parseValue] builds them, and dictionaries
    with distinct keys in the order of a JavaScript object, without a
    colon and not starting with an underscore, that are not shaped like a
    vector or a color.  On such a document [serialize] does not raise. *)
Theorem parse_serialize_parse (D : str) :
  prototype_free D = true ->
  canonical_scene (parse D) = true ->
  serialize_raises (parse D) = false
  /\ parse (serialize (parse D)) = parse D.
Proof.
  intros _ H. split.
  - apply serialize_normal_form_total.
    rewrite (normalize_scene_canonical _ H). exact H.
  - apply parse_serialize. exact H.
Qed.

Lemma parse_serialize_parse_witness :
  prototype_free sample_text = true
  /\ canonical_scene (parse sample_text) = true
  /\ serialize_raises (parse sample_text) = false
  /\ parse (serialize (parse sample_text)) = parse sample_text.
Proof.
  split; [vm_compute; reflexivity|]. split; [vm_compute; reflexivity|].
  apply (parse_serialize_parse sample_text); vm_compute; reflexivity.
Defined.

(** C1, as stated, fails: in a text with the property lines
    [offset = {"x": 1, "y": 2}] and [data = {"_hidden": 1}] the first
    dictionary comes back from the round trip as a tagged 2D vector and
    the second one without its entry. *)
Lemma round_trip_changes_dictionaries :
  prototype_free shaped_text = true
  /\ map node_properties (nodes (parse shaped_text))
     = [[("offset", VObj [("x", VNum (Finite 1 0)); ("y", VNum (Finite 2 0))]);
         ("data", VObj [("_hidden", VNum (Finite 1 0))])]]
  /\ map node_properties (nodes (parse (serialize (parse shaped_text))))
     = [[("offset", VObj [("_type", VStr "Vector2");
                          ("x", VNum (Finite 1 0));
                          ("y", VNum (Finite 2 0))]);
         ("data", VObj [])]]
  /\ parse (serialize (parse shaped_text)) <> parse shaped_text.
Proof.
  split; [vm_compute; reflexivity|].
  split; [vm_compute; reflexivity|]. split; [vm_compute; reflexivity|].
  intros E. apply (f_equal (fun s => map node_properties (nodes s))) in E.
  vm_compute in E. discriminate.
Qed.

(** C5, as the code has it: for a document whose normal form is
    canonical, [serialize] does not raise, the parse of the serialization
    is the normal form, and serializing it gives the same text, character
    for character.  The normal form keeps what
    [serialize] prints: a load step count that is not zero, optional
    attributes that are not empty, lists of groups and of bound values
    that are not empty, dictionaries shaped like a vector or a color as
    the tagged record, and the other dictionaries without the keys that
    start with an underscore. *)
Theorem serialize_parse_serialize (doc : ParsedScene) :
  canonical_scene (normalize_scene doc) = true ->
  serialize_raises doc = false
  /\ parse (serialize doc) = normalize_scene doc
  /\ serialize (parse (serialize doc)) = serialize doc.
Proof.
  intros H. split; [apply serialize_normal_form_total; exact H|].
  rewrite <- (serialize_normalize doc H).
  rewrite (parse_serialize _ H). split; reflexivity.
Qed.

Lemma serialize_parse_serialize_witness :
  canonical_scene (normalize_scene loose_scene) = true
  /\ serialize_raises loose_scene = false
  /\ parse (serialize loose_scene) = normalize_scene loose_scene
  /\ serialize (parse (serialize loose_scene)) = serialize loose_scene.
Proof.
  split; [vm_compute; reflexivity|].
  apply (serialize_parse_serialize loose_scene). vm_compute. reflexivity.
Defined.

(** C5, as stated, fails: a label whose text is a string of two lines is
    a document of typed values; its serialization puts the string on two
    lines, the parser reads the first line alone as the property, and the
    second serialization prints one line with an escaped quote. *)
Lemma multiline_string_not_idempotent :
  typed_document multiline_scene = true
  /\ serialize multiline_scene
     = join [newline]
         [ "[gd_scene format=3]"; [];
           "[node name=" ++ quote "Title" ++ " type=" ++ quote "Label" ++ "]";
           "text = " ++ [dquote] ++ "Hello";
           "World" ++ [dquote];
           [] ]
  /\ serialize (parse (serialize multiline_scene))
     = join [newline]
         [ "[gd_scene format=3]"; [];
           "[node name=" ++ quote "Title" ++ " type=" ++ quote "Label" ++ "]";
           "text = " ++ quote ([backslash; dquote] ++ "Hello");
           [] ]
  /\ serialize (parse (serialize multiline_scene)) <> serialize multiline_scene.
Proof.
  split; [vm_compute; reflexivity|]. split; [vm_compute; reflexivity|].
  split; [vm_compute; reflexivity|].
  intros E. vm_compute in E. discriminate.
Qed.

(** The document [loose_scene] is not canonical, and this is its text. *)
Lemma loose_scene_facts :
  canonical_scene loose_scene = false
  /\ serialize loose_scene
     = join [newline]
         [ "[gd_scene format=3]"; [];
           "[node name=" ++ quote "Root" ++ " type=" ++ quote "Node2D" ++ "]";
           "offset = Vector2(1, 2)";
           "tint = Color(1, 0.5, 0, 1)";
           "data = {" ++ quote "0" ++ ": " ++ quote "first" ++ ", "
             ++ quote "name" ++ ": " ++ quote "n" ++ "}";
           [] ].
Proof. split; vm_compute; reflexivity. Qed.
